(* ===== verification/_CoqProject ===== *)
-Q . S2P
Prelude.v
Fnv.v
BlackBox.v
Seal.v
Core.v
LostSignal.v
Redis.v
Scripts.v
World.v
Handlers.v
Lease.v
Fencing.v
Single.v
Scan.v
Simulation.v
Reentrant.v
Rwlock.v
Semaphore.v
Refinement.v
Fair.v
Latch.v
Testament.v
F64.v
Wire.v
Text.v
Lattice.v
Predictor.v
FencePg.v
Redlock.v
Multi.v
Semantic.v
EtcdStore.v
Etcd.v
Registry.v
Auth.v
Sessions.v
WatchHub.v
Service.v
ServiceSafety.v
ServiceState.v
Server.v
Demo.v
DemoSafety.v
DemoHttp.v
Checker.v
Client.v
Connect.v
LockApi.v
WatchStream.v
Poller.v
Remote.v
Surfaces.v
Sim.v
