(* ===== verification/Prelude.v ===== *)
(** * Palisade: a verification library

    Palisade is a distributed lock: a Rust workspace whose servers and
    libraries grant named locks ("leases" with a fencing token) on top of
    Redis, of a quorum of Redis servers, or of etcd.  This development
    models the workspace's crates under [src/crates/] and proves what makes
    them correct.

    ** The program's parts and the files that model them

    - [core] (types, errors, the recorder, the seal, the predictor, the
      Postgres adapter): [Core], [Fnv], [BlackBox], [Seal], [Predictor],
      [FencePg]; its traits [LockManager] and [LockHandle] are classes in
      [LockApi], with the backends as instances, and the trait's [until_lost]
      is [LostSignal].
    - [redis] (the client library over one server or several).  The Lua
      scripts are [Scripts]; the clients' surroundings (servers, clock,
      fresh identifiers, flags shared by the clones of a handle, spawned
      tasks, faults, what others do while the code waits) are [World].  On
      them: [Lease] (the mutex protocol), [Single] (the manager and handle of
      [single.rs] and [config.rs]), [Scan] ([scan_held]), [Reentrant],
      [Rwlock], [Semaphore] (each an instance of the contract in
      [Simulation]), [Fair], [Latch], [Testament], [Semantic], [Multi] and
      [Redlock].
    - [etcd]: [EtcdStore] (the store's interface) and [Etcd] ([lib.rs]).
    - [server]: [Registry], [Auth], [Sessions], [WatchHub], [Lattice] and,
      composed from them, the handlers of [service.rs] in [Service], with
      their theorems in [ServiceSafety] and [ServiceState], the binary around
      them ([main.rs]: arguments, startup, drain) in [Server], and the web
      console of [demo.rs] in [Demo], with its theorems in [DemoSafety] and
      its HTTP surface (bodies, routes, answers) in [DemoHttp].  [Wire] is
      the universe of the declarations [serde] reads.
      Handlers run in the monad of [Handlers].  [Text] and [F64] hold what
      the sources use of the standard library on texts and doubles.
    - [client]: [Client] (the SDK over any server), [Remote], where the
      server is [Service], [WatchStream], a watch from the poller to the
      application, [Poller], the hub's poller task against the store, and
      [Surfaces], the gRPC service and the console over one store.  [Connect]
      has the SDK's channel, and the start of the console.
    - [testing]: [Checker] (histories and their checker) and [Sim] (the
      deterministic simulator).

    Each of these files opens with the source files it models.  Definitions
    keep the names of the functions and methods they translate.

    ** How code becomes definitions

    - A script ([Scripts]) is a function of [KEYS] and [ARGV] to a command
      sequence over any server state; a Lua error stops it and keeps what it
      wrote, as Redis does.
    - The client library ([World.M]) passes a world along and ends in [Done],
      [Panic], [Elapsed] (an enclosing timeout fired) or [OutOfFuel].  Every
      command to a server and every sleep takes the next step of the
      environment: what other clients did to the servers meanwhile, how long
      it took, and whether the message or its reply was lost.  A theorem
      about a call quantifies over these steps, or says which it needs.
    - Futures and tasks: a spawned task is an entry of the world's list, and a
      function runs it.  Where the interleaving itself is the subject (the
      registry's two mutexes, the watch hub, the watcher quota, the loss signal,
      the drain, a watch stream), the component is an inductive step relation, and its theorems are inductions on it; the
      handlers of the service take the changes others make at each access as
      an argument, the schedule.
    - A [u64] is a [Z] with wrap-around or saturation written out where the
      source computes with it; a [Duration] is a number of nanoseconds; [f64]
      is the Standard Library's specification float ([F64]); a [HashMap] is a
      [gmap]; a list whose order counts is a list.
    - Message texts and log lines are kept as format templates or left out;
      the variant of an error and its fields are kept.

    ** What the repository does not define

    Redis ([Redis.Redis], its laws [Redis.RedisLaws]), the enumeration of its
    key space ([Scan.RedisScan]), etcd ([EtcdStore.Etcd], [EtcdStore.EtcdLaws])
    and [uuid] ([Core.UuidSource]) are classes: the operations the code calls,
    and their documented behaviour on what a client can observe.  Each has a
    reference instance on which witnesses are computed.  The server a client
    talks to is a class too ([Client.LockServer]), with [Service.serve] as its
    instance, and so are the channel behind [until_lost] ([LostSignal.Watch])
    and what the binary finds at startup ([Server.Host]: connections, files,
    the JSON parser, TLS, sockets), [serde] and [axum] around the console
    ([Wire.Serde], [DemoHttp.Web]); the logarithm of the platform and the
    printing of floats are plain arguments.  What a Lua interpreter makes of a text generated by
    [semantic.rs] is modelled for the texts whose string literals come back
    as they went in; [Semantic.esc_roundtrip] says which ones those are.

    ** The theorems

    - One lock, one server: [Lease] refines the scripts to the abstract lease
      ([mutex_refines]), from which mutual exclusion and increasing fences
      follow on every trace; [Single] says what each call of the library
      answers and leaves behind on every branch (acquire, extend, release,
      watchdog), and that polling ends.  [Fencing] puts a fenced resource
      behind the grants of a history: which writes it accepts.
    - Every backend: [LockApi] states the contract of the traits as laws, shows
      that each backend keeps them, and what follows for a program that knows
      only the traits (a settled handle is silent, grants are independent, a
      loss is final); [LostSignal], that no wake-up of [until_lost] is lost.
    - The other locks: that their scripts implement their specifications
      ([Refinement]), holds of [Reentrant], readers and writers of
      [Rwlock], capacity of [Semaphore], queue order of [Fair], counts of
      [Latch], predicates of [Semantic], all-or-nothing and freedom from
      deadlock of [Multi], quorum intersection of [Redlock]; exclusion and
      fences of [Etcd] by revisions.
    - The server: who may do what ([Auth], [ServiceSafety]), the ceilings
      ([Registry], [Auth]), sessions and their sweep, what watchers see and
      that pollers are neither lost nor doubled, and when the registry
      mirrors the locks ([ServiceState]); that startup fails closed and that
      draining refuses grants and changes nothing else, on every run of the
      process ([Server]); what the console answers and that
      its handles are kept under the names its callers use ([DemoSafety]),
      that a request is refused without effect or handled in width, and that
      requests and answers survive the wire ([DemoHttp]).
    - End to end: [Remote] carries a grant from the SDK to the key in the
      store and back, [WatchStream] the states of a key to the application
      that watches it.  [Poller] shows that the poller task implements the
      step relation of [WatchHub], that the state it finds in the store
      reaches every watcher, and that watching tells nothing of the holders'
      tokens; [Surfaces], that a grant by the console excludes the service.
    - The tools: the checker accepts exactly the right histories, the
      simulator only produces such histories, the recorder's chain detects
      edits, index and predictor stay in their ranges.

    Some theorems record that the code does less than its documentation
    says: an idle counter restarts, a dropped reader frees other readers'
    lock, a heartbeat is lost in a sweep, the console undoes the nesting of a
    reentrant lock, a failover repeats a fence, and others.  Their statements are
    about the code as it is.

    ** Bounds

    A loop that polls runs on fuel: [World.poll_fuel] and [Single.loop_fuel]
    count the sleeps that fit between now and the deadline, and the
    termination theorems show that this fuel is enough (no call ends in
    [OutOfFuel]).  [Sim.sim_fuel] counts the steps the workers can take and
    is shown enough in [Sim.simulation_accepted].  A watchdog or heartbeat
    loop has no end of its own: its fuel is the number of rounds observed, and
    its theorems hold for every number.  The fuel of [scan_held] covers
    the batches of the scan, finite by the law that its cursor comes back.

    ** Not modelled

    - Of [server/src/main.rs]: logging, the signal handlers, the responder of
      the metrics endpoint; they only do I/O.
    - The page and the files the console serves.
    - [lib.rs] of [core], [redis], [server], [testing] and the [proto] crate:
      re-exports and generated code.
    - Metrics, tracing, [Debug] and plain accessors.
    - Tests, examples, benches, deployment files. *)

From Stdlib Require Export ZArith Lia String Ascii List.
From Stdlib Require Import DecimalString DecimalZ DecimalFacts.
From stdpp Require Export base gmap strings list fin_maps functions pretty.

#[global] Open Scope Z_scope.

(** ** Results

    Rust's [Result<T, E>], also used for the replies of storage commands. *)

Inductive res (E A : Type) : Type :=
| Ok (a : A)
| Err (e : E).
Arguments Ok {E A} a.
Arguments Err {E A} e.

Definition is_ok {E A} (r : res E A) : bool :=
  match r with Ok _ => true | Err _ => false end.

Definition res_map {E A B} (f : A -> B) (r : res E A) : res E B :=
  match r with Ok a => Ok (f a) | Err e => Err e end.

Definition res_map_err {E E' A} (f : E -> E') (r : res E A) : res E' A :=
  match r with Ok a => Ok a | Err e => Err (f e) end.

#[global] Instance res_ret E : MRet (res E) := fun A a => Ok a.
#[global] Instance res_bind E : MBind (res E) := fun A B f r =>
  match r with Ok a => f a | Err e => Err e end.

#[global] Instance res_eq_dec {E A} `{EqDecision E, EqDecision A} : EqDecision (res E A).
Proof. solve_decision. Defined.

(** ** Machine integers

    A Rust [u64] is a [Z] in [0, 2^64); arithmetic on it wraps, as in a
    release build, or saturates where the source says so. *)

Definition u64_mod : Z := 2 ^ 64.
Definition u64_max : Z := u64_mod - 1.
Definition i64_max : Z := 2 ^ 63 - 1.
Definition i64_min : Z := - 2 ^ 63.

Definition in_u64 (z : Z) : Prop := 0 <= z < u64_mod.
Definition in_u8 (z : Z) : Prop := 0 <= z < 256.

Definition wrap64 (z : Z) : Z := z mod u64_mod.
Definition u64_add (a b : Z) : Z := wrap64 (a + b).
Definition u64_mul (a b : Z) : Z := wrap64 (a * b).
Definition u64_saturating_sub (a b : Z) : Z := Z.max 0 (a - b).

#[global] Arguments wrap64 : simpl never.
#[global] Arguments u64_add : simpl never.
#[global] Arguments u64_mul : simpl never.

Lemma wrap64_small z : in_u64 z -> wrap64 z = z.
Proof. intros H. apply Z.mod_small. exact H. Qed.

Lemma wrap64_range z : in_u64 (wrap64 z).
Proof. apply Z.mod_pos_bound. reflexivity. Qed.

Lemma u64_add_small a b : 0 <= a -> 0 <= b -> a + b < u64_mod -> u64_add a b = a + b.
Proof. intros. apply wrap64_small. unfold in_u64. lia. Qed.

Lemma u64_mul_small a b : 0 <= a * b < u64_mod -> u64_mul a b = a * b.
Proof. intros. by apply wrap64_small. Qed.

(** Bitwise operations keep the width. *)
Lemma lxor_range n a b : 0 <= n -> 0 <= a < 2 ^ n -> 0 <= b < 2 ^ n -> 0 <= Z.lxor a b < 2 ^ n.
Proof.
  intros Hn Ha Hb. split; [apply Z.lxor_nonneg; lia|].
  destruct (Z.eq_dec (Z.lxor a b) 0) as [->|Hne]; [lia|].
  apply Z.log2_lt_pow2; [pose proof (proj2 (Z.lxor_nonneg a b)); lia|].
  eapply Z.le_lt_trans; [apply Z.log2_lxor; lia|].
  destruct (Z.eq_dec a 0) as [->|]; destruct (Z.eq_dec b 0) as [->|]; simpl.
  - rewrite Z.lxor_0_l in Hne. congruence.
  - rewrite Z.max_r by apply Z.log2_nonneg. apply Z.log2_lt_pow2; lia.
  - rewrite Z.max_l by apply Z.log2_nonneg. apply Z.log2_lt_pow2; lia.
  - apply Z.max_lub_lt; apply Z.log2_lt_pow2; lia.
Qed.

Lemma lxor_cancel_r a b : Z.lxor (Z.lxor a b) b = a.
Proof. by rewrite Z.lxor_assoc, Z.lxor_nilpotent, Z.lxor_0_r. Qed.

Lemma lxor_inj_l a b c : Z.lxor a c = Z.lxor b c -> a = b.
Proof. intros H. by rewrite <- (lxor_cancel_r a c), H, lxor_cancel_r. Qed.

Lemma lxor_inj_r a b c : Z.lxor c a = Z.lxor c b -> a = b.
Proof. rewrite !(Z.lxor_comm c). apply lxor_inj_l. Qed.

(** ** Decimal text

    Counters and hash fields travel as decimal strings. *)

Definition z_to_string (z : Z) : string := NilZero.string_of_int (Z.to_int z).

(** A string is the decimal text of an integer when printing the integer it
    denotes gives it back (no sign, no padding, nothing trailing). *)
#[global] Arguments z_to_string : simpl never.

Definition string_to_z (s : string) : option Z :=
  match NilZero.int_of_string s with
  | Some d =>
      let z := Z.of_int d in
      if String.eqb (z_to_string z) s then Some z else None
  | None => None
  end.


(** [str::parse::<u64>()]: an optional [+], then digits only, in range. *)
Definition strip_plus (s : string) : string :=
  match s with
  | String "+"%char s' => s'
  | _ => s
  end.

Definition parse_u64 (s : string) : option Z :=
  match NilZero.uint_of_string (strip_plus s) with
  | Some d => let z := Z.of_uint d in if z <? u64_mod then Some z else None
  | None => None
  end.

Lemma to_int_nonnil z : Z.to_int z <> Decimal.Pos Decimal.Nil /\ Z.to_int z <> Decimal.Neg Decimal.Nil.
Proof.
  destruct z; simpl; split; try discriminate; intros [= H];
    by apply DecimalPos.Unsigned.to_uint_nonnil in H.
Qed.

Lemma string_to_z_to_string z : string_to_z (z_to_string z) = Some z.
Proof.
  unfold string_to_z. unfold z_to_string at 1.
  destruct (to_int_nonnil z). rewrite NilZero.isi by done.
  by rewrite of_to, String.eqb_refl.
Qed.

#[global] Instance z_to_string_inj : Inj (=) (=) z_to_string.
Proof.
  intros a b H. apply (f_equal string_to_z) in H.
  rewrite !string_to_z_to_string in H. congruence.
Qed.

(** The only text that denotes [z] is the printed one. *)
Lemma string_to_z_Some s z : string_to_z s = Some z -> s = z_to_string z.
Proof.
  unfold string_to_z. destruct (NilZero.int_of_string s) as [d|]; [|done].
  destruct (String.eqb_spec (z_to_string (Z.of_int d)) s); [|done].
  congruence.
Qed.

Lemma strip_plus_uint d : d <> Decimal.Nil ->
  strip_plus (NilZero.string_of_uint d) = NilZero.string_of_uint d.
Proof. by destruct d. Qed.

Lemma parse_u64_to_string z : in_u64 z -> parse_u64 (z_to_string z) = Some z.
Proof.
  intros Hz. unfold parse_u64, z_to_string.
  assert (exists d, Z.to_int z = Decimal.Pos d /\ d <> Decimal.Nil) as (d & Hd & Hn).
  { destruct (to_int_nonnil z) as [Hp _]. destruct z; unfold in_u64 in Hz; [..|lia];
      simpl in *; eexists; (split; [done|congruence]). }
  rewrite Hd. simpl. rewrite strip_plus_uint, NilZero.usu by done.
  assert (Z.of_uint d = z) as ->.
  { pose proof (of_to z) as E. rewrite Hd in E. done. }
  rewrite (proj2 (Z.ltb_lt _ _)); [done|]. apply Hz.
Qed.

(** ** Bytes of a string *)

(** [str::bytes]: a Rust [String] is the sequence of its UTF-8 bytes. *)
Definition byte_of_ascii (c : ascii) : Z := Z.of_N (N_of_ascii c).
Definition bytes_of (s : string) : list Z := byte_of_ascii <$> list_ascii_of_string s.

Lemma bytes_of_range s : Forall in_u8 (bytes_of s).
Proof.
  unfold bytes_of. apply Forall_fmap, Forall_true. intros c.
  unfold in_u8, byte_of_ascii; simpl. pose proof (N_ascii_bounded c). lia.
Qed.

Lemma bytes_of_app s t : bytes_of (String.append s t) = bytes_of s ++ bytes_of t.
Proof. unfold bytes_of. induction s; simpl; [done|]. by f_equal. Qed.

Lemma string_app_length (s t : string) : String.length (s +:+ t) = (String.length s + String.length t)%nat.
Proof.
  induction s as [|c s IH]; [done|].
  change (S (String.length (s +:+ t)) = S (String.length s + String.length t)). by rewrite IH.
Qed.

Lemma string_app_assoc (s t u : string) :
  String.append (String.append s t) u = String.append s (String.append t u).
Proof.
  induction s as [|c s IH]; [done|].
  change (String c ((s +:+ t) +:+ u) = String c (s +:+ (t +:+ u))). by rewrite IH.
Qed.

(** [Vec::to_be_bytes] and the [shift in [56, 48, .., 0]] loops. *)
Definition be_shifts : list Z := [56; 48; 40; 32; 24; 16; 8; 0].
Definition be_bytes (w : Z) : list Z := (fun sh => (Z.shiftr w sh) mod 256) <$> be_shifts.

#[global] Arguments be_bytes : simpl never.

Lemma be_bytes_range w : Forall in_u8 (be_bytes w).
Proof.
  unfold be_bytes. apply Forall_fmap, Forall_true. intros sh.
  apply Z.mod_pos_bound. lia.
Qed.

(** ** Automation *)

(** Facts that close side conditions about widths and texts. *)
Create HintDb palisade.
#[export] Hint Resolve wrap64_range bytes_of_range be_bytes_range
  string_to_z_to_string parse_u64_to_string : palisade.
Create Rewrite HintDb palisade_rw.
#[export] Hint Rewrite string_to_z_to_string : palisade_rw.

Lemma fst_eq {A B} (p : A * B) a : p.1 = a -> p = (a, p.2).
Proof. intros <-. by destruct p. Qed.

(** Split every boolean comparison of the context and the goal. *)
Ltac zbool :=
  repeat match goal with
  | H : (_ <? _) = true |- _ => apply Z.ltb_lt in H
  | H : (_ <? _) = false |- _ => apply Z.ltb_ge in H
  | H : (_ <=? _) = true |- _ => apply Z.leb_le in H
  | H : (_ <=? _) = false |- _ => apply Z.leb_gt in H
  | H : (_ =? _) = true |- _ => apply Z.eqb_eq in H
  | H : (_ =? _) = false |- _ => apply Z.eqb_neq in H
  | H : (_ && _)%bool = true |- _ => apply andb_true_iff in H; destruct H
  | H : (_ || _)%bool = false |- _ => apply orb_false_iff in H; destruct H
  | H : String.eqb _ _ = true |- _ => apply String.eqb_eq in H
  | H : String.eqb _ _ = false |- _ => apply String.eqb_neq in H
  end.

(** Case on the scrutinee of the first [match] or [if] in the goal. *)
Ltac case_goal := match goal with
  | |- context [match ?x with _ => _ end] => destruct x eqn:?
  end.
