(* ===== verification/Fnv.v ===== *)
(** * The FNV mixing step

    [crates/core/src/blackbox.rs] ([mix]) and [crates/core/src/seal.rs] (the
    loop of [hmac]) both hash with the same step: xor a byte into the
    accumulator, multiply by the FNV prime modulo 2^64.  The lemmas here are
    the ones both components rest on: every step is a bijection of the
    accumulator, and two different bytes always lead to different
    accumulators. *)

From S2P Require Import Prelude.

Definition fnv_prime : Z := 0x100000001b3.
Definition fnv_basis : Z := 0xcbf29ce484222325.

(** [fn mix(mut h: u64, byte: u8) -> u64]. *)
Definition mix (h byte : Z) : Z :=
  let h := Z.lxor h byte in
  u64_mul h fnv_prime.

(** The loop [for b in bytes { h = mix(h, b) }]. *)
Definition mix_all (h : Z) (bytes : list Z) : Z := fold_left mix bytes h.

#[global] Arguments mix : simpl never.
#[global] Arguments mix_all : simpl never.

(** ** The inverse step *)

(** The prime is odd, so it has an inverse modulo 2^64. *)
Definition fnv_prime_inv : Z := 14886173955864302971.

Definition unmix (h byte : Z) : Z := Z.lxor (u64_mul h fnv_prime_inv) byte.

(** Undoing the bytes from the last one back. *)
Definition unmix_all (h : Z) (bytes : list Z) : Z := fold_left unmix (rev bytes) h.

Lemma fnv_prime_inverse : (fnv_prime * fnv_prime_inv) mod u64_mod = 1.
Proof. reflexivity. Qed.

Lemma byte_in_u64 b : in_u8 b -> in_u64 b.
Proof. unfold in_u8, in_u64, u64_mod. lia. Qed.

Lemma lxor_u64 a b : in_u64 a -> in_u64 b -> in_u64 (Z.lxor a b).
Proof. intros. apply lxor_range; done. Qed.

Lemma u64_mul_cancel a p q :
  (p * q) mod u64_mod = 1 -> u64_mul (u64_mul a p) q = wrap64 a.
Proof.
  intros Hpq. unfold u64_mul, wrap64.
  rewrite Z.mul_mod_idemp_l, <- Z.mul_assoc, <- Z.mul_mod_idemp_r, Hpq by done.
  by rewrite Z.mul_1_r.
Qed.

Lemma mix_range h b : in_u64 (mix h b).
Proof. apply wrap64_range. Qed.

Lemma unmix_mix h b : in_u64 h -> in_u8 b -> unmix (mix h b) b = h.
Proof.
  intros Hh Hb. unfold unmix, mix.
  rewrite u64_mul_cancel by apply fnv_prime_inverse.
  rewrite wrap64_small by (apply lxor_u64; auto using byte_in_u64).
  apply lxor_cancel_r.
Qed.

Lemma mix_unmix h b : in_u64 h -> in_u8 b -> mix (unmix h b) b = h.
Proof.
  intros Hh Hb. unfold unmix, mix. rewrite lxor_cancel_r.
  rewrite u64_mul_cancel by (rewrite Z.mul_comm; apply fnv_prime_inverse).
  by apply wrap64_small.
Qed.

Lemma unmix_range h b : in_u64 h -> in_u8 b -> in_u64 (unmix h b).
Proof. intros. apply lxor_u64; [apply wrap64_range | by apply byte_in_u64]. Qed.

Lemma mix_inj_acc h1 h2 b : in_u64 h1 -> in_u64 h2 -> in_u8 b -> mix h1 b = mix h2 b -> h1 = h2.
Proof. intros ??? H. rewrite <- (unmix_mix h1 b), <- (unmix_mix h2 b) by done. by rewrite H. Qed.

Lemma mix_inj_byte h b1 b2 : in_u64 h -> in_u8 b1 -> in_u8 b2 -> mix h b1 = mix h b2 -> b1 = b2.
Proof.
  intros Hh H1 H2 H. unfold mix in H.
  apply (f_equal (fun x => u64_mul x fnv_prime_inv)) in H.
  rewrite !u64_mul_cancel in H by apply fnv_prime_inverse.
  rewrite !wrap64_small in H by (apply lxor_u64; auto using byte_in_u64).
  by apply lxor_inj_r in H.
Qed.

(** ** Sequences of bytes *)

Lemma mix_all_app h xs ys : mix_all h (xs ++ ys) = mix_all (mix_all h xs) ys.
Proof. apply fold_left_app. Qed.

Lemma mix_all_cons h b xs : mix_all h (b :: xs) = mix_all (mix h b) xs.
Proof. done. Qed.

Lemma mix_all_range h xs : in_u64 h -> in_u64 (mix_all h xs).
Proof. revert h. induction xs; intros h H; [done|]. rewrite mix_all_cons. auto using mix_range. Qed.

Lemma unmix_mix_all h xs : in_u64 h -> Forall in_u8 xs -> unmix_all (mix_all h xs) xs = h.
Proof.
  intros Hh Hxs. revert h Hh. induction Hxs as [|b xs Hb Hxs IH]; intros h Hh; [done|].
  rewrite mix_all_cons. unfold unmix_all in *. simpl. rewrite fold_left_app. simpl.
  rewrite IH by apply mix_range. by apply unmix_mix.
Qed.

Lemma mix_all_inj_acc h1 h2 xs :
  in_u64 h1 -> in_u64 h2 -> Forall in_u8 xs -> mix_all h1 xs = mix_all h2 xs -> h1 = h2.
Proof.
  intros H1 H2 Hxs H. rewrite <- (unmix_mix_all h1 xs), <- (unmix_mix_all h2 xs) by done.
  by rewrite H.
Qed.

(** Two byte strings that differ in exactly one byte never collide. *)
Lemma mix_all_one_byte h xs ys b1 b2 :
  in_u64 h -> in_u8 b1 -> in_u8 b2 -> Forall in_u8 ys ->
  mix_all h (xs ++ b1 :: ys) = mix_all h (xs ++ b2 :: ys) -> b1 = b2.
Proof.
  intros Hh H1 H2 Hys. rewrite !mix_all_app, !mix_all_cons. intros H.
  apply mix_all_inj_acc in H; [|apply mix_range..|done].
  eapply mix_inj_byte; [| | |exact H]; auto using mix_all_range.
Qed.

#[export] Hint Resolve mix_range unmix_range mix_all_range byte_in_u64 lxor_u64 : palisade.
