(* ===== verification/BlackBox.v ===== *)
(** * INV-1: the black box recorder ([crates/core/src/blackbox.rs])

    [State] is the record behind the mutex; [record], [dump] and
    [verify_chain] are the three methods, each one critical section.  The
    theorems: a recorder that only ever recorded verifies; it keeps exactly
    the newest [cap] frames; a retroactive edit of one byte of a retained
    frame (other than the anchor) is reported at that frame. *)

From S2P Require Import Prelude Fnv.

Record Frame := mk_frame {
  seq : Z;
  key : string;
  op : string;
  ok : bool;
  fence : Z;
  chain : Z;
}.

(** The bytes [chain_of] feeds to [mix], in order. *)
Definition body_bytes (key op : string) (ok : bool) (fence : Z) : list Z :=
  bytes_of key ++ [0] ++ bytes_of op ++ [0] ++ [Z.b2z ok] ++ be_bytes fence.

(** [fn chain_of(prev, key, op, ok, fence) -> u64]. *)
Definition chain_of (prev : Z) (key op : string) (ok : bool) (fence : Z) : Z :=
  let h := Z.lxor prev fnv_basis in
  let h := mix_all h (bytes_of key) in
  let h := mix h 0 in
  let h := mix_all h (bytes_of op) in
  let h := mix h 0 in
  let h := mix h (Z.b2z ok) in
  mix_all h (be_bytes fence).

#[global] Arguments chain_of : simpl never.
#[global] Arguments body_bytes : simpl never.

Record State := mk_state {
  buf : list Frame;
  cap : nat;
  last_chain : Z;
  next_seq : Z;
}.

Definition with_capacity (cap : nat) : State := mk_state [] cap 0 0.

(** [VecDeque::pop_front] on a possibly empty deque. *)
Definition pop_front (l : list Frame) : list Frame := tail l.

(** [BlackBox::record]. *)
Definition record (k o : string) (okv : bool) (fv : Z) (st : State) : State :=
  let sq := next_seq st in
  let c := chain_of (last_chain st) k o okv fv in
  let b := if Nat.eqb (length (buf st)) (cap st) then pop_front (buf st) else buf st in
  mk_state (b ++ [mk_frame sq k o okv fv c]) (cap st) c (u64_add (next_seq st) 1).

(** [BlackBox::dump]. *)
Definition dump (st : State) : list Frame := buf st.

(** The loop of [verify_chain]: every frame must commit to [prev]. *)
Fixpoint verify_from (prev : Z) (fs : list Frame) {struct fs} : res Z unit :=
  match fs with
  | [] => Ok tt
  | f :: fs' =>
      if chain_of prev (key f) (op f) (ok f) (fence f) =? chain f
      then verify_from (chain f) fs'
      else Err (seq f)
  end.

(** [BlackBox::verify_chain]: the first retained frame is the anchor. *)
Definition verify_chain (st : State) : res Z unit :=
  match buf st with
  | [] => Ok tt
  | first :: rest => verify_from (chain first) rest
  end.

(** A completed operation as the callers report it. *)
Record operation := mk_op { o_key : string; o_op : string; o_ok : bool; o_fence : Z }.

Definition record_op (st : State) (o : operation) : State :=
  record (o_key o) (o_op o) (o_ok o) (o_fence o) st.

Definition record_all (st : State) (ops : list operation) : State := fold_left record_op ops st.

(** ** The hash of a frame *)

Lemma chain_of_bytes prev k o b f :
  chain_of prev k o b f = mix_all (Z.lxor prev fnv_basis) (body_bytes k o b f).
Proof. unfold chain_of, body_bytes. rewrite !mix_all_app. done. Qed.

Lemma body_bytes_range k o b f : Forall in_u8 (body_bytes k o b f).
Proof.
  unfold body_bytes. rewrite !Forall_app, !Forall_singleton.
  split_and!; [apply bytes_of_range|done|apply bytes_of_range|done| |apply be_bytes_range].
  by destruct b.
Qed.

Lemma basis_u64 : in_u64 fnv_basis.
Proof. done. Qed.

Lemma chain_of_range prev k o b f : in_u64 prev -> in_u64 (chain_of prev k o b f).
Proof. intros. rewrite chain_of_bytes. by apply mix_all_range, lxor_u64. Qed.

(** ** The reference: an unbounded tape *)

(** What a recorder with no capacity bound would hold after [ops]. *)
Fixpoint tape_from (prev sq : Z) (ops : list operation) {struct ops} : list Frame :=
  match ops with
  | [] => []
  | o :: ops' =>
      let c := chain_of prev (o_key o) (o_op o) (o_ok o) (o_fence o) in
      mk_frame sq (o_key o) (o_op o) (o_ok o) (o_fence o) c :: tape_from c (u64_add sq 1) ops'
  end.

Definition tape (ops : list operation) : list Frame := tape_from 0 0 ops.

(** The most recent [n] frames. *)
Definition newest (n : nat) (fs : list Frame) : list Frame := drop (length fs - n) fs.

Lemma length_tape_from p q ops : length (tape_from p q ops) = length ops.
Proof. revert p q. induction ops; simpl; auto. Qed.

Lemma tail_drop {A} (l : list A) : tail l = drop 1 l.
Proof. by destruct l. Qed.

Lemma newest_snoc n fs f :
  (0 < n)%nat ->
  newest n (fs ++ [f]) =
  (if Nat.eqb (length (newest n fs)) n then pop_front (newest n fs) else newest n fs) ++ [f].
Proof.
  intros Hn. unfold newest. rewrite length_drop, length_app; simpl.
  destruct (Nat.eqb_spec (length fs - (length fs - n)) n) as [He|He].
  - replace (length fs + 1 - n)%nat with (S (length fs - n)) by lia.
    rewrite drop_app_le by lia. unfold pop_front.
    rewrite tail_drop, drop_drop. by rewrite Nat.add_1_r.
  - replace (length fs + 1 - n)%nat with 0%nat by lia.
    by replace (length fs - n)%nat with 0%nat by lia.
Qed.

Definition chain_end (prev : Z) (ops : list operation) : Z :=
  fold_left (fun c o => chain_of c (o_key o) (o_op o) (o_ok o) (o_fence o)) ops prev.
Definition seq_end (sq : Z) (ops : list operation) : Z :=
  fold_left (fun s _ => u64_add s 1) ops sq.

Lemma tape_from_snoc p q ops o :
  tape_from p q (ops ++ [o]) =
  tape_from p q ops ++
    [mk_frame (seq_end q ops) (o_key o) (o_op o) (o_ok o) (o_fence o)
       (chain_of (chain_end p ops) (o_key o) (o_op o) (o_ok o) (o_fence o))].
Proof. revert p q. induction ops as [|o' ops IH]; intros p q; [done|]. simpl. by rewrite IH. Qed.

Lemma chain_end_snoc p ops o :
  chain_end p (ops ++ [o]) = chain_of (chain_end p ops) (o_key o) (o_op o) (o_ok o) (o_fence o).
Proof. unfold chain_end. rewrite fold_left_app. reflexivity. Qed.

Lemma seq_end_snoc q ops o : seq_end q (ops ++ [o]) = u64_add (seq_end q ops) 1.
Proof. unfold seq_end. rewrite fold_left_app. reflexivity. Qed.

Lemma record_all_snoc st ops o : record_all st (ops ++ [o]) = record_op (record_all st ops) o.
Proof. unfold record_all. rewrite fold_left_app. reflexivity. Qed.

(** The buffer is the newest part of the tape; the chain head and the next
    sequence number are those of the whole tape. *)
Lemma record_all_state n ops :
  (0 < n)%nat ->
  record_all (with_capacity n) ops =
  mk_state (newest n (tape ops)) n (chain_end 0 ops) (seq_end 0 ops).
Proof.
  intros Hn. induction ops as [|o ops IH] using rev_ind; [reflexivity|].
  rewrite record_all_snoc, IH, chain_end_snoc, seq_end_snoc. unfold tape.
  rewrite tape_from_snoc, newest_snoc by done. reflexivity.
Qed.

(** ** Linked tapes *)

Definition verify_tape (fs : list Frame) : res Z unit :=
  match fs with [] => Ok tt | first :: rest => verify_from (chain first) rest end.

Definition end_chain (prev : Z) (fs : list Frame) : Z := from_option chain prev (last fs).

Lemma verify_from_cons p f fs :
  verify_from p (f :: fs) =
  if chain_of p (key f) (op f) (ok f) (fence f) =? chain f then verify_from (chain f) fs else Err (seq f).
Proof. reflexivity. Qed.

Lemma verify_from_app p xs ys :
  verify_from p (xs ++ ys) =
  match verify_from p xs with Ok _ => verify_from (end_chain p xs) ys | Err e => Err e end.
Proof.
  revert p. induction xs as [|x xs IH]; intros p; [reflexivity|].
  cbn [app]. rewrite !verify_from_cons. destruct (_ =? _); [|reflexivity].
  rewrite IH. destruct (verify_from _ xs); [|reflexivity].
  unfold end_chain. rewrite last_cons. by destruct (last xs).
Qed.

Lemma verify_from_tape p q ops : verify_from p (tape_from p q ops) = Ok tt.
Proof.
  revert p q. induction ops as [|o ops IH]; intros; [reflexivity|].
  cbn [tape_from]. rewrite verify_from_cons. cbn [key op ok fence chain].
  rewrite Z.eqb_refl. apply IH.
Qed.

Lemma verify_tape_tail p fs : verify_from p fs = Ok tt -> verify_tape fs = Ok tt.
Proof. destruct fs; [reflexivity|]. rewrite verify_from_cons. by destruct (_ =? _). Qed.

Lemma verify_tape_drop n fs : verify_tape fs = Ok tt -> verify_tape (drop n fs) = Ok tt.
Proof.
  revert fs. induction n as [|n IH]; intros [|f fs] H; try exact H.
  cbn [drop]. apply IH. by eapply verify_tape_tail.
Qed.

Lemma tape_verifies p q ops : verify_tape (tape_from p q ops) = Ok tt.
Proof. eapply verify_tape_tail, verify_from_tape. Qed.

Lemma tape_from_range p q ops :
  in_u64 p -> Forall (fun g => in_u64 (chain g)) (tape_from p q ops).
Proof.
  revert p q. induction ops as [|o ops IH]; intros p q Hp; [constructor|].
  cbn [tape_from]. constructor; [|apply IH]; by apply chain_of_range.
Qed.

Lemma edit_detected st pre f post xs b1 b2 ys f' :
  verify_chain st = Ok tt ->
  buf st = pre ++ f :: post -> pre <> [] ->
  Forall (fun g => in_u64 (chain g)) pre ->
  body_bytes (key f) (op f) (ok f) (fence f) = xs ++ b1 :: ys ->
  body_bytes (key f') (op f') (ok f') (fence f') = xs ++ b2 :: ys ->
  b1 <> b2 -> chain f' = chain f ->
  verify_chain (mk_state (pre ++ f' :: post) (cap st) (last_chain st) (next_seq st)) = Err (seq f').
Proof.
  unfold verify_chain. cbn [buf]. intros Hv Hb Hne Hpre Hf Hf' Hbb Hch. rewrite Hb in Hv.
  destruct pre as [|a pre]; [done|]. cbn [app] in *.
  apply Forall_cons in Hpre as [Ha Hpre].
  rewrite verify_from_app in *. destruct (verify_from (chain a) pre); [|discriminate].
  rewrite verify_from_cons in *.
  set (p := end_chain (chain a) pre) in *.
  assert (Hp : in_u64 p).
  { unfold p, end_chain. destruct (last pre) as [g|] eqn:Hl; [|done]. simpl.
    rewrite Forall_forall in Hpre. apply Hpre. by eapply last_Some_elem_of. }
  assert (Hr := body_bytes_range (key f) (op f) (ok f) (fence f)).
  assert (Hr' := body_bytes_range (key f') (op f') (ok f') (fence f')).
  rewrite Hf, Forall_app, Forall_cons in Hr. rewrite Hf', Forall_app, Forall_cons in Hr'.
  destruct (chain_of p (key f) _ _ _ =? _) eqn:E1; [|discriminate Hv].
  destruct (chain_of p (key f') _ _ _ =? _) eqn:E2; [|reflexivity].
  zbool. exfalso. apply Hbb. rewrite Hch, <- E1, !chain_of_bytes, Hf, Hf' in E2.
  symmetry in E2. eapply mix_all_one_byte; [| | | |exact E2]; try tauto.
  by apply lxor_u64.
Qed.

(** ** Theorems *)

(** The ring buffer refines the unbounded tape: after any sequence of
    recorded operations, [dump] returns exactly the newest [n] frames of the
    tape of all of them, for every capacity [n > 0]. *)
Theorem dump_newest n ops :
  (0 < n)%nat ->
  dump (record_all (with_capacity n) ops) = newest n (tape ops).
Proof. intros. by rewrite record_all_state. Qed.

Lemma dump_newest_witness :
  (0 < 2)%nat /\
  dump (record_all (with_capacity 2)
    [mk_op "k" "grant" true 1; mk_op "k" "extend" true 1; mk_op "k" "release" true 1]) =
  newest 2 (tape [mk_op "k" "grant" true 1; mk_op "k" "extend" true 1; mk_op "k" "release" true 1]).
Proof. split; [lia | apply dump_newest; lia]. Defined.

Lemma record_all_buf n ops :
  buf (record_all (with_capacity n) ops) = if Nat.eqb n 0 then tape ops else newest n (tape ops).
Proof.
  destruct n as [|n]; [|by rewrite record_all_state by lia].
  assert (H : record_all (with_capacity 0) ops =
              mk_state (tape ops) 0 (chain_end 0 ops) (seq_end 0 ops)); [|by rewrite H].
  induction ops as [|o ops IH] using rev_ind; [reflexivity|].
  rewrite record_all_snoc, chain_end_snoc, seq_end_snoc, IH.
  unfold record_op, record, tape. cbn [buf cap last_chain next_seq].
  rewrite tape_from_snoc. f_equal. f_equal.
  destruct (Nat.eqb_spec (length (tape_from 0 0 ops)) 0) as [E|]; [|reflexivity].
  by destruct (tape_from 0 0 ops).
Qed.

(** Eviction keeps verification sound: a recorder of any capacity,
    zero included, that only ever recorded passes [verify_chain]. *)
Theorem recorded_chain_verifies n ops :
  verify_chain (record_all (with_capacity n) ops) = Ok tt.
Proof.
  change (verify_tape (buf (record_all (with_capacity n) ops)) = Ok tt).
  rewrite record_all_buf. destruct (Nat.eqb n 0); [|apply verify_tape_drop]; apply tape_verifies.
Qed.

(** Tamper evidence: edit one byte of the body of a frame the recorder
    retains (its key, operation, outcome or fence), other than the anchor's,
    leaving the stored chain value alone.  [verify_chain] then fails, and
    reports that very frame. *)
Theorem one_byte_edit_detected n ops pre f post xs b1 b2 ys f' :
  let st := record_all (with_capacity n) ops in
  dump st = pre ++ f :: post -> pre <> [] ->
  body_bytes (key f) (op f) (ok f) (fence f) = xs ++ b1 :: ys ->
  body_bytes (key f') (op f') (ok f') (fence f') = xs ++ b2 :: ys ->
  b1 <> b2 -> chain f' = chain f ->
  verify_chain (mk_state (pre ++ f' :: post) (cap st) (last_chain st) (next_seq st)) = Err (seq f').
Proof.
  cbv zeta. intros Hb Hne Hf Hf' Hbb Hch.
  eapply edit_detected; try eassumption; [apply recorded_chain_verifies|].
  assert (Forall (fun g => in_u64 (chain g)) (pre ++ f :: post)) as [? _]%Forall_app; [|done].
  rewrite <- Hb. unfold dump. rewrite record_all_buf.
  destruct (Nat.eqb n 0); [|apply Forall_drop]; by apply tape_from_range.
Qed.

(** Turning the recorded loss into a success is caught at sequence number 1. *)
Definition demo_ops : list operation :=
  [mk_op "k" "grant" true 1; mk_op "k" "lost" false 1; mk_op "k" "grant" true 2].
Definition demo_tape : list Frame :=
  [mk_frame 0 "k" "grant" true 1 15742623435266689580;
   mk_frame 1 "k" "lost" false 1 17293689918552449363;
   mk_frame 2 "k" "grant" true 2 17884400832219578844].
Definition forged : Frame := mk_frame 1 "k" "lost" true 1 17293689918552449363.

Lemma one_byte_edit_detected_witness :
  let st := record_all (with_capacity 4) demo_ops in
  dump st = demo_tape /\
  verify_chain (mk_state (<[1%nat := forged]> demo_tape) (cap st) (last_chain st) (next_seq st)) = Err 1.
Proof.
  split; [vm_compute; reflexivity|].
  refine (one_byte_edit_detected 4 demo_ops (take 1 demo_tape)
    (mk_frame 1 "k" "lost" false 1 17293689918552449363) (drop 2 demo_tape)
    [107; 0; 108; 111; 115; 116; 0] 0 1 [0; 0; 0; 0; 0; 0; 0; 1] forged _ _ _ _ _ _);
    vm_compute; congruence.
Defined.

(** A recorder of capacity 0 never evicts: it retains every frame. *)
Lemma zero_capacity_unbounded ops :
  length (dump (record_all (with_capacity 0) ops)) = length ops.
Proof. unfold dump. rewrite record_all_buf. apply length_tape_from. Qed.
