(* ===== verification/Seal.v ===== *)
(** * INV-8: FenceSeal ([crates/core/src/seal.rs])

    [seal] and [verify] as the code computes them.  The clock read of
    [verify] ([SystemTime::now]) is the argument [now_ms].  Besides the
    functional contract the theorems record what the construction does not
    give: the tag is an invertible hash, so a tag for one fence yields the
    tag of every other fence without the secret. *)

From S2P Require Import Prelude Fnv.

(** [fn hmac(key, key_id, fence, ts)]: the block, then the FNV loop over it. *)
Definition hmac_block (key key_id : list Z) (fence ts : Z) : list Z :=
  key ++ key_id ++ be_bytes fence ++ be_bytes ts.

Definition hmac (key key_id : list Z) (fence ts : Z) : list Z :=
  let block := hmac_block key key_id fence ts in
  let h := mix_all fnv_basis block in
  be_bytes h.

(** [fn constant_time_eq(a, b)]: a length check, then the xor-or loop over
    the zipped bytes. *)
Definition constant_time_eq (a b : list Z) : bool :=
  if negb (Nat.eqb (length a) (length b)) then false
  else
    let diff := fold_left (fun diff xy => Z.lor diff (Z.lxor (fst xy) (snd xy))) (zip a b) 0 in
    diff =? 0.

(** [pub fn seal]. *)
Definition seal (secret : list Z) (key : string) (fence : Z) : list Z :=
  hmac secret (bytes_of key) fence 0.

(** [pub fn verify]. *)
Definition verify (secret : list Z) (key : string) (fence : Z) (seal_bytes : list Z)
    (issued_at_ms max_age_ms now_ms : Z) : bool :=
  if (0 <? max_age_ms) && (max_age_ms <? u64_saturating_sub now_ms issued_at_ms) then false
  else
    let expected := hmac secret (bytes_of key) fence issued_at_ms in
    constant_time_eq expected seal_bytes.

#[global] Arguments hmac : simpl never.

(** ** The comparison *)

Lemma diff_loop_zero l d :
  0 <= d -> Forall (fun xy => 0 <= Z.lxor xy.1 xy.2) l ->
  fold_left (fun diff xy => Z.lor diff (Z.lxor xy.1 xy.2)) l d = 0 <->
  d = 0 /\ Forall (fun xy => xy.1 = xy.2) l.
Proof.
  intros Hd Hl. revert d Hd. induction Hl as [|[x y] l Hxy Hl IH]; intros d Hd; simpl.
  - split; [intros ->; split; [done|constructor] | by intros [-> _]].
  - simpl in Hxy. rewrite IH by (apply Z.lor_nonneg; done).
    rewrite Z.lor_eq_0_iff, Z.lxor_eq_0_iff, Forall_cons. simpl. tauto.
Qed.

Lemma zip_all_eq (a b : list Z) :
  length a = length b -> Forall (fun xy => xy.1 = xy.2) (zip a b) <-> a = b.
Proof.
  revert b. induction a as [|x a IH]; intros [|y b] H; simpl in *; try done.
  rewrite Forall_cons; simpl. rewrite IH by lia. split; [intros [-> ->]|intros [= -> ->]]; done.
Qed.

Lemma constant_time_eq_spec a b :
  Forall in_u8 a -> Forall in_u8 b -> constant_time_eq a b = true <-> a = b.
Proof.
  intros Ha Hb. unfold constant_time_eq.
  destruct (Nat.eqb_spec (length a) (length b)) as [Hl|Hl]; simpl.
  2: { split; [done|]. by intros ->. }
  rewrite Z.eqb_eq, diff_loop_zero; [|lia|].
  - rewrite zip_all_eq by done. tauto.
  - clear Hl; revert b Hb. induction Ha as [|x a Hx Ha IH]; intros [|y b] Hb; simpl; try constructor.
    + apply Forall_cons in Hb as [Hy _]. simpl. apply Z.lxor_nonneg. unfold in_u8 in *. lia.
    + apply IH. by apply Forall_cons in Hb as [_ Hb].
Qed.

Lemma hmac_range k i f t : Forall in_u8 (hmac k i f t).
Proof. apply be_bytes_range. Qed.

Lemma verify_spec secret key fence tag issued max_age now :
  Forall in_u8 tag -> 0 <= max_age ->
  verify secret key fence tag issued max_age now = true <->
  (max_age = 0 \/ u64_saturating_sub now issued <= max_age) /\
  tag = hmac secret (bytes_of key) fence issued.
Proof.
  intros Htag Hage. unfold verify. destruct ((0 <? max_age) && _)%bool eqn:E.
  - zbool. split; [done|]. intros [[?|?] _]; lia.
  - rewrite constant_time_eq_spec by (done || apply hmac_range).
    apply andb_false_iff in E. split; [|intuition congruence].
    intros <-. split; [|done]. destruct E; zbool; lia.
Qed.

Lemma fresh_tag_verifies secret key fence now :
  verify secret key fence (hmac secret (bytes_of key) fence 0) 0 0 now = true.
Proof. apply verify_spec; [apply hmac_range|lia|]. split; [by left|reflexivity]. Qed.

(** ** Theorems *)

(** The functional contract of [verify]: it accepts exactly the tag
    recomputed for the claimed issue time, and, when an age bound is given,
    only while the claimed age does not exceed it. *)
Theorem verify_contract secret key fence tag issued max_age now :
  Forall in_u8 tag -> 0 <= max_age ->
  verify secret key fence tag issued max_age now = true <->
  (max_age = 0 \/ u64_saturating_sub now issued <= max_age) /\
  tag = hmac secret (bytes_of key) fence issued.
Proof. apply verify_spec. Qed.

Definition demo_secret : list Z := [1; 2; 3].
Definition demo_tag : list Z := seal demo_secret "orders/42" 7.

Lemma demo_tag_range : Forall in_u8 demo_tag.
Proof. apply (hmac_range demo_secret (bytes_of "orders/42") 7 0). Qed.

Lemma verify_contract_witness :
  Forall in_u8 demo_tag /\ 0 <= 500 /\
  (verify demo_secret "orders/42" 7 demo_tag 0 500 1000 = true <->
   (500 = 0 \/ u64_saturating_sub 1000 0 <= 500) /\
   demo_tag = hmac demo_secret (bytes_of "orders/42") 7 0).
Proof.
  split; [exact demo_tag_range|]. split; [lia|].
  apply (verify_contract demo_secret "orders/42" 7 demo_tag 0 500 1000); [exact demo_tag_range | lia].
Defined.

(** Round trip: a sealed grant verifies under the same secret, key and
    fence when no age bound is asked for, at any time. *)
Theorem seal_roundtrip secret key fence now :
  verify secret key fence (seal secret key fence) 0 0 now = true.
Proof.
  apply fresh_tag_verifies.
Qed.

(** A tag issued by [seal] never passes an age check: [seal] hashes the
    time 0, so the only issue time it verifies under is 0, and then its age
    is the whole Unix time. *)
Theorem sealed_tags_fail_age_check secret key fence max_age now :
  0 < max_age < now ->
  verify secret key fence (seal secret key fence) 0 max_age now = false.
Proof.
  intros H. unfold verify, u64_saturating_sub.
  rewrite (proj2 (Z.ltb_lt 0 _)), (proj2 (Z.ltb_lt _ _)) by lia. done.
Qed.

Lemma sealed_tags_fail_age_check_witness :
  0 < 60000 < 1724246400000 /\
  verify [7] "k" 1 (seal [7] "k" 1) 0 60000 1724246400000 = false.
Proof. split; [lia | apply sealed_tags_fail_age_check; lia]. Defined.

(** ** Forgery *)

(** [u64::from_be_bytes]. *)
Definition of_be (bs : list Z) : Z := fold_left (fun acc b => acc * 256 + b) bs 0.

Lemma byte_step w n : 0 <= n -> Z.shiftr w n = Z.shiftr w (n + 8) * 256 + Z.shiftr w n mod 256.
Proof.
  intros Hn. rewrite <- Z.shiftr_shiftr, (Z.shiftr_div_pow2 _ 8) by lia.
  change (2 ^ 8) with 256. pose proof (Z.div_mod (Z.shiftr w n) 256). lia.
Qed.

(** Fold one byte of the big-endian sum back into its prefix. *)
Ltac join w n m :=
  let H := fresh in pose proof (byte_step w m ltac:(lia)) as H;
  change (m + 8) with n in H; rewrite <- H; clear H.

Lemma of_be_bytes w : in_u64 w -> of_be (be_bytes w) = w.
Proof.
  intros Hw. unfold of_be, be_bytes, be_shifts. cbn [fmap list_fmap fold_left].
  assert (Z.shiftr w 64 = 0) as H0.
  { rewrite Z.shiftr_div_pow2 by lia. by apply Z.div_small. }
  replace (0 * 256) with (Z.shiftr w 64 * 256) by (rewrite H0; lia).
  join w 64 56. join w 56 48. join w 48 40. join w 40 32.
  join w 32 24. join w 24 16. join w 16 8. join w 8 0.
  apply Z.shiftr_0_r.
Qed.

(** Peel the fence and time bytes off a tag, mix in another fence. *)
Definition forge (tag : list Z) (fence fence' : Z) : list Z :=
  let h := unmix_all (of_be tag) (be_bytes fence ++ be_bytes 0) in
  be_bytes (mix_all h (be_bytes fence' ++ be_bytes 0)).

(** The seal proves nothing about the issuer: from one genuine tag,
    [forge] computes, without the secret, the genuine tag of any other fence
    of that key. *)
Theorem seal_forgeable secret key fence fence' now :
  forge (seal secret key fence) fence fence' = seal secret key fence' /\
  verify secret key fence' (forge (seal secret key fence) fence fence') 0 0 now = true.
Proof.
  assert (forge (seal secret key fence) fence fence' = seal secret key fence') as ->.
  { unfold forge, seal, hmac, hmac_block.
    set (tail := fun f => be_bytes f ++ be_bytes 0).
    rewrite !app_assoc. rewrite <- (app_assoc _ (be_bytes fence)), <- (app_assoc _ (be_bytes fence')).
    rewrite !mix_all_app. rewrite of_be_bytes; [|by repeat apply mix_all_range].
    rewrite <- (mix_all_app _ (be_bytes fence) (be_bytes 0)).
    rewrite unmix_mix_all; [reflexivity| |].
    - by repeat apply mix_all_range.
    - apply Forall_app; split; apply be_bytes_range. }
  split; [reflexivity|]. apply fresh_tag_verifies.
Qed.

(** The block does not separate the secret from the key: a byte moved from
    one to the other leaves the tag unchanged. *)
Lemma seal_no_domain_separation secret a key fence :
  seal (secret ++ bytes_of a) key fence = seal secret (a +:+ key) fence.
Proof. unfold seal, hmac, hmac_block. by rewrite bytes_of_app, <- !app_assoc. Qed.
