(* ===== verification/Core.v ===== *)
(** * palisade-core: the backend-neutral types

    [crates/core/src/{lock,fencing,owner,error,safety}.rs].  A [Duration] is
    a number of nanoseconds; error values carry the fields of the source's
    variants, with message texts as the source's format templates (the
    interpolated arguments are not rendered). *)

From S2P Require Import Prelude.

(** ** Durations *)

(** [std::time::Duration]: nanoseconds, at most [duration_max]. *)
Abbreviation duration := Z (only parsing).

Definition from_millis (ms : Z) : duration := ms * 1000000.
Definition from_secs (s : Z) : duration := s * 1000000000.
Definition duration_max : duration := u64_max * 1000000000 + 999999999.

(** [Duration::as_millis] is a [u128]; the code casts it with [as u64]. *)
Definition as_millis (d : duration) : Z := d / 1000000.
Definition as_millis_u64 (d : duration) : Z := wrap64 (as_millis d).

#[global] Arguments from_millis : simpl never.
#[global] Arguments from_secs : simpl never.
#[global] Arguments as_millis_u64 : simpl never.

Lemma as_millis_from_millis ms : as_millis (from_millis ms) = ms.
Proof. unfold as_millis, from_millis. by rewrite Z.div_mul. Qed.

Lemma as_millis_u64_from_millis ms : in_u64 ms -> as_millis_u64 (from_millis ms) = ms.
Proof. intros. unfold as_millis_u64. rewrite as_millis_from_millis. by apply wrap64_small. Qed.

(** The largest duration whose milliseconds still fit the cast. *)
Lemma as_millis_u64_exact d : 0 <= d < u64_mod * 1000000 -> as_millis_u64 d = d / 1000000.
Proof.
  intros. unfold as_millis_u64, as_millis. apply wrap64_small. unfold in_u64.
  split; [apply Z.div_pos; lia | apply Z.div_lt_upper_bound; lia].
Qed.

(** ** Fencing tokens ([fencing.rs]) *)

Record FencingToken := mk_fence { value : Z }.
#[global] Instance fence_eq_dec : EqDecision FencingToken.
Proof. solve_decision. Defined.

Definition fence_zero : FencingToken := mk_fence 0.
Definition fence_new (v : Z) : FencingToken := mk_fence v.

(** [FencingToken::supersedes]. *)
Definition supersedes (self last_seen : FencingToken) : bool := value last_seen <? value self.

(** [impl Display]. *)
Definition fence_display (f : FencingToken) : string := "fence#" +:+ z_to_string (value f).

(** ** Owners ([owner.rs]) *)

(** [uuid::Uuid::now_v7] is a library call: a source of identifiers that
    never repeats one, with the text the code uses as the lock payload. *)
Class UuidSource := {
  uuid : Type;
  uuid_eq_dec :: EqDecision uuid;
  now_v7 : N -> uuid;
  uuid_to_string : uuid -> string;
}.
Class UuidLaws (U : UuidSource) := {
  now_v7_fresh :: Inj (=) (=) now_v7;
  uuid_to_string_inj :: Inj (=) (=) uuid_to_string;
}.

(** A concrete source, for examples: the n-th identifier is [n]. *)
#[global] Instance counting_uuids : UuidSource :=
  {| uuid := N; now_v7 := id; uuid_to_string := fun n => "uuid-" +:+ pretty n |}.
#[global] Instance counting_uuids_laws : UuidLaws counting_uuids.
Proof.
  constructor; [apply _|]. intros x y H. simpl in H. by apply (inj (String.append "uuid-")), (inj pretty) in H.
Qed.

Section owner.
Context {U : UuidSource}.
Record OwnerId := mk_owner { owner_uuid : uuid }.
Definition owner_generate (n : N) : OwnerId := mk_owner (now_v7 n).
Definition from_uuid (u : uuid) : OwnerId := mk_owner u.
Definition as_uuid (o : OwnerId) : uuid := owner_uuid o.
Definition owner_token (o : OwnerId) : string := uuid_to_string (as_uuid o).
End owner.

Lemma owner_token_inj {U : UuidSource} `{!UuidLaws U} m n :
  owner_token (owner_generate m) = owner_token (owner_generate n) -> m = n.
Proof. unfold owner_token, owner_generate. simpl. intros H. by do 2 apply (inj _) in H. Qed.

(** ** Errors ([error.rs]) *)

Inductive error :=
| Timeout (key : string)
| Held (key : string)
| Lost (key : string) (fence : Z)
| InvalidConfig (msg : string)
| Backend (msg : string).

#[global] Instance error_eq_dec : EqDecision error.
Proof. solve_decision. Defined.

Definition is_held (e : error) : bool := match e with Held _ => true | _ => false end.

(** ** Safety policies ([safety.rs]) *)

Inductive SafetyPolicy := Cowardly | Balanced | Aggressive.
#[global] Instance policy_eq_dec : EqDecision SafetyPolicy.
Proof. solve_decision. Defined.

Definition default_policy : SafetyPolicy := Balanced.
Definition u32_max : Z := 2 ^ 32 - 1.

Definition max_transient_failures (p : SafetyPolicy) : Z :=
  match p with Cowardly => 0 | Balanced => 2 | Aggressive => u32_max end.

(** ** Options ([lock.rs]) *)

Definition MIN_TTL : duration := from_millis 10.

Record LockOptions := mk_options {
  ttl : duration;
  watchdog : option bool;
  safety_policy : SafetyPolicy;
}.

Definition default_options : LockOptions := mk_options (from_secs 30) None default_policy.
Definition with_ttl (t : duration) (o : LockOptions) : LockOptions :=
  mk_options t (watchdog o) (safety_policy o).
Definition with_safety_policy (p : SafetyPolicy) (o : LockOptions) : LockOptions :=
  mk_options (ttl o) (watchdog o) p.
Definition with_watchdog (w : bool) (o : LockOptions) : LockOptions :=
  mk_options (ttl o) (Some w) (safety_policy o).

(** [LockOptions::validate]. *)
Definition validate (o : LockOptions) : res error unit :=
  if ttl o <? MIN_TTL then Err (InvalidConfig "ttl {:?} is below the {:?} floor") else Ok tt.

Lemma validate_ok o : validate o = Ok tt <-> MIN_TTL <= ttl o.
Proof. unfold validate. destruct (_ <? _) eqn:E; zbool; split; (done || lia). Qed.

(** [supersedes] is a strict total order: what a resource that only accepts
    superseding tokens relies on. *)

Lemma supersedes_irrefl f : supersedes f f = false.
Proof. apply Z.ltb_irrefl. Qed.

Lemma supersedes_trans a b c : supersedes a b = true -> supersedes b c = true -> supersedes a c = true.
Proof. unfold supersedes. intros. zbool. apply Z.ltb_lt. lia. Qed.

Lemma supersedes_total a b : a <> b -> supersedes a b = true \/ supersedes b a = true.
Proof.
  unfold supersedes. destruct a as [x], b as [y]; simpl. intros H.
  rewrite !Z.ltb_lt. destruct (Z.lt_total x y) as [|[->|]]; auto. done.
Qed.
