(* ===== verification/LostSignal.v ===== *)
(** * The loss signal ([until_lost])

    [LockHandle::until_lost] against the tasks that may mark the handle lost
    (its watchdog, [extend], etcd's [release]): every interleaving of the two
    writes of [mark_lost] with the awaits of the waiter.  The four handles
    ([single.rs], [redlock.rs], [etcd/src/lib.rs], [client/src/lib.rs]) have
    the same code.  [tokio::sync::watch] is a class; its laws are what its
    documentation promises. *)

From S2P Require Import Prelude Core.

(** ** The channel *)

(** [watch::Sender<bool>] and its [Receiver]s.  [wt_changed] is one poll of
    the future [changed()]: pending, woken, or closed. *)
Class Watch (W Rx : Type) := {
  wt_channel : bool -> W;
  wt_value : W -> bool;
  wt_send_replace : bool -> W -> W;
  wt_subscribe : W -> Rx;
  wt_borrow_and_update : W -> Rx -> bool * Rx;
  wt_changed : W -> Rx -> option (res unit Rx);
}.

(** The documented behaviour, while the sender lives: [wt_seen] says that the
    newest value is marked seen.  [subscribe] marks it; [borrow_and_update]
    reads the newest value and marks it; a value sent is unseen by every
    receiver; [changed] is ready when the newest value is unseen, and marks
    it; it fails only once the sender is gone. *)
Class WatchLaws (W Rx : Type) `{Watch W Rx} := {
  wt_of : W -> Rx -> Prop;
  wt_seen : W -> Rx -> bool;
  wt_channel_value b : wt_value (wt_channel b) = b;
  wt_send_value b w : wt_value (wt_send_replace b w) = b;
  wt_subscribed w : wt_of w (wt_subscribe w);
  wt_send_of b w rx : wt_of w rx -> wt_of (wt_send_replace b w) rx;
  wt_send_unseen b w rx : wt_of w rx -> wt_seen (wt_send_replace b w) rx = false;
  wt_borrow w rx : wt_of w rx -> (wt_borrow_and_update w rx).1 = wt_value w /\
    wt_of w (wt_borrow_and_update w rx).2 /\ wt_seen w (wt_borrow_and_update w rx).2 = true;
  wt_changed_pending w rx : wt_of w rx -> wt_seen w rx = true -> wt_changed w rx = None;
  wt_changed_ready w rx : wt_of w rx -> wt_seen w rx = false ->
    exists rx', wt_changed w rx = Some (Ok rx') /\ wt_of w rx' /\ wt_seen w rx' = true;
}.

(** An implementation: the value with a version; a receiver is the version it
    has seen. *)
#[export] Instance version_watch : Watch (bool * nat) nat := {
  wt_channel b := (b, O);
  wt_value w := w.1;
  wt_send_replace b w := (b, S w.2);
  wt_subscribe w := w.2;
  wt_borrow_and_update w _ := (w.1, w.2);
  wt_changed w rx := if (rx =? w.2)%nat then None else Some (Ok w.2);
}.
#[export] Instance version_watch_laws : WatchLaws (bool * nat) nat.
Proof.
  refine {| wt_of w rx := (rx <= w.2)%nat; wt_seen w rx := (rx =? w.2)%nat |}; cbn; try done.
  - intros. lia.
  - intros b w rx Hr. apply Nat.eqb_neq. lia.
  - intros w rx _. by rewrite Nat.eqb_refl.
  - by intros w rx _ ->.
  - intros w rx _ ->. exists w.2. by rewrite Nat.eqb_refl.
Defined.

(** ** The waiter and the markers *)

(** Where the future of [until_lost] is: not polled yet, at the test of the
    loop, suspended in [changed()], or resolved -- by the test, or by the
    [is_err] branch. *)
Inductive waiter (Rx : Type) := Created | Testing (rx : Rx) | Suspended (rx : Rx) | Resolved (closed : bool).
Arguments Created {Rx}. Arguments Testing {Rx}. Arguments Suspended {Rx}. Arguments Resolved {Rx}.

Section signal.
Context {W Rx : Type} `{Watch W Rx}.

(** The handle's [poisoned] and [lost], how many calls of [mark_lost] are
    between their two writes, and the waiter. *)
Record signal := mk_signal {
  sg_poisoned : bool;
  sg_lost : W;
  sg_marking : nat;
  sg_waiter : waiter Rx;
}.
Definition signal_new : signal := mk_signal false (wt_channel false) 0 Created.

(** [self.poisoned.store(true)], then [self.lost.send_replace(true)]. *)
Definition mark_store (s : signal) : signal := mk_signal true (sg_lost s) (S (sg_marking s)) (sg_waiter s).
Definition mark_send (s : signal) : option signal :=
  match sg_marking s with
  | O => None
  | S n => Some (mk_signal (sg_poisoned s) (wt_send_replace true (sg_lost s)) n (sg_waiter s))
  end.

(** The next step of [until_lost]; [None] while it is suspended (or done). *)
Definition until_lost_step (s : signal) : option signal :=
  let at_ k := Some (mk_signal (sg_poisoned s) (sg_lost s) (sg_marking s) k) in
  match sg_waiter s with
  | Created => at_ (Testing (wt_subscribe (sg_lost s)))
  | Testing rx =>
      let '(lost, rx) := wt_borrow_and_update (sg_lost s) rx in
      if lost : bool then at_ (Resolved false) else at_ (Suspended rx)
  | Suspended rx =>
      match wt_changed (sg_lost s) rx with
      | None => None
      | Some (Ok rx) => at_ (Testing rx)
      | Some (Err _) => at_ (Resolved true)
      end
  | Resolved _ => None
  end.

(** Who moves; a move that is not possible is a no-op. *)
Inductive move := MStore | MSend | MWait.
#[global] Instance move_eq_dec : EqDecision move.
Proof. solve_decision. Defined.
Definition play (m : move) (s : signal) : signal :=
  match m with
  | MStore => mark_store s
  | MSend => default s (mark_send s)
  | MWait => default s (until_lost_step s)
  end.
Definition plays (ms : list move) (s : signal) : signal := foldl (fun s m => play m s) s ms.
Definition waits (ms : list move) : nat := length (filter (eq MWait) ms).

Context {L : WatchLaws W Rx}.

(** A sent signal was stored before; a waiter that is suspended on a value it
    has seen saw [false]. *)
Record signal_ok (s : signal) : Prop := mk_signal_ok {
  so_stored : wt_value (sg_lost s) = true -> sg_poisoned s = true;
  so_marking : (0 < sg_marking s)%nat -> sg_poisoned s = true;
  so_waiter : match sg_waiter s with
    | Created => True
    | Testing rx => wt_of (sg_lost s) rx
    | Suspended rx => wt_of (sg_lost s) rx /\ (wt_seen (sg_lost s) rx = true -> wt_value (sg_lost s) = false)
    | Resolved closed => closed = false /\ wt_value (sg_lost s) = true
    end;
}.

Lemma signal_new_ok : signal_ok signal_new.
Proof. split; cbn; [by rewrite wt_channel_value|lia|done]. Qed.

Lemma play_ok m s : signal_ok s -> signal_ok (play m s).
Proof.
  intros [Hs Hm Hw]. destruct m; cbn [play].
  - by split.
  - unfold mark_send. destruct (sg_marking s) as [|n] eqn:En; [split; cbn; rewrite ?En; done|]. split; cbn.
    + intros _. apply Hm. lia.
    + intros _. apply Hm. lia.
    + destruct (sg_waiter s) as [|rx|rx|c]; [done|by apply wt_send_of| |].
      * destruct Hw as [Ho _]. split; [by apply wt_send_of|]. by rewrite wt_send_unseen.
      * split; [apply Hw|apply wt_send_value].
  - unfold until_lost_step. destruct (sg_waiter s) as [|rx|rx|c] eqn:Ew.
    + split; cbn; [done..|apply wt_subscribed].
    + destruct (wt_borrow (sg_lost s) rx Hw) as (Ev & Ho & Hseen). destruct (wt_borrow_and_update _ _) as [b rx'].
      cbn in *. subst b. destruct (wt_value (sg_lost s)) eqn:E; split; cbn; rewrite ?E; auto.
    + destruct Hw as [Ho Hv]. destruct (wt_seen (sg_lost s) rx) eqn:E.
      * rewrite wt_changed_pending by done. split; cbn; [done..|]. by rewrite Ew, E.
      * destruct (wt_changed_ready _ _ Ho E) as (rx' & -> & Ho' & _). by split.
    + split; cbn; [done..|]. by rewrite Ew.
Qed.
Lemma plays_ok ms s : signal_ok s -> signal_ok (plays ms s).
Proof. revert s. induction ms as [|m ms IH]; intros s Hs; [done|]. apply IH. by apply play_ok. Qed.

(** Steps the waiter still needs once the signal is sent. *)
Definition steps_left (s : signal) : nat :=
  match sg_waiter s with Created | Suspended _ => 2 | Testing _ => 1 | Resolved _ => 0 end.

Lemma play_sent m s : wt_value (sg_lost s) = true -> wt_value (sg_lost (play m s)) = true.
Proof.
  intros Hv. destruct m; cbn [play]; [done| |].
  - unfold mark_send. destruct (sg_marking s); [done|]. apply wt_send_value.
  - unfold until_lost_step. destruct (sg_waiter s) as [|rx|rx|c]; [done| | |done].
    + by destruct (wt_borrow_and_update _ _) as [[] rx'].
    + by destruct (wt_changed _ _) as [[rx'|]|].
Qed.

(** Only the waiter moves its own measure, and each of its steps lowers it. *)
Lemma play_progress m s : signal_ok s -> wt_value (sg_lost s) = true ->
  (steps_left (play m s) <= steps_left s - (if decide (m = MWait) then 1 else 0))%nat.
Proof.
  intros [_ _ Hw] Hv. unfold steps_left. destruct m; cbn [play]; (case_decide as Ed; [|]); try done; cbn.
  - destruct (sg_waiter s); lia.
  - unfold mark_send. destruct (sg_marking s); cbn; destruct (sg_waiter s); lia.
  - unfold until_lost_step. destruct (sg_waiter s) as [|rx|rx|c] eqn:Ew; cbn; [lia| | |rewrite Ew; lia].
    + destruct (wt_borrow _ _ Hw) as (Ev & _). destruct (wt_borrow_and_update _ _) as [b rx']. cbn in Ev.
      subst b. rewrite Hv. cbn. lia.
    + destruct Hw as [Ho Hseen]. destruct (wt_seen (sg_lost s) rx) eqn:E; [by rewrite Hseen in Hv|].
      destruct (wt_changed_ready _ _ Ho E) as (rx' & -> & _). cbn. lia.
Qed.
Lemma plays_progress ms : forall s, signal_ok s -> wt_value (sg_lost s) = true ->
  (steps_left (plays ms s) <= steps_left s - waits ms)%nat.
Proof.
  induction ms as [|m ms IH]; intros s Hs Hv; [cbn; lia|]. cbn [plays foldl].
  pose proof (play_progress m s Hs Hv) as Hp. specialize (IH (play m s) (play_ok _ _ Hs) (play_sent _ _ Hv)).
  unfold plays, waits in *. rewrite filter_cons. repeat case_decide; cbn [length]; subst; try done; lia.
Qed.

Lemma plays_app ms1 ms2 s : plays (ms1 ++ ms2) s = plays ms2 (plays ms1 s).
Proof. apply foldl_app. Qed.
Lemma plays_sent ms : forall s, wt_value (sg_lost s) = true -> wt_value (sg_lost (plays ms s)) = true.
Proof. induction ms as [|m ms IH]; intros s Hv; [done|]. apply IH. by apply play_sent. Qed.

(** A signal under way: between the writes of some [mark_lost], or sent. *)
Definition under_way (s : signal) : Prop := (0 < sg_marking s)%nat \/ wt_value (sg_lost s) = true.
Lemma play_under_way m s : under_way s -> under_way (play m s).
Proof.
  intros [Hm|Hv]; [|right; by apply play_sent]. destruct m; cbn [play].
  - left. cbn. lia.
  - unfold mark_send. destruct (sg_marking s); [lia|]. right. apply wt_send_value.
  - left. unfold until_lost_step. destruct (sg_waiter s) as [|rx|rx|c]; [done| | |done].
    + by destruct (wt_borrow_and_update _ _) as [[] rx'].
    + by destruct (wt_changed _ _) as [[rx'|]|].
Qed.
Lemma plays_under_way ms : forall s, under_way s -> under_way (plays ms s).
Proof. induction ms as [|m ms IH]; intros s Hv; [done|]. apply IH. by apply play_under_way. Qed.
Lemma send_sent s : under_way s -> wt_value (sg_lost (play MSend s)) = true.
Proof.
  intros Hu. cbn [play]. unfold mark_send. destruct (sg_marking s) eqn:E; [|apply wt_send_value].
  destruct Hu; [lia|done].
Qed.

(** Nothing else sends. *)
Lemma play_unsent m s : m <> MSend -> wt_value (sg_lost (play m s)) = wt_value (sg_lost s).
Proof.
  intros Hne. destruct m; cbn [play]; [done..|]. unfold until_lost_step. destruct (sg_waiter s) as [|rx|rx|c]; [done| | |done].
  - by destruct (wt_borrow_and_update _ _) as [[] rx'].
  - by destruct (wt_changed _ _) as [[rx'|]|].
Qed.
Lemma plays_unsent ms : forall s, MSend ∉ ms -> wt_value (sg_lost (plays ms s)) = wt_value (sg_lost s).
Proof.
  induction ms as [|m ms IH]; intros s Hn; [done|]. apply not_elem_of_cons in Hn as [H1 H2]. cbn [plays foldl].
  etrans; [by apply IH|]. by apply play_unsent.
Qed.
End signal.

(** ** Properties *)

Section properties.
Context {W Rx : Type} `{WatchLaws W Rx}.

(** [until_lost] never cries wolf: however the waiter and any number of
    calls of [mark_lost] interleave, a resolved [until_lost] resolved because
    a call of [mark_lost] sent the signal -- not through its [is_err] branch
    -- and [is_lost] already answers [true].  A handle that nobody marks, a
    released one too, never resolves. *)
Theorem until_lost_sound ms closed : sg_waiter (plays ms signal_new) = Resolved closed ->
  closed = false /\ sg_poisoned (plays ms signal_new) = true /\ MSend ∈ ms.
Proof.
  intros E. destruct (plays_ok ms _ signal_new_ok) as [Hs _ Hw]. rewrite E in Hw. destruct Hw as [-> Hv].
  split; [done|]. split; [by apply Hs|]. destruct (decide (MSend ∈ ms)) as [|Hn]; [done|].
  pose proof (plays_unsent ms signal_new Hn) as Eu. cbn in Eu. rewrite wt_channel_value in Eu. congruence.
Qed.

(** C22: No wake-up is lost: once some call of [mark_lost] is through -- both
    its writes are done, whatever ran in between, and whether the waiter
    subscribed before, between or after them -- [until_lost] resolves within
    two polls, however they interleave with further calls. *)
Theorem until_lost_wakes ms1 ms2 ms3 : (2 <= waits ms3)%nat ->
  sg_waiter (plays (ms1 ++ MStore :: ms2 ++ MSend :: ms3) signal_new) = Resolved false.
Proof.
  intros Hw. rewrite plays_app. change (MStore :: ?l) with ([MStore] ++ l). rewrite plays_app, plays_app.
  change (MSend :: ms3) with ([MSend] ++ ms3). rewrite plays_app.
  set (s1 := plays ms2 _). set (s2 := plays [MSend] s1).
  assert (Ok1 : signal_ok s1) by (repeat apply plays_ok; apply signal_new_ok).
  assert (Hu : under_way s1) by (apply plays_under_way; left; cbn; lia).
  assert (Hv : wt_value (sg_lost s2) = true) by (by apply send_sent).
  pose proof (plays_ok [MSend] _ Ok1) as Ok2. pose proof (plays_progress ms3 s2 Ok2 Hv) as Hp.
  destruct (plays_ok ms3 _ Ok2) as [_ _ Hw3]. fold s2 in Hw3. unfold steps_left in Hp.
  destruct (sg_waiter s2), (sg_waiter (plays ms3 s2)) as [| | |c]; try lia; by destruct Hw3 as [-> _].
Qed.
End properties.

(** ** Witnesses *)

(** The waiter subscribes and suspends between the two writes. *)
Definition demo_race : list move := [MStore; MWait; MWait; MWait; MSend; MStore; MWait; MWait].

Lemma until_lost_sound_witness : sg_poisoned (plays (W:=bool * nat) (Rx:=nat) demo_race signal_new) = true.
Proof. apply (until_lost_sound (W:=bool * nat) (Rx:=nat) demo_race false). vm_compute. reflexivity. Defined.

Lemma until_lost_wakes_witness : sg_waiter (plays (W:=bool * nat) (Rx:=nat) demo_race signal_new) = Resolved false.
Proof. apply (until_lost_wakes (W:=bool * nat) (Rx:=nat) [] [MWait; MWait; MWait] [MStore; MWait; MWait]). vm_compute. lia. Defined.

