(* ===== verification/Redis.v ===== *)
(** * The interface to Redis

    Redis is not part of the repository: the development is parameterised by
    it.  [Redis R] lists the commands the Lua scripts and the Rust code call;
    [r_db] is what a client can observe of a server state (the clock, and the
    keys that currently exist with their values and deadlines).
    [RedisLaws] states the documented behaviour of each command as an
    equation on that observation.  Everything proved about scripts and
    managers holds for every [R] with these laws; [db] itself, with the
    documented effect taken as the implementation, is the concrete instance
    the examples run on. *)

From S2P Require Import Prelude.

(** ** What a client can observe *)

(** The data types of Redis values.  A list's head is its left end; a sorted
    set maps members to scores (millisecond instants here, exact in a
    double). *)
Inductive rvalue :=
| VStr (s : string)
| VHash (h : gmap string string)
| VZset (z : gmap string Z)
| VList (l : list string).

Record rentry := mk_entry { e_val : rvalue; e_deadline : option Z }.

Record db := mk_db { db_now : Z; db_live : gmap string rentry }.

(** Error replies, and the Lua runtime errors scripts can raise. *)
Inductive rerr :=
| WrongType          (* WRONGTYPE Operation against a key holding the wrong kind of value *)
| NotInteger         (* ERR value is not an integer or out of range *)
| InvalidExpire      (* ERR invalid expire time *)
| Overflow           (* ERR increment or decrement would overflow *)
| LuaError           (* a Lua runtime error: a nil argument or operand *)
| Io.                (* the connection failed *)

#[global] Instance rerr_eq_dec : EqDecision rerr.
Proof. solve_decision. Defined.

Abbreviation cmd R A := (R -> res rerr A * R).

(** ** Documented effects *)

Definition set_live (d : db) (m : gmap string rentry) : db := mk_db (db_now d) m.
Definition put (k : string) (v : rvalue) (dl : option Z) (d : db) : db :=
  set_live d (<[k := mk_entry v dl]> (db_live d)).
Definition drop_key (k : string) (d : db) : db := set_live d (delete k (db_live d)).
Definition deadline_of (d : db) (k : string) : option Z := db_live d !! k ≫= e_deadline.

(** Overwrite the value, keep the time to live. *)
Definition update (k : string) (v : rvalue) (d : db) : db := put k v (deadline_of d k) d.

(** A deadline [ttl] ms from now must be positive and fit 64 bits. *)
Definition expire_ok (d : db) (ttl : Z) : bool := (0 <? ttl) && (db_now d + ttl <=? i64_max).

Definition doc_read {A} (dflt : A) (proj : rvalue -> option A) (k : string) (d : db) : res rerr A :=
  match db_live d !! k with
  | None => Ok dflt
  | Some e => match proj (e_val e) with Some a => Ok a | None => Err WrongType end
  end.

Definition as_str v := match v with VStr s => Some s | _ => None end.
Definition as_hash v := match v with VHash h => Some h | _ => None end.
Definition as_zset v := match v with VZset z => Some z | _ => None end.
Definition as_list v := match v with VList l => Some l | _ => None end.

Definition doc_get (k : string) (d : db) : res rerr (option string) * db :=
  (doc_read None (fun v => Some <$> as_str v) k d, d).

(** [SET k v \[NX\] PX ttl]: [false] is the nil reply of a failed [NX]. *)
Definition doc_set (k v : string) (nx : bool) (px : option Z) (d : db) : res rerr bool * db :=
  match px with
  | Some ttl =>
      if expire_ok d ttl then
        if nx && bool_decide (is_Some (db_live d !! k)) then (Ok false, d)
        else (Ok true, put k (VStr v) (Some (db_now d + ttl)) d)
      else (Err InvalidExpire, d)
  | None =>
      if nx && bool_decide (is_Some (db_live d !! k)) then (Ok false, d)
      else (Ok true, put k (VStr v) None d)
  end.

Definition doc_exists (k : string) (d : db) : res rerr Z * db :=
  (Ok (if db_live d !! k is Some _ then 1 else 0), d).

Definition doc_del (k : string) (d : db) : res rerr Z * db :=
  (Ok (if db_live d !! k is Some _ then 1 else 0), drop_key k d).

(** [INCR]/[DECR]: a missing key counts as "0"; the result is stored as text. *)
Definition doc_incrby (k : string) (by_ : Z) (d : db) : res rerr Z * db :=
  match doc_read "0"%string as_str k d with
  | Err e => (Err e, d)
  | Ok s =>
      match string_to_z s with
      | None => (Err NotInteger, d)
      | Some z =>
          let z' := z + by_ in
          if (i64_min <=? z') && (z' <=? i64_max)
          then (Ok z', update k (VStr (z_to_string z')) d)
          else (Err Overflow, d)
      end
  end.

(** [PEXPIRE]: 0 when the key is missing; a non-positive time deletes it. *)
Definition doc_pexpire (k : string) (ttl : Z) (d : db) : res rerr Z * db :=
  match db_live d !! k with
  | None => (Ok 0, d)
  | Some e =>
      if ttl <=? 0 then (Ok 1, drop_key k d)
      else if db_now d + ttl <=? i64_max then (Ok 1, put k (e_val e) (Some (db_now d + ttl)) d)
      else (Err InvalidExpire, d)
  end.

(** [PTTL]: -2 for no key, -1 for no deadline. *)
Definition doc_pttl (k : string) (d : db) : res rerr Z * db :=
  (Ok match db_live d !! k with
      | None => -2
      | Some e => match e_deadline e with None => -1 | Some t => Z.max 0 (t - db_now d) end
      end, d).

(** *** Hashes *)

Definition doc_hget (k f : string) (d : db) : res rerr (option string) * db :=
  (doc_read None (fun v => (fun h => h !! f) <$> as_hash v) k d, d).

Definition doc_hgetall (k : string) (d : db) : res rerr (gmap string string) * db := (doc_read ∅ as_hash k d, d).

Definition doc_hexists (k f : string) (d : db) : res rerr Z * db :=
  (doc_read 0 (fun v => (fun h : gmap string string => if h !! f is Some _ then 1 else 0) <$> as_hash v) k d, d).

Definition doc_hset (k : string) (kvs : list (string * string)) (d : db) : res rerr Z * db :=
  match doc_read ∅ as_hash k d with
  | Err e => (Err e, d)
  | Ok h =>
      let h' := fold_left (fun h kv => <[kv.1 := kv.2]> h) kvs h in
      (Ok (Z.of_nat (size h') - Z.of_nat (size h)), update k (VHash h') d)
  end.

(** An aggregate that becomes empty is removed. *)
Definition doc_hdel (k f : string) (d : db) : res rerr Z * db :=
  match doc_read ∅ as_hash k d with
  | Err e => (Err e, d)
  | Ok h =>
      match h !! f with
      | None => (Ok 0, d)
      | Some _ =>
          let h' := delete f h in
          (Ok 1, if decide (h' = ∅) then drop_key k d else update k (VHash h') d)
      end
  end.

Definition doc_hincrby (k f : string) (by_ : Z) (d : db) : res rerr Z * db :=
  match doc_read ∅ as_hash k d with
  | Err e => (Err e, d)
  | Ok h =>
      match string_to_z (default "0"%string (h !! f)) with
      | None => (Err NotInteger, d)
      | Some z =>
          let z' := z + by_ in
          if (i64_min <=? z') && (z' <=? i64_max)
          then (Ok z', update k (VHash (<[f := z_to_string z']> h)) d)
          else (Err Overflow, d)
      end
  end.

(** *** Sorted sets *)

Definition doc_zadd (k : string) (score : Z) (m : string) (d : db) : res rerr Z * db :=
  match doc_read ∅ as_zset k d with
  | Err e => (Err e, d)
  | Ok z => (Ok (if z !! m is Some _ then 0 else 1), update k (VZset (<[m := score]> z)) d)
  end.

Definition doc_zcard (k : string) (d : db) : res rerr Z * db :=
  (doc_read 0 (fun v => (fun z : gmap string Z => Z.of_nat (size z)) <$> as_zset v) k d, d).

Definition doc_zscore (k m : string) (d : db) : res rerr (option Z) * db :=
  (doc_read None (fun v => (fun z => z !! m) <$> as_zset v) k d, d).

Definition doc_zrem (k m : string) (d : db) : res rerr Z * db :=
  match doc_read ∅ as_zset k d with
  | Err e => (Err e, d)
  | Ok z =>
      match z !! m with
      | None => (Ok 0, d)
      | Some _ =>
          let z' := delete m z in
          (Ok 1, if decide (z' = ∅) then drop_key k d else update k (VZset z') d)
      end
  end.

(** [ZREMRANGEBYSCORE k -inf hi]. *)
Definition doc_zremrange (k : string) (hi : Z) (d : db) : res rerr Z * db :=
  match db_live d !! k with
  | None => (Ok 0, d)
  | Some e =>
      match as_zset (e_val e) with
      | None => (Err WrongType, d)
      | Some z =>
          let z' := filter (fun ms => hi < ms.2) z in
          (Ok (Z.of_nat (size z - size z')),
           if decide (z' = ∅) then drop_key k d else put k (VZset z') (e_deadline e) d)
      end
  end.

(** *** Lists *)

Definition put_list (k : string) (l : list string) (d : db) : db :=
  match l with [] => drop_key k d | _ => update k (VList l) d end.

Definition doc_llen (k : string) (d : db) : res rerr Z * db :=
  (doc_read 0 (fun v => (fun l => Z.of_nat (length l)) <$> as_list v) k d, d).

(** [LRANGE k -1 -1], first element. *)
Definition doc_lrange_last (k : string) (d : db) : res rerr (option string) * db :=
  (doc_read None (fun v => (fun l => last l) <$> as_list v) k d, d).

Definition doc_rpop (k : string) (d : db) : res rerr (option string) * db :=
  match doc_read [] as_list k d with
  | Err e => (Err e, d)
  | Ok l =>
      match last l with
      | None => (Ok None, d)
      | Some x => (Ok (Some x), put_list k (removelast l) d)
      end
  end.

Definition doc_lpush (k x : string) (d : db) : res rerr Z * db :=
  match doc_read [] as_list k d with
  | Err e => (Err e, d)
  | Ok l => (Ok (Z.of_nat (S (length l))), update k (VList (x :: l)) d)
  end.

(** [LREM k 1 x]: remove the first occurrence from the left. *)
Fixpoint remove_first (x : string) (l : list string) : list string :=
  match l with
  | [] => []
  | y :: l' => if decide (y = x) then l' else y :: remove_first x l'
  end.

Definition doc_lrem (k x : string) (d : db) : res rerr Z * db :=
  match doc_read [] as_list k d with
  | Err e => (Err e, d)
  | Ok l => if decide (x ∈ l) then (Ok 1, put_list k (remove_first x l) d) else (Ok 0, d)
  end.

Definition doc_lpos (k x : string) (d : db) : res rerr (option Z) * db :=
  (doc_read None (fun v => (fun l => Z.of_nat ∘ fst <$> list_find (x =.) l) <$> as_list v) k d, d).

(** The passing of time: deadlines strictly in the past remove their key,
    deadlines strictly in the future do not; nothing else changes. *)
Record elapsed (dt : Z) (d d' : db) : Prop := mk_elapsed {
  elapsed_now : db_now d' = db_now d + dt;
  elapsed_sub : forall k e, db_live d' !! k = Some e ->
    db_live d !! k = Some e /\ (forall t, e_deadline e = Some t -> db_now d' <= t);
  elapsed_keep : forall k e, db_live d !! k = Some e ->
    (forall t, e_deadline e = Some t -> db_now d' < t) -> db_live d' !! k = Some e;
}.

(** ** The interface *)

Class Redis (R : Type) := {
  r_db : R -> db;
  r_set : string -> string -> bool -> option Z -> cmd R bool;
  r_get : string -> cmd R (option string);
  r_exists : string -> cmd R Z;
  r_del : string -> cmd R Z;
  r_incr : string -> cmd R Z;
  r_decr : string -> cmd R Z;
  r_pexpire : string -> Z -> cmd R Z;
  r_pttl : string -> cmd R Z;
  r_hget : string -> string -> cmd R (option string);
  r_hexists : string -> string -> cmd R Z;
  r_hset : string -> list (string * string) -> cmd R Z;
  r_hdel : string -> string -> cmd R Z;
  r_hincrby : string -> string -> Z -> cmd R Z;
  r_zadd : string -> Z -> string -> cmd R Z;
  r_zcard : string -> cmd R Z;
  r_zscore : string -> string -> cmd R (option Z);
  r_zrem : string -> string -> cmd R Z;
  r_zremrange : string -> Z -> cmd R Z;
  r_llen : string -> cmd R Z;
  r_lrange_last : string -> cmd R (option string);
  r_rpop : string -> cmd R (option string);
  r_lpush : string -> string -> cmd R Z;
  r_lrem : string -> string -> cmd R Z;
  r_lpos : string -> string -> cmd R (option Z);
  r_time : cmd R (Z * Z);
  r_elapse : Z -> R -> R;
}.

(** A command of [R] has the documented effect [doc] when the reply and the
    observable state after it are those of [doc]. *)
Definition meets {R A} `{Redis R} (m : cmd R A) (doc : cmd db A) : Prop :=
  forall s, ((m s).1, r_db (m s).2) = doc (r_db s).

Class RedisLaws (R : Type) `{Redis R} := {
  set_law k v nx px : meets (r_set k v nx px) (doc_set k v nx px);
  get_law k : meets (r_get k) (doc_get k);
  exists_law k : meets (r_exists k) (doc_exists k);
  del_law k : meets (r_del k) (doc_del k);
  incr_law k : meets (r_incr k) (doc_incrby k 1);
  decr_law k : meets (r_decr k) (doc_incrby k (-1));
  pexpire_law k t : meets (r_pexpire k t) (doc_pexpire k t);
  pttl_law k : meets (r_pttl k) (doc_pttl k);
  hget_law k f : meets (r_hget k f) (doc_hget k f);
  hexists_law k f : meets (r_hexists k f) (doc_hexists k f);
  hset_law k l : meets (r_hset k l) (doc_hset k l);
  hdel_law k f : meets (r_hdel k f) (doc_hdel k f);
  hincrby_law k f n : meets (r_hincrby k f n) (doc_hincrby k f n);
  zadd_law k n m : meets (r_zadd k n m) (doc_zadd k n m);
  zcard_law k : meets (r_zcard k) (doc_zcard k);
  zscore_law k m : meets (r_zscore k m) (doc_zscore k m);
  zrem_law k m : meets (r_zrem k m) (doc_zrem k m);
  zremrange_law k n : meets (r_zremrange k n) (doc_zremrange k n);
  llen_law k : meets (r_llen k) (doc_llen k);
  lrange_last_law k : meets (r_lrange_last k) (doc_lrange_last k);
  rpop_law k : meets (r_rpop k) (doc_rpop k);
  lpush_law k x : meets (r_lpush k x) (doc_lpush k x);
  lrem_law k x : meets (r_lrem k x) (doc_lrem k x);
  lpos_law k x : meets (r_lpos k x) (doc_lpos k x);
  (** [TIME] replies seconds and microseconds of the server clock. *)
  time_law s : exists sec us, r_time s = (Ok (sec, us), (r_time s).2) /\
    r_db (r_time s).2 = r_db s /\ sec * 1000 + us / 1000 = db_now (r_db s);
  elapse_law dt s : 0 <= dt -> elapsed dt (r_db s) (r_db (r_elapse dt s));
}.

(** ** The reference server

    The documented effects, taken as an implementation. *)

Definition alive (now : Z) (e : rentry) : bool :=
  match e_deadline e with None => true | Some t => now <? t end.

Definition db_elapse (dt : Z) (d : db) : db :=
  let now := db_now d + dt in
  mk_db now (filter (fun ke => alive now ke.2 = true) (db_live d)).

#[global] Instance db_redis : Redis db := {|
  r_db := id;
  r_set := doc_set; r_get := doc_get; r_exists := doc_exists; r_del := doc_del;
  r_incr := fun k => doc_incrby k 1; r_decr := fun k => doc_incrby k (-1);
  r_pexpire := doc_pexpire; r_pttl := doc_pttl;
  r_hget := doc_hget; r_hexists := doc_hexists; r_hset := doc_hset; r_hdel := doc_hdel;
  r_hincrby := doc_hincrby;
  r_zadd := doc_zadd; r_zcard := doc_zcard; r_zscore := doc_zscore; r_zrem := doc_zrem;
  r_zremrange := doc_zremrange;
  r_llen := doc_llen; r_lrange_last := doc_lrange_last; r_rpop := doc_rpop;
  r_lpush := doc_lpush; r_lrem := doc_lrem; r_lpos := doc_lpos;
  r_time := fun d => (Ok (db_now d / 1000, db_now d mod 1000 * 1000), d);
  r_elapse := db_elapse;
|}.

Lemma db_elapse_elapsed dt d : 0 <= dt -> elapsed dt d (db_elapse dt d).
Proof.
  intros Hdt. split; simpl; [done|..].
  - intros k e [H1 H2]%map_lookup_filter_Some. split; [done|]. intros t Ht.
    unfold alive in H2. simpl in H2. rewrite Ht in H2. zbool. lia.
  - intros k e H1 H2. apply map_lookup_filter_Some. split; [done|]. simpl. unfold alive.
    destruct (e_deadline e); [by apply Z.ltb_lt, H2|done].
Qed.

#[global] Instance db_redis_laws : RedisLaws db.
Proof.
  constructor; try (intros; intros s; symmetry; apply surjective_pairing).
  - intros s. do 2 eexists. simpl. split_and!; [done..|].
    rewrite Z.div_mul by lia. pose proof (Z.div_mod (db_now s) 1000). lia.
  - intros dt s. apply db_elapse_elapsed.
Qed.

(** ** Scripts

    A Lua script runs atomically: its commands in sequence, each seeing the
    effects of the previous ones.  An error reply raises a Lua error, which
    ends the script and rolls nothing back. *)

Section script.
Context {R : Type}.

Definition cret {A} (a : A) : cmd R A := fun s => (Ok a, s).
Definition craise {A} (e : rerr) : cmd R A := fun s => (Err e, s).
Definition cbind {A B} (m : cmd R A) (f : A -> cmd R B) : cmd R B := fun s =>
  match m s with
  | (Ok a, s') => f a s'
  | (Err e, s') => (Err e, s')
  end.

Lemma cbind_ok {A B} (m : cmd R A) (f : A -> cmd R B) s a s' :
  m s = (Ok a, s') -> cbind m f s = f a s'.
Proof. intros E. unfold cbind. by rewrite E. Qed.

Lemma cbind_err {A B} (m : cmd R A) (f : A -> cmd R B) s e s' :
  m s = (Err e, s') -> cbind m f s = (Err e, s').
Proof. intros E. unfold cbind. by rewrite E. Qed.
End script.

Declare Scope script_scope.
Delimit Scope script_scope with script.
Notation "'let!' x := m 'in' k" := (cbind m (fun x => k))
  (at level 10, x name, m at level 100, k at level 200) : script_scope.
Notation "'let!' ' p := m 'in' k" := (cbind m (fun x => match x with p => k end))
  (at level 10, p pattern, m at level 100, k at level 200) : script_scope.
Notation "'do!' m 'in' k" := (cbind m (fun _ => k))
  (at level 10, m at level 100, k at level 200) : script_scope.

(** The clock in ms, as the scripts compute it from [TIME]. *)
Definition now_ms {R} `{Redis R} : cmd R Z :=
  (let! '(sec, us) := r_time in cret (sec * 1000 + us / 1000))%script.

(** ** Scripts only depend on what is observable

    A script run against any server with the documented behaviour gives the
    reply of the same script on the reference server, and leaves an
    observably equal state.  One lemma per way of building a script. *)

Section meets.
Context {R : Type} `{RedisLaws R}.

Lemma meets_ret {A} (a : A) : meets (cret a) (cret a).
Proof. intros s. reflexivity. Qed.

Lemma meets_raise {A} e : meets (craise (A:=A) e) (craise e).
Proof. intros s. reflexivity. Qed.

Lemma meets_bind {A B} (m : cmd R A) m' (f : A -> cmd R B) f' :
  meets m m' -> (forall a, meets (f a) (f' a)) -> meets (cbind m f) (cbind m' f').
Proof.
  intros Hm Hf s. unfold cbind. specialize (Hm s). destruct (m s) as [[a|e] s1]; simpl in Hm.
  - rewrite <- Hm. apply Hf.
  - by rewrite <- Hm.
Qed.

Lemma meets_now : meets now_ms now_ms.
Proof.
  intros s. unfold now_ms, cbind. destruct (time_law s) as (sec & us & E & Hdb & Hnow).
  destruct (r_time s) as [r s1]. simpl in E, Hdb. injection E as ->. simpl.
  rewrite Hdb, Hnow. unfold cret. f_equal. f_equal. rewrite Z.div_mul by lia.
  pose proof (Z.div_mod (db_now (r_db s)) 1000). lia.
Qed.
End meets.

Create HintDb meets discriminated.
#[export] Hint Resolve meets_ret meets_raise meets_now
  set_law get_law exists_law del_law incr_law decr_law pexpire_law pttl_law hget_law hexists_law
  hset_law hdel_law hincrby_law zadd_law zcard_law zscore_law zrem_law zremrange_law llen_law
  lrange_last_law rpop_law lpush_law lrem_law lpos_law : meets.

(** Prove that a script meets itself on the reference server. *)
Ltac solve_meets :=
  repeat first
    [ solve [eauto with meets]
    | apply meets_bind; [|intro]
    | match goal with
      | |- meets (match ?x with _ => _ end) _ => destruct x
      | |- meets (if ?x then _ else _) _ => destruct x
      end ].
