(* ===== verification/Scripts.v ===== *)
(** * The Lua scripts

    [crates/redis/src/scripts/*.lua] and the scripts embedded in [latch.rs]
    and [testament.rs].  A script is a function of its [KEYS] and [ARGV] (lists
    of texts, as the [redis] crate sends them) to a command sequence over any
    server; an index past the end of [KEYS] or [ARGV] is Lua's [nil], and a
    command given [nil] raises a Lua error. *)

From S2P Require Import Prelude Redis.

(** A script replies an integer or a pair of integers. *)
Inductive reply := RInt (z : Z) | RPair (a b : Z).

#[global] Instance reply_eq_dec : EqDecision reply.
Proof. solve_decision. Defined.

Inductive script_name :=
| ACQUIRE | RELEASE | EXTEND
| REENTRANT_ACQUIRE | REENTRANT_RELEASE | REENTRANT_RELEASE_ALL | REENTRANT_EXTEND
| RW_READ_ACQUIRE | RW_READ_RELEASE | RW_WRITE_ACQUIRE | RW_WRITE_RELEASE | RW_EXTEND
| SEMAPHORE_ACQUIRE | SEMAPHORE_RELEASE | SEMAPHORE_EXTEND
| FAIR_ACQUIRE | FAIR_RELEASE
| LATCH_INIT | LATCH_COUNT_DOWN | LATCH_GET
| WILL_SET | WILL_DEL.

#[global] Instance script_name_eq_dec : EqDecision script_name.
Proof. solve_decision. Defined.

Section scripts.
Context {R : Type} `{Redis R}.
Open Scope script_scope.

(** *** Arguments

    [at_ l i] is [KEYS\[i\]]/[ARGV\[i\]] used as a command argument or an
    operand of [..]: an error when it is [nil].  [int_at] is an argument the
    server reads as a 64-bit integer, [num_at] is [tonumber(ARGV\[i\])] (the
    texts sent are those of integers; the sums formed are exact below 2^53). *)

Definition at_ (l : list string) (i : nat) : cmd R string :=
  match l !! (i - 1)%nat with Some s => cret s | None => craise LuaError end.

Definition int_at (l : list string) (i : nat) : cmd R Z :=
  let! s := at_ l i in
  match string_to_z s with
  | Some z => if (i64_min <=? z) && (z <=? i64_max) then cret z else craise NotInteger
  | None => craise NotInteger
  end.

Definition num_at (l : list string) (i : nat) : cmd R Z :=
  let! s := at_ l i in
  match string_to_z s with Some z => cret z | None => craise LuaError end.

(** A reply compared with [ARGV\[i\]]: a nil reply is Lua's [false], which
    differs from every text and from [nil]. *)
Definition is_arg (r : option string) (l : list string) (i : nat) : bool :=
  match r, l !! (i - 1)%nat with
  | Some s, Some t => String.eqb s t
  | _, _ => false
  end.

Definition is_text (r : option string) (t : string) : bool :=
  match r with Some s => String.eqb s t | None => false end.

(** *** The mutex *)

Definition acquire_lua (KEYS ARGV : list string) : cmd R reply :=
  let! k1 := at_ KEYS 1 in let! tok := at_ ARGV 1 in let! px := int_at ARGV 2 in
  let! granted := r_set k1 tok true (Some px) in
  if granted : bool then
    let! k2 := at_ KEYS 2 in
    let! fence := r_incr k2 in
    let! fpx := int_at ARGV 3 in
    do! r_pexpire k2 fpx in
    cret (RPair 1 fence)
  else
  let! v := r_get k1 in
  if is_arg v ARGV 1 then
    do! r_pexpire k1 px in
    let! k2 := at_ KEYS 2 in
    let! fence := r_incr k2 in
    let! fpx := int_at ARGV 3 in
    do! r_pexpire k2 fpx in
    cret (RPair 2 fence)
  else cret (RPair 0 0).

Definition release_lua (KEYS ARGV : list string) : cmd R reply :=
  let! k1 := at_ KEYS 1 in
  let! v := r_get k1 in
  if is_arg v ARGV 1 then
    let! n := r_del k1 in cret (RInt n)
  else cret (RInt 0).

Definition extend_lua (KEYS ARGV : list string) : cmd R reply :=
  let! k1 := at_ KEYS 1 in
  let! v := r_get k1 in
  if is_arg v ARGV 1 then
    let! px := int_at ARGV 2 in
    do! r_pexpire k1 px in
    let! k2 := at_ KEYS 2 in
    let! fpx := int_at ARGV 3 in
    do! r_pexpire k2 fpx in
    cret (RInt 1)
  else cret (RInt 0).

(** *** The reentrant mutex *)

Definition reentrant_acquire_lua (KEYS ARGV : list string) : cmd R reply :=
  let! k1 := at_ KEYS 1 in
  let! n := r_exists k1 in
  if n =? 0 then
    let! tok := at_ ARGV 1 in
    do! r_hset k1 [("owner", tok); ("count", "1")]%string in
    let! px := int_at ARGV 2 in
    do! r_pexpire k1 px in
    let! k2 := at_ KEYS 2 in
    let! fence := r_incr k2 in
    cret (RPair 1 fence)
  else
  let! owner := r_hget k1 "owner" in
  if is_arg owner ARGV 1 then
    do! r_hincrby k1 "count" 1 in
    let! px := int_at ARGV 2 in
    do! r_pexpire k1 px in
    let! k2 := at_ KEYS 2 in
    let! fence := r_incr k2 in
    cret (RPair 2 fence)
  else cret (RPair 0 0).

Definition reentrant_release_lua (KEYS ARGV : list string) : cmd R reply :=
  let! k1 := at_ KEYS 1 in
  let! n := r_exists k1 in
  if n =? 0 then cret (RInt (-1)) else
  let! owner := r_hget k1 "owner" in
  if negb (is_arg owner ARGV 1) then cret (RInt (-1)) else
  let! count := r_hincrby k1 "count" (-1) in
  if count <=? 0 then do! r_del k1 in cret (RInt 0) else
  let! ttl := num_at ARGV 2 in
  if 0 <? ttl then
    let! px := int_at ARGV 2 in
    do! r_pexpire k1 px in
    cret (RInt count)
  else cret (RInt count).

Definition reentrant_release_all_lua (KEYS ARGV : list string) : cmd R reply :=
  let! k1 := at_ KEYS 1 in
  let! n := r_exists k1 in
  if n =? 0 then cret (RInt (-1)) else
  let! owner := r_hget k1 "owner" in
  if is_arg owner ARGV 1 then do! r_del k1 in cret (RInt 1)
  else cret (RInt (-1)).

Definition reentrant_extend_lua (KEYS ARGV : list string) : cmd R reply :=
  let! k1 := at_ KEYS 1 in
  let! n := r_exists k1 in
  if n =? 0 then cret (RInt (-1)) else
  let! owner := r_hget k1 "owner" in
  if is_arg owner ARGV 1 then
    let! px := int_at ARGV 2 in
    do! r_pexpire k1 px in
    cret (RInt 1)
  else cret (RInt (-1)).

(** *** The read-write lock *)

Definition reader_field (tok : string) : string := "r:" +:+ tok.

Definition rw_read_acquire_lua (KEYS ARGV : list string) : cmd R reply :=
  let! k1 := at_ KEYS 1 in
  let! n := r_exists k1 in
  if n =? 0 then
    let! tok := at_ ARGV 1 in
    do! r_hset k1 [("mode", "r"); ("readers", "1"); (reader_field tok, "1")]%string in
    let! px := int_at ARGV 2 in
    do! r_pexpire k1 px in
    let! k2 := at_ KEYS 2 in
    let! fence := r_incr k2 in
    cret (RPair 1 fence)
  else
  let! mode := r_hget k1 "mode" in
  if negb (is_text mode "r") then cret (RPair 0 0) else
  let! tok := at_ ARGV 1 in
  let! registered := r_hexists k1 (reader_field tok) in
  if registered =? 0 then
    do! r_hincrby k1 "readers" 1 in
    do! r_hset k1 [(reader_field tok, "1"%string)] in
    let! px := int_at ARGV 2 in
    do! r_pexpire k1 px in
    let! k2 := at_ KEYS 2 in
    let! fence := r_incr k2 in
    cret (RPair 1 fence)
  else cret (RPair 0 0).

Definition rw_read_release_lua (KEYS ARGV : list string) : cmd R reply :=
  let! k1 := at_ KEYS 1 in
  let! n := r_exists k1 in
  if n =? 0 then cret (RInt (-1)) else
  let! mode := r_hget k1 "mode" in
  if negb (is_text mode "r") then cret (RInt (-1)) else
  let! tok := at_ ARGV 1 in
  let! registered := r_hexists k1 (reader_field tok) in
  if registered =? 0 then cret (RInt (-1)) else
  do! r_hdel k1 (reader_field tok) in
  let! readers := r_hincrby k1 "readers" (-1) in
  if readers <=? 0 then do! r_del k1 in cret (RInt 0) else
  let! px := int_at ARGV 2 in
  do! r_pexpire k1 px in
  cret (RInt readers).

Definition rw_write_acquire_lua (KEYS ARGV : list string) : cmd R reply :=
  let! k1 := at_ KEYS 1 in
  let! n := r_exists k1 in
  if n =? 0 then
    let! tok := at_ ARGV 1 in
    do! r_hset k1 [("mode", "w"); ("owner", tok)]%string in
    let! px := int_at ARGV 2 in
    do! r_pexpire k1 px in
    let! k2 := at_ KEYS 2 in
    let! fence := r_incr k2 in
    cret (RPair 1 fence)
  else
  let! mode := r_hget k1 "mode" in
  if negb (is_text mode "w") then cret (RPair 0 0) else
  let! owner := r_hget k1 "owner" in
  if is_arg owner ARGV 1 then
    let! px := int_at ARGV 2 in
    do! r_pexpire k1 px in
    let! k2 := at_ KEYS 2 in
    let! fence := r_incr k2 in
    cret (RPair 2 fence)
  else cret (RPair 0 0).

Definition rw_write_release_lua (KEYS ARGV : list string) : cmd R reply :=
  let! k1 := at_ KEYS 1 in
  let! n := r_exists k1 in
  if n =? 0 then cret (RInt (-1)) else
  let! mode := r_hget k1 "mode" in
  if negb (is_text mode "w") then cret (RInt (-1)) else
  let! owner := r_hget k1 "owner" in
  if is_arg owner ARGV 1 then do! r_del k1 in cret (RInt 1)
  else cret (RInt (-1)).

Definition rw_extend_lua (KEYS ARGV : list string) : cmd R reply :=
  let! k1 := at_ KEYS 1 in
  let! n := r_exists k1 in
  if n =? 0 then cret (RInt (-1)) else
  let! mode := r_hget k1 "mode" in
  if is_text mode "r" then
    let! px := int_at ARGV 2 in
    do! r_pexpire k1 px in
    cret (RInt 1)
  else
  let! mode := r_hget k1 "mode" in
  if negb (is_text mode "w") then cret (RInt (-1)) else
  let! owner := r_hget k1 "owner" in
  if is_arg owner ARGV 1 then
    let! px := int_at ARGV 2 in
    do! r_pexpire k1 px in
    cret (RInt 1)
  else cret (RInt (-1)).

(** *** The semaphore *)

Definition semaphore_acquire_lua (KEYS ARGV : list string) : cmd R reply :=
  let! now := now_ms in
  let! k1 := at_ KEYS 1 in
  do! r_zremrange k1 now in
  let! held := r_zcard k1 in
  let! permits := num_at ARGV 3 in
  if held <? permits then
    let! ttl := num_at ARGV 2 in
    let! tok := at_ ARGV 1 in
    do! r_zadd k1 (now + ttl) tok in
    let! px := int_at ARGV 2 in
    do! r_pexpire k1 px in
    let! k2 := at_ KEYS 2 in
    let! fence := r_incr k2 in
    cret (RPair 1 fence)
  else cret (RPair 0 0).

Definition semaphore_release_lua (KEYS ARGV : list string) : cmd R reply :=
  let! k1 := at_ KEYS 1 in
  let! tok := at_ ARGV 1 in
  let! n := r_zrem k1 tok in
  if n =? 1 then
    let! held := r_zcard k1 in
    if held =? 0 then do! r_del k1 in cret (RInt 1) else cret (RInt 1)
  else cret (RInt 0).

Definition semaphore_extend_lua (KEYS ARGV : list string) : cmd R reply :=
  let! now := now_ms in
  let! k1 := at_ KEYS 1 in
  let! tok := at_ ARGV 1 in
  let! score := r_zscore k1 tok in
  match score with
  | Some _ =>
      let! ttl := num_at ARGV 2 in
      do! r_zadd k1 (now + ttl) tok in
      let! px := int_at ARGV 2 in
      do! r_pexpire k1 px in
      cret (RInt 1)
  | None => cret (RInt 0)
  end.

(** *** The fair queue

    The list's right end is the oldest waiter.  Both loops pop one entry per
    round; [fuel] counts the entries present when the loop starts. *)

Definition exists_at (prefix : cmd R string) (tok : string) : cmd R bool :=
  let! p := prefix in let! n := r_exists (p +:+ tok) in cret (n =? 1).

(** [while LLEN(q) > 0]: discard dead entries until a live waiter. *)
Fixpoint discard_dead (fuel : nat) (k2 : string) (ARGV : list string) {struct fuel} : cmd R unit :=
  let! n := r_llen k2 in
  if n <=? 0 then cret tt else
  match fuel with
  | O => craise Io
  | S fuel =>
      let! tok := r_lrange_last k2 in
      let! live := match tok with
                   | Some t => exists_at (at_ ARGV 5) t
                   | None => cret false
                   end in
      if live : bool then cret tt else
      do! r_rpop k2 in
      discard_dead fuel k2 ARGV
  end.

Definition fair_acquire_lua (KEYS ARGV : list string) : cmd R reply :=
  let! k1 := at_ KEYS 1 in
  let! v := r_get k1 in
  if is_arg v ARGV 1 then
    let! px := int_at ARGV 2 in
    do! r_pexpire k1 px in
    let! k3 := at_ KEYS 3 in
    let! fence := r_incr k3 in
    cret (RPair 2 fence)
  else
  let! n := r_exists k1 in
  let! k2 := at_ KEYS 2 in
  let! tok := at_ ARGV 1 in
  let enqueue :=
    let! pos := r_lpos k2 tok in
    do! (if pos is Some _ then cret 0 else r_lpush k2 tok) in
    let! k4 := at_ KEYS 4 in
    let! hb_px := int_at ARGV 4 in
    do! r_set k4 "1" false (Some hb_px) in
    let! ttl := num_at ARGV 2 in
    do! r_pexpire k2 (ttl * 10) in
    cret (RPair 0 0) in
  if n =? 0 then
    let! len := r_llen k2 in
    do! discard_dead (Z.to_nat len) k2 ARGV in
    let! oldest := r_lrange_last k2 in
    match oldest with
    | Some t =>
        if String.eqb t tok then
          do! r_lrem k2 tok in
          let! px := int_at ARGV 2 in
          do! r_set k1 tok false (Some px) in
          let! k3 := at_ KEYS 3 in
          let! fence := r_incr k3 in
          cret (RPair 1 fence)
        else enqueue
    | None =>
        let! px := int_at ARGV 2 in
        do! r_set k1 tok false (Some px) in
        let! k3 := at_ KEYS 3 in
        let! fence := r_incr k3 in
        cret (RPair 1 fence)
    end
  else enqueue.

(** [for i = 1, LLEN(q)]: pop until a live waiter gets the lock. *)
Fixpoint handoff (fuel : nat) (k1 k2 : string) (ARGV : list string) {struct fuel} : cmd R unit :=
  match fuel with
  | O => cret tt
  | S fuel =>
      let! tok := r_rpop k2 in
      match tok with
      | Some t =>
          let! live := exists_at (at_ ARGV 3) t in
          if live : bool then
            let! px := int_at ARGV 2 in
            do! r_set k1 t false (Some px) in cret tt
          else handoff fuel k1 k2 ARGV
      | None => handoff fuel k1 k2 ARGV
      end
  end.

Definition fair_release_lua (KEYS ARGV : list string) : cmd R reply :=
  let! k1 := at_ KEYS 1 in
  let! v := r_get k1 in
  if negb (is_arg v ARGV 1) then cret (RInt (-1)) else
  do! r_del k1 in
  let! k2 := at_ KEYS 2 in
  let! len := r_llen k2 in
  do! handoff (Z.to_nat len) k1 k2 ARGV in
  cret (RInt 1).

(** *** The latch ([latch.rs]) *)

(** [tonumber(redis.call('GET', k) or '-1')]; comparing a text that is no
    number raises. *)
Definition latch_value (k1 : string) : cmd R Z :=
  let! v := r_get k1 in
  match string_to_z (default "-1"%string v) with Some z => cret z | None => craise LuaError end.

Definition latch_init_lua (KEYS ARGV : list string) : cmd R reply :=
  let! k1 := at_ KEYS 1 in let! n := at_ ARGV 1 in
  let! created := r_set k1 n true None in
  cret (RInt (if created : bool then 1 else 0)).

Definition latch_count_down_lua (KEYS ARGV : list string) : cmd R reply :=
  let! k1 := at_ KEYS 1 in
  let! v := latch_value k1 in
  if v <? 0 then cret (RInt (-1)) else
  if v =? 0 then cret (RInt 0) else
  let! left := r_decr k1 in
  cret (RInt (left + 1)).

Definition latch_get_lua (KEYS ARGV : list string) : cmd R reply :=
  let! k1 := at_ KEYS 1 in
  let! v := latch_value k1 in
  if v <? 0 then cret (RInt (-1)) else cret (RInt v).

(** *** The testament ([testament.rs]) *)

Definition will_set_lua (KEYS ARGV : list string) : cmd R reply :=
  let! k1 := at_ KEYS 1 in
  let! v := r_get k1 in
  if is_arg v ARGV 1 then
    let! k2 := at_ KEYS 2 in let! payload := at_ ARGV 2 in let! px := int_at ARGV 3 in
    do! r_set k2 payload false (Some px) in
    cret (RInt 1)
  else cret (RInt 0).

Definition will_del_lua (KEYS ARGV : list string) : cmd R reply :=
  let! k1 := at_ KEYS 1 in
  let! v := r_get k1 in
  if is_arg v ARGV 1 then
    let! k2 := at_ KEYS 2 in
    do! r_del k2 in
    cret (RInt 1)
  else cret (RInt 0).

(** The table of scripts ([scripts.rs]). *)
Definition eval_script (name : script_name) : list string -> list string -> cmd R reply :=
  match name with
  | ACQUIRE => acquire_lua | RELEASE => release_lua | EXTEND => extend_lua
  | REENTRANT_ACQUIRE => reentrant_acquire_lua | REENTRANT_RELEASE => reentrant_release_lua
  | REENTRANT_RELEASE_ALL => reentrant_release_all_lua | REENTRANT_EXTEND => reentrant_extend_lua
  | RW_READ_ACQUIRE => rw_read_acquire_lua | RW_READ_RELEASE => rw_read_release_lua
  | RW_WRITE_ACQUIRE => rw_write_acquire_lua | RW_WRITE_RELEASE => rw_write_release_lua
  | RW_EXTEND => rw_extend_lua
  | SEMAPHORE_ACQUIRE => semaphore_acquire_lua | SEMAPHORE_RELEASE => semaphore_release_lua
  | SEMAPHORE_EXTEND => semaphore_extend_lua
  | FAIR_ACQUIRE => fair_acquire_lua | FAIR_RELEASE => fair_release_lua
  | LATCH_INIT => latch_init_lua | LATCH_COUNT_DOWN => latch_count_down_lua | LATCH_GET => latch_get_lua
  | WILL_SET => will_set_lua | WILL_DEL => will_del_lua
  end.
End scripts.

(** ** Scripts depend only on what is observable *)

Section scripts_meet.
Context {R : Type} `{RedisLaws R}.

Lemma meets_at l i : meets (at_ (R:=R) l i) (at_ l i).
Proof. unfold at_. solve_meets. Qed.
Hint Resolve meets_at : meets.

Lemma meets_int_at l i : meets (int_at (R:=R) l i) (int_at l i).
Proof. unfold int_at. solve_meets. Qed.

Lemma meets_num_at l i : meets (num_at (R:=R) l i) (num_at l i).
Proof. unfold num_at. solve_meets. Qed.
Hint Resolve meets_int_at meets_num_at : meets.

Lemma meets_exists_at p p' tok :
  meets p p' -> meets (exists_at (R:=R) p tok) (exists_at p' tok).
Proof. intros. unfold exists_at. solve_meets. Qed.
Hint Resolve meets_exists_at : meets.

Lemma meets_discard_dead fuel k2 ARGV :
  meets (discard_dead (R:=R) fuel k2 ARGV) (discard_dead fuel k2 ARGV).
Proof. induction fuel; cbn [discard_dead]; solve_meets. Qed.

Lemma meets_handoff fuel k1 k2 ARGV :
  meets (handoff (R:=R) fuel k1 k2 ARGV) (handoff fuel k1 k2 ARGV).
Proof. induction fuel; cbn [handoff]; solve_meets. Qed.
Hint Resolve meets_discard_dead meets_handoff : meets.

Lemma meets_latch_value k : meets (latch_value (R:=R) k) (latch_value k).
Proof. unfold latch_value. solve_meets. Qed.
Hint Resolve meets_latch_value : meets.

(** Every script of the program gives the same reply, and an observably
    equal server, on any server with the documented behaviour. *)
Lemma meets_script name KEYS ARGV :
  meets (eval_script (R:=R) name KEYS ARGV) (eval_script name KEYS ARGV).
Proof.
  destruct name;
    [unfold eval_script, acquire_lua|unfold eval_script, release_lua|unfold eval_script, extend_lua
    |unfold eval_script, reentrant_acquire_lua|unfold eval_script, reentrant_release_lua
    |unfold eval_script, reentrant_release_all_lua|unfold eval_script, reentrant_extend_lua
    |unfold eval_script, rw_read_acquire_lua|unfold eval_script, rw_read_release_lua
    |unfold eval_script, rw_write_acquire_lua|unfold eval_script, rw_write_release_lua
    |unfold eval_script, rw_extend_lua|unfold eval_script, semaphore_acquire_lua
    |unfold eval_script, semaphore_release_lua|unfold eval_script, semaphore_extend_lua
    |unfold eval_script, fair_acquire_lua|unfold eval_script, fair_release_lua
    |unfold eval_script, latch_init_lua|unfold eval_script, latch_count_down_lua
    |unfold eval_script, latch_get_lua|unfold eval_script, will_set_lua|unfold eval_script, will_del_lua];
    solve_meets.
Qed.
End scripts_meet.
