(* ===== verification/World.v ===== *)
(** * The client's world

    What the Rust code of the Redis backend runs in: the servers it is
    connected to, the clock, the identifiers [uuid] hands out, the flags of
    the live handles ([AtomicBool]s shared by the clones of a handle), the
    tasks it spawned, and what the environment does at each point where the
    code waits.  Code is a function [world -> outcome A * world]. *)


From S2P Require Import Prelude Core Redis Scripts.

(** ** State *)

(** A [ConnectionManager] is the number of the server it is connected to. *)
Abbreviation conn := nat.

(** The cell behind an [Arc<..Shared>]: [released] is the source's [released]
    or [gone]; [lost] is the value in the [watch] channel; [dropped] holds once
    the last clone is gone, when a [Weak] no longer upgrades. *)
Record flags := mk_flags { released : bool; poisoned : bool; lost : bool; dropped : bool }.
Definition fresh_flags : flags := mk_flags false false false false.

(** Tasks given to [tokio::spawn]: a detached script call, the same call on
    several servers in turn, the watchdog of the handle whose cell is [cell],
    the release of an etcd lock ([Etcd.etcd_run_detached]) or of a remote one
    ([Client.remote_run_detached]). *)
Inductive task :=
| TScript (c : conn) (name : script_name) (KEYS ARGV : list string)
| TScriptEach (cs : list conn) (name : script_name) (KEYS ARGV : list string)
| TWatchdog (cell : nat)
| TEtcdRelease (c : conn) (key token : string) (lease : Z)
| TRemoteUnlock (c : conn) (header : option string) (key token : string).

(** What happens to one message exchange. *)
Inductive fate := Replied | ReplyLost | NotDelivered.
#[global] Instance fate_eq_dec : EqDecision fate.
Proof. solve_decision. Defined.

(** One wait of the code: what others did to the servers meanwhile, how long
    it took, and (for a command) what became of the message. *)
Record env_step (R : Type) := mk_step {
  st_others : (conn -> R) -> conn -> R;
  st_fate : fate;
  st_latency : Z;
}.
Arguments mk_step {R}. Arguments st_others {R}. Arguments st_fate {R}. Arguments st_latency {R}.

(** A quiet step: nobody interferes, the reply arrives at once. *)
Definition quiet {R} : env_step R := mk_step id Replied 0.

Record world (R : Type) := mk_world {
  w_server : conn -> R;
  w_uuids : N;
  w_clock : Z;
  w_flags : list flags;
  w_tasks : list task;
  w_steps : list (env_step R);
  w_budget : option Z;
}.
Arguments mk_world {R}. Arguments w_server {R}. Arguments w_uuids {R}. Arguments w_clock {R}.
Arguments w_flags {R}. Arguments w_tasks {R}. Arguments w_steps {R}. Arguments w_budget {R}.

Section setters.
Context {R : Type}.
Definition set_server (f : conn -> R) (w : world R) : world R :=
  mk_world f (w_uuids w) (w_clock w) (w_flags w) (w_tasks w) (w_steps w) (w_budget w).
Definition set_uuids (n : N) (w : world R) : world R :=
  mk_world (w_server w) n (w_clock w) (w_flags w) (w_tasks w) (w_steps w) (w_budget w).
Definition set_clock (t : Z) (w : world R) : world R :=
  mk_world (w_server w) (w_uuids w) t (w_flags w) (w_tasks w) (w_steps w) (w_budget w).
Definition set_flags (l : list flags) (w : world R) : world R :=
  mk_world (w_server w) (w_uuids w) (w_clock w) l (w_tasks w) (w_steps w) (w_budget w).
Definition set_tasks (l : list task) (w : world R) : world R :=
  mk_world (w_server w) (w_uuids w) (w_clock w) (w_flags w) l (w_steps w) (w_budget w).
Definition set_steps (l : list (env_step R)) (w : world R) : world R :=
  mk_world (w_server w) (w_uuids w) (w_clock w) (w_flags w) (w_tasks w) l (w_budget w).
Definition set_budget (b : option Z) (w : world R) : world R :=
  mk_world (w_server w) (w_uuids w) (w_clock w) (w_flags w) (w_tasks w) (w_steps w) b.
End setters.

(** ** The monad

    [Elapsed]: the enclosing [tokio::time::timeout] dropped the future at an
    await point.  [OutOfFuel]: the model's bound on a polling loop was hit. *)

Inductive outcome (A : Type) := Done (a : A) | Panic | Elapsed | OutOfFuel.
Arguments Done {A}. Arguments Panic {A}. Arguments Elapsed {A}. Arguments OutOfFuel {A}.

Abbreviation M R A := (world R -> outcome A * world R).

Section monad.
Context {R : Type}.

Definition ret {A} (a : A) : M R A := fun w => (Done a, w).
Definition panic {A} : M R A := fun w => (Panic, w).
Definition out_of_fuel {A} : M R A := fun w => (OutOfFuel, w).
Definition bind {A B} (m : M R A) (f : A -> M R B) : M R B := fun w =>
  match m w with
  | (Done a, w') => f a w'
  | (Panic, w') => (Panic, w')
  | (Elapsed, w') => (Elapsed, w')
  | (OutOfFuel, w') => (OutOfFuel, w')
  end.

(** Rust's [?]. *)
Definition try_ {E A B} (m : M R (res E A)) (f : A -> M R (res E B)) : M R (res E B) :=
  bind m (fun r => match r with Ok a => f a | Err e => ret (Err e) end).

Definition gets {A} (f : world R -> A) : M R A := fun w => (Done (f w), w).
Definition modify (f : world R -> world R) : M R unit := fun w => (Done tt, f w).
End monad.

Declare Scope world_scope.
Delimit Scope world_scope with world.
Notation "'let*' x := m 'in' k" := (bind m (fun x => k))
  (at level 10, x name, m at level 100, k at level 200) : world_scope.
Notation "'do*' m 'in' k" := (bind m (fun _ => k))
  (at level 10, m at level 100, k at level 200) : world_scope.
Notation "'let?' x := m 'in' k" := (try_ m (fun x => k))
  (at level 10, x name, m at level 100, k at level 200) : world_scope.
Notation "'let?' ' p := m 'in' k" := (try_ m (fun x => match x with p => k end))
  (at level 10, p pattern, m at level 100, k at level 200) : world_scope.

(** ** Primitives *)

Section primitives.
Context {R : Type}.
Open Scope world_scope.

Definition next_step : M R (env_step R) := fun w =>
  match w_steps w with
  | [] => (Done quiet, w)
  | st :: l => (Done st, set_steps l w)
  end.

(** Time passes at an await point; the future is dropped there if the
    enclosing timeout fires first. *)
Definition pass (dt : Z) : M R unit := fun w =>
  let t := w_clock w + Z.max 0 dt in
  match w_budget w with
  | Some b => if b <? t then (Elapsed, set_clock (Z.max (w_clock w) b) w) else (Done tt, set_clock t w)
  | None => (Done tt, set_clock t w)
  end.

Definition on_server (c : conn) {A} (m : cmd R A) : M R (res rerr A) := fun w =>
  let '(r, s) := m (w_server w c) in (Done r, set_server (<[c := s]> (w_server w)) w).

(** Send a command (or script) and await its reply.  A lost message is an
    error of the connection; when only the reply is lost the command has run. *)
Definition invoke (c : conn) {A} (m : cmd R A) : M R (res rerr A) :=
  let* st := next_step in
  do* modify (fun w => set_server (st_others st (w_server w)) w) in
  match st_fate st with
  | NotDelivered => do* pass (st_latency st) in ret (Err Io)
  | ReplyLost => do* on_server c m in do* pass (st_latency st) in ret (Err Io)
  | Replied => let* r := on_server c m in do* pass (st_latency st) in ret r
  end.

(** [tokio::time::sleep]: at least [d]; other clients act meanwhile. *)
Definition sleep (d : Z) : M R unit :=
  let* st := next_step in
  do* modify (fun w => set_server (st_others st (w_server w)) w) in
  pass (d + Z.max 0 (st_latency st)).

(** [Instant::now]. *)
Definition instant_now : M R Z := gets w_clock.

(** [tokio::time::timeout(d, m)]: [None] is [Err(Elapsed)].  An outer
    timeout that fires first drops the whole expression. *)
Definition timeout {A} (d : Z) (m : M R A) : M R (option A) := fun w =>
  let t := w_clock w + d in
  let outer := w_budget w in
  let inner := match outer with Some b => Z.min b t | None => t end in
  match m (set_budget (Some inner) w) with
  | (Done a, w') => (Done (Some a), set_budget outer w')
  | (Elapsed, w') =>
      if match outer with Some b => b <? t | None => false end
      then (Elapsed, set_budget outer w') else (Done None, set_budget outer w')
  | (Panic, w') => (Panic, set_budget outer w')
  | (OutOfFuel, w') => (OutOfFuel, set_budget outer w')
  end.

Definition spawn (t : task) : M R unit := modify (fun w => set_tasks (t :: w_tasks w) w).

(** [Uuid::now_v7]. *)
Definition fresh_owner {U : UuidSource} : M R OwnerId := fun w =>
  (Done (owner_generate (w_uuids w)), set_uuids (N.succ (w_uuids w)) w).

(** *** Handle cells *)

(** [Arc::new(..Shared { .. })]. *)
Definition new_cell : M R nat := fun w =>
  (Done (length (w_flags w)), set_flags (w_flags w ++ [fresh_flags]) w).

Definition cell (i : nat) : M R flags := gets (fun w => default fresh_flags (w_flags w !! i)).
Definition update_cell (i : nat) (f : flags -> flags) : M R unit :=
  modify (fun w => set_flags (alter f i (w_flags w)) w).

Definition set_released (f : flags) : flags := mk_flags true (poisoned f) (lost f) (dropped f).
Definition set_lost (f : flags) : flags := mk_flags (released f) true true (dropped f).
Definition set_dropped (f : flags) : flags := mk_flags (released f) (poisoned f) (lost f) true.

(** [mark_released]/[mark_gone]: [!flag.swap(true)]. *)
Definition mark_released (i : nat) : M R bool :=
  let* f := cell i in
  do* update_cell i set_released in
  ret (negb (released f)).

(** [mark_lost]: poison the handle and wake [until_lost]. *)
Definition mark_lost (i : nat) : M R unit := update_cell i set_lost.

(** [map_err(|e| Error::Backend(format!(..)))]. *)
Definition backend {A} (msg : string) (m : M R (res rerr A)) : M R (res error A) :=
  let* r := m in ret (res_map_err (fun _ => Backend msg) r).

(** *** Replies

    [invoke_async::<i64>] and [::<(i64, i64)>]: a reply of another shape is
    a type error of the [redis] crate. *)
Definition as_int (m : cmd R reply) : cmd R Z :=
  cbind m (fun r => match r with RInt z => cret z | _ => craise Io end).
Definition as_pair (m : cmd R reply) : cmd R (Z * Z) :=
  cbind m (fun r => match r with RPair a b => cret (a, b) | _ => craise Io end).
End primitives.

Section scripts.
Context {R : Type} `{Redis R}.

(** [script.key(..).arg(..).invoke_async(&mut conn)]. *)
Definition invoke_int (c : conn) (name : script_name) (KEYS ARGV : list string) : M R (res rerr Z) :=
  invoke c (as_int (eval_script name KEYS ARGV)).
Definition invoke_pair (c : conn) (name : script_name) (KEYS ARGV : list string) : M R (res rerr (Z * Z)) :=
  invoke c (as_pair (eval_script name KEYS ARGV)).

(** A detached script call runs and its result is ignored. *)
Fixpoint run_each (cs : list conn) (name : script_name) (KEYS ARGV : list string) {struct cs} : M R unit :=
  match cs with
  | [] => ret tt
  | c :: cs => bind (invoke_int c name KEYS ARGV) (fun _ => run_each cs name KEYS ARGV)
  end.

Definition run_detached (t : task) : M R unit :=
  match t with
  | TScript c name KEYS ARGV => bind (invoke_int c name KEYS ARGV) (fun _ => ret tt)
  | TScriptEach cs name KEYS ARGV => run_each cs name KEYS ARGV
  | TWatchdog _ | TEtcdRelease _ _ _ _ | TRemoteUnlock _ _ _ _ => ret tt
  end.
End scripts.

(** ** Instants *)

(** [std::time::Instant] holds whole seconds in 64 bits; the arithmetic of
    the standard library is checked. *)
Definition instant_max : Z := i64_max * 1000000000 + 999999999.
Definition instant_checked_add (t d : Z) : option Z := if t + d <=? instant_max then Some (t + d) else None.

(** [Instant + Duration] panics on overflow. *)
Definition instant_add {R} (t d : Z) : M R Z :=
  match instant_checked_add t d with Some t' => ret t' | None => panic end.

(** [Instant::checked_duration_since]. *)
Definition checked_duration_since (later earlier : Z) : option Z :=
  if earlier <=? later then Some (later - earlier) else None.

(** ** Lemmas *)

Section lemmas.
Context {R : Type}.
Implicit Types w : world R.

Lemma bind_done {A B} (m : M R A) (f : A -> M R B) w a w' :
  m w = (Done a, w') -> bind m f w = f a w'.
Proof. intros E. unfold bind. by rewrite E. Qed.

Lemma as_pair_run (m : cmd R reply) s :
  as_pair m s = (match (m s).1 with Ok (RPair a b) => Ok (a, b) | Ok _ => Err Io | Err e => Err e end, (m s).2).
Proof. unfold as_pair, cbind. by destruct (m s) as [[[z|a b]|e] s']. Qed.

Lemma as_int_run (m : cmd R reply) s :
  as_int m s = (match (m s).1 with Ok (RInt z) => Ok z | Ok _ => Err Io | Err e => Err e end, (m s).2).
Proof. unfold as_int, cbind. by destruct (m s) as [[[z|a b]|e] s']. Qed.

(** *** One exchange, in closed form (outside any timeout) *)

Definition step_of w : env_step R := match w_steps w with [] => quiet | st :: _ => st end.
Definition servers_before w : conn -> R := st_others (step_of w) (w_server w).

Definition after_invoke c {A} (m : cmd R A) w : world R :=
  mk_world
    (match st_fate (step_of w) with
     | NotDelivered => servers_before w
     | _ => <[c := (m (servers_before w c)).2]> (servers_before w)
     end)
    (w_uuids w) (w_clock w + Z.max 0 (st_latency (step_of w))) (w_flags w) (w_tasks w)
    (tail (w_steps w)) None.

Definition reply_of c {A} (m : cmd R A) w : res rerr A :=
  match st_fate (step_of w) with Replied => (m (servers_before w c)).1 | _ => Err Io end.

Lemma invoke_eq c {A} (m : cmd R A) w : w_budget w = None ->
  invoke c m w = (Done (reply_of c m w), after_invoke c m w).
Proof.
  intros B. unfold reply_of, after_invoke, servers_before, step_of, invoke, bind, next_step, modify,
    on_server, pass, ret.
  destruct w as [srv u t fl tk sts bud]; cbn in *. subst bud.
  destruct sts as [|st sts]; cbn.
  - destruct (m (srv c)) as [r s]. done.
  - destruct (st_fate st); cbn; [..|done]; destruct (m _) as [r s]; done.
Qed.

(** Under a timeout that fires before the reply, the future is dropped. *)
Lemma invoke_hangs c {A} (m : cmd R A) w b : w_budget w = Some b ->
  b < w_clock w + Z.max 0 (st_latency (step_of w)) ->
  exists w', invoke c m w = (Elapsed, w') /\ w_clock w' = Z.max (w_clock w) b.
Proof.
  intros B Hb. unfold step_of in Hb. unfold invoke, bind, next_step, modify, on_server, pass, ret.
  destruct w as [srv u t fl tk sts bud]; cbn in *. subst bud.
  destruct sts as [|st sts]; cbn in *.
  - destruct (m (srv c)) as [r s]. cbn. rewrite (proj2 (Z.ltb_lt _ _)) by lia. by eexists.
  - destruct (st_fate st); cbn; try (destruct (m _) as [r s]; cbn);
      rewrite (proj2 (Z.ltb_lt _ _)) by lia; by eexists.
Qed.

(** The same exchange under its own timeout, with no other around it. *)
Definition after_bounded_invoke d c {A} (m : cmd R A) w : world R :=
  set_clock (w_clock w + Z.min d (Z.max 0 (st_latency (step_of w)))) (after_invoke c m w).

Lemma timeout_invoke_eq d c {A} (m : cmd R A) w : w_budget w = None -> 0 <= d ->
  timeout d (invoke c m) w =
    (Done (if Z.max 0 (st_latency (step_of w)) <=? d then Some (reply_of c m w) else None),
     after_bounded_invoke d c m w).
Proof.
  intros B Hd. unfold timeout. rewrite B.
  unfold after_bounded_invoke, reply_of, after_invoke, servers_before, step_of, invoke, bind, next_step, modify,
    on_server, pass, ret.
  destruct w as [srv u t fl tk sts bud]; cbn in *. subst bud.
  destruct sts as [|st sts]; cbn.
  - destruct (m (srv c)) as [r s]. cbn. rewrite (proj2 (Z.ltb_ge _ _)), (proj2 (Z.leb_le _ _)) by lia.
    unfold set_budget, set_clock. cbn. by rewrite Z.min_r by lia.
  - destruct (Z.max 0 (st_latency st) <=? d) eqn:Hl; zbool.
    + destruct (st_fate st); cbn; try (destruct (m _) as [r s]; cbn);
        rewrite (proj2 (Z.ltb_ge _ _)) by lia; unfold set_budget, set_clock; cbn; by rewrite Z.min_r by lia.
    + destruct (st_fate st); cbn; try (destruct (m _) as [r s]; cbn);
        rewrite (proj2 (Z.ltb_lt _ _)) by lia; unfold set_budget, set_clock; cbn;
        rewrite Z.min_l by lia; by rewrite Z.max_r by lia.
Qed.

Definition after_sleep d w : world R :=
  mk_world (servers_before w) (w_uuids w)
    (w_clock w + Z.max 0 (d + Z.max 0 (st_latency (step_of w)))) (w_flags w) (w_tasks w)
    (tail (w_steps w)) None.

Lemma sleep_eq d w : w_budget w = None -> sleep d w = (Done tt, after_sleep d w).
Proof.
  intros B. unfold after_sleep, servers_before, step_of, sleep, bind, next_step, modify, pass.
  destruct w as [srv u t fl tk sts bud]; cbn in *. subst bud. by destruct sts as [|st sts].
Qed.
End lemmas.

(** *** A quiet world

    Nobody interferes and no message is lost. *)
Definition calm {R} (w : world R) : Prop := w_budget w = None /\ w_steps w = [].

Lemma calm_step {R} (w : world R) : calm w -> step_of w = quiet.
Proof. intros [_ E]. unfold step_of. by rewrite E. Qed.
Lemma calm_servers {R} (w : world R) : calm w -> servers_before w = w_server w.
Proof. intros C. unfold servers_before. by rewrite calm_step. Qed.

Definition calm_after {R} (c : conn) (s : R) (w : world R) : world R := set_server (<[c := s]> (w_server w)) w.
Lemma calm_calm_after {R} c (s : R) (w : world R) : calm w -> calm (calm_after c s w).
Proof. done. Qed.

Lemma calm_invoke {R} c {A} (m : cmd R A) (w : world R) : calm w ->
  invoke c m w = (Done (m (w_server w c)).1, calm_after c (m (w_server w c)).2 w).
Proof.
  intros C. rewrite (invoke_eq c m w (proj1 C)). unfold reply_of, after_invoke, calm_after, set_server.
  rewrite calm_step, calm_servers by done. cbn. destruct w, C as [B S]; cbn in *; subst.
  by rewrite Z.max_id, Z.add_0_r.
Qed.

(** ** Well-behaved code

    [safe m]: run from any world, [m] neither panics nor exhausts a fuel
    bound, the clock does not go back, and it is cut short only by an
    enclosing timeout (whose budget it leaves as it was). *)

Definition safe {R A} (m : M R A) : Prop := forall w,
  match m w with
  | (Done _, w') => w_clock w <= w_clock w' /\ w_budget w' = w_budget w
  | (Elapsed, w') => w_clock w <= w_clock w' /\ w_budget w' = w_budget w /\ w_budget w <> None
  | (Panic, _) | (OutOfFuel, _) => False
  end.

Section safe.
Context {R : Type}.

Lemma safe_ret {A} (a : A) : safe (ret (R:=R) a).
Proof. intros w. cbn. split; [lia|done]. Qed.

Lemma safe_gets {A} (f : world R -> A) : safe (gets f).
Proof. intros w. cbn. split; [lia|done]. Qed.

Lemma safe_bind {A B} (m : M R A) (f : A -> M R B) :
  safe m -> (forall a, safe (f a)) -> safe (bind m f).
Proof.
  intros Hm Hf w. unfold bind. specialize (Hm w). destruct (m w) as [[a| | |] w1]; try done.
  destruct Hm as [H1 H2]. specialize (Hf a w1). rewrite H2 in Hf.
  destruct (f a w1) as [[b| | |] w2]; try done; intuition lia.
Qed.

Lemma safe_try {E A B} (m : M R (res E A)) (f : A -> M R (res E B)) :
  safe m -> (forall a, safe (f a)) -> safe (try_ m f).
Proof. intros Hm Hf. apply safe_bind; [done|]. intros [a|e]; [done|apply safe_ret]. Qed.

Lemma safe_modify f : (forall w, w_clock (f w) = w_clock w) -> (forall w, w_budget (f w) = w_budget w) ->
  safe (R:=R) (modify f).
Proof. intros H1 H2 w. cbn. rewrite H1, H2. split; [lia|done]. Qed.

Lemma safe_next_step : safe (R:=R) next_step.
Proof. intros w. unfold next_step. destruct (w_steps w); cbn; (split; [lia|done]). Qed.

Lemma safe_pass dt : safe (R:=R) (pass dt).
Proof.
  intros w. unfold pass. destruct (w_budget w) as [b|] eqn:E; [destruct (_ <? _) eqn:?|]; cbn;
    rewrite E; (split; [lia|done]).
Qed.

Lemma safe_on_server c {A} (m : cmd R A) : safe (on_server c m).
Proof. intros w. unfold on_server. destruct (m _). cbn. split; [lia|done]. Qed.

Lemma safe_invoke c {A} (m : cmd R A) : safe (invoke c m).
Proof.
  apply safe_bind; [apply safe_next_step|intros st]. apply safe_bind; [by apply safe_modify|intros _].
  destruct (st_fate st); repeat (apply safe_bind; [first [apply safe_on_server|apply safe_pass]|intros]);
    apply safe_ret.
Qed.

Lemma safe_sleep d : safe (R:=R) (sleep d).
Proof.
  apply safe_bind; [apply safe_next_step|intros st]. apply safe_bind; [by apply safe_modify|intros _].
  apply safe_pass.
Qed.

(** A sleep that ends lasted at least as long as asked. *)
Lemma sleep_lasts d w w' : sleep (R:=R) d w = (Done tt, w') -> w_clock w + d <= w_clock w'.
Proof.
  unfold sleep, bind, next_step, modify, pass.
  destruct (w_steps w) as [|st l]; cbn; destruct (w_budget w); try destruct (_ <? _);
    intros [= <-]; cbn; lia.
Qed.

Lemma safe_timeout d {A} (m : M R A) : 0 <= d -> safe m -> safe (timeout d m).
Proof.
  intros Hd Hm w. unfold timeout. set (w0 := set_budget _ w). specialize (Hm w0).
  destruct (m w0) as [[a| | |] w1]; try done; cbn in *.
  - split; [apply Hm|done].
  - destruct (w_budget w) as [b|] eqn:E; [destruct (b <? w_clock w + d)|]; cbn;
      repeat split; try apply Hm; done.
Qed.

Lemma safe_spawn t : safe (R:=R) (spawn t).
Proof. by apply safe_modify. Qed.
Lemma safe_fresh_owner {U : UuidSource} : safe (R:=R) fresh_owner.
Proof. intros w. cbn. split; [lia|done]. Qed.
Lemma safe_new_cell : safe (R:=R) new_cell.
Proof. intros w. cbn. split; [lia|done]. Qed.
Lemma safe_update_cell i f : safe (R:=R) (update_cell i f).
Proof. by apply safe_modify. Qed.
Lemma safe_mark_released i : safe (R:=R) (mark_released i).
Proof.
  apply safe_bind; [apply safe_gets|intros]. apply safe_bind; [apply safe_update_cell|intros].
  apply safe_ret.
Qed.
Lemma safe_backend {A} msg (m : M R (res rerr A)) : safe m -> safe (backend msg m).
Proof. intros. apply safe_bind; [done|intros; apply safe_ret]. Qed.
Lemma safe_invoke_int `{Redis R} c n K V : safe (invoke_int c n K V).
Proof. apply safe_invoke. Qed.
Lemma safe_invoke_pair `{Redis R} c n K V : safe (invoke_pair c n K V).
Proof. apply safe_invoke. Qed.
End safe.

Create HintDb safe discriminated.
#[export] Hint Resolve safe_ret safe_gets safe_sleep safe_spawn safe_fresh_owner safe_new_cell
  safe_update_cell safe_mark_released safe_backend safe_invoke safe_invoke_int safe_invoke_pair : safe.

(** Prove that straight-line code is well behaved. *)
Ltac solve_safe :=
  repeat first
    [ solve [eauto with safe]
    | apply safe_try; [|intro]
    | apply safe_bind; [|intro]
    | match goal with
      | |- safe (match ?x with _ => _ end) => destruct x
      | |- safe (if ?x then _ else _) => destruct x
      end ].

(** ** Polling

    The loop of the [.._for] methods: attempt; on [Held], give up with
    [Timeout] once the deadline has passed, else sleep and try again. *)

Section polling.
Context {R H : Type}.
Open Scope world_scope.

Definition POLL_INTERVAL : Z := from_millis 20.

Fixpoint poll_until (fuel : nat) (key : string) (deadline : Z)
    (attempt : M R (res error H)) {struct fuel} : M R (res error H) :=
  match fuel with
  | O => out_of_fuel
  | S fuel =>
      let* r := attempt in
      match r with
      | Ok h => ret (Ok h)
      | Err (Held _) =>
          let* now := instant_now in
          if deadline <=? now then ret (Err (Timeout key)) else
          do* sleep POLL_INTERVAL in
          poll_until fuel key deadline attempt
      | Err other => ret (Err other)
      end
  end.

(** [let deadline = Instant::now() + wait; loop { .. }]. *)
Definition poll_for (fuel : nat) (key : string) (wait : Z) (attempt : M R (res error H)) :
    M R (res error H) :=
  let* now := instant_now in
  let* deadline := instant_add now wait in
  poll_until fuel key deadline attempt.

(** Rounds that fit in [wait], and the last one. *)
Definition poll_fuel (wait : Z) : nat := Z.to_nat (wait / POLL_INTERVAL + 2).

Lemma poll_until_ends key deadline attempt : safe attempt -> forall fuel w,
  w_budget w = None -> (poll_fuel (deadline - w_clock w) <= fuel)%nat -> (0 < fuel)%nat ->
  exists r w', poll_until fuel key deadline attempt w = (Done r, w') /\
               w_clock w <= w_clock w' /\ w_budget w' = None.
Proof.
  intros Hs fuel. induction fuel as [|fuel IH]; intros w B Hf Hp; [lia|]. cbn [poll_until].
  pose proof (Hs w) as Ha. unfold bind at 1. destruct (attempt w) as [[r| | |] w1]; [|done|tauto|done].
  destruct Ha as [Hc Hb]. destruct r as [h|[k|k|k f|m|m]]; try (do 2 eexists; split; [reflexivity|]; split; [done|congruence]).
  unfold bind at 1, instant_now, gets. destruct (deadline <=? w_clock w1) eqn:Hd; zbool.
  { do 2 eexists. split; [reflexivity|]. split; [done|congruence]. }
  unfold bind. pose proof (safe_sleep POLL_INTERVAL w1) as Hsl.
  pose proof (sleep_lasts POLL_INTERVAL w1) as Hl.
  destruct (sleep POLL_INTERVAL w1) as [[[]| | |] w2]; [|done|destruct Hsl as (_ & _ & []); congruence|done].
  destruct Hsl as [Hc2 Hb2]. specialize (Hl _ eq_refl).
  destruct (IH w2) as (r & w' & E & Hc' & Hb'); [congruence| | |exists r, w'; split; [done|split; [lia|done]]].
  - unfold poll_fuel, POLL_INTERVAL, from_millis in *.
    assert ((deadline - w_clock w2) / (20 * 1000000) + 1 <= (deadline - w_clock w) / (20 * 1000000)).
    { rewrite <- Z.div_add by lia. apply Z.div_le_mono; lia. }
    lia.
  - unfold poll_fuel, POLL_INTERVAL, from_millis in *.
    assert (0 <= (deadline - w_clock w) / (20 * 1000000)) by (apply Z.div_pos; lia). lia.
Qed.

(** Enough fuel gives a result, unless [now + wait] overflows. *)
Lemma poll_for_ends fuel key wait attempt w : safe attempt ->
  0 <= wait -> w_budget w = None -> w_clock w + wait <= instant_max -> (poll_fuel wait <= fuel)%nat ->
  exists r w', poll_for fuel key wait attempt w = (Done r, w').
Proof.
  intros Hs Hw B Hi Hf. unfold poll_for, bind, instant_now, gets, instant_add, instant_checked_add.
  rewrite (proj2 (Z.leb_le _ _)) by lia. unfold ret.
  destruct (poll_until_ends key (w_clock w + wait) attempt Hs fuel w B) as (r & w' & E & _);
    [by replace (w_clock w + wait - w_clock w) with wait by lia| |by eauto].
  unfold poll_fuel, POLL_INTERVAL, from_millis in *.
  assert (0 <= wait / (20 * 1000000)) by (apply Z.div_pos; lia). lia.
Qed.

(** [LockManager::lock] waits for [Duration::MAX] by default: no instant is
    that late. *)
Lemma poll_forever_panics fuel key attempt w : 0 <= w_clock w -> poll_for fuel key duration_max attempt w = (Panic, w).
Proof.
  intros Hc. unfold poll_for, bind, instant_now, gets, instant_add, instant_checked_add.
  rewrite (proj2 (Z.leb_gt _ _)); [done|]. unfold instant_max, duration_max, i64_max, u64_max, u64_mod in *. lia.
Qed.
End polling.
