(* ===== verification/Handlers.v ===== *)
(** * Handlers over shared state

    The code of a server: it runs in a [world] and on a state it shares with
    the other handlers, which are at work at the same time.  [Service] and
    [Demo] are written in this monad. *)

From S2P Require Import Prelude Core World.

(** Each access to the shared state is atomic (one mutex or one atomic
    counter), and before each the other handlers may have changed it: the
    schedule lists what they do (nothing, once it is empty). *)
Record shared_state (S : Type) := mk_shared { sh_state : S; sh_others : list (S -> S) }.
Arguments mk_shared {S}. Arguments sh_state {S}. Arguments sh_others {S}.

(** Code on a state [S], with the servers [R]. *)
Abbreviation SM S R A := (shared_state S -> M R (A * shared_state S)).

Section monad.
Context {S R : Type}.

Definition hret {A} (a : A) : SM S R A := fun s => ret (a, s).
Definition hbind {A B} (m : SM S R A) (f : A -> SM S R B) : SM S R B := fun s => bind (m s) (fun p => f p.1 p.2).

(** The early return of [?]. *)
Definition htry {E A B} (m : SM S R (res E A)) (f : A -> SM S R (res E B)) : SM S R (res E B) :=
  hbind m (fun r => match r with Ok a => f a | Err e => hret (Err e) end).

(** Code that touches only the world. *)
Definition hrun {A} (m : M R A) : SM S R A := fun s => bind m (fun a => ret (a, s)).

(** One access to the shared state. *)
Definition interfere (s : shared_state S) : shared_state S :=
  match sh_others s with
  | [] => s
  | f :: fs => mk_shared (f (sh_state s)) fs
  end.
Definition haccess {A} (f : S -> M R (A * S)) : SM S R A := fun s =>
  let s := interfere s in
  bind (f (sh_state s)) (fun r => ret (r.1, mk_shared r.2 (sh_others s))).
Definition hstate {A} (f : S -> A * S) : SM S R A := haccess (fun s => ret (f s)).
End monad.

Declare Scope handler_scope.
Delimit Scope handler_scope with handler.
Notation "'let^' x := m 'in' k" := (hbind m (fun x => k))
  (at level 10, x name, m at level 100, k at level 200) : handler_scope.
Notation "'do^' m 'in' k" := (hbind m (fun _ => k))
  (at level 10, m at level 100, k at level 200) : handler_scope.
Notation "'try^' x := m 'in' k" := (htry m (fun x => k))
  (at level 10, x name, m at level 100, k at level 200) : handler_scope.
Notation "'try^' ' p := m 'in' k" := (htry m (fun x => match x with p => k end))
  (at level 10, p pattern, m at level 100, k at level 200) : handler_scope.

(** ** Running handlers *)

Section running.
Context {S R : Type}.
Implicit Types (w : world R) (s : shared_state S).

Lemma hbind_done {A B} (m : SM S R A) (f : A -> SM S R B) s w a s' w' :
  m s w = (Done (a, s'), w') -> hbind m f s w = f a s' w'.
Proof. intros E. unfold hbind. by rewrite (bind_done _ _ _ _ _ E). Qed.

Lemma htry_ok {E A B} (m : SM S R (res E A)) (f : A -> SM S R (res E B)) s w a s' w' :
  m s w = (Done (Ok a, s'), w') -> htry m f s w = f a s' w'.
Proof. intros Em. unfold htry. by rewrite (hbind_done _ _ _ _ _ _ _ Em). Qed.

Lemma htry_err {E A B} (m : SM S R (res E A)) (f : A -> SM S R (res E B)) s w e s' w' :
  m s w = (Done (Err e, s'), w') -> htry m f s w = (Done (Err e, s'), w').
Proof. intros Em. unfold htry. by rewrite (hbind_done _ _ _ _ _ _ _ Em). Qed.

Lemma hrun_done {A} (m : M R A) s w a w' : m w = (Done a, w') -> hrun m s w = (Done (a, s), w').
Proof. intros E. unfold hrun. by rewrite (bind_done _ _ _ _ _ E). Qed.

Lemma hstate_done {A} (f : S -> A * S) s w a v :
  f (sh_state (interfere s)) = (a, v) ->
  hstate f s w = (Done (a, mk_shared v (sh_others (interfere s))), w).
Proof. intros E. unfold hstate, haccess, bind, ret. by rewrite E. Qed.

(** An access that changes nothing. *)
Lemma hstate_same {A} (f : S -> A * S) s w a :
  f (sh_state (interfere s)) = (a, sh_state (interfere s)) -> hstate f s w = (Done (a, interfere s), w).
Proof. intros E. rewrite (hstate_done _ _ _ _ _ E). by destruct (interfere s). Qed.
End running.

(** The shared state with no other handler at work. *)
Definition alone {S} (v : S) : shared_state S := mk_shared v [].

(** ** Properties kept by code

    [upholds I m P]: whenever [m] ends with a result, from a shared state on
    which [I] holds and with other handlers that keep [I], the result satisfies
    [P] and [I] holds still.  Nothing is assumed of the world. *)
Definition upheld {S} (I : S -> Prop) (s : shared_state S) : Prop :=
  I (sh_state s) /\ Forall (fun f => forall x, I x -> I (f x)) (sh_others s).

Definition yields {R A} (m : M R A) (P : A -> Prop) : Prop := forall w a w', m w = (Done a, w') -> P a.

Definition upholds {S R A} (I : S -> Prop) (m : SM S R A) (P : A -> Prop) : Prop :=
  forall s w a s' w', upheld I s -> m s w = (Done (a, s'), w') -> upheld I s' /\ P a.

Section upholds.
Context {S R : Type} (I : S -> Prop).

Lemma yields_bind {A B} (m : M R A) (f : A -> M R B) (P : A -> Prop) Q :
  yields m P -> (forall a, P a -> yields (f a) Q) -> yields (bind m f) Q.
Proof.
  intros Hm Hf w b w' E. unfold bind in E. destruct (m w) as [[a| | |] w1] eqn:Em; try done.
  eapply Hf; [eapply Hm; exact Em|exact E].
Qed.

Lemma yields_any {A} (m : M R A) : yields m (fun _ => True).
Proof. by intros w a w' _. Qed.

Lemma yields_ret {A} (a : A) (P : A -> Prop) : P a -> yields (R:=R) (ret a) P.
Proof. intros HP w b w' E. by injection E as <- _. Qed.

Lemma yields_try {E A B} (m : M R (res E A)) (f : A -> M R (res E B)) (P : A -> Prop) (Q : res E B -> Prop) :
  yields m (fun r => match r with Ok a => P a | Err _ => True end) ->
  (forall a, P a -> yields (f a) Q) -> (forall e, Q (Err e)) -> yields (try_ m f) Q.
Proof.
  intros Hm Hf He. eapply yields_bind; [exact Hm|]. intros [a|e] Ha; [by apply Hf|]. apply yields_ret, He.
Qed.

Lemma yields_bind_any {A B} (m : M R A) (f : A -> M R B) Q : (forall a, yields (f a) Q) -> yields (bind m f) Q.
Proof. intros Hf. eapply yields_bind; [apply yields_any|]. by intros a _. Qed.
Lemma yields_try_any {E A B} (m : M R (res E A)) (f : A -> M R (res E B)) (Q : res E B -> Prop) :
  (forall a, yields (f a) Q) -> (forall e, Q (Err e)) -> yields (try_ m f) Q.
Proof. intros Hf He. eapply yields_bind_any. intros [a|e]; [by apply Hf|]. apply yields_ret, He. Qed.

Lemma upholds_ret {A} (a : A) (P : A -> Prop) : P a -> upholds (R:=R) I (hret a) P.
Proof. intros HP s w b s' w' Hs E. by injection E as <- <- _. Qed.

Lemma upholds_bind {A B} (m : SM S R A) (f : A -> SM S R B) (P : A -> Prop) Q :
  upholds I m P -> (forall a, P a -> upholds I (f a) Q) -> upholds I (hbind m f) Q.
Proof.
  intros Hm Hf s w b s' w' Hs E. unfold hbind, bind in E. destruct (m s w) as [[[a s1]| | |] w1] eqn:Em; try done.
  destruct (Hm _ _ _ _ _ Hs Em) as [Hs1 Ha]. exact (Hf a Ha _ _ _ _ _ Hs1 E).
Qed.

Lemma upholds_try {E A B} (m : SM S R (res E A)) (f : A -> SM S R (res E B)) (P : A -> Prop) (Q : res E B -> Prop) :
  upholds I m (fun r => match r with Ok a => P a | Err _ => True end) ->
  (forall a, P a -> upholds I (f a) Q) -> (forall e, Q (Err e)) -> upholds I (htry m f) Q.
Proof.
  intros Hm Hf He. eapply upholds_bind; [exact Hm|]. intros [a|e] Ha; [by apply Hf|]. apply upholds_ret, He.
Qed.

Lemma upholds_run {A} (m : M R A) (P : A -> Prop) : yields m P -> upholds I (hrun m) P.
Proof.
  intros Hm s w a s' w' Hs E. unfold hrun, bind in E. destruct (m w) as [[b| | |] w1] eqn:Em; try done.
  injection E as <- <- _. split; [done|]. by eapply Hm.
Qed.

Lemma upheld_interfere (s : shared_state S) : upheld I s -> upheld I (interfere s).
Proof.
  intros [Hs Ho]. unfold upheld, interfere. destruct (sh_others s) as [|f fs] eqn:E; cbn; [by rewrite E|].
  apply Forall_cons in Ho as [Hf Ho]. split; [by apply Hf|done].
Qed.

Lemma upholds_access {A} (f : S -> M R (A * S)) (P : A -> Prop) :
  (forall x, I x -> yields (f x) (fun r => I r.2 /\ P r.1)) -> upholds I (haccess f) P.
Proof.
  intros Hf s w a s' w' Hs E. apply upheld_interfere in Hs as [Hs Ho]. unfold haccess, bind in E.
  destruct (f _ w) as [[r| | |] w1] eqn:Ef; try done. injection E as <- <- _.
  destruct (Hf _ Hs _ _ _ Ef) as [Hr Ha]. by split.
Qed.

Lemma upholds_state {A} (f : S -> A * S) (P : A -> Prop) :
  (forall x, I x -> I (f x).2 /\ P (f x).1) -> upholds (R:=R) I (hstate f) P.
Proof. intros Hf. apply upholds_access. intros x Hx. apply yields_ret. by apply Hf. Qed.

Lemma upholds_weaken {A} (m : SM S R A) (P Q : A -> Prop) : upholds I m P -> (forall a, P a -> Q a) -> upholds I m Q.
Proof. intros Hm HPQ s w a s' w' Hs E. destruct (Hm _ _ _ _ _ Hs E). split; [done|by apply HPQ]. Qed.

(** The same, with nothing to say of the results. *)
Lemma upholds_bind_any {A B} (m : SM S R A) (f : A -> SM S R B) (Q : B -> Prop) :
  upholds I m (fun _ => True) -> (forall a, upholds I (f a) Q) -> upholds I (hbind m f) Q.
Proof. intros Hm Hf. eapply upholds_bind; [exact Hm|]. by intros a _. Qed.
Lemma upholds_try_any {E A B} (m : SM S R (res E A)) (f : A -> SM S R (res E B)) :
  upholds I m (fun _ => True) -> (forall a, upholds I (f a) (fun _ => True)) -> upholds I (htry m f) (fun _ => True).
Proof. intros Hm Hf. eapply upholds_bind_any; [exact Hm|]. intros [a|e]; [by apply Hf|]. by apply upholds_ret. Qed.
Lemma upholds_run_any {A} (m : M R A) : upholds I (hrun m) (fun _ => True).
Proof. apply upholds_run, yields_any. Qed.
End upholds.

(** What a function returns, whatever its commands answered. *)
Ltac solve_yields :=
  repeat first
    [ apply yields_try_any; [intros ?|done]
    | apply yields_bind_any; intros ?
    | case_match
    | apply yields_ret; cbn; by try split_and? ].
