(* ===== verification/Lease.v ===== *)
(** * The mutex protocol

    The scripts [acquire.lua], [release.lua], [extend.lua] and the
    break-glass [DEL] seen as one component over one lock key and its fence
    counter: the abstract specification is a lease ([lease]: who holds, until
    when, and the fence counter), [mutex_refines] shows that the scripts
    implement it on every server with the documented behaviour, and the
    theorems on traces (mutual exclusion, fences) are proved from it. *)

From S2P Require Import Prelude Core Redis Scripts.

(** [single.rs: fence_key_for]. *)
Definition fence_key_for (key : string) : string := "{" +:+ key +:+ "}:fence".

Lemma fence_key_ne key : key <> fence_key_for key.
Proof.
  intros E. apply (f_equal String.length) in E. unfold fence_key_for in E.
  rewrite !string_app_length in E. cbn [String.length] in E. lia.
Qed.

(** ** The specification *)

Record lease := mk_lease {
  l_now : Z;
  l_holder : option (string * Z);        (* token and deadline *)
  l_fence : option (Z * option Z);       (* counter and deadline *)
}.

Definition fence_count (l : lease) : Z := match l_fence l with Some (c, _) => c | None => 0 end.

(** Allocate the next fence and keep the counter for [fttl] ms. *)
Definition lease_bump (status fttl : Z) (l : lease) : res rerr reply * lease :=
  let c := fence_count l + 1 in
  if c <=? i64_max
  then (Ok (RPair status c), mk_lease (l_now l) (l_holder l) (Some (c, Some (l_now l + fttl))))
  else (Err Overflow, l).

Definition lease_hold (tok : string) (ttl : Z) (l : lease) : lease :=
  mk_lease (l_now l) (Some (tok, l_now l + ttl)) (l_fence l).

Definition lease_acquire (tok : string) (ttl fttl : Z) (l : lease) : res rerr reply * lease :=
  match l_holder l with
  | None => lease_bump 1 fttl (lease_hold tok ttl l)
  | Some (t, _) =>
      if String.eqb t tok then lease_bump 2 fttl (lease_hold tok ttl l) else (Ok (RPair 0 0), l)
  end.

Definition holds (tok : string) (l : lease) : bool :=
  match l_holder l with Some (t, _) => String.eqb t tok | None => false end.

Definition lease_free (l : lease) : lease := mk_lease (l_now l) None (l_fence l).

Definition lease_release (tok : string) (l : lease) : res rerr reply * lease :=
  if holds tok l then (Ok (RInt 1), lease_free l) else (Ok (RInt 0), l).

Definition lease_extend (tok : string) (ttl fttl : Z) (l : lease) : res rerr reply * lease :=
  if holds tok l
  then (Ok (RInt 1),
        mk_lease (l_now l) (Some (tok, l_now l + ttl))
          ((fun c => (c.1, Some (l_now l + fttl))) <$> l_fence l))
  else (Ok (RInt 0), l).

Definition lease_force (l : lease) : res rerr reply * lease :=
  (Ok (RInt (if l_holder l is Some _ then 1 else 0)), lease_free l).

(** The operations, and the scripts that implement them. *)
Inductive lop :=
| LAcquire (tok : string) (ttl fttl : Z)
| LRelease (tok : string)
| LExtend (tok : string) (ttl fttl : Z)
| LForce.

Definition lease_op (op : lop) : lease -> res rerr reply * lease :=
  match op with
  | LAcquire tok ttl fttl => lease_acquire tok ttl fttl
  | LRelease tok => lease_release tok
  | LExtend tok ttl fttl => lease_extend tok ttl fttl
  | LForce => lease_force
  end.

Definition lop_script {R} `{Redis R} (key : string) (op : lop) : cmd R reply :=
  match op with
  | LAcquire tok ttl fttl =>
      eval_script ACQUIRE [key; fence_key_for key] [tok; z_to_string ttl; z_to_string fttl]
  | LRelease tok => eval_script RELEASE [key; fence_key_for key] [tok]
  | LExtend tok ttl fttl =>
      eval_script EXTEND [key; fence_key_for key] [tok; z_to_string ttl; z_to_string fttl]
  | LForce => (let! n := r_del key in cret (RInt n))%script
  end.

(** A time to live that [PX] accepts at this instant. *)
Definition ttl_fits (now ttl : Z) : Prop := 0 < ttl /\ now + ttl <= i64_max.

Definition lop_fits (now : Z) (op : lop) : Prop :=
  match op with
  | LAcquire _ ttl fttl | LExtend _ ttl fttl => ttl_fits now ttl /\ ttl_fits now fttl
  | _ => True
  end.

(** Time passing: a deadline in the past has expired, one in the future has
    not; the instant of the deadline itself is left open. *)
Definition expires {A} (now : Z) (dl : option Z) (x y : option A) : Prop :=
  match dl with
  | None => y = x
  | Some t => (now < t /\ y = x) \/ (t < now /\ y = None) \/ (now = t /\ (y = x \/ y = None))
  end.

Definition lease_elapsed (dt : Z) (l l' : lease) : Prop :=
  l_now l' = l_now l + dt /\
  expires (l_now l') (snd <$> l_holder l) (l_holder l) (l_holder l') /\
  expires (l_now l') (l_fence l ≫= snd) (l_fence l) (l_fence l').

(** ** What the server must look like *)

Definition holder_entry (h : string * Z) : rentry := mk_entry (VStr h.1) (Some h.2).
Definition fence_entry (c : Z * option Z) : rentry := mk_entry (VStr (z_to_string c.1)) c.2.

(** The key is free or holds a token with a deadline; the counter is absent
    or a number. *)
Record view (key : string) (d : db) (l : lease) : Prop := mk_view {
  view_now : db_now d = l_now l;
  view_holder : db_live d !! key = holder_entry <$> l_holder l;
  view_fence : db_live d !! fence_key_for key = fence_entry <$> l_fence l;
  view_count : 0 <= fence_count l <= i64_max;
  view_clock : 0 <= l_now l;
}.

(** Everything but the lock and its counter. *)
Definition same_elsewhere (key : string) (d d' : db) : Prop :=
  db_now d' = db_now d /\
  forall k, k <> key -> k <> fence_key_for key -> db_live d' !! k = db_live d !! k.

Lemma same_elsewhere_refl key d : same_elsewhere key d d.
Proof. by split. Qed.

Lemma same_elsewhere_put key k v dl d d' :
  k = key \/ k = fence_key_for key -> same_elsewhere key d d' ->
  same_elsewhere key d (put k v dl d').
Proof.
  intros Hk [H1 H2]. split; [done|]. intros k' Hn Hn'. cbn.
  rewrite lookup_insert_ne; [by apply H2 | by destruct Hk; congruence].
Qed.

Lemma same_elsewhere_drop key k d d' :
  k = key \/ k = fence_key_for key -> same_elsewhere key d d' ->
  same_elsewhere key d (drop_key k d').
Proof.
  intros Hk [H1 H2]. split; [done|]. intros k' Hn Hn'. cbn.
  rewrite lookup_delete_ne; [by apply H2 | by destruct Hk; congruence].
Qed.

#[export] Hint Resolve same_elsewhere_refl same_elsewhere_put same_elsewhere_drop : palisade.
#[export] Hint Resolve fence_key_ne : palisade.

(** ** The commands, on such a server *)

Section commands.
Variables (key : string).
Abbreviation fk := (fence_key_for key).

Lemma fence_key_ne' : fk <> key.
Proof. apply not_eq_sym, fence_key_ne. Qed.

Lemma int_at_ttl {R} (l : list string) i z now (s : R) :
  l !! (i - 1)%nat = Some (z_to_string z) -> 0 <= now -> ttl_fits now z ->
  int_at l i s = (Ok z, s).
Proof.
  intros E Hn [H1 H2]. unfold int_at, cbind, at_. rewrite E. unfold cret.
  rewrite string_to_z_to_string. unfold i64_min, i64_max in *.
  rewrite (proj2 (Z.leb_le _ _)), (proj2 (Z.leb_le _ _)) by lia. done.
Qed.

Lemma num_at_z {R} (l : list string) i z (s : R) :
  l !! (i - 1)%nat = Some (z_to_string z) -> num_at l i s = (Ok z, s).
Proof. intros E. unfold num_at, cbind, at_. rewrite E. unfold cret. by rewrite string_to_z_to_string. Qed.

Lemma expire_ok_fits d ttl : ttl_fits (db_now d) ttl -> expire_ok d ttl = true.
Proof. intros [H1 H2]. unfold expire_ok. apply andb_true_intro. by rewrite Z.ltb_lt, Z.leb_le. Qed.

Lemma doc_get_view d l : view key d l ->
  doc_get key d = (Ok (fst <$> l_holder l), d).
Proof.
  intros V. unfold doc_get, doc_read. rewrite (view_holder _ _ _ V).
  by destruct (l_holder l) as [[t dl]|].
Qed.

Lemma doc_set_free d l tok ttl : view key d l -> l_holder l = None -> ttl_fits (l_now l) ttl ->
  doc_set key tok true (Some ttl) d = (Ok true, put key (VStr tok) (Some (l_now l + ttl)) d).
Proof.
  intros V E F. unfold doc_set. rewrite expire_ok_fits by by rewrite (view_now _ _ _ V).
  rewrite (view_holder _ _ _ V), E. cbn. by rewrite (view_now _ _ _ V).
Qed.

Lemma doc_set_held d l h tok ttl : view key d l -> l_holder l = Some h -> ttl_fits (l_now l) ttl ->
  doc_set key tok true (Some ttl) d = (Ok false, d).
Proof.
  intros V E F. unfold doc_set. rewrite expire_ok_fits by by rewrite (view_now _ _ _ V).
  by rewrite (view_holder _ _ _ V), E.
Qed.

Lemma put_hold_view d l tok ttl : view key d l ->
  view key (put key (VStr tok) (Some (l_now l + ttl)) d) (lease_hold tok ttl l).
Proof.
  intros [V1 V2 V3 V4 V5]. split; cbn; [done|by rewrite lookup_insert_eq| |done..].
  rewrite lookup_insert_ne by apply fence_key_ne. done.
Qed.

Lemma doc_pexpire_held d l tok dl ttl : view key d l -> l_holder l = Some (tok, dl) ->
  ttl_fits (l_now l) ttl ->
  doc_pexpire key ttl d = (Ok 1, put key (VStr tok) (Some (l_now l + ttl)) d).
Proof.
  intros V E [F1 F2]. unfold doc_pexpire. rewrite (view_holder _ _ _ V), E. cbn.
  rewrite (proj2 (Z.leb_gt _ _)) by lia. rewrite (view_now _ _ _ V).
  by rewrite (proj2 (Z.leb_le _ _)) by lia.
Qed.

Lemma doc_incr_view d l : view key d l ->
  doc_incrby fk 1 d =
    if fence_count l + 1 <=? i64_max
    then (Ok (fence_count l + 1),
          put fk (VStr (z_to_string (fence_count l + 1))) (l_fence l ≫= snd) d)
    else (Err Overflow, d).
Proof.
  intros [V1 V2 V3 V4 V5]. unfold doc_incrby, doc_read, update, deadline_of. rewrite V3.
  unfold fence_count in *.
  destruct (l_fence l) as [[c dl]|];
    cbn [fmap option_fmap option_map fence_entry e_val as_str fst snd mbind option_bind e_deadline];
    [rewrite string_to_z_to_string|change (string_to_z "0") with (Some 0)];
    cbv iota; rewrite (proj2 (Z.leb_le i64_min _)) by (unfold i64_min; lia); done.
Qed.

Lemma doc_pexpire_fence d now c dl fttl :
  db_live d !! fk = Some (fence_entry (c, dl)) -> db_now d = now -> ttl_fits now fttl ->
  doc_pexpire fk fttl d = (Ok 1, put fk (VStr (z_to_string c)) (Some (now + fttl)) d).
Proof.
  intros E En [F1 F2]. unfold doc_pexpire. rewrite E, En.
  rewrite (proj2 (Z.leb_gt _ _)) by lia. by rewrite (proj2 (Z.leb_le _ _)) by lia.
Qed.

Lemma put_fence_view d l c dl : view key d l -> 0 <= c <= i64_max ->
  view key (put fk (VStr (z_to_string c)) dl d) (mk_lease (l_now l) (l_holder l) (Some (c, dl))).
Proof.
  intros [V1 V2 V3 V4 V5] Hc. split; cbn; [done| |by rewrite lookup_insert_eq|done..].
  rewrite lookup_insert_ne by apply fence_key_ne'. done.
Qed.

Lemma drop_view d l : view key d l -> view key (drop_key key d) (lease_free l).
Proof.
  intros [V1 V2 V3 V4 V5]. split; cbn; [done|by rewrite lookup_delete_eq| |done..].
  rewrite lookup_delete_ne by apply fence_key_ne. done.
Qed.
End commands.

(** ** The scripts implement the specification *)

(** Run one command of a script whose effect is known. *)
Ltac run_with H := rewrite (cbind_ok _ _ _ _ _ H); cbv beta.
Ltac run_at := match goal with
  | |- context [cbind (at_ ?l ?i) ?f ?s] => erewrite (cbind_ok (at_ l i) f s) by reflexivity; cbv beta
  end.

(** Commands of the reference server as the documented effects. *)
Ltac to_doc := change (@r_set db _) with doc_set in *; change (@r_get db _) with doc_get in *;
  change (@r_del db _) with doc_del in *; change (@r_pexpire db _) with doc_pexpire in *;
  change (@r_incr db _) with (fun k => doc_incrby k 1) in *;
  change (@r_exists db _) with doc_exists in *; change (@r_hget db _) with doc_hget in *;
  change (@r_hexists db _) with doc_hexists in *; change (@r_hset db _) with doc_hset in *;
  change (@r_hdel db _) with doc_hdel in *; change (@r_hincrby db _) with doc_hincrby in *;
  change (@r_zadd db _) with doc_zadd in *; change (@r_zcard db _) with doc_zcard in *;
  change (@r_zscore db _) with doc_zscore in *; change (@r_zrem db _) with doc_zrem in *;
  change (@r_zremrange db _) with doc_zremrange in *; change (@r_llen db _) with doc_llen in *;
  change (@r_lrange_last db _) with doc_lrange_last in *; change (@r_rpop db _) with doc_rpop in *;
  change (@r_lpush db _) with doc_lpush in *; change (@r_lrem db _) with doc_lrem in *;
  change (@r_lpos db _) with doc_lpos in *; cbv beta in *.

Section scripts.
Variable key : string.
Abbreviation fk := (fence_key_for key).

(** What each script leaves: the specified reply, a server that still looks
    like the specified lease, and every other key untouched. *)
Definition refines (d : db) (rd : res rerr reply * db) (rl : res rerr reply * lease) : Prop :=
  rd.1 = rl.1 /\ view key rd.2 rl.2 /\ same_elsewhere key d rd.2.

Lemma refines_intro d r d' l' :
  view key d' l' -> same_elsewhere key d d' -> refines d (r, d') (r, l').
Proof. intros V S. exact (conj eq_refl (conj V S)). Qed.

Lemma bump_refines d0 d l st ARGV fttl :
  view key d l -> same_elsewhere key d0 d -> ttl_fits (l_now l) fttl ->
  ARGV !! 2%nat = Some (z_to_string fttl) ->
  refines d0
    ((let! k2 := at_ [key; fk] 2 in
      let! fence := r_incr k2 in
      let! fpx := int_at ARGV 3 in
      do! r_pexpire k2 fpx in
      cret (RPair st fence))%script d)
    (lease_bump st fttl l).
Proof.
  intros V S F E. run_at. to_doc. unfold lease_bump.
  pose proof (doc_incr_view _ _ _ V) as I. pose proof (view_count _ _ _ V).
  destruct (_ <=? _) eqn:Hc; zbool.
  - run_with I. assert (Hr : 0 <= fence_count l + 1 <= i64_max) by lia.
    pose proof (put_fence_view _ _ _ _ (l_fence l ≫= snd) V Hr) as V1.
    run_with (int_at_ttl ARGV 3 _ _ (put fk (VStr (z_to_string (fence_count l + 1))) (l_fence l ≫= snd) d)
                E (view_clock _ _ _ V) F).
    run_with (doc_pexpire_fence key _ (l_now l) (fence_count l + 1) (l_fence l ≫= snd) fttl
                (view_fence _ _ _ V1) (view_now _ _ _ V1) F).
    apply refines_intro; [by apply (put_fence_view _ _ _ _ _ V1)|auto with palisade].
  - rewrite (cbind_err _ _ _ _ _ I). by apply refines_intro.
Qed.

Lemma acquire_refines d l tok ttl fttl :
  view key d l -> lop_fits (l_now l) (LAcquire tok ttl fttl) ->
  refines d (lop_script key (LAcquire tok ttl fttl) d) (lease_acquire tok ttl fttl l).
Proof.
  intros V [F1 F2]. pose proof (view_clock _ _ _ V) as P.
  unfold lop_script, eval_script, acquire_lua. run_at. run_at.
  run_with (int_at_ttl [tok; z_to_string ttl; z_to_string fttl] 2 _ _ d eq_refl P F1). to_doc.
  unfold lease_acquire. destruct (l_holder l) as [[t dl]|] eqn:Hh.
  - run_with (doc_set_held _ _ _ _ tok _ V Hh F1). run_with (doc_get_view _ _ _ V). rewrite Hh.
    cbn [is_arg fmap option_fmap option_map fst lookup list_lookup Nat.sub].
    destruct (String.eqb t tok) eqn:E; zbool; [subst t|apply refines_intro; auto with palisade].
    run_with (doc_pexpire_held _ _ _ _ _ _ V Hh F1).
    apply bump_refines; [by apply put_hold_view|auto with palisade|done|done].
  - run_with (doc_set_free _ _ _ tok _ V Hh F1).
    apply bump_refines; [by apply put_hold_view|auto with palisade|done|done].
Qed.

Lemma doc_del_view d l : view key d l ->
  doc_del key d = (Ok (if l_holder l is Some _ then 1 else 0), drop_key key d).
Proof.
  intros V. unfold doc_del. rewrite (view_holder _ _ _ V). by destruct (l_holder l).
Qed.

Lemma is_arg_holds (l : lease) tok rest : is_arg (fst <$> l_holder l) (tok :: rest) 1 = holds tok l.
Proof. unfold holds. by destruct (l_holder l) as [[t dl]|]. Qed.

Lemma release_refines d l tok :
  view key d l -> refines d (lop_script key (LRelease tok) d) (lease_release tok l).
Proof.
  intros V. unfold lop_script, eval_script, release_lua. run_at. to_doc.
  run_with (doc_get_view _ _ _ V). rewrite is_arg_holds. unfold lease_release.
  destruct (holds tok l) eqn:E; [|apply refines_intro; auto with palisade].
  run_with (doc_del_view _ _ V). unfold holds in E. destruct (l_holder l); [|done].
  apply refines_intro; [by apply drop_view|auto with palisade].
Qed.

Lemma force_refines d l : view key d l -> refines d (lop_script key LForce d) (lease_force l).
Proof.
  intros V. unfold lop_script. to_doc. run_with (doc_del_view _ _ V).
  apply refines_intro; [by apply drop_view|auto with palisade].
Qed.

Lemma extend_fence_refines d l fttl : view key d l -> ttl_fits (l_now l) fttl ->
  exists d' n, doc_pexpire fk fttl d = (Ok n, d') /\ same_elsewhere key d d' /\
    view key d' (mk_lease (l_now l) (l_holder l) ((fun c => (c.1, Some (l_now l + fttl))) <$> l_fence l)).
Proof.
  intros V F. pose proof (view_count _ _ _ V) as C. pose proof (view_fence _ _ _ V) as Vf.
  unfold fence_count in C. destruct (l_fence l) as [[c dl]|] eqn:E; cbn in Vf.
  - do 2 eexists. rewrite (doc_pexpire_fence _ _ _ _ _ _ Vf (view_now _ _ _ V) F).
    split_and!; [done|auto with palisade|]. by apply put_fence_view.
  - exists d, 0. unfold doc_pexpire. rewrite Vf. split_and!; [done|auto with palisade|].
    cbn. destruct l; cbn in *. by subst.
Qed.

Lemma extend_refines d l tok ttl fttl :
  view key d l -> lop_fits (l_now l) (LExtend tok ttl fttl) ->
  refines d (lop_script key (LExtend tok ttl fttl) d) (lease_extend tok ttl fttl l).
Proof.
  intros V [F1 F2]. pose proof (view_clock _ _ _ V) as P.
  unfold lop_script, eval_script, extend_lua. run_at. to_doc.
  run_with (doc_get_view _ _ _ V). rewrite is_arg_holds. unfold lease_extend.
  destruct (holds tok l) eqn:E; [|apply refines_intro; auto with palisade].
  run_with (int_at_ttl [tok; z_to_string ttl; z_to_string fttl] 2 _ _ d eq_refl P F1).
  unfold holds in E. destruct (l_holder l) as [[t dl]|] eqn:Hh; [|done]. zbool. subst t.
  run_with (doc_pexpire_held _ _ _ _ _ _ V Hh F1). run_at.
  pose proof (put_hold_view _ _ _ tok ttl V) as V1.
  run_with (int_at_ttl [tok; z_to_string ttl; z_to_string fttl] 3 _ _
              (put key (VStr tok) (Some (l_now l + ttl)) d) eq_refl P F2).
  destruct (extend_fence_refines _ _ _ V1 F2) as (d' & n & Ep & Se & V2). run_with Ep.
  apply refines_intro; [done|]. destruct Se as [S1 S2]. split; [by rewrite S1|].
  intros k' N1 N2. rewrite S2 by done. cbn. by rewrite lookup_insert_ne.
Qed.

Lemma lop_refines d l op : view key d l -> lop_fits (l_now l) op ->
  refines d (lop_script key op d) (lease_op op l).
Proof.
  destruct op; intros V F; cbn [lease_op];
    auto using acquire_refines, release_refines, extend_refines, force_refines.
Qed.
End scripts.

(** ** Traces *)

(** What happens to the key: an operation by some client, or time. *)
Inductive event := EOp (op : lop) | ETime (dt : Z).

Definition event_run {R} `{Redis R} (key : string) (ev : event) (s : R) : option (res rerr reply) * R :=
  match ev with
  | EOp op => let '(r, s') := lop_script key op s in (Some r, s')
  | ETime dt => (None, r_elapse dt s)
  end.

Fixpoint run_events {R} `{Redis R} (key : string) (evs : list event) (s : R)
    {struct evs} : list (option (res rerr reply)) * R :=
  match evs with
  | [] => ([], s)
  | ev :: evs =>
      let '(o, s1) := event_run key ev s in
      let '(os, s2) := run_events key evs s1 in (o :: os, s2)
  end.

Fixpoint events_ok (now : Z) (evs : list event) {struct evs} : Prop :=
  match evs with
  | [] => True
  | EOp op :: evs => lop_fits now op /\ events_ok now evs
  | ETime dt :: evs => 0 <= dt /\ events_ok (now + dt) evs
  end.

Fixpoint total_time (evs : list event) {struct evs} : Z :=
  match evs with
  | [] => 0
  | EOp _ :: evs => total_time evs
  | ETime dt :: evs => dt + total_time evs
  end.

(** The specification's steps. *)
Inductive lease_step (l : lease) : event -> option (res rerr reply) -> lease -> Prop :=
| step_op op : lease_step l (EOp op) (Some (lease_op op l).1) (lease_op op l).2
| step_time dt l' : lease_elapsed dt l l' -> lease_step l (ETime dt) None l'.

Inductive lease_run : lease -> list event -> list (option (res rerr reply)) -> lease -> Prop :=
| run_nil l : lease_run l [] [] l
| run_cons l ev o l1 evs os l2 :
    lease_step l ev o l1 -> lease_run l1 evs os l2 -> lease_run l (ev :: evs) (o :: os) l2.

Lemma lease_op_now op l : l_now (lease_op op l).2 = l_now l.
Proof.
  destruct op; cbn [lease_op]; unfold lease_acquire, lease_release, lease_extend, lease_force, lease_bump;
    repeat case_goal; done.
Qed.

Section refinement.
Context {R : Type} `{RedisLaws R} (key : string).

Lemma meets_lop op : meets (lop_script (R:=R) key op) (lop_script key op).
Proof. destruct op; cbn [lop_script]; try apply meets_script. solve_meets. Qed.

(** One operation, on any server. *)
Lemma lop_refines_any (s : R) l op : view key (r_db s) l -> lop_fits (l_now l) op ->
  (lop_script key op s).1 = (lease_op op l).1 /\
  view key (r_db (lop_script key op s).2) (lease_op op l).2 /\
  same_elsewhere key (r_db s) (r_db (lop_script key op s).2).
Proof.
  intros V F. pose proof (lop_refines key _ _ _ V F) as Hr. pose proof (meets_lop op s) as E.
  unfold refines in Hr. rewrite <- E in Hr. exact Hr.
Qed.

Lemma expires_lookup {A} (f : A -> rentry) (dd : A -> option Z) (x : option A) dt k (d d' : db) :
  (forall a, e_deadline (f a) = dd a) -> elapsed dt d d' -> db_live d !! k = f <$> x ->
  exists y, expires (db_now d') (x ≫= dd) x y /\ db_live d' !! k = f <$> y.
Proof.
  intros Hd [En Es Ek] Hk. destruct x as [a|]; cbn in *.
  - destruct (db_live d' !! k) as [e|] eqn:Hk'.
    + destruct (Es _ _ Hk') as [E1 E2]. assert (e = f a) as -> by congruence.
      exists (Some a). split; [|done]. destruct (dd a) as [t|] eqn:Ht; [|done].
      assert (db_now d' <= t) by (apply E2; by rewrite Hd).
      destruct (Z.eq_dec (db_now d') t); [right; right; auto|left; split; [lia|done]].
    + exists None. split; [|done]. destruct (dd a) as [t|] eqn:Ht; cbn.
      * destruct (Z.lt_trichotomy (db_now d') t) as [|[|]]; [|right; right; auto|right; left; auto].
        rewrite (Ek k (f a)) in Hk'; [done|done|]. intros t' E. rewrite Hd, Ht in E. by injection E as <-.
      * rewrite (Ek k (f a)) in Hk'; [done|done|]. intros t' E. rewrite Hd, Ht in E. done.
  - exists None. split; [done|]. destruct (db_live d' !! k) as [e|] eqn:Hk'; [|done].
    destruct (Es _ _ Hk') as [E1 _]. congruence.
Qed.

Lemma elapse_refines dt d d' l : elapsed dt d d' -> 0 <= dt -> view key d l ->
  exists l', lease_elapsed dt l l' /\ view key d' l'.
Proof.
  intros E Hdt [V1 V2 V3 V4 V5].
  destruct (expires_lookup holder_entry (Some ∘ snd) _ _ _ _ _ (fun a => eq_refl) E V2) as (h & Eh & Vh).
  destruct (expires_lookup fence_entry snd _ _ _ _ _ (fun a => eq_refl) E V3) as (c & Ec & Vc).
  pose proof (elapsed_now _ _ _ E) as En.
  exists (mk_lease (db_now d') h c). split; [split_and!; cbn|split; cbn; try done].
  - congruence.
  - by destruct (l_holder l) as [[]|].
  - done.
  - unfold fence_count in *. cbn. unfold expires in Ec.
    pose proof (eq_refl : (0 <=? i64_max) = true). zbool.
    destruct (l_fence l) as [[v [t|]]|]; cbn in *; [|by subst c..].
    destruct Ec as [[? ->]|[[? ->]|[? [->| ->]]]]; done || lia.
  - rewrite En, V1. lia.
Qed.

Lemma event_refines ev (s : R) l : view key (r_db s) l -> events_ok (l_now l) [ev] ->
  exists l', lease_step l ev (event_run key ev s).1 l' /\ view key (r_db (event_run key ev s).2) l'.
Proof.
  intros V F. destruct ev as [op|dt]; cbn in F; destruct F as [F _].
  - destruct (lop_refines_any _ _ _ V F) as (E & V' & _). cbn [event_run].
    destruct (lop_script key op s) as [r s']. cbn [fst snd] in *. subst r.
    eexists. split; [constructor|done].
  - destruct (elapse_refines _ _ _ _ (elapse_law dt s F) F V) as (l' & E & V').
    exists l'. split; [by constructor|done].
Qed.

Lemma lease_step_now l ev o l' : lease_step l ev o l' -> l_now l' = l_now l + total_time [ev].
Proof.
  intros S. inversion S; subst; cbn [total_time].
  - rewrite lease_op_now. lia.
  - match goal with E : lease_elapsed _ _ _ |- _ => destruct E as [E _]; rewrite E end. lia.
Qed.

Lemma events_ok_cons now ev evs :
  events_ok now (ev :: evs) -> events_ok now [ev] /\ events_ok (now + total_time [ev]) evs.
Proof. destruct ev; cbn; rewrite ?Z.add_0_r; tauto. Qed.

Lemma events_refine evs : forall (s : R) l, view key (r_db s) l -> events_ok (l_now l) evs ->
  exists l', lease_run l evs (run_events key evs s).1 l' /\ view key (r_db (run_events key evs s).2) l'.
Proof.
  induction evs as [|ev evs IH]; intros s l V F.
  - exists l. split; [constructor|done].
  - destruct (events_ok_cons _ _ _ F) as [F1 F2].
    destruct (event_refines _ _ _ V F1) as (l1 & S & V1).
    rewrite <- (lease_step_now _ _ _ _ S) in F2. cbn [run_events].
    destruct (event_run key ev s) as [o s1]. cbn [fst snd] in *.
    destruct (IH _ _ V1 F2) as (l2 & S2 & V2).
    destruct (run_events key evs s1) as [os s2]. cbn [fst snd] in *.
    exists l2. split; [by econstructor|done].
Qed.
End refinement.

(** *** Reasoning on the specification *)

Lemma total_time_nonneg now evs : events_ok now evs -> 0 <= total_time evs.
Proof.
  revert now. induction evs as [|[op|dt] evs IH]; intros now F; cbn in *; [lia|destruct F; eauto|].
  destruct F as [? F]. specialize (IH _ F). lia.
Qed.

Lemma total_time_cons ev evs : total_time (ev :: evs) = total_time [ev] + total_time evs.
Proof. destruct ev; cbn; lia. Qed.

Lemma lease_run_now l evs os l' : lease_run l evs os l' -> l_now l' = l_now l + total_time evs.
Proof.
  induction 1 as [|l ev o l1 evs os l2 S _ IH]; [cbn; lia|].
  rewrite total_time_cons, IH, (lease_step_now _ _ _ _ S). lia.
Qed.

(** An invariant of the steps that [evs] may take, up to an instant [T]. *)
Lemma lease_run_invariant (P : lease -> Prop) (ok : event -> Prop) (T : Z) :
  (forall l ev o l', P l -> ok ev -> lease_step l ev o l' -> events_ok (l_now l) [ev] ->
     l_now l' < T -> P l') ->
  forall evs l os l', P l -> Forall ok evs -> events_ok (l_now l) evs ->
    lease_run l evs os l' -> l_now l' < T -> P l'.
Proof.
  intros Hstep evs l os l' HP Hok F Hr. induction Hr as [|l ev o l1 evs os l2 S Hr IH]; [done|].
  intros HT. rewrite Forall_cons in Hok. destruct Hok as [Ho Hos].
  destruct (events_ok_cons _ _ _ F) as [F1 F2]. pose proof (total_time_nonneg _ _ F2).
  pose proof (lease_run_now _ _ _ _ Hr). rewrite <- (lease_step_now _ _ _ _ S) in F2.
  apply IH; [|done..]. eapply Hstep; eauto. lia.
Qed.

(** **** Who holds *)

(** Events that leave [a]'s lease of [ttl] ms in force: anything by others,
    and by [a] itself refreshes at least as long; not [a]'s own release nor
    the administrator's break-glass. *)
Definition event_keeps (a : string) (ttl : Z) (ev : event) : Prop :=
  match ev with
  | EOp (LAcquire t ttl' _) | EOp (LExtend t ttl' _) => t = a -> ttl <= ttl'
  | EOp (LRelease t) => t <> a
  | EOp LForce => False
  | ETime _ => True
  end.

Definition held_until (a : string) (T : Z) (l : lease) : Prop :=
  exists dl, l_holder l = Some (a, dl) /\ T <= dl.

Lemma bump_holder st fttl l : l_holder (lease_bump st fttl l).2 = l_holder l.
Proof. unfold lease_bump. by destruct (_ <=? _). Qed.

Lemma held_until_step a ttl0 T l ev o l' :
  held_until a T l -> event_keeps a ttl0 ev -> T - ttl0 <= l_now l ->
  lease_step l ev o l' -> l_now l' < T -> held_until a T l'.
Proof.
  intros (dl & Hh & HT) Hk Hn S Ht. destruct S as [op|dt l' (En & Eh & _)].
  - destruct op as [t ttl fttl|t|t ttl fttl|]; cbn [lease_op event_keeps] in *; [..|done].
    + unfold lease_acquire. rewrite Hh. destruct (String.eqb_spec a t) as [<-|]; [|by exists dl].
      exists (l_now l + ttl). rewrite bump_holder. cbn. specialize (Hk eq_refl). split; [done|lia].
    + unfold lease_release, holds. rewrite Hh.
      destruct (String.eqb_spec a t) as [<-|]; [done|by exists dl].
    + unfold lease_extend, holds. rewrite Hh.
      destruct (String.eqb_spec a t) as [<-|]; [|by exists dl].
      exists (l_now l + ttl). specialize (Hk eq_refl). cbn. split; [done|lia].
  - exists dl. split; [|done]. rewrite Hh in Eh. cbn in Eh.
    destruct Eh as [[_ E]|[[Hlt _]|[Heq _]]]; [done|lia|lia].
Qed.

Lemma lease_run_held a ttl l evs os l' :
  held_until a (l_now l + ttl) l -> Forall (event_keeps a ttl) evs -> events_ok (l_now l) evs ->
  lease_run l evs os l' -> total_time evs < ttl -> held_until a (l_now l + ttl) l'.
Proof.
  intros Hh Hk F Hr Ht. set (T := l_now l + ttl).
  enough (l_now l <= l_now l' /\ held_until a T l') by tauto.
  eapply (lease_run_invariant (fun x => l_now l <= l_now x /\ held_until a T x) (event_keeps a ttl) T);
    [|by split|exact Hk|exact F|exact Hr|].
  - intros x ev o x' [Hx Hhx] Hev S Fx HT.
    pose proof (lease_step_now _ _ _ _ S). pose proof (total_time_nonneg _ _ Fx). split; [lia|].
    eapply (held_until_step a ttl); eauto. unfold T. lia.
  - rewrite (lease_run_now _ _ _ _ Hr). unfold T. lia.
Qed.

(** **** Fences *)

Definition event_retains (F : Z) (ev : event) : Prop :=
  match ev with
  | EOp (LAcquire _ _ fttl) | EOp (LExtend _ _ fttl) => F <= fttl
  | _ => True
  end.

(** The counter is at least [f] and lives until [T]. *)
Definition fence_from (f T : Z) (l : lease) : Prop :=
  exists c dl, l_fence l = Some (c, Some dl) /\ f <= c /\ T <= dl.

Lemma bump_fence_from st fttl l f T : fence_from f T l -> T <= l_now l + fttl ->
  fence_from f T (lease_bump st fttl l).2.
Proof.
  intros (c & dl & E & Hf & HT) Hn. unfold lease_bump, fence_count. rewrite E.
  destruct (_ <=? _); [|by exists c, dl]. eexists _, _. cbn. split; [done|lia].
Qed.

Lemma fence_from_step f F T l ev o l' :
  fence_from f T l -> event_retains F ev -> T - F <= l_now l ->
  lease_step l ev o l' -> l_now l' < T -> fence_from f T l'.
Proof.
  intros Hl Hk Hn S Ht. destruct S as [op|dt l' (En & _ & Ef)].
  - destruct op as [t ttl fttl|t|t ttl fttl|]; cbn [lease_op event_retains] in *.
    + unfold lease_acquire. destruct (l_holder l) as [[t' dl]|]; [destruct (String.eqb t' t)|];
        try (apply bump_fence_from; [exact Hl|cbn; lia]); exact Hl.
    + unfold lease_release. by destruct (holds t l).
    + unfold lease_extend. destruct (holds t l); [|done].
      destruct Hl as (c & dl & E & Hf & HT). rewrite E. eexists _, _. cbn. split; [done|lia].
    + exact Hl.
  - destruct Hl as (c & dl & E & Hf & HT). rewrite E in Ef. cbn in Ef.
    destruct Ef as [[_ Ef]|[[Hlt _]|[Heq _]]]; [by exists c, dl|lia|lia].
Qed.

Lemma lease_run_fence f F l evs os l' :
  fence_from f (l_now l + F) l -> Forall (event_retains F) evs -> events_ok (l_now l) evs ->
  lease_run l evs os l' -> total_time evs < F -> fence_from f (l_now l + F) l'.
Proof.
  intros Hh Hk Hev Hr Ht. set (T := l_now l + F).
  enough (l_now l <= l_now l' /\ fence_from f T l') by tauto.
  eapply (lease_run_invariant (fun x => l_now l <= l_now x /\ fence_from f T x) (event_retains F) T);
    [|by split|exact Hk|exact Hev|exact Hr|].
  - intros x ev o x' [Hx Hhx] He S Fx HT.
    pose proof (lease_step_now _ _ _ _ S). pose proof (total_time_nonneg _ _ Fx). split; [lia|].
    eapply (fence_from_step f F); eauto. unfold T. lia.
  - rewrite (lease_run_now _ _ _ _ Hr). unfold T. lia.
Qed.

(** A successful acquisition makes its caller the holder, with the counter's
    new value as fence, kept for [fttl] ms. *)
Lemma lease_acquire_granted tok ttl fttl l st f :
  (lease_acquire tok ttl fttl l).1 = Ok (RPair st f) -> st <> 0 ->
  lease_acquire tok ttl fttl l =
    (Ok (RPair st f), mk_lease (l_now l) (Some (tok, l_now l + ttl)) (Some (f, Some (l_now l + fttl)))) /\
  f = fence_count l + 1 /\ (st = 1 /\ l_holder l = None \/ st = 2 /\ exists dl, l_holder l = Some (tok, dl)).
Proof.
  unfold lease_acquire, lease_bump, fence_count, lease_hold. cbn.
  destruct (l_holder l) as [[t dl]|]; [destruct (String.eqb_spec t tok) as [<-|]|];
    repeat case_goal; cbn; intros [=]; subst; try done; eauto 8.
Qed.

Lemma lease_acquire_denied a b ttl fttl l T :
  held_until a T l -> b <> a -> lease_acquire b ttl fttl l = (Ok (RPair 0 0), l).
Proof.
  intros (dl & E & _) Hne. unfold lease_acquire. rewrite E.
  by destruct (String.eqb_spec a b) as [->|].
Qed.

Lemma lease_other_denied a b l T : held_until a T l -> b <> a -> holds b l = false.
Proof.
  intros (dl & E & _) Hne. unfold holds. rewrite E. by destruct (String.eqb_spec a b) as [->|].
Qed.

(** While a lock can be held its counter is alive (until 2^63 grants). *)
Definition outlives (l : lease) : Prop :=
  match l_holder l with
  | Some (_, dl) => exists c fdl, l_fence l = Some (c, Some fdl) /\ dl < fdl
  | None => True
  end.

Definition event_ratio (ev : event) : Prop :=
  match ev with
  | EOp (LAcquire _ ttl fttl) | EOp (LExtend _ ttl fttl) => ttl < fttl
  | _ => True
  end.

Lemma bump_outlives st tok ttl fttl l : fence_count l + 1 <= i64_max -> ttl < fttl ->
  outlives (lease_bump st fttl (lease_hold tok ttl l)).2 /\
  fence_count (lease_bump st fttl (lease_hold tok ttl l)).2 <= fence_count l + 1.
Proof.
  intros Hc Ht. unfold lease_bump, lease_hold, outlives, fence_count in *. cbn in *.
  rewrite (proj2 (Z.leb_le _ _)) by done. cbn. split; [|lia]. eexists _, _. split; [done|lia].
Qed.

Lemma outlives_step l ev o l' : outlives l -> 0 <= fence_count l -> fence_count l + 1 <= i64_max ->
  event_ratio ev -> lease_step l ev o l' -> outlives l' /\ 0 <= fence_count l' <= fence_count l + 1.
Proof.
  intros Ho Hp Hc Hr S. destruct S as [op|dt l' (En & Eh & Ef)].
  - destruct op as [t ttl fttl|t|t ttl fttl|]; cbn [lease_op event_ratio] in *.
    + unfold lease_acquire.
      assert (forall st, 0 <= fence_count (lease_bump st fttl (lease_hold t ttl l)).2) as Hpos.
      { intros st. unfold lease_bump. change (fence_count (lease_hold t ttl l)) with (fence_count l).
        destruct (_ <=? _); [unfold fence_count at 1; cbn; lia|exact Hp]. }
      destruct (l_holder l) as [[t' dl]|] eqn:E; [destruct (String.eqb t' t)|];
        [|cbn; split; [exact Ho|lia]|];
        (split; [by apply bump_outlives|split; [apply Hpos|by apply bump_outlives]]).
    + unfold lease_release. destruct (holds t l); cbn; (split; [done|unfold fence_count in *; cbn; lia]).
    + unfold lease_extend. destruct (holds t l) eqn:E; [|cbn; split; [done|lia]].
      unfold holds, outlives in *. destruct (l_holder l) as [[t' dl]|]; [|done].
      destruct Ho as (c & fdl & E1 & _). unfold fence_count in *. rewrite E1 in *. cbn in *.
      split; [|lia]. eexists _, _. split; [done|lia].
    + cbn. split; [done|unfold fence_count in *; cbn; lia].
  - unfold outlives, fence_count in *. destruct (l_holder l) as [[t dl]|] eqn:E.
    + destruct Ho as (c & fdl & E1 & Hlt). rewrite E1 in *. cbn in *.
      destruct (l_holder l') as [[t' dl']|] eqn:E'.
      * assert (dl' = dl /\ l_now l' <= dl) as [-> Hle].
        { destruct Eh as [[? Eh]|[[? Eh]|[? [Eh|Eh]]]]; simplify_eq; split; lia. }
        destruct Ef as [[? ->]|[[? Ef]|[? Ef]]]; [|lia|lia]. split; [by eexists _, _|lia].
      * split; [done|]. destruct Ef as [[? ->]|[[? ->]|[? [->| ->]]]]; lia.
    + cbn in Eh. rewrite Eh. split; [done|].
      destruct (l_fence l) as [[c [fdl|]]|]; cbn in Ef.
      * destruct Ef as [[? ->]|[[? ->]|[? [->| ->]]]]; lia.
      * rewrite Ef. lia.
      * rewrite Ef. lia.
Qed.

Lemma lease_run_outlives l evs os l' : lease_run l evs os l' ->
  outlives l -> 0 <= fence_count l -> fence_count l + Z.of_nat (length evs) <= i64_max ->
  Forall event_ratio evs -> outlives l'.
Proof.
  induction 1 as [|l ev o l1 evs os l2 S _ IH]; [done|]. intros Ho Hp Hc Hr.
  rewrite Forall_cons in Hr. destruct Hr as [Hr1 Hr2]. cbn [length] in Hc.
  destruct (outlives_step _ _ _ _ Ho Hp ltac:(lia) Hr1 S) as [H1 H2].
  apply IH; [done|lia|lia|done].
Qed.

Lemma view_free key now : 0 <= now -> view key (mk_db now ∅) (mk_lease now None None).
Proof. intros. split; cbn; unfold i64_max; done || lia. Qed.

(** ** Properties *)

Section properties.
Context {R : Type} `{RedisLaws R} (key : string).

(** C2: The mutex scripts implement the abstract lease: started on a server
    where neither the lock key nor its fence counter exists, any sequence
    of acquire, release, extend and break-glass operations by any clients,
    with time passing in between, produces the replies of a run of the
    specification, and the key and its counter end up as the specification
    says, with every deadline it says. *)
Theorem mutex_refines (s : R) now evs :
  r_db s = mk_db now ∅ -> 0 <= now -> events_ok now evs ->
  exists l', lease_run (mk_lease now None None) evs (run_events key evs s).1 l' /\
             view key (r_db (run_events key evs s).2) l'.
Proof.
  intros E Hn F. apply events_refine; [|done]. rewrite E. by apply view_free.
Qed.

(** C1: Mutual exclusion.  After a grant to [a] for [ttl] ms, whatever other
    clients do (acquire, release with their own tokens, extend) and however
    time passes, as long as less than [ttl] ms went by and [a] neither
    released, shortened its lease nor was broken by the administrator,
    every other token is refused: acquire replies 0, release and extend
    report that the caller does not own the lock. *)
Theorem mutual_exclusion (s : R) l a ttl fttl st f evs b ttl' fttl' :
  view key (r_db s) l -> lop_fits (l_now l) (LAcquire a ttl fttl) ->
  (lop_script key (LAcquire a ttl fttl) s).1 = Ok (RPair st f) -> st <> 0 ->
  events_ok (l_now l) evs -> Forall (event_keeps a ttl) evs -> total_time evs < ttl ->
  b <> a -> lop_fits (l_now l + total_time evs) (LAcquire b ttl' fttl') ->
  let s' := (run_events key evs (lop_script key (LAcquire a ttl fttl) s).2).2 in
  (lop_script key (LAcquire b ttl' fttl') s').1 = Ok (RPair 0 0) /\
  (lop_script key (LRelease b) s').1 = Ok (RInt 0) /\
  (lop_script key (LExtend b ttl' fttl') s').1 = Ok (RInt 0).
Proof.
  intros V F E Hst Fe Hk Ht Hne Fb s'.
  destruct (lop_refines_any key s l _ V F) as (E1 & V1 & _). rewrite E in E1. symmetry in E1.
  destruct (lease_acquire_granted _ _ _ _ _ _ E1 Hst) as (E2 & _).
  cbn [lease_op] in V1. rewrite E2 in V1. cbn [snd] in V1.
  destruct (events_refine key evs _ _ V1 Fe) as (l2 & Hr & V2). fold s' in V2.
  assert (held_until a (l_now l + ttl) l2) as Hh.
  { refine (lease_run_held a ttl (mk_lease (l_now l) _ _) _ _ _ _ Hk Fe Hr Ht). eexists. by split. }
  assert (l_now l2 = l_now l + total_time evs) as En by exact (lease_run_now _ _ _ _ Hr).
  rewrite <- En in Fb. pose proof (lease_other_denied _ _ _ _ Hh Hne) as Hf.
  destruct (lop_refines_any key s' l2 (LAcquire b ttl' fttl') V2 Fb) as (-> & _).
  destruct (lop_refines_any key s' l2 (LRelease b) V2 I) as (-> & _).
  destruct (lop_refines_any key s' l2 (LExtend b ttl' fttl') V2 Fb) as (-> & _).
  cbn [lease_op]. rewrite (lease_acquire_denied _ _ _ _ _ _ Hh Hne).
  unfold lease_release, lease_extend. by rewrite Hf.
Qed.

(** Fencing tokens increase.  If a grant with fence [f1] is followed,
    after less than [F] ms of any activity on the key, by a grant with
    fence [f2], and every acquire and extend keeps the counter for at least
    [F] ms (the code: ten times its lease), then [f2] supersedes [f1],
    whether or not the lock expired, was released or broken in between. *)
Theorem fences_increase (s : R) l F a ttl fttl st1 f1 evs b ttl' fttl' st2 f2 :
  view key (r_db s) l -> lop_fits (l_now l) (LAcquire a ttl fttl) -> F <= fttl ->
  (lop_script key (LAcquire a ttl fttl) s).1 = Ok (RPair st1 f1) -> st1 <> 0 ->
  events_ok (l_now l) evs -> Forall (event_retains F) evs -> total_time evs < F ->
  lop_fits (l_now l + total_time evs) (LAcquire b ttl' fttl') ->
  (lop_script key (LAcquire b ttl' fttl')
     (run_events key evs (lop_script key (LAcquire a ttl fttl) s).2).2).1 = Ok (RPair st2 f2) ->
  st2 <> 0 ->
  supersedes (fence_new f2) (fence_new f1) = true.
Proof.
  intros V Fa HF E1 Hs1 Fe Hk Ht Fb E2 Hs2.
  destruct (lop_refines_any key s l _ V Fa) as (G1 & V1 & _). rewrite E1 in G1. symmetry in G1.
  destruct (lease_acquire_granted _ _ _ _ _ _ G1 Hs1) as (G2 & _).
  cbn [lease_op] in V1. rewrite G2 in V1. cbn [snd] in V1.
  destruct (events_refine key evs _ _ V1 Fe) as (l2 & Hr & V2).
  assert (fence_from f1 (l_now l + F) l2) as (c & dl & Hc & Hle & _).
  { refine (lease_run_fence f1 F (mk_lease (l_now l) _ _) _ _ _ _ Hk Fe Hr Ht).
    eexists _, _. split; [done|]. cbn. lia. }
  assert (l_now l2 = l_now l + total_time evs) as En by exact (lease_run_now _ _ _ _ Hr).
  rewrite <- En in Fb. destruct (lop_refines_any key _ l2 _ V2 Fb) as (G3 & _).
  rewrite E2 in G3. symmetry in G3.
  destruct (lease_acquire_granted _ _ _ _ _ _ G3 Hs2) as (_ & -> & _).
  unfold supersedes, fence_count. rewrite Hc. cbn. apply Z.ltb_lt. lia.
Qed.

(** A counter never expires while its lock is held: if every acquire and
    extend keeps the counter longer than the lease (the code: ten times),
    then after any sequence of fewer than 2^63 events from an empty server,
    whenever the lock key exists its fence counter exists too and expires
    strictly later. *)
Theorem fence_outlives_lock (s : R) now evs e dl :
  r_db s = mk_db now ∅ -> 0 <= now -> events_ok now evs -> Forall event_ratio evs ->
  Z.of_nat (length evs) <= i64_max ->
  let d := r_db (run_events key evs s).2 in
  db_live d !! key = Some e -> e_deadline e = Some dl ->
  exists c fdl, db_live d !! fence_key_for key = Some (mk_entry (VStr (z_to_string c)) (Some fdl)) /\
                dl < fdl.
Proof.
  intros E Hn F Hr Hl d He Hd.
  destruct (events_refine key evs s (mk_lease now None None)) as (l' & Hrun & V); [|done|].
  { rewrite E. by apply view_free. }
  assert (outlives l') as Ho by (eapply lease_run_outlives; eauto; unfold fence_count; cbn; lia).
  fold d in V. destruct V as [_ V1 V2 _ _]. rewrite He in V1. unfold outlives in Ho.
  destruct (l_holder l') as [[t dl']|]; [|done]. injection V1 as ->. injection Hd as ->.
  destruct Ho as (c & fdl & Hf & Hlt). exists c, fdl. split; [|done]. by rewrite V2, Hf.
Qed.

(** Fencing tokens restart when a key lies idle: once the counter's time
    to live has passed since the last grant (fence [f]), the next grant of
    the key has fence 1, so the token of the earlier holder supersedes the
    new holder's whenever [f] exceeds 1. *)
Theorem idle_resets_fence (s : R) l a ttl fttl st f dt b ttl' fttl' :
  view key (r_db s) l -> lop_fits (l_now l) (LAcquire a ttl fttl) -> ttl <= fttl ->
  (lop_script key (LAcquire a ttl fttl) s).1 = Ok (RPair st f) -> st <> 0 -> fttl < dt ->
  lop_fits (l_now l + dt) (LAcquire b ttl' fttl') -> 1 < f ->
  (run_events key [ETime dt; EOp (LAcquire b ttl' fttl')]
     (lop_script key (LAcquire a ttl fttl) s).2).1 = [None; Some (Ok (RPair 1 1))] /\
  supersedes (fence_new f) (fence_new 1) = true.
Proof.
  intros V Fa Hle E Hst Hdt Fb Hf. split; [|by apply Z.ltb_lt].
  destruct (lop_refines_any key s l _ V Fa) as (G1 & V1 & _). rewrite E in G1. symmetry in G1.
  destruct (lease_acquire_granted _ _ _ _ _ _ G1 Hst) as (G2 & _).
  cbn [lease_op] in V1. rewrite G2 in V1. cbn [snd] in V1.
  destruct Fa as [[? _] [? _]]. assert (0 <= dt) as Hdt0 by lia.
  set (s1 := (lop_script key (LAcquire a ttl fttl) s).2) in *.
  destruct (elapse_refines key dt _ _ _ (elapse_law dt s1 Hdt0) Hdt0 V1) as (l2 & (En & Eh & Ef) & V2).
  cbn in En, Eh, Ef. rewrite En in Eh, Ef.
  destruct Eh as [[? _]|[[_ Eh]|[? _]]]; [lia| |lia].
  destruct Ef as [[? _]|[[_ Ef]|[? _]]]; [lia| |lia].
  rewrite <- En in Fb. destruct (lop_refines_any key _ l2 _ V2 Fb) as (G3 & _).
  cbn [run_events event_run]. fold s1.
  destruct (lop_script key (LAcquire b ttl' fttl') (r_elapse dt s1)) as [r s2]. cbn [fst] in G3.
  cbn. rewrite G3. cbn [lease_op]. unfold lease_acquire, lease_bump, lease_hold, fence_count.
  by rewrite Eh, Ef.
Qed.
End properties.

(** ** Witnesses *)

(** Close a concrete side condition. *)
Ltac concrete := repeat (split || apply Forall_cons_2 || apply Forall_nil_2);
  first [ done | vm_compute; reflexivity | vm_compute; discriminate | by intros | (intros; lia) ].

Definition demo_db : db := mk_db 0 ∅.
Definition demo_lease : lease := mk_lease 0 None None.
Definition demo_granted : db := (lop_script "job" (LAcquire "A" 100 1000) demo_db).2.
Definition demo_events : list event :=
  [EOp (LAcquire "B" 50 500); ETime 60; EOp (LExtend "A" 100 1000); EOp (LRelease "B"); ETime 30].

Lemma mutex_refines_witness :
  exists l', lease_run demo_lease demo_events (run_events "job" demo_events demo_db).1 l' /\
             view "job" (r_db (run_events "job" demo_events demo_db).2) l'.
Proof. apply (mutex_refines (R:=db)); [reflexivity|lia|concrete]. Defined.

Lemma mutual_exclusion_witness :
  (lop_script "job" (LAcquire "B" 10 100) (run_events "job" demo_events demo_granted).2).1 = Ok (RPair 0 0).
Proof.
  refine (proj1 (mutual_exclusion (R:=db) "job" demo_db demo_lease "A" 100 1000 1 1 demo_events "B" 10 100
                   _ _ _ _ _ _ _ _ _)); [apply view_free|..]; concrete.
Defined.

Lemma fences_increase_witness : supersedes (fence_new 2) (fence_new 1) = true.
Proof.
  refine (fences_increase (R:=db) "job" demo_db demo_lease 500 "A" 100 1000 1 1
            [EOp (LRelease "A"); ETime 400] "B" 10 100 1 2 _ _ _ _ _ _ _ _ _ _ _);
    [apply view_free|..]; concrete.
Defined.

Lemma fence_outlives_lock_witness : exists c fdl,
  db_live demo_granted !! fence_key_for "job" = Some (mk_entry (VStr (z_to_string c)) (Some fdl)) /\ 100 < fdl.
Proof.
  refine (fence_outlives_lock (R:=db) "job" demo_db 0 [EOp (LAcquire "A" 100 1000)]
            (mk_entry (VStr "A") (Some 100)) 100 _ _ _ _ _ _ _); concrete.
Defined.

Definition demo_second : db := (run_events "job" [EOp (LRelease "A")] demo_granted).2.

Lemma idle_resets_fence_witness :
  supersedes (fence_new 2) (fence_new 1) = true.
Proof.
  refine (proj2 (idle_resets_fence (R:=db) "job" demo_second (mk_lease 0 None (Some (1, Some 1000)))
    "A" 100 1000 1 2 1001 "B" 100 1000 _ _ _ _ _ _ _ _)); [|concrete..].
  split; [reflexivity|vm_compute; reflexivity|vm_compute; reflexivity|concrete|concrete].
Defined.
