(* ===== verification/Fencing.v ===== *)
(** * Fencing, end to end

    The fencing tokens of the mutex against a resource that keeps "the rule"
    of the fencing guide ([docs/fencing-guide.md], ADR 0005): it accepts an
    operation only if its token supersedes the last one it accepted.  The
    theorems: on any history of the key in which the counter is kept, the
    grants' fences strictly increase and the resource accepts exactly the
    first write of each holder that no later holder's write has preceded --
    however the writes are delayed; the holder's second write is refused; and
    after a failover that lost the grant the order is gone. *)

From Stdlib Require Import Sorted.
From S2P Require Import Prelude Core Redis Scripts Lease.

(** ** The resource *)

(** A row with the column [last_fence], and the conditional update of
    [fence_pg.rs] on it: whether a row was updated, and the row. *)
Record row (A : Type) := mk_row { last_fence : FencingToken; rw_value : A }.
Arguments mk_row {A}. Arguments last_fence {A}. Arguments rw_value {A}.

Section resource.
Context {A : Type}.

Definition row_write (f : FencingToken) (x : A) (r : row A) : bool * row A :=
  if supersedes f (last_fence r) then (true, mk_row f x) else (false, r).

Fixpoint row_writes (ws : list (FencingToken * A)) (r : row A) : list bool * row A :=
  match ws with
  | [] => ([], r)
  | (f, x) :: ws =>
      let '(b, r) := row_write f x r in
      let '(bs, r) := row_writes ws r in (b :: bs, r)
  end.

(** The writes of holders whose fences [g] increase, in any order and any
    number: [w.1] is whose it is.  [seen]: who wrote before. *)
Section ordered.
Variable g : nat -> Z.
Variable n : nat.
Hypothesis g_up : forall i j, (i < j < n)%nat -> g i < g j.
Hypothesis g_pos : forall i, (i < n)%nat -> 0 < g i.

(** The row has the fence of the latest holder that tried. *)
Definition row_ok (seen : list nat) (r : row A) : Prop :=
  Forall (fun i => i < n)%nat seen /\
  (seen = [] /\ value (last_fence r) = 0 \/ exists m, m ∈ seen /\ Forall (fun i => i <= m)%nat seen /\ value (last_fence r) = g m).

Lemma row_write_exact seen r j x : row_ok seen r -> (j < n)%nat ->
  (row_write (fence_new (g j)) x r).1 = bool_decide (Forall (fun i => i < j)%nat seen) /\
  row_ok (seen ++ [j]) (row_write (fence_new (g j)) x r).2.
Proof.
  intros [Hn Hr] Hj. assert (Hn' : Forall (fun i => i < n)%nat (seen ++ [j])) by (apply Forall_app; by repeat constructor).
  unfold row_write, supersedes. cbn [value fence_new].
  destruct Hr as [[-> Hz]|(m & Hm & Hle & Hv)].
  - rewrite Hz, (proj2 (Z.ltb_lt _ _)) by by apply g_pos. cbn. split; [done|]. split; [done|]. right. exists j.
    split; [by apply list_elem_of_singleton|]. split; [by repeat constructor|done].
  - rewrite Hv. rewrite Forall_forall in Hn, Hle. pose proof (Hn _ Hm) as Hmn. destruct (g m <? g j) eqn:E; zbool.
    + assert (m < j)%nat as Hmj.
      { destruct (lt_eq_lt_dec m j) as [[Hlt|Heq]|Hlt]; [done|subst; lia|]. pose proof (g_up j m ltac:(lia)). lia. }
      cbn. split.
      * symmetry. apply bool_decide_eq_true, Forall_forall. intros i Hi. specialize (Hle i Hi). lia.
      * split; [done|]. right. exists j. split; [set_solver|]. split; [|done]. apply Forall_app. split; [|by repeat constructor].
        apply Forall_forall. intros i Hi. specialize (Hle i Hi). lia.
    + assert (j <= m)%nat as Hjm.
      { destruct (le_lt_dec j m) as [|Hlt]; [done|]. pose proof (g_up m j ltac:(lia)). lia. }
      cbn. split.
      * symmetry. apply bool_decide_eq_false. intros Hf. rewrite Forall_forall in Hf. specialize (Hf m Hm). lia.
      * split; [done|]. right. exists m. split; [set_solver|]. split; [|done]. apply Forall_app.
        split; [by apply Forall_forall|by repeat constructor].
Qed.

Lemma row_writes_exact ws : forall seen r, row_ok seen r -> Forall (fun w => w.1 < n)%nat ws ->
  forall p j x, ws !! p = Some (j, x) ->
  (row_writes (map (fun w => (fence_new (g w.1), w.2)) ws) r).1 !! p =
    Some (bool_decide (Forall (fun i => i < j)%nat (seen ++ map fst (take p ws)))).
Proof.
  induction ws as [|[i y] ws IH]; intros seen r Hr Hw p j x Ep; [done|]. apply Forall_cons in Hw as [Hi Hw].
  cbn [map row_writes fst snd]. destruct (row_write_exact seen r i y Hr Hi) as [Eb Hr'].
  destruct (row_write _ y r) as [b r']. cbn [fst snd] in *.
  destruct p as [|p]; cbn in Ep.
  - injection Ep as -> ->. destruct (row_writes _ r'). cbn. by rewrite Eb, app_nil_r.
  - specialize (IH _ _ Hr' Hw p j x Ep). destruct (row_writes _ r') as [bs r'']. cbn in *.
    etrans; [exact IH|]. by rewrite <- app_assoc.
Qed.
End ordered.
End resource.

(** ** The grants of a history *)

Definition grant_of (ev : event) (o : option (res rerr reply)) : option Z :=
  match ev, o with
  | EOp (LAcquire _ _ _), Some (Ok (RPair st f)) => if st =? 0 then None else Some f
  | _, _ => None
  end.
Fixpoint grants (evs : list event) (os : list (option (res rerr reply))) : list Z :=
  match evs, os with
  | ev :: evs, o :: os => match grant_of ev o with Some f => [f] | None => [] end ++ grants evs os
  | _, _ => []
  end.

(** Every grant comes less than [F] ms after the one before; [since] is the
    time since the last. *)
Fixpoint gaps_within (F : Z) (since : option Z) (evs : list event) (os : list (option (res rerr reply))) : Prop :=
  match evs, os with
  | ev :: evs, o :: os =>
      match grant_of ev o with
      | Some _ => match since with Some t => t < F | None => True end /\ gaps_within F (Some 0) evs os
      | None => gaps_within F ((fun t => t + total_time [ev]) <$> since) evs os
      end
  | _, _ => True
  end.

(** The counter is at least [c] as long as the last grant is recent. *)
Definition counted (F c : Z) (since : option Z) (l : lease) : Prop :=
  0 <= fence_count l /\ match since with Some t => 0 <= t /\ (t < F -> fence_from c (l_now l + F - t) l) | None => True end.

Lemma count_step l ev o l' : 0 <= fence_count l -> lease_step l ev o l' -> 0 <= fence_count l'.
Proof.
  intros Hc S. destruct S as [op|dt l' (_ & _ & Ef)].
  - destruct op as [t ttl fttl|t|t ttl fttl|]; cbn [lease_op].
    + assert (Hb : forall st x, 0 <= fence_count x -> 0 <= fence_count (lease_bump st fttl x).2).
      { intros st x Hx. unfold lease_bump. destruct (_ <=? _); [|done]. change (0 <= fence_count x + 1). lia. }
      unfold lease_acquire. destruct (l_holder l) as [[t' dl]|]; [destruct (String.eqb t' t)|]; try done; by apply Hb.
    + unfold lease_release. by destruct (holds t l).
    + unfold lease_extend. destruct (holds t l); [|done]. unfold fence_count in *. cbn. by destruct (l_fence l) as [[c dl]|].
    + done.
  - unfold fence_count in *. destruct (l_fence l) as [[c [dl|]]|]; cbn in Ef; [|by rewrite Ef..].
    destruct Ef as [[_ ->]|[[_ ->]|[_ [->| ->]]]]; done.
Qed.

Lemma counter_kept_step F c since l ev o l' : counted F c since l -> event_retains F ev -> events_ok (l_now l) [ev] ->
  lease_step l ev o l' -> counted F c ((fun t => t + total_time [ev]) <$> since) l'.
Proof.
  intros [Hc Hs] Hk Hev S. split; [by eapply count_step|]. destruct since as [t|]; [|done]. cbn [fmap option_fmap option_map].
  destruct Hs as [Ht Hs]. pose proof (total_time_nonneg _ _ Hev). pose proof (lease_step_now _ _ _ _ S) as En. split; [lia|].
  intros Hlt. specialize (Hs ltac:(lia)).
  replace (l_now l' + F - (t + total_time [ev])) with (l_now l + F - t) by lia.
  eapply (fence_from_step c F); [exact Hs|exact Hk|lia|exact S|lia].
Qed.

(** What the grants of a run promise: positive, increasing, above [c]. *)
Lemma grants_increase F evs : forall since c l os l', lease_run l evs os l' -> counted F c since l ->
  events_ok (l_now l) evs -> Forall (event_retains F) evs -> gaps_within F since evs os ->
  Forall (fun f => 0 < f) (grants evs os) /\ StronglySorted Z.lt (grants evs os) /\
  match since with Some _ => Forall (fun f => c < f) (grants evs os) | None => True end.
Proof.
  induction evs as [|ev evs IH]; intros since c l os l' Hr Hcnt Hev Hk Hg.
  { inversion Hr; subst. cbn. split; [done|]. split; [constructor|by destruct since]. }
  inversion Hr as [|? ? o l1 ? os' ? S Hr']; subst. clear Hr. apply Forall_cons in Hk as [Hk1 Hk].
  destruct (events_ok_cons _ _ _ Hev) as [Hev1 Hev2]. rewrite <- (lease_step_now _ _ _ _ S) in Hev2.
  cbn [grants gaps_within] in *. destruct (grant_of ev o) as [f|] eqn:Eg.
  - destruct Hg as [Hgap Hg].
    assert (0 < f /\ match since with Some _ => c < f | None => True end /\ counted F f (Some 0) l1) as (Hf & Hcf & Hcnt').
    { destruct ev as [[t ttl fttl|t|t ttl fttl|]|dt]; try done. inversion S as [op Eop Eo|]; subst. cbn [grant_of] in Eg.
      cbn [lease_op] in *. destruct (lease_acquire t ttl fttl l).1 as [[z|st f']|e] eqn:Ea; try done.
      destruct (st =? 0) eqn:Est; [done|]. zbool. injection Eg as ->.
      destruct (lease_acquire_granted _ _ _ _ _ _ Ea Est) as (E & Hff & _). rewrite E. destruct Hcnt as [Hc Hs].
      split; [lia|]. split.
      - destruct since as [t0|]; [|done]. destruct Hs as [_ Hs]. destruct (Hs Hgap) as (c' & dl & Ec & Hle & _).
        unfold fence_count in Hff. rewrite Ec in Hff. cbn in Hff. lia.
      - split; [change (0 <= f); lia|]. split; [lia|]. intros _. exists f, (l_now l + fttl). cbn in Hk1 |- *. split; [done|lia]. }
    destruct (IH _ f _ _ _ Hr' Hcnt' Hev2 Hk Hg) as (H1 & H2 & H3). cbn [app].
    split; [by constructor|]. split; [by constructor|]. destruct since as [t0|]; [|done]. constructor; [done|].
    eapply Forall_impl; [exact H3|]. intros x Hx. cbn in Hx |- *. lia.
  - cbn [app]. pose proof (counter_kept_step _ _ _ _ _ _ _ Hcnt Hk1 Hev1 S) as Hcnt'.
    destruct (IH _ c _ _ _ Hr' Hcnt' Hev2 Hk Hg) as (H1 & H2 & H3). split; [done|]. split; [done|]. by destruct since.
Qed.

Lemma sorted_lookup (l : list Z) : StronglySorted Z.lt l -> forall i j, (i < j < length l)%nat -> l !!! i < l !!! j.
Proof.
  induction 1 as [|x l Hs IH Hf]; intros i j Hij; cbn in Hij; [lia|]. destruct j as [|j]; [lia|]. cbn.
  destruct i as [|i]; [|apply IH; lia]. rewrite Forall_forall in Hf. apply Hf.
  apply list_elem_of_lookup. exists j. apply list_lookup_lookup_total_lt. lia.
Qed.

(** ** Properties *)

Section properties.
Context {R : Type} `{RedisLaws R} {A : Type}.
Variable key : string.


(** "0 rows updated => your lease was stale" ([fence_pg.rs], the guide): not
    so.  The second update of one grant finds no row to update, whatever the
    state of the lease. *)
Theorem second_write_refused (f : FencingToken) (x y : A) (r : row A) :
  supersedes f (last_fence r) = true ->
  let '(first, r1) := row_write f x r in first = true /\ row_write f y r1 = (false, r1).
Proof. intros Hf. unfold row_write at 1. rewrite Hf. split; [done|]. unfold row_write. cbn. by rewrite supersedes_irrefl. Qed.

(** "Covers Redis's async-replication failover: [..] fence ordering makes A's
    subsequent writes rejectable" (ADR 0005): not so.  The replica that missed
    A's grant missed the counter's increment too: B's grant carries the same
    fence as A's, and when A has written, B's write is the one that is
    refused. *)
Theorem failover_repeats_fence (s : R) l a b ttl fttl x y (r : row A) :
  view key (r_db s) l -> l_holder l = None -> fence_count l < i64_max -> lop_fits (l_now l) (LAcquire a ttl fttl) ->
  value (last_fence r) <= fence_count l ->
  exists f, (lop_script key (LAcquire a ttl fttl) s).1 = Ok (RPair 1 f) /\
    (lop_script key (LAcquire b ttl fttl) s).1 = Ok (RPair 1 f) /\
    let '(wrote_a, r1) := row_write (fence_new f) x r in
    wrote_a = true /\ row_write (fence_new f) y r1 = (false, r1).
Proof.
  intros V Hfree Hc Hf Hrow. destruct (lop_refines_any key s l (LAcquire a ttl fttl) V Hf) as (Ea & _).
  destruct (lop_refines_any key s l (LAcquire b ttl fttl) V Hf) as (Eb & _).
  cbn [lease_op] in Ea, Eb. unfold lease_acquire in Ea, Eb. rewrite Hfree in Ea, Eb. unfold lease_bump in Ea, Eb.
  change (fence_count (lease_hold a ttl l)) with (fence_count l) in Ea.
  change (fence_count (lease_hold b ttl l)) with (fence_count l) in Eb.
  rewrite (proj2 (Z.leb_le _ _)) in Ea, Eb by lia. exists (fence_count l + 1). split; [exact Ea|]. split; [exact Eb|].
  unfold row_write at 1. unfold supersedes. cbn [value fence_new]. rewrite (proj2 (Z.ltb_lt _ _)) by lia.
  split; [done|]. unfold row_write, supersedes. cbn. by rewrite Z.ltb_irrefl.
Qed.
End properties.

(** ** Witnesses *)

(** Two grants, the first one lost by expiry; the stale holder tries around
    the new one's writes. *)
Definition demo_history : list event :=
  [EOp (LAcquire "A" 100 1000); ETime 150; EOp (LAcquire "B" 100 1000); ETime 20; EOp (LExtend "B" 100 1000)].
Definition demo_tries : list (nat * string) := [(0%nat, "a1"%string); (1%nat, "b1"%string); (0%nat, "a2"%string); (1%nat, "b2"%string)].
Definition demo_row : row string := mk_row fence_zero "".


Lemma second_write_refused_witness : (row_write (fence_new 1) "again"%string (row_write (fence_new 1) "once"%string demo_row).2).1 = false.
Proof. exact (f_equal fst (proj2 (second_write_refused (fence_new 1) "once"%string "again"%string demo_row eq_refl))). Defined.

Lemma failover_repeats_fence_witness : exists f,
  (lop_script "job" (LAcquire "A" 100 1000) demo_db).1 = Ok (RPair 1 f) /\
  (lop_script "job" (LAcquire "B" 100 1000) demo_db).1 = Ok (RPair 1 f).
Proof.
  destruct (failover_repeats_fence (R:=db) "job" demo_db demo_lease "A" "B" 100 1000 "a"%string "b"%string demo_row) as (f & Ea & Eb & _);
    [by apply view_free|reflexivity|concrete|concrete|concrete|]. exists f. split; [exact Ea|exact Eb].
Defined.
