(* ===== verification/Single.v ===== *)
(** * The single-instance mutex ([crates/redis/src/single.rs, config.rs])

    The manager's operations, the handle with its flags shared between clones,
    the watchdog, and the detached release of a dropped handle.  Each
    operation is the source's, composed from the scripts of [Lease]. *)

From S2P Require Import Prelude Core Redis Scripts World Lease.

Definition RENEWAL_DIVISOR : Z := 3.
Definition FENCE_TTL_MULTIPLIER : Z := 10.

(** ** Configuration ([config.rs]) *)

Record RedisConfig := mk_config {
  cfg_url : string;
  cfg_default_ttl : duration;
  cfg_watchdog : bool;
  cfg_response_timeout : duration;
}.

Definition config_new (url : string) : RedisConfig := mk_config url (from_secs 30) false (from_secs 5).

(** The builder's methods. *)
Definition config_with_default_ttl (ttl : duration) (c : RedisConfig) : RedisConfig :=
  mk_config (cfg_url c) ttl (cfg_watchdog c) (cfg_response_timeout c).
Definition config_with_response_timeout (t : duration) (c : RedisConfig) : RedisConfig :=
  mk_config (cfg_url c) (cfg_default_ttl c) (cfg_watchdog c) t.
Definition config_with_watchdog (wd : bool) (c : RedisConfig) : RedisConfig :=
  mk_config (cfg_url c) (cfg_default_ttl c) wd (cfg_response_timeout c).

(** [str::trim().is_empty()], on the ASCII white space. *)
Definition is_space (c : ascii) : bool :=
  let n := nat_of_ascii c in ((9 <=? n) && (n <=? 13) || (n =? 32))%nat.
Definition is_blank (s : string) : bool := forallb is_space (list_ascii_of_string s).

Definition config_validate (c : RedisConfig) : res error unit :=
  if is_blank (cfg_url c) then Err (InvalidConfig "redis url is empty")
  else if cfg_default_ttl c <? MIN_TTL then Err (InvalidConfig "default ttl {:?} is below the {:?} floor")
  else Ok tt.

(** ** The manager and its handles *)

Record RedisLockManager := mk_manager {
  mgr_conn : conn;
  default_ttl : duration;
  watchdog_default : bool;
}.

(** [RedisLockManager::connect], with the connection given. *)
Definition connect (config : RedisConfig) (c : conn) : res error RedisLockManager :=
  match config_validate config with
  | Err e => Err e
  | Ok _ => Ok (mk_manager c (cfg_default_ttl config) (cfg_watchdog config))
  end.

(** A manager is built exactly from a url that is not blank and a lease that
    reaches the floor, whatever the other settings, and carries the settings. *)
Lemma connect_configured url ttl wd t c m :
  connect (config_with_response_timeout t (config_with_watchdog wd (config_with_default_ttl ttl (config_new url)))) c = Ok m <->
  is_blank url = false /\ MIN_TTL <= ttl /\ m = mk_manager c ttl wd.
Proof.
  unfold connect, config_validate. simpl. destruct (is_blank url); [naive_solver|].
  destruct (Z.ltb_spec ttl MIN_TTL); naive_solver lia.
Qed.

Section single.
Context {U : UuidSource} {R : Type} `{Redis R}.
Open Scope world_scope.

(** [HandleShared]; the three flags are in the cell [h_cell].  A clone of a
    handle is the same value. *)
Record HandleShared := mk_handle {
  h_conn : conn;
  h_key : string;
  h_fence_key : string;
  h_token : string;
  h_owner : OwnerId;
  h_fence : FencingToken;
  h_cell : nat;
  h_ttl : duration;
  h_policy : SafetyPolicy;
}.

(** The [(i64, i64)] status and fence of a grant, with [fence as u64]. *)
Definition granted (status : Z) : bool := (status =? 1) || (status =? 2).

(** [RedisLockManager::try_lock_with]. *)
Definition try_lock_with (mgr : RedisLockManager) (key : string) (options : LockOptions) :
    M R (res error HandleShared) :=
  let? _u := ret (validate options) in
  let* owner := fresh_owner in
  let token := owner_token owner in
  let ttl_ms := as_millis_u64 (ttl options) in
  let fence_ttl_ms := u64_mul ttl_ms FENCE_TTL_MULTIPLIER in
  let fence_key := fence_key_for key in
  let? '(status, fence) := backend "acquire script failed: {e}"
    (invoke_pair (mgr_conn mgr) ACQUIRE [key; fence_key]
       [token; z_to_string ttl_ms; z_to_string fence_ttl_ms]) in
  if granted status then
    let* cell := new_cell in
    let shared := mk_handle (mgr_conn mgr) key fence_key token owner (fence_new (wrap64 fence))
                    cell (ttl options) (safety_policy options) in
    do* (if default (watchdog_default mgr) (watchdog options)
         then spawn (TWatchdog cell) else ret tt) in
    ret (Ok shared)
  else ret (Err (Held key)).

(** [RedisLockManager::try_lock]. *)
Definition try_lock (mgr : RedisLockManager) (key : string) : M R (res error HandleShared) :=
  try_lock_with mgr key (with_ttl (default_ttl mgr) default_options).

(** [RedisLockManager::try_lock_for]: the loop, with a fuel bound. *)
Fixpoint try_lock_loop (fuel : nat) (mgr : RedisLockManager) (key : string) (options : LockOptions)
    (deadline : option Z) {struct fuel} : M R (res error HandleShared) :=
  match fuel with
  | O => out_of_fuel
  | S fuel =>
      let* now := instant_now in
      let remaining := default (from_secs 5) (deadline ≫= fun d => checked_duration_since d now) in
      let* attempt := timeout (Z.min remaining (from_secs 2)) (try_lock_with mgr key options) in
      match attempt with
      | Some (Ok handle) => ret (Ok handle)
      | Some (Err (Held _)) =>
          match deadline with
          | Some d =>
              let* now := instant_now in
              let remaining := default 0 (checked_duration_since d now) in
              if remaining =? 0 then ret (Err (Timeout key)) else
              do* sleep (Z.min POLL_INTERVAL remaining) in
              try_lock_loop fuel mgr key options deadline
          | None =>
              do* sleep POLL_INTERVAL in
              try_lock_loop fuel mgr key options deadline
          end
      | Some (Err other) => ret (Err other)
      | None => ret (Err (Timeout key))
      end
  end.

Definition try_lock_for (fuel : nat) (mgr : RedisLockManager) (key : string) (options : LockOptions)
    (wait : duration) : M R (res error HandleShared) :=
  let* now := instant_now in
  try_lock_loop fuel mgr key options (instant_checked_add now wait).

(** [LockManager::lock], the trait's default method. *)
Definition lock (fuel : nat) (mgr : RedisLockManager) (key : string) (options : LockOptions) :
    M R (res error HandleShared) :=
  try_lock_for fuel mgr key options duration_max.

(** [RedisLockManager::build_handle_from_parts]. *)
Definition build_handle_from_parts (mgr : RedisLockManager) (key token : string) (owner : OwnerId)
    (fence : Z) (t : duration) : M R HandleShared :=
  let* cell := new_cell in
  ret (mk_handle (mgr_conn mgr) key (fence_key_for key) token owner (fence_new fence) cell t default_policy).

(** *** Queries and token-level operations *)

(** [RedisLockManager::probe_held]. *)
Definition probe_held (mgr : RedisLockManager) (key : string) : M R (res error bool) :=
  let? n := backend "probe failed: {e}" (invoke (mgr_conn mgr) (r_exists key)) in
  ret (Ok (0 <? n)).

(** [version.and_then(|s| s.parse::<u64>().ok()).unwrap_or(0)]. *)
Definition version_of (v : option string) : Z := default 0 (v ≫= parse_u64).

(** [RedisLockManager::probe_state]: the pipeline's commands run back to back. *)
Definition probe_state (mgr : RedisLockManager) (key : string) : M R (res error (bool * Z)) :=
  let? '(held, version) := backend "probe failed: {e}" (invoke (mgr_conn mgr)
    (let! held := r_exists key in
     let! version := r_get (fence_key_for key) in
     cret (held, version))%script) in
  ret (Ok (0 <? held, version_of version)).

(** [RedisLockManager::describe_key]. *)
Definition describe_key (mgr : RedisLockManager) (key : string) : M R (res error (bool * Z * Z)) :=
  let? '(held, version, pttl) := backend "describe failed: {e}" (invoke (mgr_conn mgr)
    (let! held := r_exists key in
     let! version := r_get (fence_key_for key) in
     let! pttl := r_pttl key in
     cret (held, version, pttl))%script) in
  ret (Ok (0 <? held, version_of version, if 0 <? pttl then pttl else 0)).

(** [RedisLockManager::force_unlock]. *)
Definition force_unlock (mgr : RedisLockManager) (key : string) : M R (res error bool) :=
  let? n := backend "force unlock failed: {e}" (invoke (mgr_conn mgr) (r_del key)) in
  ret (Ok (0 <? n)).

(** [RedisLockManager::unlock_with_token]. *)
Definition unlock_with_token (mgr : RedisLockManager) (key token : string) : M R (res error bool) :=
  let? ok := backend "unlock failed: {e}"
    (invoke_int (mgr_conn mgr) RELEASE [key; fence_key_for key] [token]) in
  ret (Ok (ok =? 1)).

Definition extend_floor : error := InvalidConfig "extend ttl {:?} is below the {:?} floor".

(** [RedisLockManager::extend_with_token]. *)
Definition extend_with_token (mgr : RedisLockManager) (key token : string) (t : duration) :
    M R (res error bool) :=
  if t <? MIN_TTL then ret (Err extend_floor) else
  let? ok := backend "extend failed: {e}"
    (invoke_int (mgr_conn mgr) EXTEND [key; fence_key_for key]
       [token; z_to_string (as_millis_u64 t); z_to_string (u64_mul (as_millis_u64 t) FENCE_TTL_MULTIPLIER)]) in
  ret (Ok (ok =? 1)).

(** *** The handle *)

(** [HandleShared::fire_extend]. *)
Definition fire_extend (s : HandleShared) (t : duration) : M R (res error bool) :=
  let? ok := backend "extend script failed: {e}"
    (invoke_int (h_conn s) EXTEND [h_key s; h_fence_key s]
       [h_token s; z_to_string (as_millis_u64 t); z_to_string (u64_mul (as_millis_u64 t) FENCE_TTL_MULTIPLIER)]) in
  ret (Ok (ok =? 1)).

Definition lost_error (s : HandleShared) : error := Lost (h_key s) (value (h_fence s)).

(** [LockHandle::extend]. *)
Definition extend (s : HandleShared) (t : duration) : M R (res error unit) :=
  if t <? MIN_TTL then ret (Err extend_floor) else
  let* f := cell (h_cell s) in
  if released f then ret (Err (lost_error s)) else
  let? ok := fire_extend s t in
  if ok : bool then ret (Ok tt) else
  do* mark_lost (h_cell s) in
  ret (Err (lost_error s)).

(** [RedisLockHandle::run_release]. *)
Definition run_release (s : HandleShared) : M R (res error Z) :=
  backend "release script failed: {e}"
    (invoke_int (h_conn s) RELEASE [h_key s; h_fence_key s] [h_token s]).

(** [LockHandle::release]. *)
Definition release (s : HandleShared) : M R (res error unit) :=
  let* first := mark_released (h_cell s) in
  if negb first then ret (Ok tt) else
  let? released_ok := run_release s in
  if released_ok =? 1 then ret (Ok tt) else ret (Err (lost_error s)).

(** [LockHandle::is_lost]. *)
Definition is_lost (s : HandleShared) : M R bool := gets (fun w =>
  poisoned (default fresh_flags (w_flags w !! h_cell s))).

(** [RedisLockHandle::disarm]. *)
Definition disarm (s : HandleShared) : M R unit :=
  let* _first := mark_released (h_cell s) in ret tt.

(** [Drop for HandleShared]: the last clone goes away, inside or outside a
    tokio runtime. *)
Definition drop (runtime : bool) (s : HandleShared) : M R unit :=
  do* update_cell (h_cell s) set_dropped in
  let* first := mark_released (h_cell s) in
  if negb first then ret tt else
  if runtime
  then spawn (TScript (h_conn s) RELEASE [h_key s; h_fence_key s] [h_token s])
  else ret tt.

(** *** The watchdog ([spawn_watchdog])

    One round of its loop; [Some n] continues with [n] consecutive transient
    failures ([u32]), [None] ends the task. *)
Definition watchdog_round (s : HandleShared) (transient_failures : Z) : M R (option Z) :=
  do* sleep (h_ttl s / RENEWAL_DIVISOR) in
  let* f := cell (h_cell s) in
  if dropped f then ret None else
  if released f then ret None else
  let* r := fire_extend s (h_ttl s) in
  match r with
  | Ok true => ret (Some 0)
  | Ok false => do* mark_lost (h_cell s) in ret None
  | Err _ =>
      let transient_failures := (transient_failures + 1) mod 2 ^ 32 in
      if max_transient_failures (h_policy s) <? transient_failures
      then do* mark_lost (h_cell s) in ret None
      else ret (Some transient_failures)
  end.

Fixpoint watchdog_rounds (n : nat) (s : HandleShared) (transient_failures : Z) {struct n} : M R (option Z) :=
  match n with
  | O => ret (Some transient_failures)
  | S n =>
      let* r := watchdog_round s transient_failures in
      match r with
      | Some t => watchdog_rounds n s t
      | None => ret None
      end
  end.
End single.

(** ** Lemmas *)

Section lemmas.
Context {U : UuidSource} {R : Type} `{RedisLaws R}.
Implicit Types w : world R.

Lemma options_ttl options : validate options = Ok tt -> 10 <= as_millis (ttl options).
Proof. rewrite validate_ok. unfold MIN_TTL, from_millis, as_millis. intros. apply Z.div_le_lower_bound; lia. Qed.

(** The casts and products of the call sites are exact for lifetimes the
    server accepts. *)
Lemma ttl_args t now : 0 <= as_millis t -> 0 <= now -> now + 10 * as_millis t <= i64_max ->
  as_millis_u64 t = as_millis t /\ u64_mul (as_millis t) FENCE_TTL_MULTIPLIER = 10 * as_millis t.
Proof.
  intros. unfold i64_max in *.
  assert (as_millis_u64 t = as_millis t) as E.
  { unfold as_millis_u64. apply wrap64_small. unfold in_u64, u64_mod. lia. }
  split; [done|]. unfold FENCE_TTL_MULTIPLIER. rewrite u64_mul_small; unfold u64_mod; lia.
Qed.

Lemma ttl_op_fits t l : 0 < as_millis t -> 0 <= l_now l -> l_now l + 10 * as_millis t <= i64_max ->
  forall tok, lop_fits (l_now l) (LAcquire tok (as_millis t) (10 * as_millis t)) /\
              lop_fits (l_now l) (LExtend tok (as_millis t) (10 * as_millis t)).
Proof. intros. unfold lop_fits, ttl_fits. lia. Qed.

(** What the server [c] looks like after one exchange carrying a mutex
    operation: untouched when the message was lost on the way, else as the
    specification says. *)
Definition lease_after (f : fate) (op : lop) (l : lease) : lease :=
  match f with NotDelivered => l | _ => (lease_op op l).2 end.

Lemma exchange_view w c key op l {A} (m : cmd R A) :
  (forall s, (m s).2 = (lop_script key op s).2) ->
  view key (r_db (servers_before w c)) l -> lop_fits (l_now l) op ->
  view key (r_db (w_server (after_invoke c m w) c)) (lease_after (st_fate (step_of w)) op l) /\
  same_elsewhere key (r_db (servers_before w c)) (r_db (w_server (after_invoke c m w) c)) /\
  (forall c', c' <> c -> w_server (after_invoke c m w) c' = servers_before w c').
Proof.
  intros Hm V F. destruct (lop_refines_any key _ _ _ V F) as (_ & V1 & S1).
  unfold after_invoke, lease_after. cbn [w_server].
  destruct (st_fate (step_of w)); rewrite ?fn_lookup_insert, ?Hm;
    (split; [done|split; [done || apply same_elsewhere_refl|]]); intros c' Hc;
    by rewrite ?fn_lookup_insert_ne by done.
Qed.

Lemma acquire_reply_range tok ttl fttl l st f :
  0 <= fence_count l -> (lease_acquire tok ttl fttl l).1 = Ok (RPair st f) -> wrap64 f = f.
Proof.
  intros Hc E. apply wrap64_small. unfold in_u64. destruct (decide (st = 0)) as [->|Hs].
  - revert E. unfold lease_acquire, lease_bump. repeat case_goal; cbn; intros [=]; subst; done.
  - revert E. unfold lease_acquire, lease_bump, lease_hold, fence_count in *. cbn.
    repeat case_goal; cbn; intros [=]; zbool; unfold i64_max, u64_mod in *; subst; lia.
Qed.
(** A handle of key [k] on server [c]. *)
Definition handle_of (s : HandleShared) : Prop := h_fence_key s = fence_key_for (h_key s).

Definition flag_of w (s : HandleShared) : flags := default fresh_flags (w_flags w !! h_cell s).

Lemma flag_update w (s : HandleShared) f : (h_cell s < length (w_flags w))%nat ->
  flag_of (set_flags (alter f (h_cell s) (w_flags w)) w) s = f (flag_of w s).
Proof.
  intros Hi. unfold flag_of. cbn. rewrite list_lookup_alter_eq.
  destruct (lookup_lt_is_Some_2 _ _ Hi) as [x ->]. done.
Qed.

(** One [RELEASE] or [EXTEND] call: its reply, in closed form. *)
Lemma int_exchange w c key op l name KEYS ARGV :
  (eval_script (R:=R) name KEYS ARGV = lop_script key op) -> w_budget w = None ->
  view key (r_db (servers_before w c)) l -> lop_fits (l_now l) op ->
  exists w', invoke_int c name KEYS ARGV w =
      (Done (match st_fate (step_of w), (lease_op op l).1 with
             | Replied, Ok (RInt z) => Ok z
             | Replied, Err e => Err e
             | _, _ => Err Io
             end), w') /\
    view key (r_db (w_server w' c)) (lease_after (st_fate (step_of w)) op l) /\
    w_flags w' = w_flags w /\ w_tasks w' = w_tasks w /\ w_budget w' = None /\
    w_steps w' = tail (w_steps w) /\
    same_elsewhere key (r_db (servers_before w c)) (r_db (w_server w' c)) /\
    (forall c', c' <> c -> w_server w' c' = servers_before w c') /\ w_uuids w' = w_uuids w.
Proof.
  intros En B V F. unfold invoke_int. rewrite En, invoke_eq by done. eexists.
  pose proof (exchange_view w c key op l (as_int (lop_script key op)) (fun s => f_equal snd (as_int_run _ s)) V F) as Hv.
  split; [|split; [apply Hv|split_and!; [done..|apply Hv|apply Hv|done]]].
  f_equal. f_equal. unfold reply_of. rewrite as_int_run. cbn [fst].
  destruct (lop_refines_any key _ _ _ V F) as (-> & _).
  destruct (st_fate (step_of w)); [|done..]. by destruct ((lease_op op l).1) as [[]|].
Qed.
Lemma fire_extend_run w s t l : handle_of s -> w_budget w = None ->
  view (h_key s) (r_db (servers_before w (h_conn s))) l ->
  0 < as_millis t -> l_now l + 10 * as_millis t <= i64_max ->
  exists w', fire_extend s t w =
      (Done (match st_fate (step_of w) with
             | Replied => Ok (holds (h_token s) l)
             | _ => Err (Backend "extend script failed: {e}")
             end), w') /\
    view (h_key s) (r_db (w_server w' (h_conn s)))
      (lease_after (st_fate (step_of w)) (LExtend (h_token s) (as_millis t) (10 * as_millis t)) l) /\
    w_flags w' = w_flags w /\ w_tasks w' = w_tasks w /\ w_budget w' = None /\
    w_steps w' = tail (w_steps w).
Proof.
  intros Hk B V Ht Hfit. pose proof (view_clock _ _ _ V).
  destruct (ttl_args t (l_now l)) as [E1 E2]; [lia..|].
  destruct (ttl_op_fits t l Ht ltac:(done) Hfit (h_token s)) as [_ F].
  unfold fire_extend. rewrite E1, E2, Hk. unfold try_, backend. unfold bind at 1 2. unfold invoke_int.
  set (m := as_int _). rewrite invoke_eq by done. unfold ret at 1.
  destruct (exchange_view w (h_conn s) (h_key s) (LExtend (h_token s) (as_millis t) (10 * as_millis t))
              l m (fun x => f_equal snd (as_int_run _ x)) V F) as (V' & _).
  exists (after_invoke (h_conn s) m w). split; [|by split].
  unfold reply_of, m. rewrite as_int_run. cbn [fst].
  change (eval_script EXTEND _ _) with
    (lop_script (R:=R) (h_key s) (LExtend (h_token s) (as_millis t) (10 * as_millis t))).
  destruct (lop_refines_any (h_key s) _ _ _ V F) as (-> & _). cbn [lease_op]. unfold lease_extend.
  destruct (st_fate (step_of w)); [|done..]. by destruct (holds (h_token s) l).
Qed.
Lemma safe_try_lock_with mgr key options : safe (R:=R) (try_lock_with mgr key options).
Proof. unfold try_lock_with. solve_safe. Qed.
Hint Resolve safe_try_lock_with : safe.

(** Rounds of the waiting loop: one per poll interval, and the last. *)
Definition loop_fuel (left : Z) : nat := Z.to_nat (Z.max 0 left / POLL_INTERVAL + 2).

(** The first round of the waiting loop with a deadline. *)
Lemma attempt_ends mgr key options d w : w_budget w = None -> exists a w',
  timeout (Z.min (default (from_secs 5) (checked_duration_since d (w_clock w))) (from_secs 2))
    (try_lock_with mgr key options) w = (Done a, w') /\
  w_clock w <= w_clock w' /\ w_budget w' = None.
Proof.
  intros B.
  assert (safe (R:=R) (timeout (Z.min (default (from_secs 5) (checked_duration_since d (w_clock w)))
                        (from_secs 2)) (try_lock_with mgr key options))) as Hs.
  { apply safe_timeout; [|auto with safe]. unfold checked_duration_since, from_secs. case_match eqn:E; cbn; zbool; lia. }
  specialize (Hs w). destruct (timeout _ _ w) as [[a| | |] w1]; [|done|exfalso|done].
  - exists a, w1. destruct Hs as [? ->]. done.
  - destruct Hs as (_ & _ & []). done.
Qed.

(** Past the deadline the loop makes one more round at most. *)
Lemma try_lock_loop_last mgr key options d fuel w : w_budget w = None -> d <= w_clock w ->
  exists r w', try_lock_loop (S fuel) mgr key options (Some d) w = (Done r, w').
Proof.
  intros B Hd. cbn [try_lock_loop]. unfold bind at 1, instant_now, gets.
  destruct (attempt_ends mgr key options d w B) as (a & w1 & E & Hc & B1).
  unfold bind at 1. cbn [mbind option_bind]. rewrite E.
  destruct a as [[h|[k|k|k f|m|m]]|]; try (do 2 eexists; reflexivity).
  unfold bind at 1.
  assert ((default 0 (checked_duration_since d (w_clock w1)) =? 0) = true) as ->.
  { unfold checked_duration_since. case_match eqn:E2; zbool; cbn; lia. }
  do 2 eexists. reflexivity.
Qed.

Lemma try_lock_loop_ends mgr key options d : forall fuel w, w_budget w = None ->
  (loop_fuel (d - w_clock w) <= fuel)%nat ->
  exists r w', try_lock_loop fuel mgr key options (Some d) w = (Done r, w').
Proof.
  intros fuel. induction fuel as [|fuel IH]; intros w B Hf.
  { unfold loop_fuel, POLL_INTERVAL, from_millis in Hf.
    assert (0 <= Z.max 0 (d - w_clock w) / (20 * 1000000)) by (apply Z.div_pos; lia). lia. }
  destruct (Z_le_gt_dec d (w_clock w)); [by apply try_lock_loop_last|].
  cbn [try_lock_loop]. unfold bind at 1, instant_now, gets.
  destruct (attempt_ends mgr key options d w B) as (a & w1 & E & Hc & B1).
  unfold bind at 1. cbn [mbind option_bind]. rewrite E.
  destruct a as [[h|[k|k|k f|m|m]]|]; try (do 2 eexists; reflexivity).
  unfold bind at 1. destruct (default 0 _ =? 0) eqn:Hr; [do 2 eexists; reflexivity|]. zbool.
  unfold checked_duration_since in Hr. destruct (w_clock w1 <=? d) eqn:Hd; cbn in Hr; [|done]. zbool.
  unfold bind. rewrite sleep_eq by done.
  unfold checked_duration_since. rewrite (proj2 (Z.leb_le _ _) Hd). set (w2 := after_sleep _ w1).
  assert (w_clock w1 + Z.min POLL_INTERVAL (d - w_clock w1) <= w_clock w2) as Hc2.
  { apply (sleep_lasts _ w1). by rewrite sleep_eq. }
  assert (w_budget w2 = None) as B2 by done. clearbody w2.
  unfold loop_fuel, POLL_INTERVAL, from_millis in *. rewrite (Z.max_r 0 (d - w_clock w)) in Hf by lia.
  assert (0 <= (d - w_clock w) / (20 * 1000000)) by (apply Z.div_pos; lia).
  destruct (Z_le_gt_dec d (w_clock w2)).
  { destruct fuel as [|fuel]; [lia|by apply try_lock_loop_last]. }
  apply IH; [done|]. rewrite Z.max_r by lia.
  assert ((d - w_clock w2) / (20 * 1000000) + 1 <= (d - w_clock w) / (20 * 1000000)); [|lia].
  rewrite <- Z.div_add by lia. apply Z.div_le_mono; lia.
Qed.
(** A watchdog round whose handle is alive: the renewal decides. *)
Lemma watchdog_round_run w s n l : handle_of s -> w_budget w = None ->
  released (flag_of w s) = false -> dropped (flag_of w s) = false ->
  let w1 := after_sleep (h_ttl s / RENEWAL_DIVISOR) w in
  view (h_key s) (r_db (servers_before w1 (h_conn s))) l ->
  0 < as_millis (h_ttl s) -> l_now l + 10 * as_millis (h_ttl s) <= i64_max ->
  exists w2, w_budget w2 = None /\ w_steps w2 = tail (tail (w_steps w)) /\ w_flags w2 = w_flags w /\
    view (h_key s) (r_db (w_server w2 (h_conn s)))
      (lease_after (st_fate (step_of w1)) (LExtend (h_token s) (as_millis (h_ttl s)) (10 * as_millis (h_ttl s))) l) /\
    watchdog_round s n w =
      match st_fate (step_of w1) with
      | Replied =>
          if holds (h_token s) l then (Done (Some 0), w2)
          else (Done None, set_flags (alter set_lost (h_cell s) (w_flags w2)) w2)
      | _ =>
          let n' := (n + 1) mod 2 ^ 32 in
          if max_transient_failures (h_policy s) <? n'
          then (Done None, set_flags (alter set_lost (h_cell s) (w_flags w2)) w2)
          else (Done (Some n'), w2)
      end.
Proof.
  intros Hk B Hr Hd w1 V Ht Hfit.
  destruct (fire_extend_run w1 s (h_ttl s) l Hk ltac:(done) V Ht Hfit) as (w2 & E & V2 & F2 & _ & B2 & S2).
  exists w2. do 4 (split; [done|]). unfold watchdog_round. unfold bind at 1. rewrite sleep_eq by done.
  fold w1. unfold bind at 1, cell, gets. change (default _ _) with (flag_of w s). rewrite Hd, Hr.
  unfold bind at 1. rewrite E.
  destruct (st_fate (step_of w1)); [by destruct (holds (h_token s) l)|..]; by destruct (_ <? _).
Qed.

(** A network where every renewal request is lost for [n] rounds. *)
Definition outage (n : nat) : list (env_step R) :=
  concat (replicate n [quiet; mk_step id NotDelivered 0]).

Lemma watchdog_outage s l rest : handle_of s ->
  0 < as_millis (h_ttl s) -> l_now l + 10 * as_millis (h_ttl s) <= i64_max ->
  let m := max_transient_failures (h_policy s) in
  forall n k w, (h_cell s < length (w_flags w))%nat -> w_budget w = None ->
    released (flag_of w s) = false -> dropped (flag_of w s) = false -> w_steps w = outage n ++ rest ->
    view (h_key s) (r_db (w_server w (h_conn s))) l -> 0 <= k <= m -> k + Z.of_nat n < 2 ^ 32 ->
    exists w', watchdog_rounds n s k w =
      (Done (if m <? k + Z.of_nat n then None else Some (k + Z.of_nat n)), w') /\
      flag_of w' s = if m <? k + Z.of_nat n then set_lost (flag_of w s) else flag_of w s.
Proof.
  intros Hk Ht Hfit m n. induction n as [|n IH]; intros k w Hc B Hr Hd Hs V Hk0 Hn.
  - exists w. rewrite (proj2 (Z.ltb_ge m _)) by lia. cbn. by rewrite Z.add_0_r.
  - change (w_steps w = quiet :: mk_step id NotDelivered 0 :: outage n ++ rest) in Hs.
    assert (after_sleep (h_ttl s / RENEWAL_DIVISOR) w =
            set_steps (mk_step id NotDelivered 0 :: outage n ++ rest)
              (set_clock (w_clock (after_sleep (h_ttl s / RENEWAL_DIVISOR) w)) w)) as Ew.
    { unfold after_sleep, servers_before, step_of. rewrite Hs. destruct w; cbn in *. by subst. }
    destruct (watchdog_round_run w s k l Hk B Hr Hd) as (w2 & B2 & S2 & F2 & V2 & E2);
      [by rewrite Ew|done|done|].
    rewrite Ew in V2, E2. cbn [step_of set_steps w_steps st_fate lease_after] in V2, E2.
    rewrite Hs in S2. cbn [tail] in S2. cbn [watchdog_rounds]. unfold bind. rewrite E2.
    rewrite (Z.mod_small (k + 1)) by lia. fold m.
    assert (flag_of w2 s = flag_of w s) as Hf2 by (unfold flag_of; by rewrite F2).
    destruct (m <? k + 1) eqn:Hm; zbool.
    + rewrite (proj2 (Z.ltb_lt m _)) by lia. eexists. split; [done|].
      rewrite flag_update by by rewrite F2. by rewrite Hf2.
    + destruct (IH (k + 1) w2) as (w' & E & F); [by rewrite F2|done|by rewrite Hf2|by rewrite Hf2|done|done|lia|lia|].
      replace (k + Z.of_nat (S n)) with (k + 1 + Z.of_nat n) by lia. exists w'.
      rewrite E, F, Hf2. done.
Qed.

(** One acquisition attempt, in closed form. *)
Lemma try_lock_with_run w mgr key options l :
  let c := mgr_conn mgr in
  let owner := owner_generate (w_uuids w) in
  let t := as_millis (ttl options) in
  let op := LAcquire (owner_token owner) t (10 * t) in
  w_budget w = None -> validate options = Ok tt ->
  view key (r_db (servers_before w c)) l -> l_now l + 10 * t <= i64_max ->
  exists r w', try_lock_with mgr key options w = (Done r, w') /\
    r = match st_fate (step_of w), (lease_op op l).1 with
        | Replied, Ok (RPair st f) =>
            if granted st
            then Ok (mk_handle c key (fence_key_for key) (owner_token owner) owner (fence_new f)
                       (length (w_flags w)) (ttl options) (safety_policy options))
            else Err (Held key)
        | _, _ => Err (Backend "acquire script failed: {e}")
        end /\
    view key (r_db (w_server w' c)) (lease_after (st_fate (step_of w)) op l) /\
    same_elsewhere key (r_db (servers_before w c)) (r_db (w_server w' c)) /\
    (forall c', c' <> c -> w_server w' c' = servers_before w c') /\
    w_flags w' = (if is_ok r then w_flags w ++ [fresh_flags] else w_flags w) /\
    w_tasks w' = (if is_ok r && default (watchdog_default mgr) (watchdog options)
                  then TWatchdog (length (w_flags w)) :: w_tasks w else w_tasks w) /\
    w_steps w' = tail (w_steps w) /\ w_budget w' = None /\ w_uuids w' = N.succ (w_uuids w).
Proof.
  intros c owner t op B Hv V Ht. pose proof (options_ttl _ Hv). pose proof (view_clock _ _ _ V).
  destruct (ttl_args (ttl options) (l_now l)) as [E1 E2]; [fold t; lia|done|done|].
  destruct (ttl_op_fits (ttl options) l ltac:(fold t; lia) ltac:(done) Ht (owner_token owner)) as [F _].
  change (lop_fits (l_now l) op) in F.
  unfold try_lock_with, try_, bind at 1, ret at 1. rewrite Hv. unfold bind at 1, fresh_owner.
  fold owner. rewrite E1, E2. fold t c. unfold backend. unfold bind at 1. unfold bind at 1.
  unfold invoke_pair.
  set (m := as_pair (eval_script ACQUIRE _ _)). set (w1 := set_uuids _ w).
  assert (Hm : forall s, (m s).2 = (lop_script key op s).2) by (intros s; unfold m; by rewrite as_pair_run).
  assert (Hs : servers_before w1 = servers_before w) by done.
  assert (Hst : step_of w1 = step_of w) by done.
  rewrite invoke_eq by done. unfold ret at 1.
  destruct (exchange_view w1 c key op l m Hm ltac:(by rewrite Hs) F) as (V' & S' & O').
  rewrite Hst, ?Hs in *.
  unfold reply_of. rewrite Hst, Hs. unfold m at 1. rewrite as_pair_run. cbn [fst].
  change (eval_script ACQUIRE _ _) with (lop_script (R:=R) key op).
  destruct (lop_refines_any key _ _ _ V F) as (-> & _).
  pose proof (fun st f => acquire_reply_range (owner_token owner) t (10 * t) l st f
                            (proj1 (view_count _ _ _ V))) as Hf.
  change (lease_acquire _ _ _ l) with (lease_op op l) in Hf.
  destruct (st_fate (step_of w)) eqn:Ef; cbn [res_map_err];
    [|do 2 eexists; split; [reflexivity|]; split_and!; done..].
  destruct ((lease_op op l).1) as [[z|st f]|e]; cbn [res_map_err];
    [do 2 eexists; split; [reflexivity|]; split_and!; done| |do 2 eexists; split; [reflexivity|]; split_and!; done].
  destruct (granted st) eqn:Hg; [|do 2 eexists; split; [reflexivity|]; split_and!; done].
  rewrite (Hf _ _ eq_refl). unfold bind, new_cell, ret, spawn, modify.
  destruct (default _ _) eqn:Hd; do 2 eexists; (split; [reflexivity|]); split_and!; done.
Qed.

(** [release] on a handle not yet released: one exchange. *)
Lemma release_run w s l :
  handle_of s -> w_budget w = None -> released (flag_of w s) = false ->
  view (h_key s) (r_db (servers_before w (h_conn s))) l ->
  exists w', release s w =
    (Done (match st_fate (step_of w) with
           | Replied => if holds (h_token s) l then Ok tt else Err (lost_error s)
           | _ => Err (Backend "release script failed: {e}")
           end), w') /\
    view (h_key s) (r_db (w_server w' (h_conn s)))
      (lease_after (st_fate (step_of w)) (LRelease (h_token s)) l) /\
    w_flags w' = alter set_released (h_cell s) (w_flags w) /\ w_tasks w' = w_tasks w /\ w_budget w' = None /\
    w_steps w' = tail (w_steps w) /\
    same_elsewhere (h_key s) (r_db (servers_before w (h_conn s))) (r_db (w_server w' (h_conn s))) /\
    w_uuids w' = w_uuids w.
Proof.
  intros Hk B Hr V. unfold release, mark_released. unfold bind at 1 2. unfold cell, gets.
  unfold bind at 1, update_cell, modify, ret at 1. fold (flag_of w s). rewrite negb_involutive, Hr.
  set (w1 := set_flags _ w).
  destruct (int_exchange w1 (h_conn s) (h_key s) (LRelease (h_token s)) l RELEASE
              [h_key s; h_fence_key s] [h_token s]) as (w2 & E & V2 & F2 & T2 & B2 & St2 & S2 & O2 & U2);
    [cbn [lop_script]; unfold handle_of in Hk; rewrite Hk; reflexivity|exact B|exact V|exact I|].
  unfold try_, run_release, backend. unfold bind at 1 2. rewrite E. unfold ret at 1.
  change (step_of w1) with (step_of w) in *. change (servers_before w1) with (servers_before w) in *.
  change (w_uuids w1) with (w_uuids w) in U2.
  cbn [lease_op] in *. unfold lease_release in *. cbn [negb].
  destruct (st_fate (step_of w)); cbn [res_map_err]; [|exists w2; split; [done|]; by split_and!..].
  destruct (holds (h_token s) l); cbn; exists w2; (split; [done|]; by split_and!).
Qed.

(** [release] on a handle released before: nothing is sent. *)
Lemma release_again w s : released (flag_of w s) = true ->
  release s w = (Done (Ok tt), set_flags (alter set_released (h_cell s) (w_flags w)) w).
Proof.
  intros Hr. unfold release, mark_released. unfold bind at 1 2. unfold cell, gets.
  unfold bind at 1, update_cell, modify, ret at 1. fold (flag_of w s). by rewrite negb_involutive, Hr.
Qed.
(** A released handle going out of scope does nothing. *)
Lemma drop_released w (s : HandleShared) : released (flag_of w s) = true ->
  exists w', drop true s w = (Done tt, w') /\ w_server w' = w_server w /\ w_tasks w' = w_tasks w /\
    w_budget w' = w_budget w /\ w_steps w' = w_steps w /\ w_uuids w' = w_uuids w.
Proof.
  intros Hr. unfold drop, mark_released, update_cell, modify, cell, gets, bind, ret. cbn.
  assert (released (default fresh_flags (alter set_dropped (h_cell s) (w_flags w) !! h_cell s)) = true) as ->.
  { rewrite list_lookup_alter_eq. unfold flag_of in Hr. by destruct (w_flags w !! h_cell s). }
  eexists. by split.
Qed.

Lemma flag_released w w' (s : HandleShared) : (h_cell s < length (w_flags w))%nat ->
  w_flags w' = alter set_released (h_cell s) (w_flags w) -> released (flag_of w' s) = true.
Proof.
  intros Hl F. unfold flag_of. rewrite F, list_lookup_alter_eq.
  by destruct (lookup_lt_is_Some_2 _ _ Hl) as [x ->].
Qed.
End lemmas.

(** ** Properties *)

Section properties.
Context {U : UuidSource} {R : Type} `{RedisLaws R}.
Implicit Types w : world R.


(** C27: [release] runs its script at most once per handle.  On a handle not
    yet released it marks it released whatever happens next, then: [Ok] when
    the server still recorded the token (the lock is now free), [Lost] when
    it did not (nothing is touched: a successor's lock survives), [Backend]
    when the message was lost.  On a handle already released it succeeds
    without sending anything. *)
Theorem release_correct w s l :
  handle_of s -> (h_cell s < length (w_flags w))%nat -> w_budget w = None ->
  view (h_key s) (r_db (servers_before w (h_conn s))) l ->
  exists w', release s w =
    (Done (if released (flag_of w s) then Ok tt else
           match st_fate (step_of w) with
           | Replied => if holds (h_token s) l then Ok tt else Err (lost_error s)
           | _ => Err (Backend "release script failed: {e}")
           end), w') /\
    released (flag_of w' s) = true /\
    (released (flag_of w s) = true -> w_server w' = w_server w /\ w_steps w' = w_steps w) /\
    (released (flag_of w s) = false ->
     view (h_key s) (r_db (w_server w' (h_conn s)))
       (lease_after (st_fate (step_of w)) (LRelease (h_token s)) l)).
Proof.
  intros Hk Hc B V. pose proof (flag_update w s set_released Hc) as Hfl.
  destruct (released (flag_of w s)) eqn:Hr.
  { eexists. rewrite release_again by done. split; [done|]. split; [by rewrite Hfl|]. split; [done|discriminate]. }
  destruct (release_run w s l Hk B Hr V) as (w' & E & V' & F & _). exists w'. split; [done|].
  split; [|by split]. unfold flag_of in *. rewrite F. cbn in Hfl. by rewrite Hfl.
Qed.

(** A failed release cannot be retried: when the release message is lost
    the call reports [Backend], the handle counts as released all the same,
    and calling [release] again answers [Ok] although the server still
    records the lock as held by this handle's token. *)
Theorem release_retry_hides_failure w s l :
  handle_of s -> (h_cell s < length (w_flags w))%nat -> w_budget w = None ->
  view (h_key s) (r_db (servers_before w (h_conn s))) l ->
  released (flag_of w s) = false -> st_fate (step_of w) = NotDelivered -> holds (h_token s) l = true ->
  exists w1 w2, release s w = (Done (Err (Backend "release script failed: {e}")), w1) /\
    release s w1 = (Done (Ok tt), w2) /\
    view (h_key s) (r_db (w_server w2 (h_conn s))) l.
Proof.
  intros Hk Hc B V Hr Hf Hh. destruct (release_run w s l Hk B Hr V) as (w1 & E & V1 & F & _).
  rewrite Hf in E, V1. eexists w1, _. split; [exact E|]. rewrite release_again; [split; [reflexivity|exact V1]|].
  unfold flag_of. rewrite F. pose proof (flag_update w s set_released Hc) as Hfl.
  unfold flag_of in Hfl. cbn in Hfl. by rewrite Hfl.
Qed.

(** [extend] on every branch: below the floor it is [InvalidConfig] and
    sends nothing; on a released handle it is [Lost] and sends nothing;
    otherwise, if the reply arrives, it succeeds exactly when the server
    still records the handle's token, whose lease then runs for the new time
    to live and whose fence counter for ten times it, and else poisons the
    handle and answers [Lost]; a lost message is [Backend] and does not
    poison. *)
Theorem extend_correct w s t l :
  handle_of s -> (h_cell s < length (w_flags w))%nat -> w_budget w = None ->
  view (h_key s) (r_db (servers_before w (h_conn s))) l -> l_now l + 10 * as_millis t <= i64_max ->
  let sent := negb (t <? MIN_TTL) && negb (released (flag_of w s)) in
  let lost_now := sent && (if decide (st_fate (step_of w) = Replied) then negb (holds (h_token s) l) else false) in
  exists w', extend s t w =
    (Done (if t <? MIN_TTL then Err extend_floor else
           if released (flag_of w s) then Err (lost_error s) else
           match st_fate (step_of w) with
           | Replied => if holds (h_token s) l then Ok tt else Err (lost_error s)
           | _ => Err (Backend "extend script failed: {e}")
           end), w') /\
    (sent = false -> w' = w) /\
    (sent = true -> view (h_key s) (r_db (w_server w' (h_conn s)))
       (lease_after (st_fate (step_of w)) (LExtend (h_token s) (as_millis t) (10 * as_millis t)) l)) /\
    flag_of w' s = (if lost_now then set_lost (flag_of w s) else flag_of w s).
Proof.
  intros Hk Hc B V Hfit sent lost_now. unfold extend, sent, lost_now, sent.
  destruct (t <? MIN_TTL) eqn:Hfl; [by exists w|]. zbool.
  assert (0 < as_millis t).
  { unfold MIN_TTL, from_millis, as_millis in *. apply Z.div_str_pos. lia. }
  unfold bind at 1, cell, gets. fold (flag_of w s).
  destruct (released (flag_of w s)) eqn:Hr; [by exists w|].
  destruct (fire_extend_run w s t l Hk B V ltac:(done) Hfit) as (w2 & E & V2 & F2 & _).
  unfold try_. unfold bind at 1. rewrite E. cbn [negb andb].
  assert (flag_of w2 s = flag_of w s) as Hfl2 by (unfold flag_of; by rewrite F2).
  destruct (st_fate (step_of w)) eqn:Hf; cbn; [|by exists w2..].
  destruct (holds (h_token s) l) eqn:Hh; cbn; [by exists w2|].
  unfold bind, mark_lost, update_cell, modify, ret. eexists. split; [done|]. split; [done|].
  split; [done|]. rewrite flag_update by by rewrite F2. by rewrite Hfl2.
Qed.

(** [describe_key] tells the truth about the key at the instant its
    pipeline runs: held or not, the fence counter as version, and the
    milliseconds left of the lease; it changes nothing on the server. *)
Theorem describe_key_correct w mgr key l :
  let c := mgr_conn mgr in
  w_budget w = None -> st_fate (step_of w) = Replied -> view key (r_db (servers_before w c)) l ->
  exists w', describe_key mgr key w =
    (Done (Ok (bool_decide (is_Some (l_holder l)), fence_count l,
               match l_holder l with Some (_, dl) => Z.max 0 (dl - l_now l) | None => 0 end)), w') /\
    r_db (w_server w' c) = r_db (servers_before w c).
Proof.
  intros c B Hf V. unfold describe_key, try_, backend. unfold bind at 1 2. fold c.
  set (m := cbind _ _). rewrite invoke_eq by done.
  assert (meets m (let! held := doc_exists key in let! version := doc_get (fence_key_for key) in
                   let! pttl := doc_pttl key in cret (held, version, pttl))%script) as Hm
    by (unfold m; solve_meets).
  specialize (Hm (servers_before w c)).
  unfold cbind at 1 2 3, doc_exists, doc_get, doc_pttl, doc_read, cret in Hm.
  rewrite (view_holder _ _ _ V), (view_fence _ _ _ V), (view_now _ _ _ V) in Hm.
  assert (((m (servers_before w c)).1, r_db (m (servers_before w c)).2) =
    (Ok (if l_holder l is Some _ then 1 else 0, (fun p => z_to_string p.1) <$> l_fence l,
         match l_holder l with Some (_, dl) => Z.max 0 (dl - l_now l) | None => -2 end),
     r_db (servers_before w c))) as Hm'.
  { rewrite Hm. destruct (l_holder l) as [[t dl]|]; destruct (l_fence l) as [[v fd]|]; reflexivity. }
  injection Hm' as H1 H2. exists (after_invoke c m w). split.
  - unfold reply_of. rewrite Hf, H1. unfold ret. cbn [res_map_err].
    pose proof (view_count _ _ _ V) as Hc. unfold fence_count, version_of in *.
    assert (forall z, 0 <= z <= i64_max -> in_u64 z) as Hu by (unfold i64_max, in_u64, u64_mod; lia).
    destruct (l_fence l) as [[v fd]|]; cbn;
      rewrite ?parse_u64_to_string by auto; destruct (l_holder l) as [[t dl]|]; cbn [default];
      do 4 f_equal; cbn; case_goal; zbool; lia.
  - unfold after_invoke. rewrite Hf. cbn [w_server]. by rewrite fn_lookup_insert.
Qed.

(** Dropping the last clone releases the lock exactly once and never
    blocks: nothing is sent at once; inside a runtime a handle that was
    neither released nor disarmed leaves one detached call of the release
    script behind, which, when it runs and its message arrives, frees the
    lock if and only if the server still records the token. *)
Theorem drop_correct w s runtime :
  (h_cell s < length (w_flags w))%nat ->
  let w' := (drop runtime s w).2 in
  (drop runtime s w).1 = Done tt /\
  w_server w' = w_server w /\ w_steps w' = w_steps w /\
  released (flag_of w' s) = true /\ dropped (flag_of w' s) = true /\
  w_tasks w' = (if runtime && negb (released (flag_of w s))
                then TScript (h_conn s) RELEASE [h_key s; h_fence_key s] [h_token s] :: w_tasks w
                else w_tasks w) /\
  (forall w2 l, handle_of s -> w_budget w2 = None ->
     view (h_key s) (r_db (servers_before w2 (h_conn s))) l ->
     exists w3, run_detached (TScript (h_conn s) RELEASE [h_key s; h_fence_key s] [h_token s]) w2 =
                  (Done tt, w3) /\
                view (h_key s) (r_db (w_server w3 (h_conn s)))
                  (lease_after (st_fate (step_of w2)) (LRelease (h_token s)) l)).
Proof.
  intros Hc w'. unfold w', drop, mark_released, update_cell, cell, gets, modify, spawn, bind, ret.
  fold (flag_of w s). pose proof (flag_update w s set_dropped Hc) as F1.
  set (w1 := set_flags _ w) in *. fold (flag_of w1 s). rewrite F1.
  assert ((h_cell s < length (w_flags w1))%nat) as Hc1 by (cbn; by rewrite length_alter).
  pose proof (flag_update w1 s set_released Hc1) as F2. set (w2 := set_flags _ w1) in *.
  rewrite F1 in F2. rewrite negb_involutive. change (released (set_dropped (flag_of w s))) with (released (flag_of w s)).
  assert (forall w', w_flags w' = w_flags w2 -> flag_of w' s = flag_of w2 s) as Hfl
    by (intros w0 E; unfold flag_of; by rewrite E).
  split; [by destruct (released (flag_of w s)), runtime|].
  destruct (released (flag_of w s)) eqn:Hr, runtime; cbn [negb andb];
    (split; [done|]; split; [done|]); rewrite Hfl, F2 by done; (split; [done|]; split; [done|]; split; [done|]);
    intros w3 l Hk B V; cbn [run_detached]; unfold bind;
    (destruct (int_exchange w3 (h_conn s) (h_key s) (LRelease (h_token s)) l RELEASE
              [h_key s; h_fence_key s] [h_token s]) as (w4 & E & V4 & _); [cbn [lop_script]; unfold handle_of in Hk; rewrite Hk; reflexivity|exact B|exact V|exact I|]);
    rewrite E; by exists w4.
Qed.

(** C30: [try_lock_for] always comes back: whatever the network and the other
    clients do, as long as the deadline is representable, one round per poll
    interval in [wait] and one more suffice for it to return a handle or an
    error (it neither panics nor loops on). *)
Theorem try_lock_for_returns w mgr key options wait :
  w_budget w = None -> 0 <= wait -> w_clock w + wait <= instant_max ->
  exists r w', try_lock_for (Z.to_nat (wait / POLL_INTERVAL + 2)) mgr key options wait w = (Done r, w').
Proof.
  intros B Hw Hi. unfold try_lock_for, bind, instant_now, gets, instant_checked_add.
  rewrite (proj2 (Z.leb_le _ _) Hi). apply try_lock_loop_ends; [done|].
  unfold loop_fuel. by rewrite Z.add_simpl_l, Z.max_r.
Qed.

(** The watchdog's tolerance is the one its policy names: through a run
    of lost renewals it keeps going for exactly
    [max_transient_failures(policy)] of them, leaving the handle unpoisoned,
    and poisons the handle at the next one: at the first for [Cowardly], the
    third for [Balanced]. *)
Theorem watchdog_tolerance s n w l rest :
  handle_of s -> (h_cell s < length (w_flags w))%nat -> w_budget w = None ->
  released (flag_of w s) = false -> dropped (flag_of w s) = false ->
  w_steps w = outage n ++ rest ->
  view (h_key s) (r_db (w_server w (h_conn s))) l ->
  0 < as_millis (h_ttl s) -> l_now l + 10 * as_millis (h_ttl s) <= i64_max ->
  Z.of_nat n < 2 ^ 32 ->
  let m := max_transient_failures (h_policy s) in
  exists w', watchdog_rounds n s 0 w =
      (Done (if m <? Z.of_nat n then None else Some (Z.of_nat n)), w') /\
    flag_of w' s = if m <? Z.of_nat n then set_lost (flag_of w s) else flag_of w s.
Proof.
  intros Hk Hc B Hr Hd Hs V Ht Hfit Hn m.
  destruct (watchdog_outage s l rest Hk Ht Hfit n 0 w) as (w' & E & F); try done.
  { unfold m. destruct (h_policy s); cbn; unfold u32_max; lia. }
  exists w'. by rewrite E, F.
Qed.


(** One unanswered attempt ends the wait.  When the first acquisition
    request of [try_lock_for] gets no reply for more than two seconds, the
    call answers [Timeout] exactly two seconds in, however long [wait] is;
    so does [lock], which is to wait indefinitely. *)
Theorem hung_attempt_ends_wait fuel w mgr key options wait :
  validate options = Ok tt -> w_budget w = None -> from_secs 2 <= wait ->
  from_secs 2 < st_latency (step_of w) ->
  exists w', try_lock_for (S fuel) mgr key options wait w = (Done (Err (Timeout key)), w') /\
    w_clock w' = w_clock w + from_secs 2.
Proof.
  intros Hv B Hw Hl. unfold try_lock_for. unfold bind at 1, instant_now, gets.
  cbn [try_lock_loop]. unfold bind at 1, instant_now, gets.
  assert (Z.min (default (from_secs 5) (instant_checked_add (w_clock w) wait ≫=
            fun d => checked_duration_since d (w_clock w))) (from_secs 2) = from_secs 2) as ->.
  { unfold instant_checked_add, checked_duration_since, from_secs in *.
    destruct (_ <=? instant_max); cbn [mbind option_bind]; [|reflexivity].
    rewrite (proj2 (Z.leb_le _ _)) by lia. unfold default, from_option, id. lia. }
  unfold bind at 1, timeout. rewrite B. set (w0 := set_budget _ w).
  assert (exists w', try_lock_with mgr key options w0 = (Elapsed, w') /\
            w_clock w' = w_clock w + from_secs 2) as (w' & -> & Hc); [|by eexists].
  unfold try_lock_with, try_, ret at 1. rewrite Hv. unfold bind at 1. unfold bind at 1, fresh_owner.
  unfold backend. unfold bind at 1. unfold bind at 1. unfold invoke_pair.
  set (w1 := set_uuids _ w0).
  destruct (invoke_hangs (mgr_conn mgr) (as_pair (eval_script ACQUIRE [key; fence_key_for key]
      [owner_token (owner_generate (w_uuids w0)); z_to_string (as_millis_u64 (ttl options));
       z_to_string (u64_mul (as_millis_u64 (ttl options)) FENCE_TTL_MULTIPLIER)]))
    w1 (w_clock w + from_secs 2) eq_refl) as (w2 & E2 & Hc2).
  { change (step_of w1) with (step_of w). change (w_clock w1) with (w_clock w). unfold from_secs in *. lia. }
  rewrite E2. exists w2. split; [done|]. rewrite Hc2. change (w_clock w1) with (w_clock w).
  unfold from_secs. lia.
Qed.
End properties.

(** ** Witnesses *)

Definition demo_mgr : RedisLockManager := mk_manager 0 (from_secs 30) false.
Definition single_demo_options : LockOptions := mk_options (from_millis 100) None Balanced.
Definition demo_world (d : db) (steps : list (env_step db)) : world db :=
  mk_world (fun _ => d) 7 0 [fresh_flags] [] steps None.
Definition demo_handle : HandleShared :=
  mk_handle 0 "job" (fence_key_for "job") "A" (owner_generate 0) (fence_new 1) 0 (from_millis 100) Balanced.
Definition demo_held : lease := mk_lease 0 (Some ("A"%string, 100)) (Some (1, Some 1000)).

Lemma view_demo_held : view "job" demo_granted demo_held.
Proof. split; [reflexivity|vm_compute; reflexivity|vm_compute; reflexivity|concrete|concrete]. Qed.


Lemma release_correct_witness : exists w',
  release demo_handle (demo_world demo_granted []) = (Done (Ok tt), w').
Proof.
  destruct (release_correct (demo_world demo_granted []) demo_handle demo_held) as (w' & E & _);
    [done|concrete|done|apply view_demo_held|]. exists w'. exact E.
Defined.

Lemma release_retry_hides_failure_witness : exists w1 w2,
  release demo_handle (demo_world demo_granted [mk_step id NotDelivered 0]) =
    (Done (Err (Backend "release script failed: {e}")), w1) /\
  release demo_handle w1 = (Done (Ok tt), w2) /\ view "job" (r_db (w_server w2 0%nat)) demo_held.
Proof.
  exact (release_retry_hides_failure (demo_world demo_granted [mk_step id NotDelivered 0]) demo_handle
           demo_held eq_refl (Nat.lt_0_succ 0) eq_refl view_demo_held eq_refl eq_refl eq_refl).
Defined.

Lemma extend_correct_witness : exists w',
  extend demo_handle (from_millis 50) (demo_world demo_granted []) = (Done (Ok tt), w').
Proof.
  destruct (extend_correct (demo_world demo_granted []) demo_handle (from_millis 50) demo_held)
    as (w' & E & _); [done|concrete|done|apply view_demo_held|concrete|]. exists w'. exact E.
Defined.

Lemma describe_key_correct_witness : exists w',
  describe_key demo_mgr "job" (demo_world demo_granted []) = (Done (Ok (true, 1, 100)), w').
Proof.
  destruct (describe_key_correct (demo_world demo_granted []) demo_mgr "job" demo_held)
    as (w' & E & _); [done|done|apply view_demo_held|]. exists w'. exact E.
Defined.

Lemma drop_correct_witness : w_tasks (drop true demo_handle (demo_world demo_granted [])).2 =
  [TScript 0 RELEASE ["job"; fence_key_for "job"]%string ["A"%string]].
Proof.
  destruct (drop_correct (demo_world demo_granted []) demo_handle true) as (_ & _ & _ & _ & _ & E & _);
    [concrete|]. exact E.
Defined.

Lemma try_lock_for_returns_witness : exists r w',
  try_lock_for 3 demo_mgr "job" single_demo_options (from_millis 30) (demo_world demo_granted []) = (Done r, w').
Proof.
  apply (try_lock_for_returns (demo_world demo_granted []) demo_mgr "job" single_demo_options (from_millis 30)); concrete.
Defined.

Lemma watchdog_tolerance_witness : exists w',
  watchdog_rounds 3 demo_handle 0 (demo_world demo_granted (outage 3)) = (Done None, w').
Proof.
  destruct (watchdog_tolerance demo_handle 3 (demo_world demo_granted (outage 3)) demo_held [])
    as (w' & E & _); [done|concrete|done|done|done|by rewrite app_nil_r|apply view_demo_held|concrete..|].
  exists w'. exact E.
Defined.


Lemma hung_attempt_ends_wait_witness : exists w',
  try_lock_for 1 demo_mgr "job" single_demo_options (from_secs 3600)
    (demo_world demo_db [mk_step id Replied (from_secs 3)]) = (Done (Err (Timeout "job")), w') /\
  w_clock w' = from_secs 2.
Proof.
  apply (hung_attempt_ends_wait 0 (demo_world demo_db [mk_step id Replied (from_secs 3)]) demo_mgr "job"
           single_demo_options (from_secs 3600)); concrete.
Defined.

(** The other way round: a wait of 10 ms whose only sleep overshoots by 5 ms
    still makes an attempt of up to two seconds. *)
Example try_lock_for_overruns : exists w',
  try_lock_for 2 demo_mgr "job" single_demo_options (from_millis 10)
    (demo_world demo_granted [quiet; mk_step id Replied (from_millis 5); mk_step id Replied (from_secs 3)]) =
    (Done (Err (Timeout "job")), w') /\
  w_clock w' = from_millis 2015.
Proof. eexists. split; [vm_compute; reflexivity|reflexivity]. Qed.
