(* ===== verification/Scan.v ===== *)
(** * Enumerating locks ([scan_held] of [crates/redis/src/single.rs])

    The admin listing walks the key space with [SCAN] and keeps the keys whose
    [PTTL] is positive.  [SCAN] and its glob matching belong to the server:
    they are a class with the documented guarantees.  The theorem: on a server
    nobody changes, the listing is exactly the expiring keys under the
    prefix, the fence counters among them. *)

From S2P Require Import Prelude Core Redis Scripts World Lease Single.

(** ** [SCAN cursor MATCH pattern COUNT 500] *)

(** [r_scan cursor pattern]: the next cursor and a batch of keys. *)
Class RedisScan (R : Type) `{Redis R} := {
  r_scan : Z -> string -> cmd R (Z * list string);
  glob : string -> string -> bool;
}.

Section iteration.
Context {R : Type} `{RedisScan R}.

(** A full iteration from [cursor]: the batches up to the cursor 0, none of
    the calls changing the server. *)
Inductive iteration (s : R) (pattern : string) : Z -> list (list string) -> Prop :=
| iter_last cursor batch :
    r_scan cursor pattern s = (Ok (0, batch), s) -> iteration s pattern cursor [batch]
| iter_next cursor next batch batches :
    r_scan cursor pattern s = (Ok (next, batch), s) -> next <> 0 ->
    iteration s pattern next batches -> iteration s pattern cursor (batch :: batches).
End iteration.

(** No character of a glob pattern has a special meaning. *)
Definition is_special (c : ascii) : bool :=
  (c =? "*")%char || (c =? "?")%char || (c =? "[")%char || (c =? "\")%char.
Definition literal (p : string) : Prop := forallb (fun c => negb (is_special c)) (list_ascii_of_string p) = true.

(** The documented guarantees: an iteration of a collection that does not
    change ends, and returns exactly the elements that match, possibly more
    than once; a literal prefix followed by a star matches by prefix; [PTTL]
    reads. *)
Class RedisScanLaws (R : Type) `{RS : RedisScan R} := {
  scan_iterates (s : R) pattern : exists batches, iteration s pattern 0 batches /\
    forall k, k ∈ concat batches <-> is_Some (db_live (r_db s) !! k) /\ glob pattern k = true;
  glob_prefix p k : literal p -> glob (p +:+ "*") k = String.prefix p k;
  pttl_reads k (s : R) : (r_pttl k s).2 = s;
}.

(** ** The listing *)

Section scan.
Context {R : Type} `{RedisScan R}.
Open Scope world_scope.

(** The loop over one batch; an error of [PTTL] counts as -2. *)
Fixpoint scan_batch (mgr : RedisLockManager) (batch : list string) (out : list (string * Z)) {struct batch} :
    M R (list (string * Z)) :=
  match batch with
  | [] => ret out
  | key :: batch =>
      let* r := invoke (mgr_conn mgr) (r_pttl key) in
      let t := match r with Ok t => t | Err _ => -2 end in
      scan_batch mgr batch (if 0 <? t then out ++ [(key, t)] else out)
  end.

Fixpoint scan_loop (fuel : nat) (mgr : RedisLockManager) (pattern : string) (cursor : Z)
    (out : list (string * Z)) {struct fuel} : M R (res error (list (string * Z))) :=
  match fuel with
  | O => out_of_fuel
  | S fuel =>
      let? '(next, batch) := backend "scan failed: {e}" (invoke (mgr_conn mgr) (r_scan cursor pattern)) in
      let* out := scan_batch mgr batch out in
      if next =? 0 then ret (Ok out) else scan_loop fuel mgr pattern next out
  end.

(** [RedisLockManager::scan_held]. *)
Definition scan_held (fuel : nat) (mgr : RedisLockManager) (prefix : string) :
    M R (res error (list (string * Z))) :=
  scan_loop fuel mgr (prefix +:+ "*") 0 [].
End scan.

(** ** On a server nobody changes *)

Section listing.
Context {R : Type} `{RS : RedisScan R} `{!RedisLaws R} `{!RedisScanLaws R}.
Implicit Types (w : world R) (mgr : RedisLockManager).

(** [w] is quiet and [mgr]'s server is in state [s]. *)
Definition at_rest mgr (s : R) w : Prop :=
  w_budget w = None /\ w_steps w = [] /\ w_server w (mgr_conn mgr) = s.

Lemma reading_call mgr s w {A} (m : cmd R A) : at_rest mgr s w -> (m s).2 = s ->
  exists w', invoke (mgr_conn mgr) m w = (Done (m s).1, w') /\ at_rest mgr s w'.
Proof.
  intros (B & St & Es) Hm. eexists. rewrite invoke_eq by done. unfold reply_of, after_invoke, servers_before, step_of.
  rewrite St. cbn. rewrite Es. split; [done|]. split_and!; [done..|]. cbn. by rewrite fn_lookup_insert.
Qed.

(** The time left to [k], when it has a deadline to come. *)
Definition time_left (d : db) (k : string) : option Z :=
  match db_live d !! k ≫= e_deadline with
  | Some dl => if 0 <? dl - db_now d then Some (dl - db_now d) else None
  | None => None
  end.

Lemma scan_batch_run mgr s batch : forall out w, at_rest mgr s w ->
  exists w', scan_batch mgr batch out w =
    (Done (out ++ omap (fun k => (fun t => (k, t)) <$> time_left (r_db s) k) batch), w') /\ at_rest mgr s w'.
Proof.
  induction batch as [|k batch IH]; intros out w Hw.
  { exists w. cbn. by rewrite app_nil_r. }
  destruct (reading_call mgr s w (r_pttl k) Hw (pttl_reads k s)) as (w1 & E1 & Hw1).
  cbn [scan_batch]. rewrite (bind_done _ _ _ _ _ E1).
  pose proof (f_equal fst (pttl_law k s)) as Ep. cbn [fst] in Ep. rewrite Ep. unfold doc_pttl. cbn [fst].
  cbn [omap list_omap]. unfold time_left at 1.
  destruct (db_live (r_db s) !! k) as [[v [dl|]]|]; cbn [mbind option_bind e_deadline fmap option_fmap option_map];
    [|apply IH; done..].
  destruct (0 <? dl - db_now (r_db s)) eqn:Hp; zbool.
  - rewrite Z.max_r by lia. rewrite (proj2 (Z.ltb_lt _ _)) by done.
    destruct (IH (out ++ [(k, dl - db_now (r_db s))]) w1 Hw1) as (w2 & E2 & Hw2). exists w2.
    rewrite E2, <- app_assoc. done.
  - rewrite Z.max_l by lia. by apply IH.
Qed.

Lemma scan_loop_run mgr s pattern : forall cursor batches, iteration s pattern cursor batches ->
  forall out w fuel, at_rest mgr s w -> (length batches <= fuel)%nat ->
  exists w', scan_loop fuel mgr pattern cursor out w =
    (Done (Ok (out ++ omap (fun k => (fun t => (k, t)) <$> time_left (r_db s) k) (concat batches))), w') /\
    at_rest mgr s w'.
Proof.
  induction 1 as [cursor batch E|cursor next batch batches E Hn _ IH]; intros out w fuel Hw Hf;
    (destruct fuel as [|fuel]; [cbn in Hf; lia|]).
  all: destruct (reading_call mgr s w (r_scan cursor pattern) Hw) as (w1 & E1 & Hw1); [by rewrite E|].
  all: rewrite E in E1; cbn [fst] in E1; cbn [scan_loop]; unfold try_ at 1, backend, bind at 1.
  all: rewrite (bind_done _ _ _ _ _ E1); unfold ret at 1; cbn [res_map_err].
  all: destruct (scan_batch_run mgr s batch out w1 Hw1) as (w2 & E2 & Hw2); rewrite (bind_done _ _ _ _ _ E2).
  - exists w2. cbn [concat]. by rewrite app_nil_r.
  - rewrite (proj2 (Z.eqb_neq _ _) Hn). cbn [length] in Hf.
    destruct (IH (out ++ omap (fun k => (fun t => (k, t)) <$> time_left (r_db s) k) batch) w2 fuel Hw2) as (w3 & E3 & Hw3);
      [lia|]. exists w3. rewrite E3. cbn [concat]. by rewrite omap_app, app_assoc.
Qed.

(** The listing is exact on a server nobody changes: from some fuel on,
    [scan_held] of a prefix without glob characters returns, with their
    remaining time, exactly the keys that begin with the prefix and have a
    deadline to come.  Nothing tells a lock from another key: listing every
    lock (the empty prefix) also reports each fence counter as held, long
    after its lock is gone. *)
Theorem scan_held_exact mgr w prefix :
  let d := r_db (w_server w (mgr_conn mgr)) in
  w_budget w = None -> w_steps w = [] -> literal prefix ->
  exists fuel0 out, (forall fuel, (fuel0 <= fuel)%nat ->
      exists w', scan_held fuel mgr prefix w = (Done (Ok out), w') /\
        w_server w' (mgr_conn mgr) = w_server w (mgr_conn mgr)) /\
    (forall k t, (k, t) ∈ out <-> String.prefix prefix k = true /\ time_left d k = Some t) /\
    (forall key l count dl, prefix = ""%string -> view key d l -> l_fence l = Some (count, Some dl) ->
       l_now l < dl -> (fence_key_for key, dl - l_now l) ∈ out).
Proof.
  intros d B St Hp. set (s := w_server w (mgr_conn mgr)) in *.
  destruct (scan_iterates s (prefix +:+ "*")) as (batches & Hi & Hk).
  set (out := omap (fun k => (fun t => (k, t)) <$> time_left (r_db s) k) (concat batches)).
  assert (forall k t, (k, t) ∈ out <-> String.prefix prefix k = true /\ time_left d k = Some t) as Ho.
  { intros k t. unfold out. rewrite list_elem_of_omap. split.
    - intros (k' & Hin & E). apply fmap_Some in E. destruct E as (t' & Et & E). injection E as <- <-.
      apply Hk in Hin. rewrite glob_prefix in Hin by done. by destruct Hin.
    - intros [Hpre Et]. exists k. fold d. rewrite Et. split; [|done]. apply Hk. rewrite glob_prefix by done.
      split; [|done]. unfold time_left in Et. destruct (db_live d !! k) eqn:E; [|done]. fold d. by rewrite E. }
  exists (length batches), out. split; [|split; [exact Ho|]].
  - intros fuel Hf. destruct (scan_loop_run mgr s _ 0 batches Hi [] w fuel) as (w' & E & Hw'); [done..|].
    exists w'. split; [exact E|]. apply Hw'.
  - intros key l count dl -> V Ef Hdl. apply Ho. split; [by destruct (fence_key_for key)|].
    destruct V as [V1 V2 V3 V4 V5]. unfold time_left. rewrite Ef in V3. cbn in V3.
    rewrite V3. cbn. rewrite V1. by rewrite (proj2 (Z.ltb_lt _ _)) by lia.
Qed.
End listing.

(** ** A server that scans in one batch, for examples *)

(** Glob matching with a final star only. *)
Fixpoint star_glob (p s : string) {struct p} : bool :=
  match p with
  | EmptyString => String.eqb s ""
  | String c p' =>
      if (c =? "*")%char && String.eqb p' "" then true else
      match s with String b s' => Ascii.eqb c b && star_glob p' s' | EmptyString => false end
  end.

Lemma star_glob_prefix p k : literal p -> star_glob (p +:+ "*") k = String.prefix p k.
Proof.
  unfold literal. revert k. induction p as [|c p IH]; intros k Hl; [by destruct k|].
  cbn in Hl. apply andb_prop in Hl. destruct Hl as [Hc Hl].
  change (String c p +:+ "*") with (String c (p +:+ "*")). cbn [star_glob String.prefix].
  assert ((c =? "*")%char = false) as ->.
  { unfold is_special in Hc. by destruct (c =? "*")%char. }
  cbn [andb]. destruct k as [|b k]; [done|]. rewrite IH by done. destruct (decide (c = b)) as [<-|Hne].
  - rewrite Ascii.eqb_refl. cbn [String.prefix andb]. by destruct (ascii_dec c c).
  - rewrite (proj2 (Ascii.eqb_neq _ _) Hne). cbn [String.prefix andb]. by destruct (ascii_dec c b).
Qed.

Definition scan_all (cursor : Z) (pattern : string) : cmd db (Z * list string) := fun d =>
  (Ok (0, filter (fun k => star_glob pattern k = true) (map fst (map_to_list (db_live d)))), d).

#[global] Instance db_scan : RedisScan db := {| r_scan := scan_all; glob := star_glob |}.
#[global] Instance db_scan_laws : RedisScanLaws db.
Proof.
  constructor.
  - intros s pattern. eexists. split; [by apply iter_last|]. cbn. rewrite app_nil_r. intros k.
    rewrite list_elem_of_filter, list_elem_of_fmap. split.
    + intros (Hg & (k' & e) & -> & Hin). apply elem_of_map_to_list in Hin. split; [by eexists|done].
    + intros [[e He] Hg]. split; [done|]. exists (k, e). split; [done|]. by apply elem_of_map_to_list.
  - apply star_glob_prefix.
  - done.
Qed.

Lemma scan_held_exact_witness : exists fuel0 out, (forall fuel, (fuel0 <= fuel)%nat ->
  exists w', scan_held fuel demo_mgr "" (demo_world demo_granted []) = (Done (Ok out), w')) /\
  ("{job}:fence"%string, 1000) ∈ out.
Proof.
  destruct (scan_held_exact demo_mgr (demo_world demo_granted []) "") as (fuel0 & out & E & _ & Hf);
    [reflexivity|reflexivity|reflexivity|].
  exists fuel0, out. split.
  - intros fuel Hl. destruct (E fuel Hl) as (w' & Ew & _). exists w'. exact Ew.
  - exact (Hf "job"%string demo_held 1 1000 eq_refl view_demo_held eq_refl eq_refl).
Defined.
