(* ===== verification/Simulation.v ===== *)
(** * Objects kept on a server, and their specifications

    The contract shared by the reentrant lock, the read-write lock and the
    semaphore: a specification state with operations, the scripts that
    implement them, what the server looks like in each state, and how time
    changes it.  From the one-step laws of an object follows that every trace
    of operations and time, on every server with the documented behaviour, is
    a trace of its specification. *)

From S2P Require Import Prelude Core Redis Scripts Lease.

Class ScriptObject (St Op : Type) := {
  so_now : St -> Z;
  so_op : Op -> St -> res rerr reply * St;
  so_pre : Op -> Z -> Prop;
  so_elapsed : Z -> St -> St -> Prop;
  so_view : db -> St -> Prop;
  so_script : forall {R} `{Redis R}, Op -> cmd R reply;
}.

Class ScriptObjectLaws (St Op : Type) `{ScriptObject St Op} := {
  so_meets : forall {R} `{RedisLaws R} (op : Op), meets (so_script (R:=R) op) (so_script op);
  so_refines : forall d st op, so_view d st -> so_pre op (so_now st) ->
    (so_script op d).1 = (so_op op st).1 /\ so_view (so_script op d).2 (so_op op st).2;
  so_op_now : forall op st, so_now (so_op op st).2 = so_now st;
  so_elapsed_now : forall dt st st', so_elapsed dt st st' -> so_now st' = so_now st + dt;
  so_time : forall dt d d' st, 0 <= dt -> elapsed dt d d' -> so_view d st ->
    exists st', so_elapsed dt st st' /\ so_view d' st';
}.

(** ** Traces *)

Inductive occurrence (Op : Type) := Do (op : Op) | Wait (dt : Z).
Arguments Do {Op}. Arguments Wait {Op}.

Fixpoint elapsed_time {Op} (evs : list (occurrence Op)) {struct evs} : Z :=
  match evs with
  | [] => 0
  | Wait dt :: evs => dt + elapsed_time evs
  | Do _ :: evs => elapsed_time evs
  end.

Section traces.
Context {St Op : Type} `{ScriptObjectLaws St Op}.

Fixpoint occurrences_ok (now : Z) (evs : list (occurrence Op)) {struct evs} : Prop :=
  match evs with
  | [] => True
  | Do op :: evs => so_pre op now /\ occurrences_ok now evs
  | Wait dt :: evs => 0 <= dt /\ occurrences_ok (now + dt) evs
  end.

Definition occur {R} `{Redis R} (ev : occurrence Op) (s : R) : option (res rerr reply) * R :=
  match ev with
  | Do op => let '(r, s') := so_script op s in (Some r, s')
  | Wait dt => (None, r_elapse dt s)
  end.

Fixpoint run_all {R} `{Redis R} (evs : list (occurrence Op)) (s : R) {struct evs} :
    list (option (res rerr reply)) * R :=
  match evs with
  | [] => ([], s)
  | ev :: evs =>
      let '(o, s1) := occur ev s in
      let '(os, s2) := run_all evs s1 in (o :: os, s2)
  end.

Inductive so_step (st : St) : occurrence Op -> option (res rerr reply) -> St -> Prop :=
| so_step_op op : so_step st (Do op) (Some (so_op op st).1) (so_op op st).2
| so_step_time dt st' : 0 <= dt -> so_elapsed dt st st' -> so_step st (Wait dt) None st'.

Inductive so_run : St -> list (occurrence Op) -> list (option (res rerr reply)) -> St -> Prop :=
| so_run_nil st : so_run st [] [] st
| so_run_cons st ev o st1 evs os st2 :
    so_step st ev o st1 -> so_run st1 evs os st2 -> so_run st (ev :: evs) (o :: os) st2.

Lemma so_refines_any {R} `{RedisLaws R} (s : R) st op :
  so_view (r_db s) st -> so_pre op (so_now st) ->
  (so_script op s).1 = (so_op op st).1 /\ so_view (r_db (so_script op s).2) (so_op op st).2.
Proof.
  intros V F. pose proof (so_refines _ _ _ V F) as Hr. rewrite <- (so_meets op s) in Hr. exact Hr.
Qed.

Lemma so_events_refine {R} `{RedisLaws R} evs : forall (s : R) st,
  so_view (r_db s) st -> occurrences_ok (so_now st) evs ->
  exists st', so_run st evs (run_all evs s).1 st' /\ so_view (r_db (run_all evs s).2) st'.
Proof.
  induction evs as [|[op|dt] evs IH]; intros s st V F.
  - exists st. split; [constructor|done].
  - destruct F as [F1 F2]. destruct (so_refines_any s st op V F1) as [E1 V1].
    rewrite <- (so_op_now op st) in F2. cbn [run_all occur].
    destruct (so_script op s) as [r s1]. cbn [fst snd] in *. subst r.
    destruct (IH _ _ V1 F2) as (st2 & Hr & V2). destruct (run_all evs s1) as [os s2]. cbn [fst snd] in *.
    exists st2. split; [by econstructor; [constructor|]|done].
  - destruct F as [F1 F2].
    destruct (so_time dt _ _ st F1 (elapse_law dt s F1) V) as (st1 & E1 & V1).
    rewrite <- (so_elapsed_now _ _ _ E1) in F2. cbn [run_all occur].
    destruct (IH _ _ V1 F2) as (st2 & Hr & V2).
    destruct (run_all evs (r_elapse dt s)) as [os s2]. cbn [fst snd] in *.
    exists st2. split; [by econstructor; [constructor|]|done].
Qed.

(** A property of specification states kept by every step holds throughout. *)
Lemma so_run_invariant (P : St -> Prop) (ok : occurrence Op -> Prop) :
  (forall st ev o st', P st -> ok ev -> so_step st ev o st' -> P st') ->
  forall evs st os st', P st -> Forall ok evs -> so_run st evs os st' -> P st'.
Proof.
  intros Hstep evs st os st' HP Hok Hr. revert HP Hok.
  induction Hr as [|st ev o st1 evs os st2 S Hr IH]; [done|].
  intros HP Hok. rewrite Forall_cons in Hok. destruct Hok. eauto.
Qed.

Lemma elapsed_time_nonneg now evs : occurrences_ok now evs -> 0 <= elapsed_time evs.
Proof.
  revert now. induction evs as [|[op|d] evs IH]; intros now; cbn; [lia| |].
  - intros [_ ?]. eauto.
  - intros [? Ho]. specialize (IH _ Ho). lia.
Qed.

(** A property kept by every step that ends before [T]. *)
Lemma so_run_until (P : St -> Prop) (ok : occurrence Op -> Prop) (T : Z) :
  (forall st ev o st', P st -> ok ev -> so_step st ev o st' -> so_now st' < T -> P st') ->
  forall evs st os st', P st -> Forall ok evs -> occurrences_ok (so_now st) evs ->
    so_run st evs os st' -> so_now st + elapsed_time evs < T ->
    P st' /\ so_now st' = so_now st + elapsed_time evs.
Proof.
  intros Hstep evs. induction evs as [|ev evs IH]; intros st os st' HP Hok Ho Hr HT; inversion Hr; subst.
  { cbn. split; [done|lia]. }
  rewrite Forall_cons in Hok. destruct Hok as [Hev Hok].
  match goal with S : so_step _ _ _ ?st1 |- _ => rename S into Hs; rename st1 into st1 end.
  assert (occurrences_ok (so_now st1) evs /\ so_now st1 + elapsed_time evs = so_now st + elapsed_time (ev :: evs))
    as [Ho1 En].
  { inversion Hs; subst; destruct Ho as [Hp Ho]; cbn [elapsed_time].
    - rewrite so_op_now. done.
    - match goal with E : so_elapsed _ _ _ |- _ => rewrite (so_elapsed_now _ _ _ E) end. split; [done|lia]. }
  pose proof (elapsed_time_nonneg _ _ Ho1).
  rewrite <- En in HT |- *. eapply IH; eauto. eapply Hstep; eauto. lia.
Qed.
End traces.

(** ** The fence counter of these objects

    They only [INCR] it: its deadline, if any, stays. *)

Record counter := mk_counter { c_value : Z; c_deadline : option Z }.
Definition count_of (c : option counter) : Z := match c with Some c => c_value c | None => 0 end.
Definition counter_entry (c : counter) : rentry := mk_entry (VStr (z_to_string (c_value c))) (c_deadline c).
Definition counter_ok (c : option counter) : Prop := 0 <= count_of c <= i64_max.

Definition counter_incr (c : option counter) : res rerr Z * option counter :=
  let n := count_of c + 1 in
  if n <=? i64_max then (Ok n, Some (mk_counter n (c ≫= c_deadline))) else (Err Overflow, c).

Definition counter_at (k : string) (d : db) (c : option counter) : Prop :=
  db_live d !! k = counter_entry <$> c /\ counter_ok c.

Lemma doc_incr_counter k d c : counter_at k d c ->
  exists d', doc_incrby k 1 d = ((counter_incr c).1, d') /\ counter_at k d' (counter_incr c).2 /\
    db_now d' = db_now d /\ forall k', k' <> k -> db_live d' !! k' = db_live d !! k'.
Proof.
  intros [E C]. unfold doc_incrby, doc_read, update, deadline_of, counter_at, counter_incr. rewrite E.
  unfold counter_ok in *. destruct c as [[n dl]|]; cbn [count_of c_value c_deadline fmap option_fmap option_map
    counter_entry e_val e_deadline as_str mbind option_bind] in *;
    [rewrite string_to_z_to_string|change (string_to_z "0") with (Some 0)];
    cbv iota; rewrite (proj2 (Z.leb_le i64_min _)) by (unfold i64_min; lia); cbn [andb];
    destruct (_ <=? i64_max) eqn:Hm; zbool; eexists; (split; [reflexivity|]); cbn [snd count_of c_value c_deadline];
    split_and!; try done; try lia; try (cbn; by rewrite lookup_insert_eq);
    intros k' Hk; cbn; by rewrite lookup_insert_ne.
Qed.

Lemma counter_elapse k dt d d' c : elapsed dt d d' -> counter_at k d c ->
  exists c', expires (db_now d') (c ≫= c_deadline) c c' /\ counter_at k d' c'.
Proof.
  intros E [Hk Hc]. destruct (expires_lookup counter_entry c_deadline c dt k d d' (fun _ => eq_refl) E Hk)
    as (c' & He & Hk'). exists c'. split; [done|]. split; [done|].
  unfold counter_ok in *. pose proof (eq_refl : (0 <=? i64_max) = true). zbool.
  unfold expires in He. destruct c as [[n [t|]]|]; cbn in *; [|by subst c'..].
  destruct He as [[_ ->]|[[_ ->]|[_ [->| ->]]]]; cbn; lia.
Qed.

(** ** Commands on one key of known contents *)

Section known_key.
Variable key : string.
Implicit Types d : db.

Lemma pexpire_at d v dl now ttl : db_live d !! key = Some (mk_entry v dl) -> db_now d = now ->
  ttl_fits now ttl -> doc_pexpire key ttl d = (Ok 1, put key v (Some (now + ttl)) d).
Proof.
  intros E En [F1 F2]. unfold doc_pexpire. rewrite E, En.
  rewrite (proj2 (Z.leb_gt _ _)) by lia. by rewrite (proj2 (Z.leb_le _ _)) by lia.
Qed.

Lemma pexpire_nonpos d v dl ttl : db_live d !! key = Some (mk_entry v dl) -> ttl <= 0 ->
  doc_pexpire key ttl d = (Ok 1, drop_key key d).
Proof. intros E Ht. unfold doc_pexpire. rewrite E. by rewrite (proj2 (Z.leb_le _ _)) by lia. Qed.

Lemma exists_at_Some d e : db_live d !! key = Some e -> doc_exists key d = (Ok 1, d).
Proof. intros E. unfold doc_exists. by rewrite E. Qed.
Lemma exists_at_None d : db_live d !! key = None -> doc_exists key d = (Ok 0, d).
Proof. intros E. unfold doc_exists. by rewrite E. Qed.

Lemma hget_at d h dl f : db_live d !! key = Some (mk_entry (VHash h) dl) ->
  doc_hget key f d = (Ok (h !! f), d).
Proof. intros E. unfold doc_hget, doc_read. by rewrite E. Qed.

Lemma hexists_at d h dl f : db_live d !! key = Some (mk_entry (VHash h) dl) ->
  doc_hexists key f d = (Ok (if h !! f is Some _ then 1 else 0), d).
Proof. intros E. unfold doc_hexists, doc_read. by rewrite E. Qed.

Lemma hset_at d h dl kvs : db_live d !! key = Some (mk_entry (VHash h) dl) ->
  exists n, doc_hset key kvs d =
    (Ok n, put key (VHash (fold_left (fun h kv => <[kv.1 := kv.2]> h) kvs h)) dl d).
Proof. intros E. eexists. unfold doc_hset, doc_read, update, deadline_of. rewrite E. reflexivity. Qed.

Lemma hset_new d kvs : db_live d !! key = None ->
  exists n, doc_hset key kvs d =
    (Ok n, put key (VHash (fold_left (fun h kv => <[kv.1 := kv.2]> h) kvs ∅)) None d).
Proof. intros E. eexists. unfold doc_hset, doc_read, update, deadline_of. rewrite E. reflexivity. Qed.

Lemma hincrby_at d h dl f n by_ : db_live d !! key = Some (mk_entry (VHash h) dl) ->
  h !! f = Some (z_to_string n) -> i64_min <= n + by_ ->
  doc_hincrby key f by_ d =
    if n + by_ <=? i64_max
    then (Ok (n + by_), put key (VHash (<[f := z_to_string (n + by_)]> h)) dl d)
    else (Err Overflow, d).
Proof.
  intros E Ef Hm. unfold doc_hincrby, doc_read, update, deadline_of. rewrite E. cbn [e_val as_hash].
  rewrite Ef. unfold default, from_option, id. rewrite string_to_z_to_string, (proj2 (Z.leb_le _ _) Hm).
  reflexivity.
Qed.

Lemma hdel_at d h dl f x : db_live d !! key = Some (mk_entry (VHash h) dl) ->
  h !! f = Some x -> delete f h <> ∅ ->
  doc_hdel key f d = (Ok 1, put key (VHash (delete f h)) dl d).
Proof.
  intros E Ef Hne. unfold doc_hdel, doc_read, update, deadline_of. rewrite E. cbn [e_val as_hash].
  rewrite Ef. by rewrite decide_False.
Qed.

Lemma put_put k v dl v' dl' d : put k v' dl' (put k v dl d) = put k v' dl' d.
Proof. unfold put, set_live. cbn. by rewrite insert_insert_eq. Qed.
Lemma drop_put k v dl d : drop_key k (put k v dl d) = drop_key k d.
Proof. unfold drop_key, put, set_live. cbn. by rewrite delete_insert_eq. Qed.
Lemma put_drop k v dl d : put k v dl (drop_key k d) = put k v dl d.
Proof. unfold drop_key, put, set_live. cbn. by rewrite insert_delete_eq. Qed.
Lemma put_now k v dl d : db_now (put k v dl d) = db_now d.
Proof. done. Qed.
Lemma put_at k v dl d : db_live (put k v dl d) !! k = Some (mk_entry v dl).
Proof. apply lookup_insert_eq. Qed.
End known_key.

(** ** The tail of a grant: [return {status, redis.call('INCR', KEYS\[2\])}] *)

Lemma fence_grant_run key status d c : counter_at (fence_key_for key) d c ->
  exists d', (let! k2 := at_ [key; fence_key_for key] 2 in
              let! fence := r_incr k2 in cret (RPair status fence))%script d =
      (res_map (RPair status) (counter_incr c).1, d') /\
    counter_at (fence_key_for key) d' (counter_incr c).2 /\ db_now d' = db_now d /\
    forall k', k' <> fence_key_for key -> db_live d' !! k' = db_live d !! k'.
Proof.
  intros C. run_at. to_doc. destruct (doc_incr_counter _ _ _ C) as (d' & E & C' & En & Ef). exists d'.
  split; [|done]. destruct ((counter_incr c).1).
  - by rewrite (cbind_ok _ _ _ _ _ E).
  - by rewrite (cbind_err _ _ _ _ _ E).
Qed.
