(* ===== verification/Reentrant.v ===== *)
(** * The reentrant mutex ([crates/redis/src/reentrant.rs])

    Hold counting in a hash: the scripts implement the specification
    [reentrant], the Rust layer is translated over [World]. *)

From S2P Require Import Prelude Core Redis Scripts World Lease Simulation.

(** ** The specification *)

Record hold := mk_hold { hd_owner : string; hd_count : Z; hd_deadline : Z }.
Record reentrant := mk_reentrant { re_now : Z; re_hold : option hold; re_fence : option counter }.

Inductive reentrant_op :=
| RAcquire (tok : string) (ttl : Z)
| RRelease (tok : string) (ttl : Z)
| RReleaseAll (tok : string)
| RExtend (tok : string) (ttl : Z).

(** The fence of a grant, or the error of an exhausted counter. *)
Definition with_fence (status : Z) (now : Z) (h : option hold) (c : option counter) :
    res rerr reply * reentrant :=
  (res_map (RPair status) (counter_incr c).1, mk_reentrant now h (counter_incr c).2).

Definition owned_by (tok : string) (h : option hold) : bool :=
  match h with Some h => String.eqb (hd_owner h) tok | None => false end.

Definition reentrant_spec (op : reentrant_op) (st : reentrant) : res rerr reply * reentrant :=
  let '(mk_reentrant now h c) := st in
  match op with
  | RAcquire tok ttl =>
      match h with
      | None => with_fence 1 now (Some (mk_hold tok 1 (now + ttl))) c
      | Some hd =>
          if String.eqb (hd_owner hd) tok
          then if hd_count hd + 1 <=? i64_max
               then with_fence 2 now (Some (mk_hold tok (hd_count hd + 1) (now + ttl))) c
               else (Err Overflow, st)
          else (Ok (RPair 0 0), st)
      end
  | RRelease tok ttl =>
      match h with
      | Some hd =>
          if String.eqb (hd_owner hd) tok then
            if hd_count hd - 1 <=? 0 then (Ok (RInt 0), mk_reentrant now None c)
            else (Ok (RInt (hd_count hd - 1)),
                  mk_reentrant now (Some (mk_hold tok (hd_count hd - 1)
                    (if 0 <? ttl then now + ttl else hd_deadline hd))) c)
          else (Ok (RInt (-1)), st)
      | None => (Ok (RInt (-1)), st)
      end
  | RReleaseAll tok =>
      if owned_by tok h then (Ok (RInt 1), mk_reentrant now None c) else (Ok (RInt (-1)), st)
  | RExtend tok ttl =>
      match h with
      | Some hd =>
          if String.eqb (hd_owner hd) tok
          then (Ok (RInt 1), mk_reentrant now (Some (mk_hold tok (hd_count hd) (now + ttl))) c)
          else (Ok (RInt (-1)), st)
      | None => (Ok (RInt (-1)), st)
      end
  end.

Definition reentrant_pre (op : reentrant_op) (now : Z) : Prop :=
  match op with
  | RAcquire _ ttl | RExtend _ ttl => ttl_fits now ttl
  | RRelease _ ttl => ttl = 0 \/ ttl_fits now ttl
  | RReleaseAll _ => True
  end.

Definition hold_hash (h : hold) : gmap string string :=
  <["owner"%string := hd_owner h]> (<["count"%string := z_to_string (hd_count h)]> ∅).
Definition hold_entry (h : hold) : rentry := mk_entry (VHash (hold_hash h)) (Some (hd_deadline h)).

Record reentrant_view (key : string) (d : db) (st : reentrant) : Prop := mk_reentrant_view {
  rv_now : db_now d = re_now st;
  rv_hold : db_live d !! key = hold_entry <$> re_hold st;
  rv_count : forall h, re_hold st = Some h -> 1 <= hd_count h <= i64_max;
  rv_fence : counter_at (fence_key_for key) d (re_fence st);
  rv_clock : 0 <= re_now st;
}.

Definition reentrant_elapsed (dt : Z) (st st' : reentrant) : Prop :=
  re_now st' = re_now st + dt /\
  expires (re_now st') (hd_deadline <$> re_hold st) (re_hold st) (re_hold st') /\
  expires (re_now st') (re_fence st ≫= c_deadline) (re_fence st) (re_fence st').

Definition reentrant_script (key : string) {R} `{Redis R} (op : reentrant_op) : cmd R reply :=
  match op with
  | RAcquire tok ttl =>
      eval_script REENTRANT_ACQUIRE [key; fence_key_for key] [tok; z_to_string ttl; z_to_string (10 * ttl)]
  | RRelease tok ttl => eval_script REENTRANT_RELEASE [key] [tok; z_to_string ttl]
  | RReleaseAll tok => eval_script REENTRANT_RELEASE_ALL [key] [tok]
  | RExtend tok ttl => eval_script REENTRANT_EXTEND [key] [tok; z_to_string ttl]
  end.

#[global] Instance reentrant_object (key : string) : ScriptObject reentrant reentrant_op := {
  so_now := re_now;
  so_op := reentrant_spec;
  so_pre := reentrant_pre;
  so_elapsed := reentrant_elapsed;
  so_view := reentrant_view key;
  so_script := @reentrant_script key;
}.

(** ** The scripts implement it *)

Section scripts.
Variable key : string.
Abbreviation fk := (fence_key_for key).
Abbreviation doc_pexpire_key := (pexpire_at key).

Lemma doc_exists_hold d st : reentrant_view key d st ->
  doc_exists key d = (Ok (if re_hold st is Some _ then 1 else 0), d).
Proof. intros V. unfold doc_exists. rewrite (rv_hold _ _ _ V). by destruct (re_hold st). Qed.

Lemma doc_hget_owner d st h : reentrant_view key d st -> re_hold st = Some h ->
  doc_hget key "owner" d = (Ok (Some (hd_owner h)), d).
Proof. intros V E. unfold doc_hget, doc_read. by rewrite (rv_hold _ _ _ V), E. Qed.

Lemma hold_hash_count h n :
  <["count"%string := z_to_string n]> (hold_hash h) = hold_hash (mk_hold (hd_owner h) n (hd_deadline h)).
Proof.
  unfold hold_hash. cbn [hd_owner hd_count]. rewrite insert_insert_ne by done.
  by rewrite insert_insert_eq.
Qed.

Lemma doc_hincrby_count d st h by_ : reentrant_view key d st -> re_hold st = Some h ->
  i64_min <= hd_count h + by_ ->
  doc_hincrby key "count" by_ d =
    if hd_count h + by_ <=? i64_max
    then (Ok (hd_count h + by_),
          put key (VHash (hold_hash (mk_hold (hd_owner h) (hd_count h + by_) (hd_deadline h))))
            (Some (hd_deadline h)) d)
    else (Err Overflow, d).
Proof.
  intros V E Hmin. unfold doc_hincrby, doc_read, update, deadline_of. rewrite (rv_hold _ _ _ V), E.
  cbn [fmap option_fmap option_map hold_entry e_val as_hash mbind option_bind e_deadline].
  assert (hold_hash h !! "count"%string = Some (z_to_string (hd_count h))) as -> by done.
  cbn [default]. unfold from_option, id. rewrite string_to_z_to_string, (proj2 (Z.leb_le _ _) Hmin). cbn [andb].
  by rewrite hold_hash_count.
Qed.

Lemma put_hold d st h : reentrant_view key d st -> 1 <= hd_count h <= i64_max ->
  reentrant_view key (put key (VHash (hold_hash h)) (Some (hd_deadline h)) d)
    (mk_reentrant (re_now st) (Some h) (re_fence st)).
Proof.
  intros [V1 V2 V3 [V4 V5] V6] Hc. split; cbn; [done|by rewrite lookup_insert_eq|by intros ? [= <-]| |done].
  split; [|done]. cbn. rewrite lookup_insert_ne by apply fence_key_ne. done.
Qed.

Lemma drop_hold d st : reentrant_view key d st ->
  reentrant_view key (drop_key key d) (mk_reentrant (re_now st) None (re_fence st)).
Proof.
  intros [V1 V2 V3 [V4 V5] V6]. split; cbn; [done|by rewrite lookup_delete_eq|done| |done].
  split; [|done]. cbn. rewrite lookup_delete_ne by apply fence_key_ne. done.
Qed.

Lemma fence_grant d st status : reentrant_view key d st ->
  ((let! k2 := at_ [key; fk] 2 in let! fence := r_incr k2 in cret (RPair status fence))%script d).1 =
    (with_fence status (re_now st) (re_hold st) (re_fence st)).1 /\
  reentrant_view key
    ((let! k2 := at_ [key; fk] 2 in let! fence := r_incr k2 in cret (RPair status fence))%script d).2
    (with_fence status (re_now st) (re_hold st) (re_fence st)).2.
Proof.
  intros V. run_at. to_doc. destruct (doc_incr_counter fk d _ (rv_fence _ _ _ V)) as (d' & E & C & En & Ef).
  unfold with_fence. assert (reentrant_view key d' (mk_reentrant (re_now st) (re_hold st) (counter_incr (re_fence st)).2)).
  { destruct V as [V1 V2 V3 V4 V5]. split; cbn; [congruence| |done|done|done]. rewrite Ef by apply fence_key_ne. done. }
  destruct ((counter_incr (re_fence st)).1) as [n|e].
  - rewrite (cbind_ok _ _ _ _ _ E). done.
  - rewrite (cbind_err _ _ _ _ _ E). done.
Qed.

Ltac run_exists V := to_doc;
  rewrite (cbind_ok _ _ _ _ _ (doc_exists_hold _ _ V)); cbv beta.
Ltac run_owner V E := to_doc;
  rewrite (cbind_ok _ _ _ _ _ (doc_hget_owner _ _ _ V E)); cbv beta; cbn [is_arg lookup list_lookup Nat.sub].

Lemma reentrant_acquire_refines d st tok ttl : reentrant_view key d st -> ttl_fits (re_now st) ttl ->
  (reentrant_script key (RAcquire tok ttl) d).1 = (reentrant_spec (RAcquire tok ttl) st).1 /\
  reentrant_view key (reentrant_script key (RAcquire tok ttl) d).2 (reentrant_spec (RAcquire tok ttl) st).2.
Proof.
  intros V F. unfold reentrant_script, eval_script, reentrant_acquire_lua. run_at. run_exists V.
  pose proof (rv_clock _ _ _ V) as P. destruct st as [now h c]. cbn [re_hold re_now re_fence reentrant_spec] in *.
  pose (ARGV := [tok; z_to_string ttl; z_to_string (10 * ttl)]).
  destruct h as [h|].
  - change (1 =? 0) with false. cbv iota. run_owner V (eq_refl (Some h)).
    destruct (String.eqb_spec (hd_owner h) tok) as [E|E]; [|done].
    pose proof (rv_count _ _ _ V _ eq_refl) as Hc.
    change (@r_hincrby db _) with doc_hincrby.
    pose proof (doc_hincrby_count _ _ _ 1 V eq_refl ltac:(unfold i64_min; lia)) as I. cbn [re_hold] in I.
    destruct (_ <=? i64_max) eqn:Hm; zbool; [|by rewrite (cbind_err _ _ _ _ _ I)].
    run_with I. set (d1 := put key _ _ d).
    run_with (int_at_ttl ARGV 2 ttl now d1 eq_refl P F).
    run_with (doc_pexpire_key d1 (VHash (hold_hash (mk_hold (hd_owner h) (hd_count h + 1) (hd_deadline h))))
                (Some (hd_deadline h)) now ttl ltac:(apply lookup_insert_eq) (rv_now _ _ _ V) F).
    unfold d1. rewrite put_put. rewrite E.
    apply (fence_grant _ (mk_reentrant now (Some (mk_hold tok (hd_count h + 1) (now + ttl))) c)).
    refine (put_hold d (mk_reentrant now (Some h) c) (mk_hold tok (hd_count h + 1) (now + ttl)) V _). cbn. lia.
  - change (0 =? 0) with true. cbv iota. run_at. change (@r_hset db _) with doc_hset.
    assert (doc_hset key [("owner", tok); ("count", "1")]%string d =
      (Ok 2, put key (VHash (hold_hash (mk_hold tok 1 0))) None d)) as I.
    { unfold doc_hset, doc_read, update, deadline_of. rewrite (rv_hold _ _ _ V).
      cbn [fmap option_fmap option_map re_hold mbind option_bind fold_left fst snd].
      rewrite (insert_insert_ne _ "count"%string) by done. reflexivity. }
    run_with I. set (d1 := put key _ _ d).
    run_with (int_at_ttl ARGV 2 ttl now d1 eq_refl P F).
    run_with (doc_pexpire_key d1 (VHash (hold_hash (mk_hold tok 1 0))) None now ttl
                ltac:(apply lookup_insert_eq) (rv_now _ _ _ V) F).
    unfold d1. rewrite put_put.
    apply (fence_grant _ (mk_reentrant now (Some (mk_hold tok 1 (now + ttl))) c)).
    refine (put_hold d (mk_reentrant now None c) (mk_hold tok 1 (now + ttl)) V _). cbn. unfold i64_max. lia.
Qed.

(** Both paths of the two ownership tests: no key, or a key of some owner. *)
Lemma reentrant_release_refines d st tok ttl : reentrant_view key d st ->
  ttl = 0 \/ ttl_fits (re_now st) ttl ->
  (reentrant_script key (RRelease tok ttl) d).1 = (reentrant_spec (RRelease tok ttl) st).1 /\
  reentrant_view key (reentrant_script key (RRelease tok ttl) d).2 (reentrant_spec (RRelease tok ttl) st).2.
Proof.
  intros V F. unfold reentrant_script, eval_script, reentrant_release_lua. run_at. run_exists V.
  pose proof (rv_clock _ _ _ V) as P. destruct st as [now h c]. cbn [re_hold re_now re_fence reentrant_spec] in *.
  destruct h as [h|]; [|done]. change (1 =? 0) with false. cbv iota. run_owner V (eq_refl (Some h)).
  destruct (String.eqb_spec (hd_owner h) tok) as [E|E]; [|done]. cbn [negb].
  pose proof (rv_count _ _ _ V _ eq_refl) as Hc. change (@r_hincrby db _) with doc_hincrby.
  pose proof (doc_hincrby_count _ _ _ (-1) V eq_refl ltac:(unfold i64_min; lia)) as I. cbn [re_hold] in I.
  rewrite (proj2 (Z.leb_le _ _)) in I by lia. run_with I. change (hd_count h + -1) with (hd_count h - 1).
  set (d1 := put key _ _ d).
  assert (reentrant_view key (drop_key key d1) (mk_reentrant now None c)) as Vd.
  { unfold d1, drop_key, put, set_live. cbn. rewrite delete_insert_eq. exact (drop_hold _ _ V). }
  destruct (hd_count h - 1 <=? 0) eqn:Hz; zbool.
  { change (@r_del db _) with doc_del. erewrite (cbind_ok (doc_del key)) by reflexivity. done. }
  assert (reentrant_view key d1 (mk_reentrant now (Some (mk_hold tok (hd_count h - 1) (hd_deadline h))) c)) as V1.
  { unfold d1. rewrite E. refine (put_hold d (mk_reentrant now (Some h) c) (mk_hold tok _ (hd_deadline h)) V _). cbn. lia. }
  run_with (num_at_z [tok; z_to_string ttl] 2 ttl d1 eq_refl).
  destruct (0 <? ttl) eqn:Ht; zbool; [|done]. destruct F as [->|F]; [lia|].
  run_with (int_at_ttl [tok; z_to_string ttl] 2 ttl now d1 eq_refl P F).
  run_with (doc_pexpire_key d1 (VHash (hold_hash (mk_hold (hd_owner h) (hd_count h - 1) (hd_deadline h))))
              (Some (hd_deadline h)) now ttl ltac:(apply lookup_insert_eq) (rv_now _ _ _ V) F).
  split; [done|]. unfold cret, d1. cbn [snd]. rewrite put_put, E.
  refine (put_hold d (mk_reentrant now (Some h) c) (mk_hold tok _ (now + ttl)) V _). cbn. lia.
Qed.

Lemma reentrant_release_all_refines d st tok : reentrant_view key d st ->
  (reentrant_script key (RReleaseAll tok) d).1 = (reentrant_spec (RReleaseAll tok) st).1 /\
  reentrant_view key (reentrant_script key (RReleaseAll tok) d).2 (reentrant_spec (RReleaseAll tok) st).2.
Proof.
  intros V. unfold reentrant_script, eval_script, reentrant_release_all_lua. run_at. run_exists V.
  destruct st as [now h c]. cbn [re_hold re_now re_fence reentrant_spec] in *. unfold owned_by.
  destruct h as [h|]; [|done]. change (1 =? 0) with false. cbv iota. run_owner V (eq_refl (Some h)).
  destruct (String.eqb_spec (hd_owner h) tok) as [E|E]; [|done].
  change (@r_del db _) with doc_del. erewrite (cbind_ok (doc_del key)) by reflexivity.
  split; [done|]. exact (drop_hold _ _ V).
Qed.

Lemma reentrant_extend_refines d st tok ttl : reentrant_view key d st -> ttl_fits (re_now st) ttl ->
  (reentrant_script key (RExtend tok ttl) d).1 = (reentrant_spec (RExtend tok ttl) st).1 /\
  reentrant_view key (reentrant_script key (RExtend tok ttl) d).2 (reentrant_spec (RExtend tok ttl) st).2.
Proof.
  intros V F. unfold reentrant_script, eval_script, reentrant_extend_lua. run_at. run_exists V.
  pose proof (rv_clock _ _ _ V) as P. destruct st as [now h c]. cbn [re_hold re_now re_fence reentrant_spec] in *.
  destruct h as [h|]; [|done]. change (1 =? 0) with false. cbv iota. run_owner V (eq_refl (Some h)).
  destruct (String.eqb_spec (hd_owner h) tok) as [E|E]; [|done].
  run_with (int_at_ttl [tok; z_to_string ttl] 2 ttl now d eq_refl P F).
  run_with (doc_pexpire_key d (VHash (hold_hash h)) (Some (hd_deadline h)) now ttl
              (rv_hold _ _ _ V) (rv_now _ _ _ V) F).
  split; [done|]. unfold cret. cbn [snd].
  pose proof (rv_count _ _ _ V _ eq_refl) as Hc. rewrite <- E.
  exact (put_hold d (mk_reentrant now (Some h) c) (mk_hold (hd_owner h) (hd_count h) (now + ttl)) V Hc).
Qed.

#[global] Instance reentrant_laws : ScriptObjectLaws reentrant reentrant_op (H := reentrant_object key).
Proof.
  constructor; cbn [so_script so_op so_pre so_view so_now so_elapsed reentrant_object].
  - intros R ? ? op. destruct op; cbn [reentrant_script]; apply meets_script.
  - intros d st op V F. destruct op; cbn [reentrant_pre] in F;
      auto using reentrant_acquire_refines, reentrant_release_refines, reentrant_release_all_refines,
        reentrant_extend_refines.
  - intros op [now h c]. destruct op; cbn [reentrant_spec]; unfold with_fence; repeat case_goal; done.
  - intros dt st st' (E & _). exact E.
  - intros dt d d' st Hdt E V.
    destruct (expires_lookup hold_entry (Some ∘ hd_deadline) _ _ _ _ _ (fun a => eq_refl) E (rv_hold _ _ _ V))
      as (h & Eh & Vh).
    destruct (counter_elapse _ _ _ _ _ E (rv_fence _ _ _ V)) as (c & Ec & Vc).
    pose proof (elapsed_now _ _ _ E) as En. rewrite (rv_now _ _ _ V) in En.
    exists (mk_reentrant (db_now d') h c). split; [split; [cbn; congruence|split; cbn; [|done]]|].
    + by destruct (re_hold st).
    + split; cbn; try done; [|rewrite En; pose proof (rv_clock _ _ _ V); lia].
      intros h' ->. pose proof (rv_count _ _ _ V) as Hc. destruct (re_hold st) as [h0|] eqn:E0; cbn in Eh.
      * specialize (Hc _ eq_refl). destruct Eh as [[_ [= ->]]|[[_ ?]|[_ [[= ->]|?]]]]; done.
      * done.
Qed.
End scripts.

(** ** The Rust layer *)

Section rust.
Context {U : UuidSource} {R : Type} `{Redis R}.
Open Scope world_scope.

(** [ReentrantShared]; [gone] is in the cell. *)
Record ReentrantShared := mk_reentrant_handle {
  rh_conn : conn;
  rh_key : string;
  rh_token : string;
  rh_owner : OwnerId;
  rh_fence : FencingToken;
  rh_ttl : duration;
  rh_cell : nat;
}.

Definition reentrant_lost (s : ReentrantShared) : error := Lost (rh_key s) (value (rh_fence s)).

(** [RedisLockManager::try_lock_reentrant], over the manager's connection. *)
Definition try_lock_reentrant (c : conn) (key : string) (owner : OwnerId) (options : LockOptions) :
    M R (res error ReentrantShared) :=
  let? _u := ret (validate options) in
  let token := owner_token owner in
  let ttl_ms := as_millis_u64 (ttl options) in
  let fence_ttl_ms := u64_mul ttl_ms 10 in
  let? '(status, fence) := backend "reentrant acquire failed: {e}"
    (invoke_pair c REENTRANT_ACQUIRE [key; fence_key_for key]
       [token; z_to_string ttl_ms; z_to_string fence_ttl_ms]) in
  if (status =? 1) || (status =? 2) then
    let* cell := new_cell in
    ret (Ok (mk_reentrant_handle c key token owner (fence_new (wrap64 fence)) (ttl options) cell))
  else ret (Err (Held key)).

(** [RedisLockManager::try_lock_reentrant_for]. *)
Definition try_lock_reentrant_for (fuel : nat) (c : conn) (key : string) (owner : OwnerId)
    (options : LockOptions) (wait : duration) : M R (res error ReentrantShared) :=
  poll_for fuel key wait (try_lock_reentrant c key owner options).

(** [ReentrantLockHandle::release_one]. *)
Definition release_one (s : ReentrantShared) : M R (res error unit) :=
  let* first := mark_released (rh_cell s) in
  if negb first then ret (Ok tt) else
  let? remaining := backend "reentrant release failed: {e}"
    (invoke_int (rh_conn s) REENTRANT_RELEASE [rh_key s]
       [rh_token s; z_to_string (as_millis_u64 (rh_ttl s))]) in
  if remaining <? 0 then ret (Err (reentrant_lost s)) else ret (Ok tt).

(** [ReentrantLockHandle::release_all]. *)
Definition release_all (s : ReentrantShared) : M R (res error unit) :=
  let* first := mark_released (rh_cell s) in
  if negb first then ret (Ok tt) else
  let? ok := backend "reentrant release-all failed: {e}"
    (invoke_int (rh_conn s) REENTRANT_RELEASE_ALL [rh_key s] [rh_token s]) in
  if ok <? 0 then ret (Err (reentrant_lost s)) else ret (Ok tt).

(** [ReentrantLockHandle::extend]. *)
Definition extend (s : ReentrantShared) (t : duration) : M R (res error unit) :=
  if t <? MIN_TTL then ret (Err (InvalidConfig "extend ttl {:?} is below the {:?} floor")) else
  let* f := cell (rh_cell s) in
  if released f then ret (Err (reentrant_lost s)) else
  let? ok := backend "reentrant extend failed: {e}"
    (invoke_int (rh_conn s) REENTRANT_EXTEND [rh_key s]
       [rh_token s; z_to_string (as_millis_u64 t)]) in
  if ok <? 0 then
    do* update_cell (rh_cell s) set_released in
    ret (Err (reentrant_lost s))
  else ret (Ok tt).

(** [Drop for ReentrantShared] and [detached_release_one]. *)
Definition drop (runtime : bool) (s : ReentrantShared) : M R unit :=
  do* update_cell (rh_cell s) set_dropped in
  let* first := mark_released (rh_cell s) in
  if negb first then ret tt else
  if runtime then spawn (TScript (rh_conn s) REENTRANT_RELEASE [rh_key s] [rh_token s; z_to_string 0])
  else ret tt.

Lemma safe_try_lock_reentrant c key owner options : safe (R:=R) (try_lock_reentrant c key owner options).
Proof. unfold try_lock_reentrant. solve_safe. Qed.
End rust.
#[export] Hint Resolve safe_try_lock_reentrant : safe.

(** ** Holding *)

(** How an operation changes the number of holds of [a]. *)
Definition delta (a : string) (op : reentrant_op) : Z :=
  match op with
  | RAcquire t _ => if String.eqb t a then 1 else 0
  | RRelease t _ => if String.eqb t a then -1 else 0
  | _ => 0
  end.

(** Events in which [a], starting with [n] holds, always keeps at least one,
    never drops all of them at once and never shortens its lease below [ttl]. *)
Fixpoint balanced (a : string) (ttl n : Z) (evs : list (occurrence reentrant_op)) {struct evs} : Prop :=
  match evs with
  | [] => True
  | Wait _ :: evs => balanced a ttl n evs
  | Do op :: evs =>
      match op with
      | RReleaseAll t => t <> a
      | RAcquire t ttl' | RExtend t ttl' => t = a -> ttl <= ttl'
      | RRelease t ttl' => t = a -> ttl' = 0 \/ ttl <= ttl'
      end /\ 1 <= n + delta a op <= i64_max /\ balanced a ttl (n + delta a op) evs
  end.

Fixpoint balance (a : string) (n : Z) (evs : list (occurrence reentrant_op)) {struct evs} : Z :=
  match evs with
  | [] => n
  | Wait _ :: evs => balance a n evs
  | Do op :: evs => balance a (n + delta a op) evs
  end.

Definition holding (a : string) (n T : Z) (st : reentrant) : Prop :=
  exists dl, re_hold st = Some (mk_hold a n dl) /\ T <= dl.

Lemma holding_op a n T ttl op st :
  holding a n T st -> T - ttl <= re_now st -> 1 <= n ->
  match op with
  | RReleaseAll t => t <> a
  | RAcquire t ttl' | RExtend t ttl' => t = a -> ttl <= ttl'
  | RRelease t ttl' => t = a -> ttl' = 0 \/ ttl <= ttl'
  end -> 1 <= n + delta a op <= i64_max ->
  holding a (n + delta a op) T (reentrant_spec op st).2.
Proof.
  intros (dl & E & HT) Hn H1 Hop Hd. destruct st as [now h c]. cbn in E. subst h.
  destruct op as [t ttl'|t ttl'|t|t ttl']; cbn [reentrant_spec delta owned_by hd_owner hd_count hd_deadline re_now] in *;
    rewrite ?(String.eqb_sym t a) in *; destruct (String.eqb_spec a t) as [<-|Hne];
    try specialize (Hop eq_refl); rewrite ?Z.add_0_r; try done; try (by exists dl).
  - rewrite (proj2 (Z.leb_le _ _)) by lia. exists (now + ttl'). split; [done|lia].
  - change (n + -1) with (n - 1) in *. rewrite (proj2 (Z.leb_gt _ _)) by lia.
    destruct (0 <? ttl') eqn:Hz; zbool; eexists; (split; [done|]); lia.
  - exists (now + ttl'). split; [done|lia].
Qed.

Lemma holding_run key a ttl T evs : forall st n os st',
  holding a n T st -> 1 <= n -> T - ttl <= re_now st ->
  occurrences_ok (H:=reentrant_object key) (re_now st) evs -> balanced a ttl n evs ->
  so_run (H:=reentrant_object key) st evs os st' -> re_now st + elapsed_time evs < T ->
  holding a (balance a n evs) T st' /\ re_now st' = re_now st + elapsed_time evs /\
  1 <= balance a n evs.
Proof.
  induction evs as [|[op|dt] evs IH]; intros st n os st' Hh Hn HT Hok Hb Hr Ht; inversion Hr; subst.
  - cbn. split; [done|split; [lia|done]].
  - match goal with S : so_step _ _ _ _ |- _ => inversion S; subst end.
    cbn [so_op reentrant_object elapsed_time balance balanced] in *. destruct Hb as (Hop & Hd & Hb).
    destruct Hok as [Hp Hok].
    assert (re_now (reentrant_spec op st).2 = re_now st) as En
      by exact (so_op_now (ScriptObjectLaws := reentrant_laws key) op st).
    pose proof (holding_op a n T ttl op st Hh HT Hn Hop Hd) as H1.
    rewrite <- En in Hok, HT, Ht |- *. eapply IH; eauto; lia.
  - match goal with S : so_step _ _ _ _ |- _ => inversion S; subst end.
    cbn [so_elapsed reentrant_object elapsed_time balance balanced] in *.
    match goal with E : reentrant_elapsed _ _ _ |- _ => destruct E as (En & Eh & _) end.
    destruct Hok as [Hp Hok]. change (so_now st) with (re_now st) in Hok. rewrite <- En in Hok.
    pose proof (elapsed_time_nonneg (H:=reentrant_object key) _ _ Hok) as Hpos.
    destruct Hh as (dl & E & HTd). rewrite E in Eh. cbn in Eh.
    assert (re_hold st1 = Some (mk_hold a n dl)) as E1 by (destruct Eh as [[_ ?]|[[? _]|[? _]]]; [done|lia..]).
    replace (re_now st + (dt + elapsed_time evs)) with (re_now st1 + elapsed_time evs) in * by lia.
    eapply IH; eauto; [by exists dl|lia].
Qed.

(** ** Properties *)

(** C15: Reentrancy.  While [a] keeps at least one hold, that is as long as in
    every prefix of the trace it acquired more often than it released, the
    trace takes less than the lease, and no lease it took is shorter, the
    lock records exactly the number of holds acquired less released; every
    other token is refused; and the next release by [a] leaves exactly one
    hold less, freeing the lock if and only if it was the last. *)
Theorem reentrant_holds {R} `{RedisLaws R} key (s : R) st a n ttl evs b ttlb :
  reentrant_view key (r_db s) st -> holding a n (re_now st + ttl) st -> 1 <= n ->
  occurrences_ok (H:=reentrant_object key) (re_now st) evs -> balanced a ttl n evs -> elapsed_time evs < ttl ->
  b <> a -> ttl_fits (re_now st + elapsed_time evs) ttlb ->
  let m := balance a n evs in
  let s' := (run_all (H:=reentrant_object key) evs s).2 in
  1 <= m /\
  (reentrant_script key (RAcquire b ttlb) s').1 = Ok (RPair 0 0) /\
  (reentrant_script key (RRelease b ttlb) s').1 = Ok (RInt (-1)) /\
  (reentrant_script key (RExtend b ttlb) s').1 = Ok (RInt (-1)) /\
  (reentrant_script key (RRelease a 0) s').1 = Ok (RInt (m - 1)) /\
  (db_live (r_db (reentrant_script key (RRelease a 0) s').2) !! key = None <-> m = 1).
Proof.
  intros V Hh Hn Hok Hb Ht Hne Hf m s'.
  destruct (so_events_refine (H:=reentrant_object key) evs s st V Hok) as (st' & Hr & V').
  change (reentrant_view key (r_db s') st') in V'.
  destruct (holding_run key a ttl _ evs st n _ st' Hh Hn ltac:(lia) Hok Hb Hr ltac:(lia)) as ((dl & E & HT) & En & Hm).
  fold m in E, Hm. rewrite <- En in Hf.
  pose proof (so_refines_any (H:=reentrant_object key) s' st') as Hall.
  cbn [so_view so_pre so_op so_script so_now reentrant_object] in Hall.
  pose proof (Hall (RAcquire b ttlb) V' Hf) as [E1 _]. pose proof (Hall (RRelease b ttlb) V' (or_intror Hf)) as [E2 _].
  pose proof (Hall (RExtend b ttlb) V' Hf) as [E3 _]. pose proof (Hall (RRelease a 0) V' (or_introl eq_refl)) as [E4 V4].
  rewrite E1, E2, E3, E4. destruct st' as [now h c]. cbn in E. subst h.
  cbn [reentrant_spec owned_by hd_owner hd_count hd_deadline] in *.
  rewrite (proj2 (String.eqb_neq a b)) by done. rewrite String.eqb_refl in *.
  split; [done|]. do 3 (split; [done|]).
  destruct (m - 1 <=? 0) eqn:Hz; zbool; cbn [fst snd] in *.
  - assert (m = 1) as -> by lia. split; [done|]. split; [done|]. intros _. by rewrite (rv_hold _ _ _ V4).
  - split; [done|]. rewrite (rv_hold _ _ _ V4). split; [done|lia].
Qed.

(** ** Witnesses *)

Definition demo_reentrant : reentrant := mk_reentrant 0 None None.
Definition demo_reentered : db := (reentrant_script "job" (RAcquire "A" 100) demo_db).2.
Definition demo_nest : list (occurrence reentrant_op) :=
  [Do (RAcquire "A" 100); Do (RAcquire "B" 50); Wait 60; Do (RRelease "A" 0)].

Lemma demo_reentered_view :
  reentrant_view "job" demo_reentered
    (mk_reentrant 0 (Some (mk_hold "A" 1 100)) (Some (mk_counter 1 None))).
Proof.
  split; [reflexivity|vm_compute; reflexivity|intros h [= <-]; concrete| |concrete].
  split; [vm_compute; reflexivity|concrete].
Qed.

Lemma reentrant_holds_witness :
  (reentrant_script "job" (RAcquire "B" 10) (run_all (H:=reentrant_object "job") demo_nest demo_reentered).2).1 =
    Ok (RPair 0 0).
Proof.
  refine (proj1 (proj2 (reentrant_holds (R:=db) "job" demo_reentered _ "A" 1 100 demo_nest "B" 10
    demo_reentered_view _ _ _ _ _ _ _))); [exists 100; concrete|..]; try concrete; cbn; concrete.
Defined.
