(* ===== verification/Rwlock.v ===== *)
(** * The read-write lock ([crates/redis/src/rwlock.rs])

    Readers register in a hash with a count; the scripts implement the
    specification [rwlock], in which a lock is read by a set of tokens or
    written by one. *)

From S2P Require Import Prelude Core Redis Scripts World Lease Simulation.

(** ** The specification *)

Inductive rw_mode := Readers (toks : gset string) | Writer (owner : string).
Record rw_hold := mk_rw_hold { rw_mode_of : rw_mode; rw_deadline : Z }.
Record rwlock := mk_rwlock { rw_now : Z; rw_held : option rw_hold; rw_fence : option counter }.

Inductive rw_op :=
| ReadAcquire (tok : string) (ttl : Z)
| ReadRelease (tok : string) (ttl : Z)
| WriteAcquire (tok : string) (ttl : Z)
| WriteRelease (tok : string)
| RwExtend (tok : string) (ttl : Z).

Definition rw_grant (status now : Z) (m : rw_mode) (dl : Z) (c : option counter) : res rerr reply * rwlock :=
  (res_map (RPair status) (counter_incr c).1, mk_rwlock now (Some (mk_rw_hold m dl)) (counter_incr c).2).

Definition reader_count (s : gset string) : Z := Z.of_nat (size s).

Definition rw_spec (op : rw_op) (st : rwlock) : res rerr reply * rwlock :=
  let '(mk_rwlock now h c) := st in
  match op with
  | ReadAcquire tok ttl =>
      match h with
      | None => rw_grant 1 now (Readers {[tok]}) (now + ttl) c
      | Some (mk_rw_hold (Readers s) dl) =>
          if decide (tok ∈ s) then (Ok (RPair 0 0), st) else
          if reader_count s + 1 <=? i64_max
          then rw_grant 1 now (Readers ({[tok]} ∪ s)) (now + ttl) c
          else (Err Overflow, st)
      | Some (mk_rw_hold (Writer _) _) => (Ok (RPair 0 0), st)
      end
  | ReadRelease tok ttl =>
      match h with
      | Some (mk_rw_hold (Readers s) dl) =>
          if decide (tok ∈ s) then
            let s' := s ∖ {[tok]} in
            if reader_count s' <=? 0 then (Ok (RInt 0), mk_rwlock now None c) else
            (* the script passes any time to live on to PEXPIRE *)
            if ttl <=? 0 then (Ok (RInt (reader_count s')), mk_rwlock now None c)
            else (Ok (RInt (reader_count s')), mk_rwlock now (Some (mk_rw_hold (Readers s') (now + ttl))) c)
          else (Ok (RInt (-1)), st)
      | _ => (Ok (RInt (-1)), st)
      end
  | WriteAcquire tok ttl =>
      match h with
      | None => rw_grant 1 now (Writer tok) (now + ttl) c
      | Some (mk_rw_hold (Writer o) _) =>
          if String.eqb o tok then rw_grant 2 now (Writer tok) (now + ttl) c else (Ok (RPair 0 0), st)
      | Some (mk_rw_hold (Readers _) _) => (Ok (RPair 0 0), st)
      end
  | WriteRelease tok =>
      match h with
      | Some (mk_rw_hold (Writer o) _) =>
          if String.eqb o tok then (Ok (RInt 1), mk_rwlock now None c) else (Ok (RInt (-1)), st)
      | _ => (Ok (RInt (-1)), st)
      end
  | RwExtend tok ttl =>
      match h with
      (* any token may extend a lock in read mode *)
      | Some (mk_rw_hold (Readers s) _) => (Ok (RInt 1), mk_rwlock now (Some (mk_rw_hold (Readers s) (now + ttl))) c)
      | Some (mk_rw_hold (Writer o) _) =>
          if String.eqb o tok
          then (Ok (RInt 1), mk_rwlock now (Some (mk_rw_hold (Writer o) (now + ttl))) c)
          else (Ok (RInt (-1)), st)
      | None => (Ok (RInt (-1)), st)
      end
  end.

Definition rw_pre (op : rw_op) (now : Z) : Prop :=
  match op with
  | ReadAcquire _ ttl | WriteAcquire _ ttl | RwExtend _ ttl => ttl_fits now ttl
  | ReadRelease _ ttl => ttl = 0 \/ ttl_fits now ttl
  | WriteRelease _ => True
  end.

(** The hash of each mode. *)
Definition rw_hash (m : rw_mode) : gmap string string :=
  match m with
  | Readers s =>
      <["mode"%string := "r"%string]> (<["readers"%string := z_to_string (reader_count s)]>
        (kmap reader_field (gset_to_gmap "1"%string s)))
  | Writer o => <["mode"%string := "w"%string]> (<["owner"%string := o]> ∅)
  end.
Definition rw_entry (h : rw_hold) : rentry := mk_entry (VHash (rw_hash (rw_mode_of h))) (Some (rw_deadline h)).

Definition mode_ok (m : rw_mode) : Prop :=
  match m with Readers s => s <> ∅ /\ reader_count s <= i64_max | Writer _ => True end.

Record rw_view (key : string) (d : db) (st : rwlock) : Prop := mk_rw_view {
  rwv_now : db_now d = rw_now st;
  rwv_held : db_live d !! key = rw_entry <$> rw_held st;
  rwv_mode : forall h, rw_held st = Some h -> mode_ok (rw_mode_of h);
  rwv_fence : counter_at (fence_key_for key) d (rw_fence st);
  rwv_clock : 0 <= rw_now st;
}.

Definition rw_elapsed (dt : Z) (st st' : rwlock) : Prop :=
  rw_now st' = rw_now st + dt /\
  expires (rw_now st') (rw_deadline <$> rw_held st) (rw_held st) (rw_held st') /\
  expires (rw_now st') (rw_fence st ≫= c_deadline) (rw_fence st) (rw_fence st').

Definition rw_script (key : string) {R} `{Redis R} (op : rw_op) : cmd R reply :=
  match op with
  | ReadAcquire tok ttl =>
      eval_script RW_READ_ACQUIRE [key; fence_key_for key] [tok; z_to_string ttl; z_to_string (10 * ttl)]
  | ReadRelease tok ttl => eval_script RW_READ_RELEASE [key] [tok; z_to_string ttl]
  | WriteAcquire tok ttl =>
      eval_script RW_WRITE_ACQUIRE [key; fence_key_for key] [tok; z_to_string ttl; z_to_string (10 * ttl)]
  | WriteRelease tok => eval_script RW_WRITE_RELEASE [key] [tok]
  | RwExtend tok ttl => eval_script RW_EXTEND [key] [tok; z_to_string ttl]
  end.

#[global] Instance rw_object (key : string) : ScriptObject rwlock rw_op := {
  so_now := rw_now;
  so_op := rw_spec;
  so_pre := rw_pre;
  so_elapsed := rw_elapsed;
  so_view := rw_view key;
  so_script := @rw_script key;
}.

(** ** The hash of a set of readers *)

#[global] Instance reader_field_inj : Inj (=) (=) reader_field.
Proof. intros a b H. unfold reader_field in H. by apply (inj (String.append "r:")) in H. Qed.

Lemma reader_field_not tok (f : string) : String.get 1 f <> Some ":"%char -> reader_field tok <> f.
Proof. intros Hf <-. by apply Hf. Qed.

Lemma rw_hash_mode m : rw_hash m !! "mode"%string = Some (match m with Readers _ => "r" | Writer _ => "w" end)%string.
Proof. destruct m; cbn [rw_hash]; apply lookup_insert_eq. Qed.

Lemma rw_hash_owner o : rw_hash (Writer o) !! "owner"%string = Some o.
Proof. done. Qed.

Lemma rw_hash_readers s : rw_hash (Readers s) !! "readers"%string = Some (z_to_string (reader_count s)).
Proof. cbn [rw_hash]. rewrite lookup_insert_ne by done. apply lookup_insert_eq. Qed.

Lemma rw_hash_reader s tok :
  rw_hash (Readers s) !! reader_field tok = if decide (tok ∈ s) then Some "1"%string else None.
Proof.
  cbn [rw_hash]. rewrite !lookup_insert_ne by (apply not_eq_sym, reader_field_not; done).
  rewrite lookup_kmap by apply _. rewrite lookup_gset_to_gmap. by repeat case_decide; case_guard.
Qed.

Lemma reader_count_add s tok : tok ∉ s -> reader_count ({[tok]} ∪ s) = reader_count s + 1.
Proof. intros H. unfold reader_count. rewrite size_union, size_singleton by set_solver. lia. Qed.

Lemma reader_count_remove s tok : tok ∈ s -> reader_count (s ∖ {[tok]}) = reader_count s - 1.
Proof.
  intros H. unfold reader_count. rewrite size_difference, size_singleton by set_solver.
  assert (size s <> 0)%nat by (rewrite size_non_empty_iff; set_solver). lia.
Qed.

Lemma rw_hash_add s tok : tok ∉ s ->
  <[reader_field tok := "1"%string]> (<["readers"%string := z_to_string (reader_count s + 1)]> (rw_hash (Readers s)))
    = rw_hash (Readers ({[tok]} ∪ s)).
Proof.
  intros H. cbn [rw_hash]. rewrite reader_count_add by done.
  rewrite (insert_insert_ne _ "readers"%string "mode"%string), insert_insert_eq by done.
  rewrite (insert_insert_ne _ (reader_field tok) "mode"%string), (insert_insert_ne _ (reader_field tok) "readers"%string)
    by (apply reader_field_not; done).
  by rewrite gset_to_gmap_union_singleton, kmap_insert by apply _.
Qed.

Lemma rw_hash_remove s tok : tok ∈ s ->
  <["readers"%string := z_to_string (reader_count s - 1)]> (delete (reader_field tok) (rw_hash (Readers s)))
    = rw_hash (Readers (s ∖ {[tok]})).
Proof.
  intros H. cbn [rw_hash]. rewrite reader_count_remove by done.
  rewrite !delete_insert_ne by (apply reader_field_not; done).
  rewrite (insert_insert_ne _ "readers"%string "mode"%string), insert_insert_eq by done.
  by rewrite gset_to_gmap_difference_singleton, kmap_delete by apply _.
Qed.

(** ** The scripts implement the specification *)

Section scripts.
Variable key : string.
Abbreviation fk := (fence_key_for key).

Lemma held_entry d st m dl : rw_view key d st -> rw_held st = Some (mk_rw_hold m dl) ->
  db_live d !! key = Some (mk_entry (VHash (rw_hash m)) (Some dl)).
Proof. intros V E. by rewrite (rwv_held _ _ _ V), E. Qed.

Lemma put_mode d st m dl : rw_view key d st -> mode_ok m ->
  rw_view key (put key (VHash (rw_hash m)) (Some dl) d)
    (mk_rwlock (rw_now st) (Some (mk_rw_hold m dl)) (rw_fence st)).
Proof.
  intros [V1 V2 V3 [V4 V5] V6] Hm. split; cbn; [done|by rewrite lookup_insert_eq|by intros ? [= <-]| |done].
  split; [|done]. cbn. rewrite lookup_insert_ne by apply fence_key_ne. done.
Qed.

Lemma drop_mode d st : rw_view key d st ->
  rw_view key (drop_key key d) (mk_rwlock (rw_now st) None (rw_fence st)).
Proof.
  intros [V1 V2 V3 [V4 V5] V6]. split; cbn; [done|by rewrite lookup_delete_eq|done| |done].
  split; [|done]. cbn. rewrite lookup_delete_ne by apply fence_key_ne. done.
Qed.

Lemma grant_mode d now m dl c status : rw_view key d (mk_rwlock now (Some (mk_rw_hold m dl)) c) ->
  let rd := (let! k2 := at_ [key; fk] 2 in let! fence := r_incr k2 in cret (RPair status fence))%script d in
  rd.1 = (rw_grant status now m dl c).1 /\ rw_view key rd.2 (rw_grant status now m dl c).2.
Proof.
  intros V. destruct (fence_grant_run key status d c (rwv_fence _ _ _ V)) as (d' & E & C & En & Ef).
  cbv zeta. rewrite E. split; [done|]. destruct V as [V1 V2 V3 V4 V5].
  split; cbn; [by rewrite En| |done|done|done]. rewrite Ef by apply fence_key_ne. done.
Qed.

(** The conclusion of every refinement lemma below. *)
Definition rw_refines (d : db) (st : rwlock) (op : rw_op) : Prop :=
  (rw_script key op d).1 = (rw_spec op st).1 /\ rw_view key (rw_script key op d).2 (rw_spec op st).2.

Ltac start V := unfold rw_refines, rw_script, eval_script, rw_read_acquire_lua, rw_read_release_lua,
    rw_write_acquire_lua, rw_write_release_lua, rw_extend_lua; run_at; to_doc;
  pose proof (rwv_clock _ _ _ V);
  match goal with st : rwlock |- _ => destruct st as [now h c] end; cbn [rw_now rw_held rw_fence rw_spec] in *.
Ltac run_field E := run_with (hget_at _ _ _ _ "mode"%string E); rewrite ?rw_hash_mode;
  cbn [is_text String.eqb Ascii.eqb Bool.eqb negb].
Ltac run_owner E := run_with (hget_at _ _ _ _ "owner"%string E); rewrite ?rw_hash_owner;
  cbn [is_arg lookup list_lookup Nat.sub].

Lemma read_acquire_refines d st tok ttl : rw_view key d st -> ttl_fits (rw_now st) ttl ->
  rw_refines d st (ReadAcquire tok ttl).
Proof.
  intros V F. start V. pose (ARGV := [tok; z_to_string ttl; z_to_string (10 * ttl)]).
  destruct h as [[[s|o] dl]|].
  - pose proof (held_entry _ _ _ _ V eq_refl) as E. run_with (exists_at_Some _ _ _ E).
    change (1 =? 0) with false. cbv iota. run_field E. run_at.
    run_with (hexists_at _ _ _ _ (reader_field tok) E). rewrite rw_hash_reader.
    destruct (decide (tok ∈ s)) as [Hin|Hin]; [done|]. change (0 =? 0) with true. cbv iota.
    destruct (rwv_mode _ _ _ V _ eq_refl) as [Hne Hc]. cbn [rw_mode_of] in Hne, Hc.
    pose proof (hincrby_at key _ _ _ _ _ 1 E (rw_hash_readers s)
      ltac:(unfold reader_count, i64_min; lia)) as I.
    destruct (_ <=? _) eqn:Hm; zbool; [|by rewrite (cbind_err _ _ _ _ _ I)]. run_with I.
    destruct (hset_at key _ _ _ [(reader_field tok, "1"%string)] (put_at key
      (VHash (<["readers"%string := z_to_string (reader_count s + 1)]> (rw_hash (Readers s)))) (Some dl) d)) as (n & I2).
    run_with I2. cbn [fold_left fst snd]. rewrite put_put, rw_hash_add by done.
    set (m := Readers ({[tok]} ∪ s)). set (d1 := put key _ _ d).
    run_with (int_at_ttl ARGV 2 ttl now d1 eq_refl ltac:(done) F).
    run_with (pexpire_at key d1 (VHash (rw_hash m)) (Some dl) now ttl (put_at _ _ _ _) (rwv_now _ _ _ V) F).
    unfold d1. rewrite put_put. apply grant_mode.
    refine (put_mode d _ m (now + ttl) V _). cbn. split; [set_solver|]. by rewrite reader_count_add.
  - pose proof (held_entry _ _ _ _ V eq_refl) as E. run_with (exists_at_Some _ _ _ E).
    change (1 =? 0) with false. cbv iota. run_field E. done.
  - run_with (exists_at_None _ _ (rwv_held _ _ _ V)). change (0 =? 0) with true. cbv iota. run_at.
    destruct (hset_new key _ [("mode", "r"); ("readers", "1"); (reader_field tok, "1")]%string (rwv_held _ _ _ V))
      as (n & I). run_with I. cbn [fold_left fst snd].
    assert (<[reader_field tok:="1"%string]> (<["readers"%string:="1"%string]> (<["mode"%string:="r"%string]> ∅))
      = rw_hash (Readers {[tok]})) as Eh.
    { cbn [rw_hash]. rewrite gset_to_gmap_singleton, kmap_singleton by apply _.
      unfold reader_count. rewrite size_singleton.
      rewrite (insert_insert_ne _ "readers"%string "mode"%string) by done.
      rewrite (insert_insert_ne _ (reader_field tok) "mode"%string), (insert_insert_ne _ (reader_field tok) "readers"%string)
        by (apply reader_field_not; done). done. }
    rewrite Eh. set (m := Readers {[tok]}). set (d1 := put key _ _ d).
    run_with (int_at_ttl ARGV 2 ttl now d1 eq_refl ltac:(done) F).
    run_with (pexpire_at key d1 (VHash (rw_hash m)) None now ttl (put_at _ _ _ _) (rwv_now _ _ _ V) F).
    unfold d1. rewrite put_put. apply grant_mode.
    refine (put_mode d _ m (now + ttl) V _). cbn. split; [set_solver|]. unfold reader_count. rewrite size_singleton.
    unfold i64_max. lia.
Qed.

Lemma read_release_refines d st tok ttl : rw_view key d st -> ttl = 0 \/ ttl_fits (rw_now st) ttl ->
  rw_refines d st (ReadRelease tok ttl).
Proof.
  intros V F. start V. destruct h as [[[s|o] dl]|];
    [| |by run_with (exists_at_None _ _ (rwv_held _ _ _ V))];
    pose proof (held_entry _ _ _ _ V eq_refl) as E; run_with (exists_at_Some _ _ _ E);
    change (1 =? 0) with false; cbv iota; run_field E; [|done].
  run_at. run_with (hexists_at _ _ _ _ (reader_field tok) E). rewrite rw_hash_reader.
  destruct (decide (tok ∈ s)) as [Hin|Hin]; [|done]. change (1 =? 0) with false. cbv iota.
  assert (rw_hash (Readers s) !! reader_field tok = Some "1"%string) as Ef
    by (rewrite rw_hash_reader; by case_decide).
  run_with (hdel_at key _ _ _ _ _ E Ef ltac:(intros Hd; apply (f_equal (.!! "mode"%string)) in Hd;
    rewrite lookup_delete_ne, rw_hash_mode in Hd by (apply reader_field_not; done); done)).
  destruct (rwv_mode _ _ _ V _ eq_refl) as [Hne Hc]. cbn [rw_mode_of] in Hne, Hc.
  pose proof (hincrby_at key _ _ _ "readers" (reader_count s) (-1) (put_at _ (VHash (delete (reader_field tok)
    (rw_hash (Readers s)))) (Some dl) d) ltac:(rewrite lookup_delete_ne by (apply reader_field_not; done);
    apply rw_hash_readers) ltac:(unfold reader_count, i64_min; lia)) as I.
  rewrite (proj2 (Z.leb_le _ _)) in I by lia. run_with I. change (reader_count s + -1) with (reader_count s - 1).
  rewrite put_put, rw_hash_remove, <- (reader_count_remove s tok) by done.
  set (m := Readers (s ∖ {[tok]})). set (d1 := put key _ _ d).
  assert (rw_view key (drop_key key d1) (mk_rwlock now None c)) as Vd
    by (unfold d1; rewrite drop_put; exact (drop_mode _ _ V)).
  destruct (reader_count (s ∖ {[tok]}) <=? 0) eqn:Hz; zbool.
  { erewrite (cbind_ok (doc_del key)) by reflexivity. done. }
  destruct F as [->|F].
  - erewrite (cbind_ok (int_at [tok; z_to_string 0] 2)) by reflexivity.
    run_with (pexpire_nonpos key d1 _ _ 0 (put_at _ _ _ _) ltac:(lia)). done.
  - assert ((ttl <=? 0) = false) as -> by (destruct F; by apply Z.leb_gt).
    run_with (int_at_ttl [tok; z_to_string ttl] 2 ttl now d1 eq_refl ltac:(done) F).
    run_with (pexpire_at key d1 (VHash (rw_hash m)) (Some dl) now ttl (put_at _ _ _ _) (rwv_now _ _ _ V) F).
    split; [done|]. unfold cret, d1. cbn [snd]. rewrite put_put.
    refine (put_mode d _ m (now + ttl) V _). cbn. rewrite reader_count_remove in * by done.
    split; [|lia]. intros Hemp. apply (f_equal size) in Hemp. rewrite size_empty in Hemp.
    pose proof (reader_count_remove s tok Hin) as Hr. unfold reader_count in *. lia.
Qed.

Lemma write_acquire_refines d st tok ttl : rw_view key d st -> ttl_fits (rw_now st) ttl ->
  rw_refines d st (WriteAcquire tok ttl).
Proof.
  intros V F. start V. pose (ARGV := [tok; z_to_string ttl; z_to_string (10 * ttl)]).
  destruct h as [[[s|o] dl]|].
  - pose proof (held_entry _ _ _ _ V eq_refl) as E. run_with (exists_at_Some _ _ _ E).
    change (1 =? 0) with false. cbv iota. run_field E. done.
  - pose proof (held_entry _ _ _ _ V eq_refl) as E. run_with (exists_at_Some _ _ _ E).
    change (1 =? 0) with false. cbv iota. run_field E. run_owner E.
    destruct (String.eqb_spec o tok) as [->|Hne]; [|done].
    run_with (int_at_ttl ARGV 2 ttl now d eq_refl ltac:(done) F).
    run_with (pexpire_at key d _ _ now ttl E (rwv_now _ _ _ V) F).
    apply grant_mode. exact (put_mode d _ (Writer tok) (now + ttl) V I).
  - run_with (exists_at_None _ _ (rwv_held _ _ _ V)). change (0 =? 0) with true. cbv iota. run_at.
    destruct (hset_new key _ [("mode", "w"); ("owner", tok)]%string (rwv_held _ _ _ V)) as (n & I).
    run_with I. cbn [fold_left fst snd].
    rewrite (insert_insert_ne _ "owner"%string "mode"%string) by done.
    change (<["mode"%string:="w"%string]> (<["owner"%string:=tok]> ∅)) with (rw_hash (Writer tok)).
    set (d1 := put key _ _ d).
    run_with (int_at_ttl ARGV 2 ttl now d1 eq_refl ltac:(done) F).
    run_with (pexpire_at key d1 _ None now ttl (put_at _ _ _ _) (rwv_now _ _ _ V) F).
    unfold d1. rewrite put_put. apply grant_mode.
    exact (put_mode d _ (Writer tok) (now + ttl) V Logic.I).
Qed.

Lemma write_release_refines d st tok : rw_view key d st -> rw_refines d st (WriteRelease tok).
Proof.
  intros V. start V. destruct h as [[[s|o] dl]|];
    [| |by run_with (exists_at_None _ _ (rwv_held _ _ _ V))];
    pose proof (held_entry _ _ _ _ V eq_refl) as E; run_with (exists_at_Some _ _ _ E);
    change (1 =? 0) with false; cbv iota; run_field E; [done|].
  run_owner E. destruct (String.eqb_spec o tok) as [->|Hne]; [|done].
  erewrite (cbind_ok (doc_del key)) by reflexivity. split; [done|]. exact (drop_mode _ _ V).
Qed.

Lemma rw_extend_refines d st tok ttl : rw_view key d st -> ttl_fits (rw_now st) ttl ->
  rw_refines d st (RwExtend tok ttl).
Proof.
  intros V F. start V. destruct h as [[[s|o] dl]|];
    [| |by run_with (exists_at_None _ _ (rwv_held _ _ _ V))];
    pose proof (held_entry _ _ _ _ V eq_refl) as E; run_with (exists_at_Some _ _ _ E);
    change (1 =? 0) with false; cbv iota; run_field E.
  - run_with (int_at_ttl [tok; z_to_string ttl] 2 ttl now d eq_refl ltac:(done) F).
    run_with (pexpire_at key d _ _ now ttl E (rwv_now _ _ _ V) F). split; [done|].
    exact (put_mode d _ (Readers s) (now + ttl) V (rwv_mode _ _ _ V _ eq_refl)).
  - run_field E. run_owner E. destruct (String.eqb_spec o tok) as [->|Hne]; [|done].
    run_with (int_at_ttl [tok; z_to_string ttl] 2 ttl now d eq_refl ltac:(done) F).
    run_with (pexpire_at key d _ _ now ttl E (rwv_now _ _ _ V) F). split; [done|].
    exact (put_mode d _ (Writer tok) (now + ttl) V Logic.I).
Qed.

#[global] Instance rw_laws : ScriptObjectLaws rwlock rw_op (H := rw_object key).
Proof.
  constructor; cbn [so_script so_op so_pre so_view so_now so_elapsed rw_object].
  - intros R ? ? op. destruct op; cbn [rw_script]; apply meets_script.
  - intros d st op V F. change (rw_refines d st op). destruct op; cbn [rw_pre] in F;
      auto using read_acquire_refines, read_release_refines, write_acquire_refines, write_release_refines,
        rw_extend_refines.
  - intros op [now h c]. destruct op; cbn [rw_spec]; unfold rw_grant; repeat case_goal; done.
  - intros dt st st' (E & _). exact E.
  - intros dt d d' st Hdt E V.
    destruct (expires_lookup rw_entry (Some ∘ rw_deadline) _ _ _ _ _ (fun a => eq_refl) E (rwv_held _ _ _ V))
      as (h & Eh & Vh).
    destruct (counter_elapse _ _ _ _ _ E (rwv_fence _ _ _ V)) as (c & Ec & Vc).
    pose proof (elapsed_now _ _ _ E) as En. rewrite (rwv_now _ _ _ V) in En.
    exists (mk_rwlock (db_now d') h c). split; [split; [cbn; congruence|split; cbn; [|done]]|].
    + by destruct (rw_held st).
    + split; cbn; try done; [|rewrite En; pose proof (rwv_clock _ _ _ V); lia].
      intros h' ->. pose proof (rwv_mode _ _ _ V) as Hc. destruct (rw_held st) as [h0|] eqn:E0; cbn in Eh; [|done].
      specialize (Hc _ eq_refl). destruct Eh as [[_ [= ->]]|[[_ ?]|[_ [[= ->]|?]]]]; done.
Qed.
End scripts.

(** ** The Rust layer *)

Section rust.
Context {U : UuidSource} {R : Type} `{Redis R}.
Open Scope world_scope.

(** [RwShared]; [gone] is in the cell. *)
Record RwShared := mk_rw_handle {
  wh_conn : conn;
  wh_key : string;
  wh_token : string;
  wh_fence : FencingToken;
  wh_ttl : duration;
  wh_cell : nat;
  wh_write_mode : bool;
}.

Definition rw_lost (s : RwShared) : error := Lost (wh_key s) (value (wh_fence s)).

Definition validate_ttl (t : duration) : res error unit :=
  if t <? MIN_TTL then Err (InvalidConfig "ttl {:?} is below the {:?} floor") else Ok tt.

(** [RedisLockManager::try_read]. *)
Definition try_read (c : conn) (key : string) (options : LockOptions) : M R (res error RwShared) :=
  let? _u := ret (validate options) in
  let* owner := fresh_owner in
  let token := owner_token owner in
  let ttl_ms := as_millis_u64 (ttl options) in
  let? '(status, fence) := backend "rw read-acquire failed: {e}"
    (invoke_pair c RW_READ_ACQUIRE [key; fence_key_for key]
       [token; z_to_string ttl_ms; z_to_string (u64_mul ttl_ms 10)]) in
  if negb (status =? 1) then ret (Err (Held key)) else
  let* cell := new_cell in
  ret (Ok (mk_rw_handle c key token (fence_new (wrap64 fence)) (ttl options) cell false)).

(** [RedisLockManager::try_write]. *)
Definition try_write (c : conn) (key : string) (options : LockOptions) : M R (res error RwShared) :=
  let? _u := ret (validate options) in
  let* owner := fresh_owner in
  let token := owner_token owner in
  let ttl_ms := as_millis_u64 (ttl options) in
  let? '(status, fence) := backend "rw write-acquire failed: {e}"
    (invoke_pair c RW_WRITE_ACQUIRE [key; fence_key_for key]
       [token; z_to_string ttl_ms; z_to_string (u64_mul ttl_ms 10)]) in
  if status =? 0 then ret (Err (Held key)) else
  let* cell := new_cell in
  ret (Ok (mk_rw_handle c key token (fence_new (wrap64 fence)) (ttl options) cell true)).

(** [try_read_for] and [try_write_for]. *)
Definition try_read_for (fuel : nat) (c : conn) (key : string) (options : LockOptions) (wait : duration) :
    M R (res error RwShared) :=
  poll_for fuel key wait (try_read c key options).
Definition try_write_for (fuel : nat) (c : conn) (key : string) (options : LockOptions) (wait : duration) :
    M R (res error RwShared) :=
  poll_for fuel key wait (try_write c key options).

(** [extend], of both guards ([rw_common_methods!]). *)
Definition rw_extend (s : RwShared) (t : duration) : M R (res error unit) :=
  let? _u := ret (validate_ttl t) in
  let* f := cell (wh_cell s) in
  if released f then ret (Err (rw_lost s)) else
  let? ok := backend "rw extend failed: {e}"
    (invoke_int (wh_conn s) RW_EXTEND [wh_key s] [wh_token s; z_to_string (as_millis_u64 t)]) in
  if ok <? 0 then
    do* update_cell (wh_cell s) set_released in
    ret (Err (rw_lost s))
  else ret (Ok tt).

(** [RwReadHandle::release]. *)
Definition read_release (s : RwShared) : M R (res error unit) :=
  let* first := mark_released (wh_cell s) in
  if negb first then ret (Ok tt) else
  let? remaining := backend "rw read-release failed: {e}"
    (invoke_int (wh_conn s) RW_READ_RELEASE [wh_key s] [wh_token s; z_to_string (as_millis_u64 (wh_ttl s))]) in
  if remaining <? 0 then ret (Err (rw_lost s)) else ret (Ok tt).

(** [RwWriteHandle::release]. *)
Definition write_release (s : RwShared) : M R (res error unit) :=
  let* first := mark_released (wh_cell s) in
  if negb first then ret (Ok tt) else
  let? ok := backend "rw write-release failed: {e}"
    (invoke_int (wh_conn s) RW_WRITE_RELEASE [wh_key s] [wh_token s]) in
  if ok <? 0 then ret (Err (rw_lost s)) else ret (Ok tt).

(** [Drop for RwShared]: the detached release of a reader passes a time to
    live of 0. *)
Definition rw_drop (runtime : bool) (s : RwShared) : M R unit :=
  do* update_cell (wh_cell s) set_dropped in
  let* first := mark_released (wh_cell s) in
  if negb first then ret tt else
  if negb runtime then ret tt else
  if wh_write_mode s then spawn (TScript (wh_conn s) RW_WRITE_RELEASE [wh_key s] [wh_token s])
  else spawn (TScript (wh_conn s) RW_READ_RELEASE [wh_key s] [wh_token s; z_to_string 0]).

Lemma safe_try_read c key options : safe (R:=R) (try_read c key options).
Proof. unfold try_read. solve_safe. Qed.
Lemma safe_try_write c key options : safe (R:=R) (try_write c key options).
Proof. unfold try_write. solve_safe. Qed.
End rust.
#[export] Hint Resolve safe_try_read safe_try_write : safe.

(** ** Exclusion *)

(** Events that leave a hold of [a] for [ttl] ms in force.  All readers share
    one deadline, so no reader may bring a shorter lease. *)
Definition rw_keeps (a : string) (ttl : Z) (ev : occurrence rw_op) : Prop :=
  match ev with
  | Do (ReadAcquire _ ttl') | Do (RwExtend _ ttl') => ttl <= ttl'
  | Do (ReadRelease t ttl') => t <> a /\ ttl <= ttl'
  | Do (WriteAcquire t ttl') => t = a -> ttl <= ttl'
  | Do (WriteRelease t) => t <> a
  | Wait _ => True
  end.

(** [a] reads ([w = false]) or writes ([w = true]) until [T]. *)
Definition held_as (a : string) (w : bool) (T : Z) (st : rwlock) : Prop :=
  exists m dl, rw_held st = Some (mk_rw_hold m dl) /\ T <= dl /\
    match m with Readers s => w = false /\ a ∈ s | Writer o => w = true /\ o = a end.

Lemma reader_count_pos s (a : string) : a ∈ s -> (reader_count s <=? 0) = false.
Proof.
  intros H. apply Z.leb_gt. unfold reader_count.
  assert (size s <> 0)%nat by (rewrite size_non_empty_iff; set_solver). lia.
Qed.

Lemma held_as_op a w T ttl op st : held_as a w T st -> rw_keeps a ttl (Do op) -> 0 < ttl ->
  T - ttl <= rw_now st -> held_as a w T (rw_spec op st).2.
Proof.
  intros (m & dl & E & HT & Hm) Hk Hp Hn. destruct st as [now h c]. cbn in E. subst h.
  assert (forall m' ttl', ttl <= ttl' ->
    match m' with Readers s => w = false /\ a ∈ s | Writer o => w = true /\ o = a end ->
    forall c', held_as a w T (mk_rwlock now (Some (mk_rw_hold m' (now + ttl'))) c')) as Hnew.
  { intros m' ttl' Ht Hm' c'. exists m', (now + ttl'). cbn in Hn. split; [done|split; [lia|done]]. }
  destruct m as [s|o], Hm as [-> Hin];
    destruct op as [t ttl'|t ttl'|t ttl'|t|t ttl']; cbn [rw_spec rw_keeps] in *.
  - case_decide; [by exists (Readers s), dl|]. case_goal; [|by exists (Readers s), dl].
    apply Hnew; [done|set_solver].
  - case_decide; [|by exists (Readers s), dl]. destruct Hk as [Hne Hle].
    assert (a ∈ s ∖ {[t]}) as Hin' by set_solver. rewrite (reader_count_pos _ _ Hin').
    rewrite (proj2 (Z.leb_gt _ _)) by lia. by apply Hnew.
  - by exists (Readers s), dl.
  - by exists (Readers s), dl.
  - by apply Hnew.
  - by exists (Writer o), dl.
  - by exists (Writer o), dl.
  - destruct (String.eqb_spec o t) as [->|]; [|by exists (Writer o), dl]. apply Hnew; [auto|done].
  - destruct (String.eqb_spec o t) as [->|]; [done|by exists (Writer o), dl].
  - destruct (String.eqb_spec o t) as [->|]; [by apply Hnew|by exists (Writer o), dl].
Qed.

Lemma held_as_run key a w ttl st evs os st' :
  held_as a w (rw_now st + ttl) st -> 0 < ttl -> Forall (rw_keeps a ttl) evs ->
  occurrences_ok (H:=rw_object key) (rw_now st) evs -> so_run (H:=rw_object key) st evs os st' ->
  elapsed_time evs < ttl -> held_as a w (rw_now st + ttl) st' /\ rw_now st' = rw_now st + elapsed_time evs.
Proof.
  intros Hh Hp Hk Ho Hr Ht.
  destruct (so_run_until (H:=rw_object key)
    (fun x => held_as a w (rw_now st + ttl) x /\ rw_now st <= rw_now x) (rw_keeps a ttl) (rw_now st + ttl))
    with (evs := evs) (st := st) (os := os) (st' := st') as [[? _] ?]; try done; [|cbn; lia].
  intros x ev o x' [Hx Hnx] Hev S HT. inversion S as [op|dt x1 Hdt Hel]; subst.
  - cbn [so_op rw_object] in *.
    assert (rw_now (rw_spec op x).2 = rw_now x) as En by exact (so_op_now (ScriptObjectLaws:=rw_laws key) op x).
    split; [|by rewrite En]. apply (held_as_op a w _ ttl); [done..|lia].
  - destruct Hel as (En & Eh & _). cbn in HT. destruct Hx as (m & dl & E & HTd & Hm). rewrite E in Eh. cbn in Eh.
    split; [|lia]. exists m, dl. split; [|done]. destruct Eh as [[_ ?]|[[? _]|[? _]]]; [done|lia..].
Qed.

Lemma held_as_denies a w T st b ttlb : held_as a w T st ->
  (b <> a \/ w = false -> (rw_spec (WriteAcquire b ttlb) st).1 = Ok (RPair 0 0)) /\
  (w = true -> (rw_spec (ReadAcquire b ttlb) st).1 = Ok (RPair 0 0)) /\
  (b <> a \/ w = false -> (rw_spec (WriteRelease b) st).1 = Ok (RInt (-1))).
Proof.
  intros (m & dl & E & _ & Hm). destruct st as [now h c]. cbn in E. subst h. cbn [rw_spec].
  destruct m as [s|o], Hm as [-> Hin]; [done|].
  split; [|split; [done|]]; (intros [Hne|?]; [|done]); destruct (String.eqb_spec o b) as [->|]; done.
Qed.

(** ** Properties *)


(** Dropping a read guard breaks the lock of the other readers: the
    detached release of a dropped guard passes a time to live of 0, which the
    script hands to [PEXPIRE], so the whole structure is deleted while the
    others' leases still run, and the next writer is granted at once. *)
Theorem reader_drop_breaks_lock {R} `{RedisLaws R} key (s : R) st (rs : gset string) dl a b w ttl :
  rw_view key (r_db s) st -> rw_held st = Some (mk_rw_hold (Readers rs) dl) ->
  a ∈ rs -> b ∈ rs -> a <> b -> ttl_fits (rw_now st) ttl -> count_of (rw_fence st) < i64_max ->
  let '(r1, s1) := rw_script key (ReadRelease a 0) s in
  let '(r2, s2) := rw_script key (WriteAcquire w ttl) s1 in
  r1 = Ok (RInt (reader_count (rs ∖ {[a]}))) /\ b ∈ rs ∖ {[a]} /\
  db_live (r_db s1) !! key = None /\
  r2 = Ok (RPair 1 (count_of (rw_fence st) + 1)).
Proof.
  intros V E Ha Hb Hne F Hc. destruct st as [now h c]. cbn [rw_held rw_now rw_fence] in *. subst h.
  destruct (so_refines_any (H:=rw_object key) s _ (ReadRelease a 0) V (or_introl eq_refl)) as [E1 V1].
  cbn [so_view so_op so_script rw_object rw_spec] in E1, V1.
  assert (b ∈ rs ∖ {[a]}) as Hb' by set_solver.
  rewrite decide_True, (reader_count_pos _ _ Hb') in E1, V1 by done. cbn [fst snd Z.leb Z.compare] in E1, V1.
  destruct (rw_script key (ReadRelease a 0) s) as [r1 s1]. cbn [fst snd] in *.
  destruct (so_refines_any (H:=rw_object key) s1 _ (WriteAcquire w ttl) V1 F) as [E2 _].
  cbn [so_op so_script rw_object rw_spec] in E2. unfold rw_grant, counter_incr in E2.
  rewrite (proj2 (Z.leb_le _ _)) in E2 by lia. cbn [fst snd res_map] in E2.
  destruct (rw_script key (WriteAcquire w ttl) s1) as [r2 s2]. cbn [fst] in *. subst.
  split; [done|]. split; [done|]. split; [exact (rwv_held _ _ _ V1)|done].
Qed.

(** ** Witnesses *)

Definition demo_rw_ops : list (occurrence rw_op) := [Do (ReadAcquire "A" 100); Do (ReadAcquire "B" 100)].
Definition demo_reading : db := (run_all (H:=rw_object "job") demo_rw_ops demo_db).2.
Definition demo_readers : gset string := {["A"; "B"]}%string.

Lemma demo_reading_view : rw_view "job" demo_reading
  (mk_rwlock 0 (Some (mk_rw_hold (Readers demo_readers) 100)) (Some (mk_counter 2 None))).
Proof.
  split; [reflexivity|vm_compute; reflexivity|intros h [= <-]; split; [done|concrete]| |concrete].
  split; [vm_compute; reflexivity|concrete].
Qed.


Lemma reader_drop_breaks_lock_witness :
  let '(r1, s1) := rw_script "job" (ReadRelease "A" 0) demo_reading in
  let '(r2, s2) := rw_script "job" (WriteAcquire "W" 50) s1 in
  r1 = Ok (RInt 1) /\ r2 = Ok (RPair 1 3).
Proof.
  pose proof (reader_drop_breaks_lock (R:=db) "job" demo_reading _ demo_readers 100 "A" "B" "W" 50
    demo_reading_view eq_refl ltac:(unfold demo_readers; set_solver)
    ltac:(unfold demo_readers; set_solver) ltac:(done) ltac:(concrete) ltac:(concrete)) as Hw.
  destruct (rw_script "job" (ReadRelease "A" 0) demo_reading) as [r1 s1].
  destruct (rw_script "job" (WriteAcquire "W" 50) s1) as [r2 s2].
  destruct Hw as (-> & _ & _ & ->). split; [vm_compute; reflexivity|reflexivity].
Defined.
