(* ===== verification/Semaphore.v ===== *)
(** * The semaphore ([crates/redis/src/semaphore.rs])

    Permits are members of a sorted set, scored by the instant they expire;
    the scripts implement the specification [semaphore].  The capacity theorem
    is about what clients believe: the permits granted to them, not released,
    and not yet expired by their own account. *)

From S2P Require Import Prelude Core Redis Scripts World Lease Simulation.

(** ** The specification *)

Record semaphore := mk_sem {
  sm_now : Z;
  sm_permits : option (gmap string Z * Z);    (* scores, and the deadline of the key *)
  sm_fence : option counter;
}.

Inductive sem_op :=
| SAcquire (tok : string) (ttl max_permits : Z)
| SRelease (tok : string)
| SExtend (tok : string) (ttl : Z).

Definition recorded (p : option (gmap string Z * Z)) : gmap string Z :=
  match p with Some (z, _) => z | None => ∅ end.

(** What [ZREMRANGEBYSCORE k -inf now] leaves. *)
Definition unexpired (now : Z) (z : gmap string Z) : gmap string Z := filter (fun ms => now < ms.2) z.
Definition prune (now : Z) (p : option (gmap string Z * Z)) : option (gmap string Z * Z) :=
  match p with
  | Some (z, dl) => if decide (unexpired now z = ∅) then None else Some (unexpired now z, dl)
  | None => None
  end.

Definition permit_count (z : gmap string Z) : Z := Z.of_nat (size z).

Definition sem_spec (op : sem_op) (st : semaphore) : res rerr reply * semaphore :=
  let '(mk_sem now p c) := st in
  match op with
  | SAcquire tok ttl max_permits =>
      let z := unexpired now (recorded p) in
      if permit_count z <? max_permits
      then (res_map (RPair 1) (counter_incr c).1,
            mk_sem now (Some (<[tok := now + ttl]> z, now + ttl)) (counter_incr c).2)
      else (Ok (RPair 0 0), mk_sem now (prune now p) c)
  | SRelease tok =>
      match p with
      | Some (z, dl) =>
          match z !! tok with
          | Some _ =>
              (Ok (RInt 1), mk_sem now (if decide (delete tok z = ∅) then None else Some (delete tok z, dl)) c)
          | None => (Ok (RInt 0), st)
          end
      | None => (Ok (RInt 0), st)
      end
  | SExtend tok ttl =>
      match p with
      | Some (z, dl) =>
          match z !! tok with
          | Some _ => (Ok (RInt 1), mk_sem now (Some (<[tok := now + ttl]> z, now + ttl)) c)
          | None => (Ok (RInt 0), st)
          end
      | None => (Ok (RInt 0), st)
      end
  end.

Definition sem_pre (op : sem_op) (now : Z) : Prop :=
  match op with
  | SAcquire _ ttl _ | SExtend _ ttl => ttl_fits now ttl
  | SRelease _ => True
  end.

Definition permits_entry (p : gmap string Z * Z) : rentry := mk_entry (VZset p.1) (Some p.2).

Record sem_view (key : string) (d : db) (st : semaphore) : Prop := mk_sem_view {
  sv_now : db_now d = sm_now st;
  sv_permits : db_live d !! key = permits_entry <$> sm_permits st;
  sv_fence : counter_at (fence_key_for key) d (sm_fence st);
  sv_clock : 0 <= sm_now st;
}.

Definition sem_elapsed (dt : Z) (st st' : semaphore) : Prop :=
  sm_now st' = sm_now st + dt /\
  expires (sm_now st') (snd <$> sm_permits st) (sm_permits st) (sm_permits st') /\
  expires (sm_now st') (sm_fence st ≫= c_deadline) (sm_fence st) (sm_fence st').

Definition sem_script (key : string) {R} `{Redis R} (op : sem_op) : cmd R reply :=
  match op with
  | SAcquire tok ttl max_permits =>
      eval_script SEMAPHORE_ACQUIRE [key; fence_key_for key]
        [tok; z_to_string ttl; z_to_string max_permits; z_to_string (10 * ttl)]
  | SRelease tok => eval_script SEMAPHORE_RELEASE [key] [tok]
  | SExtend tok ttl => eval_script SEMAPHORE_EXTEND [key] [tok; z_to_string ttl]
  end.

#[global] Instance sem_object (key : string) : ScriptObject semaphore sem_op := {
  so_now := sm_now;
  so_op := sem_spec;
  so_pre := sem_pre;
  so_elapsed := sem_elapsed;
  so_view := sem_view key;
  so_script := @sem_script key;
}.

(** ** The scripts implement it *)

Section scripts.
Variable key : string.
Abbreviation fk := (fence_key_for key).

Lemma now_ms_run (d : db) : now_ms d = (Ok (db_now d), d).
Proof.
  unfold now_ms, cbind. cbn [r_time db_redis]. unfold cret. f_equal. f_equal.
  rewrite Z.div_mul by lia. pose proof (Z.div_mod (db_now d) 1000). lia.
Qed.

Lemma zremrange_run d st : sem_view key d st ->
  exists n d', doc_zremrange key (sm_now st) d = (Ok n, d') /\
    sem_view key d' (mk_sem (sm_now st) (prune (sm_now st) (sm_permits st)) (sm_fence st)).
Proof.
  intros [V1 V2 [V3 V4] V5]. unfold doc_zremrange. rewrite V2.
  destruct (sm_permits st) as [[z dl]|]; cbn [fmap option_fmap option_map permits_entry e_val as_zset e_deadline fst snd prune].
  - do 2 eexists. split; [reflexivity|]. fold (unexpired (sm_now st) z).
    destruct (decide (unexpired (sm_now st) z = ∅)).
    + split; cbn; [done|by rewrite lookup_delete_eq| |done]. split; [|done]. cbn.
      rewrite lookup_delete_ne by apply fence_key_ne. done.
    + split; cbn; [done|by rewrite lookup_insert_eq| |done]. split; [|done]. cbn.
      rewrite lookup_insert_ne by apply fence_key_ne. done.
  - do 2 eexists. split; [reflexivity|]. by split.
Qed.

Lemma recorded_prune now p : recorded (prune now p) = unexpired now (recorded p).
Proof.
  destruct p as [[z dl]|]; cbn; [|by unfold unexpired; rewrite map_filter_empty].
  by destruct (decide (unexpired now z = ∅)) as [->|].
Qed.

Lemma zcard_run d st : sem_view key d st ->
  doc_zcard key d = (Ok (permit_count (recorded (sm_permits st))), d).
Proof.
  intros [_ V _ _]. unfold doc_zcard, doc_read. rewrite V. by destruct (sm_permits st) as [[z dl]|].
Qed.

Lemma zadd_run d st score tok : sem_view key d st ->
  exists n dl, doc_zadd key score tok d =
    (Ok n, put key (VZset (<[tok := score]> (recorded (sm_permits st)))) dl d).
Proof.
  intros [_ V _ _]. unfold doc_zadd, doc_read, update, deadline_of. rewrite V.
  destruct (sm_permits st) as [[z dl]|]; do 2 eexists; reflexivity.
Qed.

Lemma put_permits d st z dl : sem_view key d st ->
  sem_view key (put key (VZset z) (Some dl) d) (mk_sem (sm_now st) (Some (z, dl)) (sm_fence st)).
Proof.
  intros [V1 V2 [V3 V4] V5]. split; cbn; [done|by rewrite lookup_insert_eq| |done].
  split; [|done]. cbn. rewrite lookup_insert_ne by apply fence_key_ne. done.
Qed.

Lemma sem_grant d st status : sem_view key d st ->
  let rd := (let! k2 := at_ [key; fk] 2 in let! fence := r_incr k2 in cret (RPair status fence))%script d in
  rd.1 = res_map (RPair status) (counter_incr (sm_fence st)).1 /\
  sem_view key rd.2 (mk_sem (sm_now st) (sm_permits st) (counter_incr (sm_fence st)).2).
Proof.
  intros V. destruct (fence_grant_run key status d _ (sv_fence _ _ _ V)) as (d' & E & C & En & Ef).
  cbv zeta. rewrite E. split; [done|]. destruct V as [V1 V2 V3 V4].
  split; cbn; [by rewrite En| |done|done]. rewrite Ef by apply fence_key_ne. done.
Qed.

Definition sem_refines (d : db) (st : semaphore) (op : sem_op) : Prop :=
  (sem_script key op d).1 = (sem_spec op st).1 /\ sem_view key (sem_script key op d).2 (sem_spec op st).2.

Lemma sem_acquire_refines d st tok ttl mx : sem_view key d st -> ttl_fits (sm_now st) ttl ->
  sem_refines d st (SAcquire tok ttl mx).
Proof.
  intros V F. unfold sem_refines, sem_script, eval_script, semaphore_acquire_lua.
  pose proof (sv_clock _ _ _ V) as P. run_with (now_ms_run d). run_at. to_doc. rewrite (sv_now _ _ _ V).
  pose (ARGV := [tok; z_to_string ttl; z_to_string mx; z_to_string (10 * ttl)]).
  destruct (zremrange_run d st V) as (n & d1 & E1 & V1). run_with E1.
  run_with (zcard_run _ _ V1). run_with (num_at_z ARGV 3 mx d1 eq_refl).
  cbn [sm_permits]. rewrite recorded_prune. destruct st as [now p c]. cbn [sm_now sm_permits sm_fence sem_spec] in *.
  destruct (_ <? mx); [|done].
  run_with (num_at_z ARGV 2 ttl d1 eq_refl). run_at.
  destruct (zadd_run _ _ (now + ttl) tok V1) as (n2 & dl & E2). run_with E2.
  cbn [sm_permits]. rewrite recorded_prune. set (d2 := put key _ _ d1).
  run_with (int_at_ttl ARGV 2 ttl now d2 eq_refl P F).
  run_with (pexpire_at key d2 _ dl now ttl (put_at _ _ _ _) (sv_now _ _ _ V1) F).
  unfold d2. rewrite put_put.
  exact (sem_grant _ _ 1 (put_permits _ _ (<[tok := now + ttl]> (unexpired now (recorded p))) (now + ttl) V1)).
Qed.

Lemma sem_release_refines d st tok : sem_view key d st -> sem_refines d st (SRelease tok).
Proof.
  intros V. unfold sem_refines, sem_script, eval_script, semaphore_release_lua. run_at. run_at. to_doc.
  destruct st as [now p c]. pose proof (sv_permits _ _ _ V) as Hp. cbn [sm_permits sem_spec] in *.
  unfold cbind at 1 4, doc_zrem, doc_read, update, deadline_of. rewrite Hp.
  destruct p as [[z dl]|]; cbn [fmap option_fmap option_map permits_entry e_val as_zset e_deadline fst snd mbind option_bind];
    [|by rewrite lookup_empty].
  destruct (z !! tok) eqn:Ez; [|done]. change (1 =? 1) with true. cbv iota.
  destruct (decide (delete tok z = ∅)) as [Hd|Hd].
  - assert (sem_view key (drop_key key d) (mk_sem now None c)) as V1.
    { destruct V as [V1 V2 [V3 V4] V5]. split; cbn; [done|by rewrite lookup_delete_eq| |done].
      split; [|done]. cbn. rewrite lookup_delete_ne by apply fence_key_ne. done. }
    run_with (zcard_run _ _ V1). change (permit_count _ =? 0) with true. cbv iota.
    erewrite (cbind_ok (doc_del key)) by reflexivity. split; [done|].
    unfold cret, drop_key, set_live. cbn [snd db_live]. rewrite delete_delete_eq. exact V1.
  - pose proof (put_permits _ _ (delete tok z) dl V) as V1. run_with (zcard_run _ _ V1).
    cbn [sm_permits recorded].
    assert ((permit_count (delete tok z) =? 0) = false) as ->; [|by split].
    apply Z.eqb_neq. unfold permit_count.
    intros Hs. apply Hd, map_size_empty_inv. lia.
Qed.

Lemma sem_extend_refines d st tok ttl : sem_view key d st -> ttl_fits (sm_now st) ttl ->
  sem_refines d st (SExtend tok ttl).
Proof.
  intros V F. unfold sem_refines, sem_script, eval_script, semaphore_extend_lua.
  pose proof (sv_clock _ _ _ V) as P. run_with (now_ms_run d). run_at. run_at. to_doc. rewrite (sv_now _ _ _ V).
  assert (doc_zscore key tok d = (Ok (recorded (sm_permits st) !! tok), d)) as E.
  { unfold doc_zscore, doc_read. rewrite (sv_permits _ _ _ V). by destruct (sm_permits st) as [[z dl]|]. }
  run_with E. destruct st as [now p c]. cbn [sm_now sm_permits sm_fence sem_spec recorded] in *.
  destruct p as [[z dl]|]; cbn [recorded]; [|by rewrite lookup_empty].
  destruct (z !! tok) eqn:Ez; [|done].
  run_with (num_at_z [tok; z_to_string ttl] 2 ttl d eq_refl).
  destruct (zadd_run _ _ (now + ttl) tok V) as (n2 & dl2 & E2). run_with E2. set (d2 := put key _ _ d).
  run_with (int_at_ttl [tok; z_to_string ttl] 2 ttl now d2 eq_refl P F).
  run_with (pexpire_at key d2 _ dl2 now ttl (put_at _ _ _ _) (sv_now _ _ _ V) F).
  split; [done|]. unfold cret, d2. cbn [snd]. rewrite put_put.
  exact (put_permits _ _ (<[tok := now + ttl]> z) (now + ttl) V).
Qed.

#[global] Instance sem_laws : ScriptObjectLaws semaphore sem_op (H := sem_object key).
Proof.
  constructor; cbn [so_script so_op so_pre so_view so_now so_elapsed sem_object].
  - intros R ? ? op. destruct op; cbn [sem_script]; apply meets_script.
  - intros d st op V F. change (sem_refines d st op). destruct op; cbn [sem_pre] in F;
      auto using sem_acquire_refines, sem_release_refines, sem_extend_refines.
  - intros op [now p c]. destruct op; cbn [sem_spec]; repeat case_goal; done.
  - intros dt st st' (E & _). exact E.
  - intros dt d d' st Hdt E V.
    destruct (expires_lookup permits_entry (Some ∘ snd) _ _ _ _ _ (fun a => eq_refl) E (sv_permits _ _ _ V))
      as (p & Ep & Vp).
    destruct (counter_elapse _ _ _ _ _ E (sv_fence _ _ _ V)) as (c & Ec & Vc).
    pose proof (elapsed_now _ _ _ E) as En. rewrite (sv_now _ _ _ V) in En.
    exists (mk_sem (db_now d') p c). split; [split; [cbn; congruence|split; cbn; [|done]]|].
    + by destruct (sm_permits st).
    + split; cbn; try done. rewrite En. pose proof (sv_clock _ _ _ V). lia.
Qed.
End scripts.

(** ** The Rust layer *)

Section rust.
Context {U : UuidSource} {R : Type} `{Redis R}.
Open Scope world_scope.

(** [RedisSemaphore] and [PermitShared]. *)
Record RedisSemaphore := mk_semaphore { se_conn : conn; se_key : string; se_max_permits : Z }.
Record PermitShared := mk_permit {
  pm_conn : conn;
  pm_key : string;
  pm_token : string;
  pm_fence : FencingToken;
  pm_cell : nat;
}.

Definition permit_lost (s : PermitShared) : error := Lost (pm_key s) (value (pm_fence s)).

(** [RedisLockManager::semaphore]. *)
Definition semaphore_new (c : conn) (key : string) (max_permits : Z) : res error RedisSemaphore :=
  if max_permits =? 0 then Err (InvalidConfig "semaphore capacity must be at least 1")
  else Ok (mk_semaphore c key max_permits).

(** [RedisSemaphore::try_acquire]. *)
Definition try_acquire (s : RedisSemaphore) (options : LockOptions) : M R (res error PermitShared) :=
  let? _u := ret (validate options) in
  let* owner := fresh_owner in
  let token := owner_token owner in
  let ttl_ms := as_millis_u64 (ttl options) in
  let? '(status, fence) := backend "semaphore acquire failed: {e}"
    (invoke_pair (se_conn s) SEMAPHORE_ACQUIRE [se_key s; fence_key_for (se_key s)]
       [token; z_to_string ttl_ms; z_to_string (se_max_permits s); z_to_string (u64_mul ttl_ms 10)]) in
  if negb (status =? 1) then ret (Err (Held (se_key s))) else
  let* cell := new_cell in
  ret (Ok (mk_permit (se_conn s) (se_key s) token (fence_new (wrap64 fence)) cell)).

(** [RedisSemaphore::try_acquire_for]. *)
Definition try_acquire_for (fuel : nat) (s : RedisSemaphore) (options : LockOptions) (wait : duration) :
    M R (res error PermitShared) :=
  poll_for fuel (se_key s) wait (try_acquire s options).

(** [SemaphorePermit::release]. *)
Definition permit_release (s : PermitShared) : M R (res error unit) :=
  let* first := mark_released (pm_cell s) in
  if negb first then ret (Ok tt) else
  let? ok := backend "semaphore release failed: {e}"
    (invoke_int (pm_conn s) SEMAPHORE_RELEASE [pm_key s] [pm_token s]) in
  if negb (ok =? 1) then ret (Err (permit_lost s)) else ret (Ok tt).

(** [SemaphorePermit::extend]. *)
Definition permit_extend (s : PermitShared) (t : duration) : M R (res error unit) :=
  if t <? MIN_TTL then ret (Err (InvalidConfig "extend ttl {:?} is below the {:?} floor")) else
  let* f := cell (pm_cell s) in
  if released f then ret (Err (permit_lost s)) else
  let? ok := backend "semaphore extend failed: {e}"
    (invoke_int (pm_conn s) SEMAPHORE_EXTEND [pm_key s] [pm_token s; z_to_string (as_millis_u64 t)]) in
  if negb (ok =? 1) then
    do* update_cell (pm_cell s) set_released in
    ret (Err (permit_lost s))
  else ret (Ok tt).

(** [Drop for PermitShared]. *)
Definition permit_drop (runtime : bool) (s : PermitShared) : M R unit :=
  do* update_cell (pm_cell s) set_dropped in
  let* first := mark_released (pm_cell s) in
  if negb first then ret tt else
  if runtime then spawn (TScript (pm_conn s) SEMAPHORE_RELEASE [pm_key s] [pm_token s]) else ret tt.

Lemma safe_try_acquire s options : safe (R:=R) (try_acquire s options).
Proof. unfold try_acquire. solve_safe. Qed.
End rust.
#[export] Hint Resolve safe_try_acquire : safe.

(** ** Capacity *)

(** What the clients know: for each token, until when its permit runs by the
    grants and extensions they were told of. *)
Definition note_reply (ttl now : Z) (op : sem_op) (r : res rerr reply) (g : gmap string Z) : gmap string Z :=
  match op, r with
  | SAcquire tok _ _, Ok (RPair 1 _) => <[tok := now + ttl]> g
  | SExtend tok _, Ok (RInt 1) => <[tok := now + ttl]> g
  | SRelease tok, _ => delete tok g
  | _, _ => g
  end.

Fixpoint known (ttl now : Z) (g : gmap string Z) (evs : list (occurrence sem_op))
    (os : list (option (res rerr reply))) {struct evs} : Z * gmap string Z :=
  match evs, os with
  | Do op :: evs, Some r :: os => known ttl now (note_reply ttl now op r g) evs os
  | Wait dt :: evs, None :: os => known ttl (now + dt) g evs os
  | _, _ => (now, g)
  end.

(** Every client uses the same lease and the same capacity. *)
Definition uniform (ttl mx : Z) (ev : occurrence sem_op) : Prop :=
  match ev with
  | Do (SAcquire _ ttl' mx') => ttl' = ttl /\ mx' = mx
  | Do (SExtend _ ttl') => ttl' = ttl
  | _ => True
  end.

(** A permit a client counts on is recorded, for at least as long. *)
Definition secured (e : Z) (tok : string) (p : option (gmap string Z * Z)) : Prop :=
  exists z dl e', p = Some (z, dl) /\ z !! tok = Some e' /\ e <= e' /\ e <= dl.

Definition accounted (ttl mx : Z) (st : semaphore) (g : gmap string Z) : Prop :=
  permit_count (recorded (sm_permits st)) <= Z.max 0 mx /\
  forall tok e, g !! tok = Some e -> e <= sm_now st + ttl /\ (sm_now st < e -> secured e tok (sm_permits st)).

Lemma unexpired_lookup now z tok e : unexpired now z !! tok = Some e <-> z !! tok = Some e /\ now < e.
Proof. unfold unexpired. by rewrite map_lookup_filter_Some. Qed.

Lemma permit_count_insert (z : gmap string Z) tok e :
  permit_count (<[tok := e]> z) <= permit_count z + 1.
Proof. unfold permit_count. rewrite map_size_insert. case_match; unfold id; lia. Qed.

Lemma permit_count_subset (z z' : gmap string Z) : z ⊆ z' -> permit_count z <= permit_count z'.
Proof. intros H. unfold permit_count. apply map_subseteq_size in H. lia. Qed.

Lemma permit_count_delete (z : gmap string Z) tok : permit_count (delete tok z) <= permit_count z.
Proof. apply permit_count_subset, delete_subseteq. Qed.

Lemma permit_count_unexpired now z : permit_count (unexpired now z) <= permit_count z.
Proof. apply permit_count_subset, map_filter_subseteq. Qed.

Lemma permit_count_replace (z : gmap string Z) tok e e' : z !! tok = Some e' ->
  permit_count (<[tok := e]> z) = permit_count z.
Proof. intros E. unfold permit_count. by rewrite map_size_insert, E. Qed.

(** A new score for [tok], [ttl] ms from now, on top of the recorded ones. *)
Lemma secured_insert now ttl tok (z g : gmap string Z) :
  (forall tok' e, g !! tok' = Some e -> e <= now + ttl) ->
  forall tok' e, g !! tok' = Some e ->
    (tok' <> tok -> exists e', z !! tok' = Some e' /\ e <= e') ->
    secured e tok' (Some (<[tok := now + ttl]> z, now + ttl)).
Proof.
  intros Hg tok' e He Hin. specialize (Hg _ _ He). destruct (decide (tok' = tok)) as [->|Hne].
  - do 3 eexists. split; [done|]. rewrite lookup_insert_eq. done.
  - destruct (Hin Hne) as (e' & Hz & Hle). do 3 eexists. split; [done|]. by rewrite lookup_insert_ne.
Qed.

Lemma accounted_acquire ttl mx tok st g : 0 < ttl -> accounted ttl mx st g ->
  accounted ttl mx (sem_spec (SAcquire tok ttl mx) st).2
    (note_reply ttl (sm_now st) (SAcquire tok ttl mx) (sem_spec (SAcquire tok ttl mx) st).1 g).
Proof.
  intros Ht [Hc Hg]. destruct st as [now p c]. cbn [sm_now sm_permits sem_spec] in *.
  assert (forall tok' e, g !! tok' = Some e -> now < e ->
    exists e', unexpired now (recorded p) !! tok' = Some e' /\ e <= e') as Hun.
  { intros tok' e He Hlt. destruct (proj2 (Hg _ _ He) Hlt) as (z & dl & e' & -> & Hz & Hle & _).
    exists e'. cbn [recorded]. rewrite unexpired_lookup. split; [split; [done|lia]|done]. }
  destruct (_ <? mx) eqn:Hm; zbool; cbn [fst snd].
  - split; cbn [sm_permits sm_now].
    { change (recorded (Some ?x)) with x.1. cbn [fst].
      pose proof (permit_count_insert (unexpired now (recorded p)) tok (now + ttl)). lia. }
    assert (forall g' : gmap string Z, (forall t e, g' !! t = Some e -> e <= now + ttl /\
                (t <> tok -> g !! t = Some e)) ->
      forall t e, g' !! t = Some e -> e <= now + ttl /\
        (now < e -> secured e t (Some (<[tok := now + ttl]> (unexpired now (recorded p)), now + ttl)))) as Hnew.
    { intros g' Hg' t e He. split; [by apply (Hg' t)|]. intros Hlt.
      apply (secured_insert now ttl tok _ g'); [intros; by eapply Hg'|done|].
      intros Hne. apply Hun; [by apply (Hg' t)|done]. }
    destruct ((counter_incr c).1) as [f|e]; cbn [res_map note_reply]; apply Hnew; intros t e' He.
    + destruct (decide (t = tok)) as [->|Hne].
      * rewrite lookup_insert_eq in He. injection He as <-. split; [lia|done].
      * rewrite lookup_insert_ne in He by done. split; [by apply (Hg t)|done].
    + split; [by apply (Hg t)|done].
  - cbn [note_reply]. split; cbn [sm_permits sm_now].
    { rewrite recorded_prune. pose proof (permit_count_unexpired now (recorded p)). lia. }
    intros tok' e He. split; [by apply (Hg tok')|]. intros Hlt. destruct (Hun _ _ He Hlt) as (e' & Hz & Hle).
    destruct (proj2 (Hg _ _ He) Hlt) as (z & dl & e2 & -> & _ & _ & Hdl). cbn [prune recorded] in *.
    rewrite decide_False by (intros E; by rewrite E, lookup_empty in Hz). by exists (unexpired now z), dl, e'.
Qed.

Lemma accounted_op ttl mx op st g : 0 < ttl -> uniform ttl mx (Do op) -> accounted ttl mx st g ->
  accounted ttl mx (sem_spec op st).2 (note_reply ttl (sm_now st) op (sem_spec op st).1 g).
Proof.
  intros Ht Hu Ha. destruct op as [tok ttl' mx'|tok|tok ttl']; cbn [uniform] in *.
  { destruct Hu as [-> ->]. by apply accounted_acquire. }
  all: destruct Ha as [Hc Hg]; destruct st as [now p c]; cbn [sm_now sm_permits sem_spec note_reply] in *.
  - destruct p as [[z dl]|]; [destruct (z !! tok) eqn:Ez|]; cbn [fst snd note_reply];
      (split; cbn [sm_permits sm_now]; [|intros tok' e [Hne He]%lookup_delete_Some; specialize (Hg _ _ He)]).
    + cbn [recorded] in Hc. pose proof (permit_count_delete z tok).
      destruct (decide (delete tok z = ∅)); [change (permit_count (recorded None)) with 0; lia|].
      change (recorded (Some ?x)) with x.1. cbn [fst]. lia.
    + split; [apply Hg|]. intros Hlt. destruct (proj2 Hg Hlt) as (z' & dl' & e' & [= <- <-] & Hz & Hle).
      assert (delete tok z !! tok' = Some e') as Hz' by (by rewrite lookup_delete_ne).
      rewrite decide_False by (intros E; by rewrite E, lookup_empty in Hz'). by exists (delete tok z), dl, e'.
    + done.
    + done.
    + done.
    + done.
  - subst ttl'. destruct p as [[z dl]|]; [destruct (z !! tok) eqn:Ez|]; cbn [fst snd note_reply]; [|by split..].
    split; cbn [sm_permits sm_now].
    { change (recorded (Some ?x)) with x.1. cbn [fst recorded] in *. by rewrite (permit_count_replace _ _ _ _ Ez). }
    intros t e He. assert (e <= now + ttl /\ (t <> tok -> g !! t = Some e)) as [Hle Hsame].
    { destruct (decide (t = tok)) as [->|Hne].
      - rewrite lookup_insert_eq in He. injection He as <-. split; [lia|done].
      - rewrite lookup_insert_ne in He by done. split; [by apply (Hg t)|done]. }
    split; [done|]. intros Hlt. destruct (decide (t = tok)) as [->|Hne].
    + do 3 eexists. split; [done|]. rewrite lookup_insert_eq. done.
    + destruct (proj2 (Hg _ _ (Hsame Hne)) Hlt) as (z' & dl' & e' & [= <- <-] & Hz & Hle' & _).
      do 3 eexists. split; [done|]. by rewrite lookup_insert_ne.
Qed.

Lemma accounted_time ttl mx dt st st' g : 0 <= dt -> sem_elapsed dt st st' -> accounted ttl mx st g ->
  accounted ttl mx st' g.
Proof.
  intros Hdt (En & Ep & _) [Hc Hg]. split.
  - destruct (sm_permits st) as [[z dl]|]; cbn in Ep.
    + destruct Ep as [[_ ->]|[[_ ->]|[_ [->| ->]]]]; try done; change (permit_count (recorded None)) with 0; lia.
    + rewrite Ep. done.
  - intros tok e He. destruct (Hg _ _ He) as [Hle Hin]. split; [lia|]. intros Hlt.
    destruct (Hin ltac:(lia)) as (z & dl & e' & E & Hz & H1 & H2). rewrite E in Ep. cbn in Ep.
    exists z, dl, e'. split; [|done]. destruct Ep as [[_ ?]|[[? _]|[? _]]]; [done|lia..].
Qed.

Lemma accounted_run key ttl mx evs : 0 < ttl -> forall st os st' g,
  Forall (uniform ttl mx) evs -> accounted ttl mx st g -> so_run (H:=sem_object key) st evs os st' ->
  accounted ttl mx st' (known ttl (sm_now st) g evs os).2 /\ (known ttl (sm_now st) g evs os).1 = sm_now st'.
Proof.
  intros Ht. induction evs as [|ev evs IH]; intros st os st' g Hu Ha Hr; inversion Hr; subst; [done|].
  rewrite Forall_cons in Hu. destruct Hu as [Hu1 Hu].
  match goal with S : so_step _ _ _ _ |- _ => inversion S; subst end; cbn [known so_op so_elapsed sem_object] in *.
  - assert (sm_now (sem_spec op st).2 = sm_now st) as En by exact (so_op_now (ScriptObjectLaws:=sem_laws key) op st).
    rewrite <- En. apply IH; [done| |done]. rewrite En. by apply accounted_op.
  - match goal with E : sem_elapsed _ _ _ |- _ => pose proof E as (En & _) end.
    rewrite <- En. apply IH; [done| |done]. eapply accounted_time; eauto.
Qed.

(** ** Properties *)

(** C16: Capacity.  When every client uses the same lease [ttl] and capacity
    [mx], then after any sequence of acquisitions, releases, extensions and
    waiting from an empty server, the number of permits that clients believe
    they hold (granted or extended less than [ttl] ago by the reply they got,
    and not released) never exceeds [mx]. *)
Theorem semaphore_capacity {R} `{RedisLaws R} key (s : R) now ttl mx evs :
  r_db s = mk_db now ∅ -> 0 <= now -> 0 < ttl -> 0 <= mx ->
  occurrences_ok (H:=sem_object key) now evs -> Forall (uniform ttl mx) evs ->
  let '(os, s') := run_all (H:=sem_object key) evs s in
  let '(now', g) := known ttl now ∅ evs os in
  permit_count (unexpired now' g) <= mx.
Proof.
  intros E Hn Ht Hm Ho Hu. set (st := mk_sem now None None).
  assert (sem_view key (r_db s) st) as V.
  { rewrite E. by split; cbn. }
  destruct (so_events_refine (H:=sem_object key) evs s st V Ho) as (st' & Hr & _).
  destruct (run_all (H:=sem_object key) evs s) as [os s']. cbn [fst] in Hr.
  destruct (accounted_run key ttl mx evs Ht st os st' ∅ Hu) as [[Hc Hg] En]; [|done|].
  { split; [cbn; change (permit_count ∅) with 0; lia|]. intros ? ?. by rewrite lookup_empty. }
  change (sm_now st) with now in *. destruct (known ttl now ∅ evs os) as [now' g]. cbn [fst snd] in *. subst now'.
  apply Z.le_trans with (permit_count (recorded (sm_permits st'))); [|lia].
  unfold permit_count. rewrite <- !size_dom. apply inj_le, subseteq_size.
  intros tok [e He]%elem_of_dom. rewrite unexpired_lookup in He. destruct He as [He Hlt].
  destruct (proj2 (Hg _ _ He) Hlt) as (z & dl & e' & -> & Hz & _). apply elem_of_dom. by exists e'.
Qed.

(** Unequal leases break the capacity: a holder with a short lease makes
    the whole key expire with it, so with capacity 2, after [A] took a permit
    for a second and [B] one for 10 ms, 20 ms later both [C] and [D] are
    granted while [A]'s permit still runs for 980 ms: three at once. *)
Theorem semaphore_mixed_leases_overgrant :
  (run_all (H:=sem_object "pool")
     [Do (SAcquire "A" 1000 2); Do (SAcquire "B" 10 2); Wait 20;
      Do (SAcquire "C" 1000 2); Do (SAcquire "D" 1000 2)] demo_db).1 =
  [Some (Ok (RPair 1 1)); Some (Ok (RPair 1 2)); None; Some (Ok (RPair 1 3)); Some (Ok (RPair 1 4))].
Proof. vm_compute. reflexivity. Qed.

(** ** Witnesses *)

Definition demo_pool : list (occurrence sem_op) :=
  [Do (SAcquire "A" 1000 1); Do (SAcquire "B" 1000 1); Wait 20; Do (SRelease "A"); Do (SAcquire "B" 1000 1)].

Lemma demo_pool_ok : occurrences_ok (H:=sem_object "pool") 0 demo_pool /\ Forall (uniform 1000 1) demo_pool.
Proof. split; [cbn; repeat split; concrete|repeat (apply Forall_cons_2; [done|]); apply Forall_nil_2]. Qed.

Lemma semaphore_capacity_witness :
  let '(os, s') := run_all (H:=sem_object "pool") demo_pool demo_db in
  let '(now', g) := known 1000 0 ∅ demo_pool os in
  permit_count (unexpired now' g) <= 1.
Proof.
  exact (semaphore_capacity (R:=db) "pool" demo_db 0 1000 1 demo_pool eq_refl (Z.le_refl 0) eq_refl Z.le_0_1
    (proj1 demo_pool_ok) (proj2 demo_pool_ok)).
Defined.
