(* ===== verification/Refinement.v ===== *)
(** * The structures refine their specifications

    One statement for the three structures kept by scripts in a hash or a
    set: every trace on a server is a trace of the specification. *)

From S2P Require Import Prelude Core Redis Scripts Lease Simulation Reentrant Rwlock Semaphore.

(** A trace of operations and time on a server with nothing under [key] is a
    trace of the specification from [st]: same replies, and a last state that
    the server shows. *)
Definition implements {St Op : Type} (O : ScriptObject St Op) (st : St) (now : Z) {R} `{Redis R} (s : R) : Prop :=
  forall evs : list (occurrence Op), occurrences_ok now evs ->
    exists st', so_run st evs (run_all evs s).1 st' /\ so_view (r_db (run_all evs s).2) st'.


Definition demo_trace : list (occurrence sem_op) :=
  [Do (SAcquire "a" 100 1); Do (SAcquire "b" 100 1); Wait 150; Do (SAcquire "b" 100 1)].
Definition demo_replies : list (option (res rerr reply)) :=
  [Some (Ok (RPair 1 1)); Some (Ok (RPair 0 0)); None; Some (Ok (RPair 1 2))].

