(* ===== verification/Fair.v ===== *)
(** * The fair mutex ([crates/redis/src/fair.rs])

    Waiters queue in a list with heartbeats.  The release script hands the
    lock to the oldest live waiter; the theorems also record which calls of
    the Rust layer pass fewer arguments than their script reads. *)

From S2P Require Import Prelude Core Redis Scripts World Lease Simulation.

Definition queue_key_for (key : string) : string := "{" +:+ key +:+ "}:q".
Definition hb_prefix_for (key : string) : string := "{" +:+ key +:+ "}:hb:".
Definition hb_key_for (key token : string) : string := hb_prefix_for key +:+ token.

(** ** The Rust layer *)

Section rust.
Context {U : UuidSource} {R : Type} `{Redis R}.
Open Scope world_scope.

(** [FairShared]; [gone] is in the cell. *)
Record FairShared := mk_fair {
  fh_conn : conn;
  fh_key : string;
  fh_queue_key : string;
  fh_hb_prefix : string;
  fh_token : string;
  fh_owner : OwnerId;
  fh_fence : FencingToken;
  fh_cell : nat;
}.

Definition fair_lost (s : FairShared) : error := Lost (fh_key s) (value (fh_fence s)).

(** [RedisLockManager::try_lock_fair_as]: four arguments go to the script. *)
Definition try_lock_fair_as (c : conn) (key : string) (owner : OwnerId) (options : LockOptions) :
    M R (res error FairShared) :=
  let? _u := ret (validate options) in
  let token := owner_token owner in
  let ttl_ms := as_millis_u64 (ttl options) in
  let queue_key := queue_key_for key in
  let hb_key := hb_key_for key token in
  let hb_prefix := hb_prefix_for key in
  let? '(status, fence) := backend "fair acquire failed: {e}"
    (invoke_pair c FAIR_ACQUIRE [key; queue_key; fence_key_for key; hb_key]
       [token; z_to_string ttl_ms; z_to_string (u64_mul ttl_ms 10); z_to_string (Z.max ttl_ms 2000)]) in
  if (status =? 1) || (status =? 2) then
    let* cell := new_cell in
    ret (Ok (mk_fair c key queue_key hb_prefix token owner (fence_new (wrap64 fence)) cell))
  else ret (Err (Held key)).

(** [try_lock_fair]: a fresh identity. *)
Definition try_lock_fair (c : conn) (key : string) (options : LockOptions) : M R (res error FairShared) :=
  let* owner := fresh_owner in
  try_lock_fair_as c key owner options.

(** [try_lock_fair_for]: one identity for all polls. *)
Definition try_lock_fair_for (fuel : nat) (c : conn) (key : string) (options : LockOptions) (wait : duration) :
    M R (res error FairShared) :=
  let* owner := fresh_owner in
  poll_for fuel key wait (try_lock_fair_as c key owner options).

(** [FairLockHandle::release]. *)
Definition fair_release (s : FairShared) : M R (res error unit) :=
  let* first := mark_released (fh_cell s) in
  if negb first then ret (Ok tt) else
  let? ok := backend "fair release failed: {e}"
    (invoke_int (fh_conn s) FAIR_RELEASE [fh_key s; fh_queue_key s; fence_key_for (fh_key s)]
       [fh_token s; z_to_string 30000; fh_hb_prefix s]) in
  if ok <? 0 then ret (Err (fair_lost s)) else ret (Ok tt).

(** [FairLockHandle::extend]: the mutex script, with one key and two arguments. *)
Definition fair_extend (s : FairShared) (t : duration) : M R (res error unit) :=
  if t <? MIN_TTL then ret (Err (InvalidConfig "extend ttl {:?} is below the {:?} floor")) else
  let* f := cell (fh_cell s) in
  if released f then ret (Err (fair_lost s)) else
  let? ok := backend "fair extend failed: {e}"
    (invoke_int (fh_conn s) EXTEND [fh_key s] [fh_token s; z_to_string (as_millis_u64 t)]) in
  if negb (ok =? 1) then
    do* update_cell (fh_cell s) set_released in
    ret (Err (fair_lost s))
  else ret (Ok tt).

(** [Drop for FairShared]: one key and two arguments. *)
Definition fair_drop (runtime : bool) (s : FairShared) : M R unit :=
  do* update_cell (fh_cell s) set_dropped in
  let* first := mark_released (fh_cell s) in
  if negb first then ret tt else
  if runtime then spawn (TScript (fh_conn s) FAIR_RELEASE [fh_key s] [fh_token s; fh_hb_prefix s]) else ret tt.

Lemma safe_try_lock_fair_as c key owner options : safe (R:=R) (try_lock_fair_as c key owner options).
Proof. unfold try_lock_fair_as. solve_safe. Qed.
End rust.
#[export] Hint Resolve safe_try_lock_fair_as : safe.

(** ** The queue *)

Definition queue_at (d : db) (k : string) (q : list string) : Prop :=
  match q with
  | [] => db_live d !! k = None
  | _ => exists dl, db_live d !! k = Some (mk_entry (VList q) dl)
  end.

(** Who gets the lock, oldest first: the first live waiter; the dead ones
    ahead of it are discarded. *)
Fixpoint pick (live : string -> bool) (oldest_first : list string) {struct oldest_first} :
    option string * list string :=
  match oldest_first with
  | [] => (None, [])
  | t :: l => if live t then (Some t, l) else pick live l
  end.

Definition alive_in (d : db) (hb_prefix t : string) : bool :=
  bool_decide (is_Some (db_live d !! (hb_prefix +:+ t))).

Lemma string_app_inj_l (s t u : string) : s +:+ t = s +:+ u -> t = u.
Proof. apply (inj (String.append s)). Qed.

Lemma queue_key_ne key : queue_key_for key <> key.
Proof.
  intros E. apply (f_equal String.length) in E. unfold queue_key_for in E.
  rewrite !string_app_length in E. cbn [String.length] in E. lia.
Qed.

Lemma hb_key_ne key t : hb_prefix_for key +:+ t <> key.
Proof.
  intros E. apply (f_equal String.length) in E. unfold hb_prefix_for in E.
  rewrite !string_app_length in E. cbn [String.length] in E. lia.
Qed.

Lemma hb_key_ne_queue key t : hb_prefix_for key +:+ t <> queue_key_for key.
Proof.
  unfold hb_prefix_for, queue_key_for. rewrite !string_app_assoc. intros E.
  by do 2 apply string_app_inj_l in E.
Qed.

(** ** The release script: first come, first served *)

Section handoff.
Variables (key : string).
Abbreviation q_key := (queue_key_for key).
Abbreviation hb := (hb_prefix_for key).

Definition same_but (ks : list string) (d d' : db) : Prop :=
  db_now d' = db_now d /\ forall k, k ∉ ks -> db_live d' !! k = db_live d !! k.

Lemma last_snoc' (q : list string) t : last (q ++ [t]) = Some t.
Proof. apply last_snoc. Qed.

Lemma rpop_snoc d q t : queue_at d q_key (q ++ [t]) ->
  exists d', doc_rpop q_key d = (Ok (Some t), d') /\ queue_at d' q_key q /\ same_but [q_key] d d'.
Proof.
  intros Hq. assert (exists dl, db_live d !! q_key = Some (mk_entry (VList (q ++ [t])) dl)) as [dl E]
    by (destruct q; exact Hq).
  unfold doc_rpop, doc_read. rewrite E. cbn [e_val as_list]. rewrite last_snoc, removelast_last.
  eexists. split; [reflexivity|]. destruct q as [|x q]; cbn [put_list].
  - split; [cbn; by rewrite lookup_delete_eq|]. split; [done|]. intros k Hk. cbn.
    rewrite lookup_delete_ne; [done|]. clear Hq E. set_solver.
  - split; [eexists; cbn; by rewrite lookup_insert_eq|]. split; [done|]. intros k Hk. cbn.
    rewrite lookup_insert_ne; [done|]. clear Hq E. set_solver.
Qed.

Lemma alive_same d d' t : same_but [q_key] d d' -> alive_in d' hb t = alive_in d hb t.
Proof.
  intros [_ H]. unfold alive_in. rewrite H; [done|]. rewrite list_elem_of_singleton. apply hb_key_ne_queue.
Qed.

Lemma pick_ext f g l : (forall t, f t = g t) -> pick f l = pick g l.
Proof. intros E. induction l as [|t l IH]; cbn; [done|]. by rewrite E, IH. Qed.

Lemma handoff_run ttl ARGV : ARGV !! 1%nat = Some (z_to_string ttl) -> ARGV !! 2%nat = Some hb ->
  forall q d, queue_at d q_key q -> 0 <= db_now d -> ttl_fits (db_now d) ttl ->
  exists d', handoff (length q) key q_key ARGV d = (Ok tt, d') /\
    queue_at d' q_key (rev (pick (alive_in d hb) (rev q)).2) /\
    same_but [key; q_key] d d' /\
    db_live d' !! key = match (pick (alive_in d hb) (rev q)).1 with
                        | Some t => Some (mk_entry (VStr t) (Some (db_now d + ttl)))
                        | None => db_live d !! key
                        end.
Proof.
  intros A1 A2 q. induction q as [|t q IH] using rev_ind; intros d Hq Hn F.
  { exists d. cbn. repeat split; done. }
  rewrite length_app, Nat.add_comm. cbn [length Nat.add handoff]. rewrite rev_unit. cbn [pick]. to_doc.
  destruct (rpop_snoc d q t Hq) as (d1 & E1 & Q1 & S1). run_with E1.
  assert (exists_at (at_ ARGV 3) t d1 = (Ok (alive_in d hb t), d1)) as E2.
  { unfold exists_at, at_. cbn [Nat.sub]. rewrite A2. unfold cbind, cret. to_doc. unfold doc_exists.
    rewrite <- (alive_same d d1 t S1). unfold alive_in. by destruct (db_live d1 !! (hb +:+ t)). }
  run_with E2. destruct S1 as [N1 L1]. destruct (alive_in d hb t) eqn:Hl.
  - run_with (int_at_ttl ARGV 2 ttl (db_now d) d1 A1 Hn F).
    assert (doc_set key t false (Some ttl) d1 = (Ok true, put key (VStr t) (Some (db_now d1 + ttl)) d1)) as E3
      by (unfold doc_set; by rewrite expire_ok_fits by by rewrite N1).
    run_with E3. eexists. split; [reflexivity|]. cbn [fst snd]. rewrite rev_involutive. split_and!.
    + destruct q as [|x q]; cbn; rewrite lookup_insert_ne by (apply not_eq_sym, queue_key_ne); exact Q1.
    + split; [exact N1|]. intros k Hk. cbn. rewrite lookup_insert_ne by set_solver. apply L1. set_solver.
    + cbn. by rewrite lookup_insert_eq, N1.
  - rewrite <- N1 in Hn, F. destruct (IH d1 Q1 Hn F) as (d2 & E3 & Q2 & [N2 L2] & K2). exists d2.
    rewrite E3. rewrite (pick_ext (alive_in d1 hb) (alive_in d hb)) in *
      by (intros; by apply alive_same; split).
    split; [done|]. split; [done|]. split.
    + split; [by rewrite N2|]. intros k Hk. rewrite L2 by done. apply L1. set_solver.
    + rewrite K2, N1. destruct ((pick _ _).1); [done|]. apply L1. rewrite list_elem_of_singleton.
      apply not_eq_sym, queue_key_ne.
Qed.
End handoff.

(** ** Properties *)

(** C37: First come, first served.  When the holder releases a fair lock, the
    queue's oldest waiter whose heartbeat is alive becomes the holder at once,
    with the lease the call passes; the dead waiters ahead of it are dropped
    from the queue, everyone behind it stays queued in order; with no live
    waiter the lock becomes free and the queue empty.  A caller that does not
    own the lock changes nothing. *)
Theorem fair_release_fifo {R} `{RedisLaws R} key (s : R) tok ttl holder dl q :
  let d := r_db s in
  db_live d !! key = Some (mk_entry (VStr holder) dl) -> queue_at d (queue_key_for key) q ->
  0 <= db_now d -> ttl_fits (db_now d) ttl ->
  let '(r, s') := eval_script FAIR_RELEASE [key; queue_key_for key; fence_key_for key]
                    [tok; z_to_string ttl; hb_prefix_for key] s in
  let d' := r_db s' in
  let '(winner, behind) := pick (alive_in d (hb_prefix_for key)) (rev q) in
  if String.eqb holder tok then
    r = Ok (RInt 1) /\ queue_at d' (queue_key_for key) (rev behind) /\
    db_live d' !! key = (fun t => mk_entry (VStr t) (Some (db_now d + ttl))) <$> winner
  else r = Ok (RInt (-1)) /\ d' = d.
Proof.
  intros d Hk Hq Hn F. pose proof (meets_script FAIR_RELEASE [key; queue_key_for key; fence_key_for key]
    [tok; z_to_string ttl; hb_prefix_for key] s) as Hm. fold d in Hm.
  destruct (eval_script FAIR_RELEASE _ _ s) as [r s']. cbn [fst snd] in Hm.
  destruct (pick _ _) as [winner behind] eqn:Hp.
  unfold eval_script, fair_release_lua in Hm. revert Hm. run_at. to_doc.
  assert (doc_get key d = (Ok (Some holder), d)) as Eg by (unfold doc_get, doc_read; by rewrite Hk).
  run_with Eg. cbn [is_arg lookup list_lookup Nat.sub].
  destruct (String.eqb holder tok); cbn [negb]; [|by intros [= -> ->]].
  erewrite (cbind_ok (doc_del key)) by (unfold doc_del; rewrite Hk; reflexivity). run_at.
  set (d1 := drop_key key d).
  assert (queue_at d1 (queue_key_for key) q) as Q1.
  { unfold d1. destruct q; cbn; rewrite lookup_delete_ne by (apply not_eq_sym, queue_key_ne); exact Hq. }
  assert (doc_llen (queue_key_for key) d1 = (Ok (Z.of_nat (length q)), d1)) as El.
  { unfold doc_llen, doc_read. destruct q as [|x q]; [by rewrite Q1|]. destruct Q1 as [dl' ->]. done. }
  run_with El. rewrite Nat2Z.id.
  destruct (handoff_run key ttl [tok; z_to_string ttl; hb_prefix_for key] eq_refl eq_refl q d1 Q1 Hn F)
    as (d2 & E2 & Q2 & _ & K2). run_with E2.
  assert (forall t, alive_in d1 (hb_prefix_for key) t = alive_in d (hb_prefix_for key) t) as Hext.
  { intros t. unfold alive_in, d1. cbn. by rewrite lookup_delete_ne by (apply not_eq_sym, hb_key_ne). }
  rewrite (pick_ext _ _ _ Hext), Hp in *. cbn [fst snd] in *.
  intros [= -> E]. rewrite E. split; [done|]. split; [done|]. rewrite K2. destruct winner; [done|].
  cbn. apply lookup_delete_eq.
Qed.

(** With anybody queued, a free fair lock cannot be taken.  The manager
    passes four arguments to a script that reads five, so as soon as the lock
    is free while the queue is not empty, every fair acquisition (also by the
    oldest waiter) fails with [Backend] and changes nothing on the server. *)
Theorem fair_acquire_fails_with_queue {U : UuidSource} {R} `{RedisLaws R} (w : world R) c key owner options t q :
  let d := r_db (servers_before w c) in
  w_budget w = None -> validate options = Ok tt ->
  db_live d !! key = None -> queue_at d (queue_key_for key) (t :: q) ->
  exists w', try_lock_fair_as c key owner options w = (Done (Err (Backend "fair acquire failed: {e}")), w') /\
    r_db (w_server w' c) = d.
Proof.
  intros d B Hv Hk [dl Hq]. unfold try_lock_fair_as, try_, backend. unfold ret at 1. unfold bind at 1. rewrite Hv.
  unfold bind at 1 2. unfold invoke_pair. set (KEYS := [key; _; _; _]). set (ARGV := [_; _; _; _]).
  rewrite invoke_eq by done.
  assert (eval_script (R:=db) FAIR_ACQUIRE KEYS ARGV d = (Err LuaError, d)) as E.
  { unfold eval_script, fair_acquire_lua. erewrite (cbind_ok (at_ KEYS 1)) by reflexivity. to_doc.
    assert (doc_get key d = (Ok None, d)) as Eg by (unfold doc_get, doc_read; by rewrite Hk).
    run_with Eg. cbn [is_arg]. run_with (exists_at_None _ _ Hk).
    erewrite (cbind_ok (at_ KEYS 2)) by reflexivity. erewrite (cbind_ok (at_ ARGV 1)) by reflexivity.
    cbv zeta. change (0 =? 0) with true. cbv iota.
    assert (doc_llen (queue_key_for key) d = (Ok (Z.of_nat (length (t :: q))), d)) as El
      by (unfold doc_llen, doc_read; by rewrite Hq).
    run_with El. rewrite Nat2Z.id. cbn [length discard_dead]. to_doc.
    apply cbind_err. run_with El. rewrite (proj2 (Z.leb_gt _ _)) by (cbn; lia).
    assert (exists x, doc_lrange_last (queue_key_for key) d = (Ok (Some x), d)) as [x Ex].
    { unfold doc_lrange_last, doc_read. rewrite Hq. cbn [e_val as_list].
      destruct (last (t :: q)) as [x|] eqn:El2; [exists x; cbn [fmap option_fmap option_map]; by rewrite El2|]. apply last_None in El2. discriminate El2. }
    run_with Ex. apply cbind_err. reflexivity. }
  pose proof (meets_script FAIR_ACQUIRE KEYS ARGV (servers_before w c)) as Hm. fold d in Hm.
  rewrite E in Hm.
  pose proof (f_equal fst Hm) as E1. pose proof (f_equal snd Hm) as E2. cbn [fst snd] in E1, E2. unfold ret.
  exists (after_invoke c (as_pair (eval_script FAIR_ACQUIRE KEYS ARGV)) w). split.
  - unfold reply_of. rewrite as_pair_run, E1. by destruct (st_fate (step_of w)).
  - unfold after_invoke. cbn [w_server]. rewrite as_pair_run.
    destruct (st_fate (step_of w)); rewrite ?fn_lookup_insert; cbn [snd]; done.
Qed.

(** Dropping a fair handle hands nothing over: its detached release passes
    one key to a script that reads the queue from the second, so the lock is
    deleted, the script then fails, and the waiters stay queued behind a free
    lock that (by the previous property) none of them can take. *)
Theorem fair_drop_skips_handoff {R} `{RedisLaws R} key (s : R) tok hbp dl q :
  let d := r_db s in
  db_live d !! key = Some (mk_entry (VStr tok) dl) -> queue_at d (queue_key_for key) q ->
  let '(r, s') := eval_script FAIR_RELEASE [key] [tok; hbp] s in
  r = Err LuaError /\ db_live (r_db s') !! key = None /\ queue_at (r_db s') (queue_key_for key) q.
Proof.
  intros d Hk Hq. pose proof (meets_script FAIR_RELEASE [key] [tok; hbp] s) as Hm. fold d in Hm.
  destruct (eval_script FAIR_RELEASE _ _ s) as [r s']. cbn [fst snd] in Hm. revert Hm.
  unfold eval_script, fair_release_lua. run_at. to_doc.
  assert (doc_get key d = (Ok (Some tok), d)) as Eg by (unfold doc_get, doc_read; by rewrite Hk).
  run_with Eg. cbn [is_arg lookup list_lookup Nat.sub]. rewrite String.eqb_refl. cbn [negb].
  erewrite (cbind_ok (doc_del key)) by (unfold doc_del; rewrite Hk; reflexivity).
  unfold cbind, at_. cbn [lookup list_lookup Nat.sub]. intros [= -> ->].
  split; [done|]. split; [cbn; apply lookup_delete_eq|].
  destruct q; cbn; rewrite lookup_delete_ne by (apply not_eq_sym, queue_key_ne); exact Hq.
Qed.

(** A fair handle cannot be extended: while the caller owns the lock the
    call fails with [Backend] (the mutex script reads a second key and a third
    argument that are not passed), although the lease itself was refreshed. *)
Theorem fair_extend_fails {U : UuidSource} {R} `{RedisLaws R} (w : world R) s t dl :
  let d := r_db (servers_before w (fh_conn s)) in
  w_budget w = None -> MIN_TTL <= t ->
  released (default fresh_flags (w_flags w !! fh_cell s)) = false ->
  db_live d !! fh_key s = Some (mk_entry (VStr (fh_token s)) dl) -> 0 <= db_now d ->
  db_now d + as_millis t <= i64_max ->
  exists w', fair_extend s t w = (Done (Err (Backend "fair extend failed: {e}")), w') /\
    (st_fate (step_of w) = Replied ->
     db_live (r_db (w_server w' (fh_conn s))) !! fh_key s =
       Some (mk_entry (VStr (fh_token s)) (Some (db_now d + as_millis t)))).
Proof.
  intros d B Ht Hr Hk Hn Hf. unfold fair_extend. rewrite (proj2 (Z.ltb_ge _ _)) by done.
  assert (as_millis_u64 t = as_millis t /\ 0 < as_millis t) as [Em Hpos].
  { assert (0 < as_millis t) by (unfold MIN_TTL, from_millis, as_millis in *; apply Z.div_str_pos; lia).
    split; [|done]. unfold as_millis_u64. apply wrap64_small. unfold in_u64, u64_mod, i64_max in *. lia. }
  unfold bind at 1, cell, gets. rewrite Hr, Em. unfold try_, backend. unfold bind at 1 2. unfold invoke_int.
  set (ARGV := [fh_token s; z_to_string (as_millis t)]). rewrite invoke_eq by done.
  set (d1 := put (fh_key s) (VStr (fh_token s)) (Some (db_now d + as_millis t)) d).
  assert (eval_script (R:=db) EXTEND [fh_key s] ARGV d = (Err LuaError, d1)) as E.
  { unfold eval_script, extend_lua. run_at. to_doc.
    assert (doc_get (fh_key s) d = (Ok (Some (fh_token s)), d)) as Eg by (unfold doc_get, doc_read; by rewrite Hk).
    run_with Eg. change (is_arg (Some (fh_token s)) ARGV 1) with (String.eqb (fh_token s) (fh_token s)).
    rewrite String.eqb_refl. run_with (int_at_ttl ARGV 2 (as_millis t) (db_now d) d eq_refl Hn (conj Hpos Hf)).
    run_with (pexpire_at (fh_key s) d _ dl (db_now d) (as_millis t) Hk eq_refl (conj Hpos Hf)). reflexivity. }
  pose proof (meets_script EXTEND [fh_key s] ARGV (servers_before w (fh_conn s))) as Hm. fold d in Hm.
  rewrite E in Hm.
  pose proof (f_equal fst Hm) as E1. pose proof (f_equal snd Hm) as E2. cbn [fst snd] in E1, E2. unfold ret.
  exists (after_invoke (fh_conn s) (as_int (eval_script EXTEND [fh_key s] ARGV)) w). split.
  - unfold reply_of. rewrite as_int_run, E1. by destruct (st_fate (step_of w)).
  - intros Hrep. unfold after_invoke. rewrite Hrep. cbn [w_server]. rewrite as_int_run, fn_lookup_insert. cbn [snd].
    rewrite E2. apply lookup_insert_eq.
Qed.

(** ** Witnesses *)

(** [A] holds the lock; [B], then [C] queued; [B]'s heartbeat is gone. *)
Definition demo_fair_live : gmap string rentry :=
  <[queue_key_for "job" := mk_entry (VList ["C"; "B"]%string) (Some 9000)]>
    (<[hb_key_for "job" "C" := mk_entry (VStr "1") (Some 2000)]> ∅).
Definition demo_fair : db :=
  mk_db 0 (<["job"%string := mk_entry (VStr "A") (Some 500)]> demo_fair_live).
Definition demo_fair_free : db := mk_db 0 demo_fair_live.

Lemma demo_fair_queue : queue_at demo_fair (queue_key_for "job") ["C"; "B"]%string.
Proof. exists (Some 9000). vm_compute. reflexivity. Qed.
Lemma demo_fair_free_queue : queue_at demo_fair_free (queue_key_for "job") ["C"; "B"]%string.
Proof. exists (Some 9000). vm_compute. reflexivity. Qed.

Lemma fair_release_fifo_witness :
  let '(r, s') := eval_script FAIR_RELEASE ["job"; queue_key_for "job"; fence_key_for "job"]%string
                    ["A"%string; z_to_string 30000; hb_prefix_for "job"] demo_fair in
  r = Ok (RInt 1) /\ db_live s' !! "job"%string = Some (mk_entry (VStr "C") (Some 30000)).
Proof.
  pose proof (fair_release_fifo (R:=db) "job" demo_fair "A" 30000 "A" (Some 500) ["C"; "B"]%string
    eq_refl demo_fair_queue (Z.le_refl 0) ltac:(concrete)) as Hw.
  destruct (eval_script FAIR_RELEASE _ _ demo_fair) as [r s'].
  assert (pick (alive_in (r_db demo_fair) (hb_prefix_for "job")) (rev ["C"; "B"]%string) = (Some "C"%string, [])) as E
    by (vm_compute; reflexivity).
  rewrite E in Hw. destruct Hw as (-> & _ & Hk). split; [reflexivity|exact Hk].
Defined.

Lemma fair_acquire_fails_with_queue_witness : exists w',
  try_lock_fair_as 0 "job" (owner_generate 3) default_options
    (mk_world (fun _ => demo_fair_free) 7 0 [] [] [] None) =
    (Done (Err (Backend "fair acquire failed: {e}")), w').
Proof.
  destruct (fair_acquire_fails_with_queue (R:=db) (mk_world (fun _ => demo_fair_free) 7 0 [] [] [] None) 0 "job"
    (owner_generate 3) default_options "C" ["B"%string]) as (w' & E & _);
    [done|done|vm_compute; reflexivity|exact demo_fair_free_queue|]. exists w'. exact E.
Defined.

Lemma fair_drop_skips_handoff_witness :
  let '(r, s') := eval_script FAIR_RELEASE ["job"%string] ["A"%string; hb_prefix_for "job"] demo_fair in
  r = Err LuaError.
Proof.
  pose proof (fair_drop_skips_handoff (R:=db) "job" demo_fair "A" (hb_prefix_for "job") (Some 500) ["C"; "B"]%string
    eq_refl demo_fair_queue) as Hw.
  destruct (eval_script FAIR_RELEASE _ _ demo_fair) as [r s']. exact (proj1 Hw).
Defined.

Lemma fair_extend_fails_witness : exists w',
  fair_extend (mk_fair 0 "job" (queue_key_for "job") (hb_prefix_for "job") "A" (owner_generate 3) (fence_new 1) 0)
    (from_millis 50) (mk_world (fun _ => demo_fair) 7 0 [fresh_flags] [] [] None) =
    (Done (Err (Backend "fair extend failed: {e}")), w').
Proof.
  destruct (fair_extend_fails (R:=db) (mk_world (fun _ => demo_fair) 7 0 [fresh_flags] [] [] None)
    (mk_fair 0 "job" (queue_key_for "job") (hb_prefix_for "job") "A" (owner_generate 3) (fence_new 1) 0)
    (from_millis 50) (Some 500)) as (w' & E & _); [done|concrete|done|done|concrete|concrete|].
  exists w'. exact E.
Defined.
