(* ===== verification/Latch.v ===== *)
(** * The countdown latch ([crates/redis/src/latch.rs]) *)

From S2P Require Import Prelude Core Redis Scripts World Lease Simulation.

(** ** The Rust layer *)

Section rust.
Context {R : Type} `{Redis R}.
Open Scope world_scope.

Record RedisCountDownLatch := mk_latch { la_conn : conn; la_key : string }.

(** [initial_counts]. *)
Definition initial_counts (n : Z) : res error string :=
  if n =? 0 then Err (InvalidConfig "latch initial count must be at least 1") else Ok (z_to_string n).

(** [RedisCountDownLatch::create]; the argument is evaluated first. *)
Definition latch_create (c : conn) (key : string) (initial_count : Z) : M R (res error RedisCountDownLatch) :=
  let? n := ret (initial_counts initial_count) in
  let? _created := backend "latch init failed: {e}" (invoke_int c LATCH_INIT [key] [n]) in
  ret (Ok (mk_latch c key)).

(** [RedisCountDownLatch::eval_remaining]. *)
Definition eval_remaining (l : RedisCountDownLatch) (lua : script_name) : M R (res error Z) :=
  let? v := backend "latch op failed: {e}" (invoke_int (la_conn l) lua [la_key l] []) in
  if v <? 0 then ret (Ok 0) else ret (Ok v).

Definition count_down (l : RedisCountDownLatch) : M R (res error Z) := eval_remaining l LATCH_COUNT_DOWN.
Definition count (l : RedisCountDownLatch) : M R (res error Z) := eval_remaining l LATCH_GET.

(** [RedisCountDownLatch::wait_until_zero]. *)
Fixpoint wait_loop (fuel : nat) (l : RedisCountDownLatch) (deadline : Z) {struct fuel} : M R (res error unit) :=
  match fuel with
  | O => out_of_fuel
  | S fuel =>
      let? n := count l in
      if n =? 0 then ret (Ok tt) else
      let* now := instant_now in
      if deadline <=? now then ret (Err (Timeout (la_key l))) else
      do* sleep POLL_INTERVAL in
      wait_loop fuel l deadline
  end.

Definition wait_until_zero (fuel : nat) (l : RedisCountDownLatch) (timeout : duration) : M R (res error unit) :=
  let* now := instant_now in
  let* deadline := instant_add now timeout in
  wait_loop fuel l deadline.

Lemma safe_count l : safe (R:=R) (count l).
Proof. unfold count, eval_remaining. solve_safe. Qed.

(** The same loop, as a poll of an attempt that is [Held] while the count is
    not zero. *)
Lemma wait_loop_ends l deadline : forall fuel (w : world R), w_budget w = None ->
  (poll_fuel (deadline - w_clock w) <= fuel)%nat -> (0 < fuel)%nat ->
  exists r w', wait_loop fuel l deadline w = (Done r, w').
Proof.
  intros fuel w B Hf Hp.
  set (attempt := (let? n := count l in
    if n =? 0 then ret (Ok tt) else ret (Err (Held (la_key l))))%world : M R (res error unit)).
  assert (safe attempt) as Hs by (unfold attempt; pose proof (safe_count l); solve_safe).
  destruct (poll_until_ends (la_key l) deadline attempt Hs fuel w B Hf Hp) as (r & w' & E & _).
  enough (forall fuel w, (exists r w', poll_until fuel (la_key l) deadline attempt w = (Done r, w')) ->
    exists r w', wait_loop fuel l deadline w = (Done r, w')) as Hsim by eauto.
  clear. induction fuel as [|fuel IH]; intros w (r & w' & E); [done|].
  cbn [poll_until wait_loop] in *. unfold attempt in E at 1. unfold try_ in E |- *. unfold bind at 1 in E. unfold bind at 1.
  unfold bind at 1 in E.
  destruct (count l w) as [[[n|e]| | |] w1]; try done; [|by do 2 eexists].
  destruct (n =? 0); [by do 2 eexists|]. cbn [ret] in E. unfold ret in E. unfold bind at 1 in E. unfold bind at 1.
  unfold instant_now, gets in *. destruct (deadline <=? _); [by do 2 eexists|].
  unfold bind at 1 in E. unfold bind at 1. destruct (sleep POLL_INTERVAL w1) as [[[]| | |] w2]; try done. eauto.
Qed.
End rust.

(** ** The count *)

Definition latch_at (key : string) (d : db) (n : Z) : Prop :=
  exists dl, db_live d !! key = Some (mk_entry (VStr (z_to_string n)) dl).

Lemma latch_value_at key d n : latch_at key d n -> latch_value key d = (Ok n, d).
Proof.
  intros [dl E]. unfold latch_value. to_doc.
  assert (doc_get key d = (Ok (Some (z_to_string n)), d)) as Eg by (unfold doc_get, doc_read; by rewrite E).
  run_with Eg. unfold default, from_option, id. by rewrite string_to_z_to_string.
Qed.

Lemma latch_init_absent key n d : db_live d !! key = None ->
  eval_script LATCH_INIT [key] [z_to_string n] d = (Ok (RInt 1), put key (VStr (z_to_string n)) None d).
Proof.
  intros E. unfold eval_script, latch_init_lua. run_at. run_at. to_doc. unfold cbind, doc_set. by rewrite E.
Qed.

Lemma latch_init_present key e n d : db_live d !! key = Some e ->
  eval_script LATCH_INIT [key] [z_to_string n] d = (Ok (RInt 0), d).
Proof.
  intros E. unfold eval_script, latch_init_lua. run_at. run_at. to_doc. unfold cbind, doc_set. by rewrite E.
Qed.

Lemma latch_get_at key n d : latch_at key d n -> 0 <= n ->
  eval_script LATCH_GET [key] [] d = (Ok (RInt n), d).
Proof.
  intros L Hn. unfold eval_script, latch_get_lua. run_at. run_with (latch_value_at key _ _ L).
  by rewrite (proj2 (Z.ltb_ge _ 0)) by lia.
Qed.

Lemma latch_count_down_at key d n : latch_at key d n -> 0 <= n <= i64_max ->
  (eval_script LATCH_COUNT_DOWN [key] [] d).1 = Ok (RInt n) /\
  latch_at key (eval_script LATCH_COUNT_DOWN [key] [] d).2 (Z.max 0 (n - 1)).
Proof.
  intros L Hn. unfold eval_script, latch_count_down_lua. run_at. run_with (latch_value_at key d n L).
  rewrite (proj2 (Z.ltb_ge n 0)) by lia. destruct (n =? 0) eqn:Hz; zbool.
  - subst n. split; [done|]. exact L.
  - change (@r_decr db _) with (fun k => doc_incrby k (-1)). cbv beta. destruct L as [dl E].
    assert (doc_incrby key (-1) d = (Ok (n + -1), put key (VStr (z_to_string (n + -1))) dl d)) as I.
    { unfold doc_incrby, doc_read, update, deadline_of. rewrite E. cbn [e_val as_str].
      rewrite string_to_z_to_string. unfold i64_min, i64_max in *.
      rewrite (proj2 (Z.leb_le _ _)), (proj2 (Z.leb_le _ _)) by lia. done. }
    run_with I. unfold cret. cbn [fst snd]. split; [do 2 f_equal; lia|].
    exists dl. cbn. rewrite lookup_insert_eq. repeat f_equal. lia.
Qed.

(** [k] count-downs in a row, with their replies. *)
Fixpoint count_downs {R} `{Redis R} (k : nat) (key : string) (s : R) {struct k} : list (res rerr reply) * R :=
  match k with
  | O => ([], s)
  | S k =>
      let '(r, s1) := eval_script LATCH_COUNT_DOWN [key] [] s in
      let '(rs, s2) := count_downs k key s1 in (r :: rs, s2)
  end.

Definition countdown (n : Z) (k : nat) : list (res rerr reply) :=
  (fun i => Ok (RInt (Z.max 0 (n - Z.of_nat i)))) <$> seq 0 k.

Lemma count_downs_at {R} `{RedisLaws R} key k : forall (s : R) n,
  latch_at key (r_db s) n -> 0 <= n <= i64_max ->
  (count_downs k key s).1 = countdown n k /\
  latch_at key (r_db (count_downs k key s).2) (Z.max 0 (n - Z.of_nat k)).
Proof.
  induction k as [|k IH]; intros s n L Hn.
  { cbn. rewrite Z.sub_0_r, Z.max_r by lia. done. }
  destruct (latch_count_down_at key _ n L Hn) as [E1 L1].
  rewrite <- (meets_script LATCH_COUNT_DOWN [key] [] s) in E1, L1. cbn [fst snd] in E1, L1.
  cbn [count_downs]. destruct (eval_script LATCH_COUNT_DOWN [key] [] s) as [r s1]. cbn [fst snd] in *.
  destruct (IH s1 (Z.max 0 (n - 1)) L1 ltac:(lia)) as [E2 L2].
  destruct (count_downs k key s1) as [rs s2]. cbn [fst snd] in *. subst r rs. split.
  - unfold countdown. cbn [seq fmap list_fmap]. f_equal; [do 2 f_equal; lia|].
    rewrite <- seq_shift, <- list_fmap_compose. apply list_fmap_ext. intros i x _. cbn. do 2 f_equal. lia.
  - replace (Z.max 0 (n - Z.of_nat (S k))) with (Z.max 0 (Z.max 0 (n - 1) - Z.of_nat k)) by lia. exact L2.
Qed.

(** A latch counts down to zero and stays there.  Initialised with [n] on
    a free key (a later initialiser changes nothing), after [k] count-downs it
    holds [max 0 (n - k)], never a negative number, which is what reading it
    answers; the i-th count-down (from 0) answers [max 0 (n - i)], the count
    before it, not the count that remains. *)
Theorem latch_counts_down {R} `{RedisLaws R} key (s : R) n m k :
  db_live (r_db s) !! key = None -> 0 < n <= i64_max ->
  let '(r1, s1) := eval_script LATCH_INIT [key] [z_to_string n] s in
  let '(r2, s2) := eval_script LATCH_INIT [key] [z_to_string m] s1 in
  let '(rs, s3) := count_downs k key s2 in
  r1 = Ok (RInt 1) /\ r2 = Ok (RInt 0) /\ rs = countdown n k /\
  (eval_script LATCH_GET [key] [] s3).1 = Ok (RInt (Z.max 0 (n - Z.of_nat k))).
Proof.
  intros E Hn. pose proof (meets_script LATCH_INIT [key] [z_to_string n] s) as M1.
  destruct (eval_script LATCH_INIT [key] [z_to_string n] s) as [r1 s1].
  pose proof (meets_script LATCH_INIT [key] [z_to_string m] s1) as M2.
  destruct (eval_script LATCH_INIT [key] [z_to_string m] s1) as [r2 s2]. cbn [fst snd] in *.
  assert (r1 = Ok (RInt 1) /\ r_db s1 = put key (VStr (z_to_string n)) None (r_db s)) as [-> D1].
  { rewrite latch_init_absent in M1 by done. by injection M1 as -> ->. }
  assert (db_live (r_db s1) !! key = Some (mk_entry (VStr (z_to_string n)) None)) as E1
    by (rewrite D1; cbn; apply lookup_insert_eq).
  assert (r2 = Ok (RInt 0) /\ r_db s2 = r_db s1) as [-> D2].
  { rewrite (latch_init_present _ _ _ _ E1) in M2. by injection M2 as -> ->. }
  assert (latch_at key (r_db s2) n) as L by (rewrite D2; by exists None).
  destruct (count_downs_at key k s2 n L ltac:(lia)) as [E3 L3].
  destruct (count_downs k key s2) as [rs s3]. cbn [fst snd] in *. subst rs.
  split; [done|]. split; [done|]. split; [done|].
  pose proof (f_equal fst (meets_script LATCH_GET [key] [] s3)) as M3. cbn [fst] in M3. rewrite M3. unfold eval_script, latch_get_lua. run_at.
  run_with (latch_value_at key _ _ L3). by rewrite (proj2 (Z.ltb_ge _ 0)) by lia.
Qed.

Lemma latch_counts_down_witness :
  let '(r1, s1) := eval_script LATCH_INIT ["gate"%string] [z_to_string 2] demo_db in
  let '(r2, s2) := eval_script LATCH_INIT ["gate"%string] [z_to_string 5] s1 in
  let '(rs, s3) := count_downs 3 "gate" s2 in
  rs = [Ok (RInt 2); Ok (RInt 1); Ok (RInt 0)].
Proof.
  pose proof (latch_counts_down (R:=db) "gate" demo_db 2 5 3 eq_refl ltac:(concrete)) as Hw.
  destruct (eval_script LATCH_INIT ["gate"%string] [z_to_string 2] demo_db) as [r1 s1].
  destruct (eval_script LATCH_INIT ["gate"%string] [z_to_string 5] s1) as [r2 s2].
  destruct (count_downs 3 "gate" s2) as [rs s3]. destruct Hw as (_ & _ & -> & _). reflexivity.
Defined.
