(* ===== verification/Testament.v ===== *)
(** * The testament ([crates/redis/src/testament.rs])

    A payload stored next to a lock by its holder, with its own time to live. *)

From S2P Require Import Prelude Core Redis Scripts World Lease Simulation.

(** [format!("{key}:will")]. *)
Definition will_key (key : string) : string := key +:+ ":will".

Section rust.
Context {R : Type} `{Redis R}.
Open Scope world_scope.

(** [RedisLockManager::set_testament]. *)
Definition set_testament (c : conn) (key token : string) (t : duration) (payload : string) : M R (res error unit) :=
  let? ok := backend "testament set failed: {e}"
    (invoke_int c WILL_SET [key; will_key key] [token; payload; z_to_string (as_millis_u64 t)]) in
  if negb (ok =? 1) then ret (Err (Lost key 0)) else ret (Ok tt).

(** [RedisLockManager::read_testament]. *)
Definition read_testament (c : conn) (key : string) : M R (res error (option string)) :=
  backend "testament read failed: {e}" (invoke c (r_get (will_key key))).

(** [RedisLockManager::clear_testament]. *)
Definition clear_testament (c : conn) (key token : string) : M R (res error unit) :=
  let? _n := backend "testament clear failed: {e}" (invoke_int c WILL_DEL [key; will_key key] [token]) in
  ret (Ok tt).
End rust.

Lemma will_key_ne key : will_key key <> key.
Proof.
  intros E. apply (f_equal String.length) in E. unfold will_key in E.
  rewrite string_app_length in E. cbn in E. lia.
Qed.

Lemma will_key_ne_fence key : will_key key <> fence_key_for key.
Proof.
  intros E. apply (f_equal String.length) in E. unfold will_key, fence_key_for in E.
  rewrite !string_app_length in E. cbn [String.length] in E. lia.
Qed.

(** ** What the lock's own traffic does to the will *)

Definition will_at (key : string) (d : db) (payload : string) (dl : Z) : Prop :=
  db_live d !! will_key key = Some (mk_entry (VStr payload) (Some dl)).

Lemma will_kept {R} `{RedisLaws R} key payload dl evs : forall (s : R) l,
  view key (r_db s) l -> events_ok (l_now l) evs -> will_at key (r_db s) payload dl ->
  l_now l + total_time evs < dl ->
  will_at key (r_db (run_events key evs s).2) payload dl.
Proof.
  induction evs as [|[op|dt] evs IH]; intros s l V F W Ht; [done| |].
  - destruct F as [F1 F2]. destruct (lop_refines_any key s l op V F1) as (_ & V1 & [_ S1]).
    rewrite <- (lease_op_now op l) in F2, Ht. cbn [run_events event_run total_time] in *.
    destruct (lop_script key op s) as [r s1]. cbn [snd] in *.
    specialize (IH s1 _ V1 F2). destruct (run_events key evs s1) as [os s2]. cbn [snd] in *.
    apply IH; [|done]. unfold will_at. rewrite S1; [done|apply will_key_ne|apply will_key_ne_fence].
  - destruct F as [F1 F2]. pose proof (elapse_law dt s F1) as El.
    destruct (elapse_refines key dt _ _ _ El F1 V) as (l1 & (En & _) & V1).
    rewrite <- En in F2. cbn [run_events event_run total_time] in *.
    specialize (IH (r_elapse dt s) _ V1 F2). destruct (run_events key evs (r_elapse dt s)) as [os s2].
    cbn [snd] in *. pose proof (total_time_nonneg _ _ F2). apply IH; [|lia].
    refine (elapsed_keep _ _ _ El _ _ W _). intros t [= <-].
    rewrite (elapsed_now _ _ _ El), (view_now _ _ _ V). lia.
Qed.

(** ** Properties *)

(** The testament reaches the successor.  Setting a will succeeds exactly
    for the token that owns the lock, and from then on, whatever happens to
    the lock (expiry, release by the holder, break-glass, acquisition by
    others), reading it within its own time to live gives back the payload,
    byte for byte. *)
Theorem testament_survives {R} `{RedisLaws R} key (s : R) l tok payload ttl evs :
  view key (r_db s) l -> ttl_fits (l_now l) ttl -> events_ok (l_now l) evs -> total_time evs < ttl ->
  let '(r, s1) := eval_script WILL_SET [key; will_key key] [tok; payload; z_to_string ttl] s in
  let s2 := (run_events key evs s1).2 in
  if holds tok l
  then r = Ok (RInt 1) /\ (r_get (will_key key) s2).1 = Ok (Some payload)
  else r = Ok (RInt 0) /\ r_db s1 = r_db s.
Proof.
  intros V F Fe Ht. pose proof (meets_script WILL_SET [key; will_key key] [tok; payload; z_to_string ttl] s) as Hm.
  destruct (eval_script WILL_SET _ _ s) as [r s1]. cbn [fst snd] in Hm. revert Hm.
  unfold eval_script, will_set_lua. run_at. to_doc. run_with (doc_get_view _ _ _ V). rewrite is_arg_holds.
  destruct (holds tok l); [|by intros [= -> ->]]. run_at. run_at.
  run_with (int_at_ttl [tok; payload; z_to_string ttl] 3 ttl (l_now l) (r_db s) eq_refl (view_clock _ _ _ V) F).
  unfold cbind, doc_set. rewrite expire_ok_fits by by rewrite (view_now _ _ _ V).
  cbn [andb]. intros Hm. injection Hm as -> Hd. split; [done|].
  assert (view key (r_db s1) l) as V1.
  { rewrite Hd. destruct V as [V1 V2 V3 V4 V5]. split; cbn; [done| | |done|done].
    - rewrite lookup_insert_ne by apply will_key_ne. done.
    - rewrite lookup_insert_ne by apply will_key_ne_fence. done. }
  assert (will_at key (r_db s1) payload (l_now l + ttl)) as W.
  { unfold will_at. rewrite Hd. cbn. by rewrite lookup_insert_eq, (view_now _ _ _ V). }
  pose proof (will_kept key payload _ evs s1 l V1 Fe W ltac:(lia)) as W2.
  pose proof (f_equal fst (get_law (will_key key) (run_events key evs s1).2)) as G. cbn [fst] in G. rewrite G.
  unfold doc_get, doc_read. by rewrite W2.
Qed.

(** The holder sets its will, releases, and another client takes the lock. *)
Definition demo_succession : list event := [EOp (LRelease "A"); ETime 20; EOp (LAcquire "B" 50 500)].

Lemma testament_survives_witness :
  let '(r, s1) := eval_script WILL_SET ["job"; will_key "job"]%string ["A"; "checkpoint=4172"; z_to_string 100]%string demo_granted in
  r = Ok (RInt 1) /\ (r_get (will_key "job") (run_events "job" demo_succession s1).2).1 = Ok (Some "checkpoint=4172"%string).
Proof.
  assert (view "job" (r_db demo_granted) (mk_lease 0 (Some ("A"%string, 100)) (Some (1, Some 1000)))) as V.
  { split; [reflexivity|vm_compute; reflexivity|vm_compute; reflexivity|concrete|concrete]. }
  pose proof (testament_survives (R:=db) "job" demo_granted _ "A" "checkpoint=4172" 100 demo_succession V
    ltac:(concrete) ltac:(cbn; concrete) ltac:(concrete)) as Hw.
  destruct (eval_script WILL_SET _ _ demo_granted) as [r s1]. exact Hw.
Defined.
