(* ===== verification/F64.v ===== *)
(** * Double-precision arithmetic

    Rust's [f64] as the specification floats of the Standard Library with the
    parameters of binary64, and the conversions the sources use. *)

From Stdlib Require Export SpecFloat.
From S2P Require Import Prelude Core.

Abbreviation f64 := spec_float.

Definition f64_prec : Z := 53.
Definition f64_emax : Z := 1024.

Definition f64_add : f64 -> f64 -> f64 := SFadd f64_prec f64_emax.
Definition f64_sub : f64 -> f64 -> f64 := SFsub f64_prec f64_emax.
Definition f64_mul : f64 -> f64 -> f64 := SFmul f64_prec f64_emax.
Definition f64_div : f64 -> f64 -> f64 := SFdiv f64_prec f64_emax.
Definition f64_sqrt : f64 -> f64 := SFsqrt f64_prec f64_emax.
Definition f64_ltb : f64 -> f64 -> bool := SFltb.
Definition f64_leb : f64 -> f64 -> bool := SFleb.

(** [z as f64]: the nearest double. *)
Definition f64_of_Z (z : Z) : f64 := binary_normalize f64_prec f64_emax z 0 false.

(** The literal [m / 10^k], correctly rounded. *)
Definition f64_lit (m : Z) (k : Z) : f64 := f64_div (f64_of_Z m) (f64_of_Z (10 ^ k)).

(** [Duration::as_secs_f64]: [secs as f64 + nanos as f64 / 1e9]. *)
Definition as_secs_f64 (d : Z) : f64 :=
  f64_add (f64_of_Z (d / 1000000000)) (f64_div (f64_of_Z (d mod 1000000000)) (f64_of_Z 1000000000)).

(** [x.ceil() as i64]: the cast saturates, a NaN gives 0. *)
Definition f64_ceil_as_i64 (x : f64) : Z :=
  match x with
  | S754_nan | S754_zero _ => 0
  | S754_infinity s => if s : bool then i64_min else i64_max
  | S754_finite s m e =>
      let v := if s : bool then - Z.pos m else Z.pos m in
      Z.max i64_min (Z.min i64_max (if 0 <=? e then v * 2 ^ e else - (- v / 2 ^ (- e))))
  end.

(** [x as u64]: towards zero, saturating; a NaN gives 0. *)
Definition f64_as_u64 (x : f64) : Z :=
  match x with
  | S754_nan | S754_zero _ => 0
  | S754_infinity s => if s : bool then 0 else u64_max
  | S754_finite s m e =>
      if s : bool then 0 else Z.min u64_max (if 0 <=? e then Z.pos m * 2 ^ e else Z.pos m / 2 ^ (- e))
  end.

(** [f64::max] and [f64::min] ignore a NaN; [f64::clamp] keeps it. *)
Definition is_nan (x : f64) : bool := match x with S754_nan => true | _ => false end.
Definition f64_max (x y : f64) : f64 := if is_nan x then y else if is_nan y then x else if f64_ltb x y then y else x.
Definition f64_min (x y : f64) : f64 := if is_nan x then y else if is_nan y then x else if f64_ltb y x then y else x.
Definition f64_clamp (x lo hi : f64) : f64 :=
  let x := if f64_ltb x lo then lo else x in
  if f64_ltb hi x then hi else x.

#[global] Arguments f64_of_Z : simpl never.
#[global] Arguments f64_lit : simpl never.
#[global] Arguments as_secs_f64 : simpl never.

(** The literals are the doubles the compiler reads: 0.9 and 0.2. *)
Example f64_lit_09 : f64_lit 9 1 = S754_finite false 8106479329266893 (-53).
Proof. vm_compute. reflexivity. Qed.
Example f64_lit_02 : f64_lit 2 1 = S754_finite false 7205759403792794 (-55).
Proof. vm_compute. reflexivity. Qed.

(** ** The order

    Doubles other than NaN compare as their sign, exponent and mantissa. *)

Definition f64_rank (x : f64) : Z * Z * Z :=
  match x with
  | S754_infinity s => if s : bool then (-2, 0, 0) else (2, 0, 0)
  | S754_zero _ | S754_nan => (0, 0, 0)
  | S754_finite s m e => if s : bool then (-1, - e, - Z.pos m) else (1, e, Z.pos m)
  end.
Definition rank_lt (x y : Z * Z * Z) : Prop :=
  x.1.1 < y.1.1 \/ x.1.1 = y.1.1 /\ (x.1.2 < y.1.2 \/ x.1.2 = y.1.2 /\ x.2 < y.2).

Lemma f64_compare_spec x y : is_nan x = false -> is_nan y = false ->
  match SFcompare x y with
  | Some Lt => rank_lt (f64_rank x) (f64_rank y)
  | Some Eq => f64_rank x = f64_rank y
  | Some Gt => rank_lt (f64_rank y) (f64_rank x)
  | None => False
  end.
Proof.
  unfold rank_lt. destruct x as [sx|sx| |sx mx ex], y as [sy|sy| |sy my ey]; intros Hx Hy; try done; clear Hx Hy;
    cbn [SFcompare f64_rank]; try (destruct sx); try (destruct sy); cbn; try (reflexivity || lia).
  - destruct (Z.compare_spec ex ey); cbn; [|lia..]. change (Pos.compare_cont Eq mx my) with (mx ?= my)%positive.
    destruct (Pos.compare_spec mx my); cbn; [by subst|lia..].
  - destruct (Z.compare_spec ex ey); cbn; [|lia..]. change (Pos.compare_cont Eq mx my) with (mx ?= my)%positive.
    destruct (Pos.compare_spec mx my); cbn; [by subst|lia..].
Qed.

Lemma f64_ltb_rank x y : is_nan x = false -> is_nan y = false -> f64_ltb x y = true <-> rank_lt (f64_rank x) (f64_rank y).
Proof.
  intros Hx Hy. pose proof (f64_compare_spec x y Hx Hy) as Hc. unfold f64_ltb, SFltb.
  destruct (SFcompare x y) as [[| |]|]; [|by split|..|done].
  - rewrite Hc. split; [done|]. unfold rank_lt. lia.
  - split; [done|]. revert Hc. unfold rank_lt. lia.
Qed.

Lemma f64_leb_ltb x y : is_nan x = false -> is_nan y = false -> f64_leb x y = negb (f64_ltb y x).
Proof.
  intros Hx Hy. pose proof (f64_compare_spec x y Hx Hy) as H1. pose proof (f64_ltb_rank y x Hy Hx) as H2.
  unfold f64_leb, SFleb. destruct (SFcompare x y) as [[| |]|]; [..|done].
  - destruct (f64_ltb y x); [|done]. pose proof (proj1 H2 eq_refl) as E. rewrite H1 in E. unfold rank_lt in E. lia.
  - destruct (f64_ltb y x); [|done]. pose proof (proj1 H2 eq_refl) as E. unfold rank_lt in *. lia.
  - by rewrite (proj2 H2 H1).
Qed.

Lemma f64_ltb_nan x y : f64_ltb x y = true -> is_nan x = false /\ is_nan y = false.
Proof. unfold f64_ltb, SFltb. by destruct x as [[]|[]| |[]], y as [[]|[]| |[]]. Qed.

Lemma f64_leb_nan x y : f64_leb x y = true -> is_nan x = false /\ is_nan y = false.
Proof. unfold f64_leb, SFleb. by destruct x as [[]|[]| |[]], y as [[]|[]| |[]]. Qed.

Lemma f64_leb_trans x y z : f64_leb x y = true -> f64_leb y z = true -> f64_leb x z = true.
Proof.
  intros H1 H2. destruct (f64_leb_nan _ _ H1) as [Hx Hy]. destruct (f64_leb_nan _ _ H2) as [_ Hz].
  rewrite f64_leb_ltb in * by done. apply negb_true_iff in H1, H2. apply negb_true_iff, not_true_iff_false.
  apply not_true_iff_false in H1, H2. rewrite f64_ltb_rank in * by done. unfold rank_lt in *. lia.
Qed.

Lemma f64_ltb_leb x y : f64_ltb x y = true -> f64_leb x y = true.
Proof. unfold f64_ltb, SFltb, f64_leb, SFleb. destruct (SFcompare x y) as [[]|]; done. Qed.

Lemma f64_leb_total x y : is_nan x = false -> is_nan y = false -> f64_ltb x y = false -> f64_leb y x = true.
Proof. intros Hx Hy E. by rewrite f64_leb_ltb, E by done. Qed.

Lemma f64_leb_refl x : is_nan x = false -> f64_leb x x = true.
Proof.
  intros Hx. rewrite f64_leb_ltb by done. apply negb_true_iff, not_true_iff_false. rewrite f64_ltb_rank by done.
  unfold rank_lt. lia.
Qed.
