(* ===== verification/Wire.v ===== *)
(** * Documents on the wire

    The declarations a Rust type carries for [serde]: a universe of [shape]s
    (the types a document is read into or written from, with the names of
    their fields and variants), and the values of each, [den].  What [serde]
    and [serde_json] do with a declaration is a class, with the behaviour
    their documentation gives as laws; [json_serde] is a concrete instance. *)

From S2P Require Import Prelude Core F64.

(** ** Shapes *)

Inductive shape :=
| SString
| SBool
| SU32
| SU64
| SF64
| SStringMap                                  (* [HashMap<String, String>] *)
| SOption (s : shape)
| SVec (s : shape)
| SStruct (fs : fields)
| STagged (tag : string) (vs : variants)      (* an enum with [#[serde(tag = ..)]] *)
with fields :=
| FNil
| FCons (name : string) (s : shape) (fs : fields)
with variants :=
| VNil
| VCons (rename : string) (fs : fields) (vs : variants).

Declare Scope shape_scope.
Delimit Scope shape_scope with shape.
Notation "n '::=' s ';;' fs" := (FCons n s fs) (at level 60, s at level 50, right associativity) : shape_scope.
Open Scope shape_scope.

Scheme shape_mut := Induction for shape Sort Prop
with fields_mut := Induction for fields Sort Prop
with variants_mut := Induction for variants Sort Prop.
Combined Scheme shapes_ind from shape_mut, fields_mut, variants_mut.

(** The values of a shape; an integer is a [Z], whose width [fits] gives. *)
Fixpoint den (s : shape) : Type :=
  match s with
  | SString => string
  | SBool => bool
  | SU32 | SU64 => Z
  | SF64 => f64
  | SStringMap => gmap string string
  | SOption s => option (den s)
  | SVec s => list (den s)
  | SStruct fs => dens fs
  | STagged _ vs => denv vs
  end
with dens (fs : fields) : Type :=
  match fs with
  | FNil => unit
  | FCons _ s fs => den s * dens fs
  end
with denv (vs : variants) : Type :=
  match vs with
  | VNil => Empty_set
  | VCons _ fs vs => dens fs + denv vs
  end.

(** A double that JSON has a number for. *)
Definition f64_finite (x : f64) : bool :=
  valid_binary f64_prec f64_emax x && match x with S754_zero _ | S754_finite _ _ _ => true | _ => false end.

(** The values the Rust type has. *)
Fixpoint fits (s : shape) : den s -> bool :=
  match s with
  | SU32 => fun n => (0 <=? n) && (n <? 2 ^ 32)
  | SU64 => fun n => (0 <=? n) && (n <? 2 ^ 64)
  | SF64 => f64_finite
  | SOption s => fun o => match o with Some v => fits s v | None => true end
  | SVec s => forallb (fits s)
  | SStruct fs => fits_fields fs
  | STagged _ vs => fits_variants vs
  | _ => fun _ => true
  end
with fits_fields (fs : fields) : dens fs -> bool :=
  match fs with
  | FNil => fun _ => true
  | FCons _ s fs => fun v => fits s v.1 && fits_fields fs v.2
  end
with fits_variants (vs : variants) : denv vs -> bool :=
  match vs with
  | VNil => fun _ => true
  | VCons _ fs vs => fun v => match v with inl v => fits_fields fs v | inr v => fits_variants vs v end
  end.

Fixpoint field_names (fs : fields) : list string :=
  match fs with FNil => [] | FCons n _ fs => n :: field_names fs end.
Fixpoint variant_names (vs : variants) : list string :=
  match vs with VNil => [] | VCons n _ vs => n :: variant_names vs end.

Definition is_option (s : shape) : bool := match s with SOption _ => true | _ => false end.

(** Declarations without a clash: names differ, and [null] stands for one
    value only. *)
Fixpoint well_formed (s : shape) : bool :=
  match s with
  | SOption s => negb (is_option s) && well_formed s
  | SVec s => well_formed s
  | SStruct fs => well_formed_fields fs
  | STagged _ vs => well_formed_variants vs
  | _ => true
  end
with well_formed_fields (fs : fields) : bool :=
  match fs with
  | FNil => true
  | FCons n s fs => bool_decide (n ∉ field_names fs) && well_formed s && well_formed_fields fs
  end
with well_formed_variants (vs : variants) : bool :=
  match vs with
  | VNil => true
  | VCons n fs vs => bool_decide (n ∉ variant_names vs) && well_formed_fields fs && well_formed_variants vs
  end.

(** Shapes whose documents are read back without a loss: no double among
    them (a parsed double may be off by a bit), and no enum (only the
    console's answers are). *)
Fixpoint plain (s : shape) : bool :=
  match s with
  | SF64 | SStringMap | STagged _ _ => false
  | SOption s | SVec s => plain s
  | SStruct fs => plain_fields fs
  | _ => true
  end
with plain_fields (fs : fields) : bool :=
  match fs with FNil => true | FCons _ s fs => plain s && plain_fields fs end.

(** ** The interface *)

(** A document that is not read: it is no JSON, or not of the shape. *)
Inductive rejection := BadSyntax | BadData.

(** [de] reads a document as a value of a shape, [se] relates a value to the
    documents written for it (the order of a map is open). *)
Class Serde (D : Type) := {
  de : forall s, D -> res rejection (den s);
  se : forall s, den s -> D -> Prop;
  doc_len : D -> Z;
}.

Class SerdeLaws (D : Type) `{Serde D} := {
  de_fits s d v : well_formed s = true -> de s d = Ok v -> fits s v = true;
  de_se s v d : well_formed s = true -> plain s = true -> fits s v = true -> se s v d -> de s d = Ok v;
  se_inj s v v' d : well_formed s = true -> fits s v = true -> fits s v' = true ->
    se s v d -> se s v' d -> v = v';
}.

(** ** JSON *)

Inductive json :=
| JNull
| JBool (b : bool)
| JInt (n : Z)
| JReal (x : f64)
| JStr (s : string)
| JArr (l : list json)
| JObj (ms : list (string * json)).

(** The value of a member. *)
Fixpoint member (n : string) (ms : list (string * json)) : option json :=
  match ms with
  | [] => None
  | (m, j) :: ms => if String.eqb n m then Some j else member n ms
  end.

(** What a struct takes for a member that is missing. *)
Definition absent (s : shape) : option (den s) :=
  match s with SOption s => Some None | _ => None end.

Definition in_width (w n : Z) : option Z := if (0 <=? n) && (n <? 2 ^ w) then Some n else None.

(** Reading; no enum is read. *)
Fixpoint of_json (s : shape) : json -> option (den s) :=
  match s with
  | SString => fun j => match j with JStr x => Some x | _ => None end
  | SBool => fun j => match j with JBool b => Some b | _ => None end
  | SU32 => fun j => match j with JInt n => in_width 32 n | _ => None end
  | SU64 => fun j => match j with JInt n => in_width 64 n | _ => None end
  | SF64 => fun j => match j with JReal x => if f64_finite x then Some x else None | _ => None end
  | SStringMap => fun _ => None
  | SOption s => fun j => match j with JNull => Some None | _ => Some <$> of_json s j end
  | SVec s => fun j => match j with JArr l => mapM (of_json s) l | _ => None end
  | SStruct fs => fun j => match j with JObj ms => of_members fs ms | _ => None end
  | STagged _ _ => fun _ => None
  end
with of_members (fs : fields) : list (string * json) -> option (dens fs) :=
  match fs with
  | FNil => fun _ => Some tt
  | FCons n s fs => fun ms =>
      match (match member n ms with Some j => of_json s j | None => absent s end), of_members fs ms with
      | Some v, Some vs => Some (v, vs)
      | _, _ => None
      end
  end.

(** Writing. *)
Fixpoint to_json (s : shape) : den s -> json :=
  match s with
  | SString => JStr
  | SBool => JBool
  | SU32 | SU64 => JInt
  | SF64 => JReal
  | SStringMap => fun m => JObj (map (fun p => (p.1, JStr p.2)) (map_to_list m))
  | SOption s => fun o => match o with Some v => to_json s v | None => JNull end
  | SVec s => fun l => JArr (map (to_json s) l)
  | SStruct fs => fun v => JObj (to_members fs v)
  | STagged tag vs => fun v => let '(n, ms) := to_variant vs v in JObj ((tag, JStr n) :: ms)
  end
with to_members (fs : fields) : dens fs -> list (string * json) :=
  match fs with
  | FNil => fun _ => []
  | FCons n s fs => fun v => (n, to_json s v.1) :: to_members fs v.2
  end
with to_variant (vs : variants) : denv vs -> string * list (string * json) :=
  match vs with
  | VNil => fun v => match v with end
  | VCons n fs vs => fun v => match v with inl v => (n, to_members fs v) | inr v => to_variant vs v end
  end.

(** A length: every name and scalar counts as one more than its text. *)
Fixpoint json_len (j : json) : Z :=
  match j with
  | JStr s => 2 + Z.of_nat (String.length s)
  | JArr l => 2 + foldr (fun j n => json_len j + 1 + n) 0 l
  | JObj ms => 2 + foldr (fun m n => Z.of_nat (String.length m.1) + 4 + json_len m.2 + n) 0 ms
  | _ => 20
  end.

(** *** Reading what was written *)

Lemma in_width_fits w n m : in_width w n = Some m -> m = n /\ (0 <=? n) && (n <? 2 ^ w) = true.
Proof. unfold in_width. case_match; [|done]. by intros [= <-]. Qed.

Lemma absent_fits s v : absent s = Some v -> fits s v = true.
Proof. destruct s; try done. by intros [= <-]. Qed.

Lemma mapM_fits {A B} (f : A -> option B) (p : B -> bool) l l' :
  (forall a b, f a = Some b -> p b = true) -> mapM f l = Some l' -> forallb p l' = true.
Proof.
  intros Hf. revert l'. induction l as [|a l IH]; cbn; intros l' E; [by injection E as <-|].
  destruct (f a) as [b|] eqn:Ea; [|done]. cbn in E. destruct (mapM f l) as [bs|]; [|done].
  injection E as <-. cbn. by rewrite (Hf _ _ Ea), (IH bs).
Qed.

Lemma of_json_fits :
  (forall s j v, of_json s j = Some v -> fits s v = true) /\
  (forall fs ms v, of_members fs ms = Some v -> fits_fields fs v = true) /\
  (forall vs : variants, True).
Proof.
  apply shapes_ind; try done; cbn.
  - intros [] v E; try done. by apply in_width_fits in E as [-> E].
  - intros [] v E; try done. by apply in_width_fits in E as [-> E].
  - intros [] v E; try done. destruct (f64_finite x) eqn:Ex; [|done]. by injection E as <-.
  - intros s IH j [v|]; [|done]. intros E. apply (IH j). destruct j; cbn in E; try done;
      destruct (of_json s _); cbn in E; congruence.
  - intros s IH [] v E; try done. by eapply mapM_fits.
  - intros fs IH [] v E; try done. by eapply IH.
  - intros n s IHs fs IHf ms v E. destruct (of_members fs ms) as [vs|] eqn:Ef; [|by case_match].
    assert (exists x, v = (x, vs) /\ fits s x = true) as (x & -> & Hx).
    { destruct (member n ms) as [j|].
      - destruct (of_json s j) as [x|] eqn:Ej; [|done]. injection E as <-. exists x. split; [done|]. by eapply IHs.
      - destruct (absent s) as [x|] eqn:Ea; [|done]. injection E as <-. exists x. split; [done|]. by apply absent_fits. }
    cbn. by rewrite Hx, (IHf _ _ Ef).
Qed.

Lemma to_json_null s (v : den s) : is_option s = false -> to_json s v <> JNull.
Proof. destruct s; try done; cbn. by case_match. Qed.

Lemma read_back :
  (forall s, well_formed s = true -> plain s = true ->
    forall v, fits s v = true -> of_json s (to_json s v) = Some v) /\
  (forall fs, well_formed_fields fs = true -> plain_fields fs = true ->
    forall v ms, fits_fields fs v = true ->
      (forall n, n ∈ field_names fs -> member n ms = member n (to_members fs v)) -> of_members fs ms = Some v) /\
  (forall vs : variants, True).
Proof.
  apply shapes_ind; try done; cbn.
  - intros _ _ v Hv. unfold in_width. by rewrite Hv.
  - intros _ _ v Hv. unfold in_width. by rewrite Hv.
  - intros s IH [Ho Hw]%andb_prop Hp [v|] Hv; [|done]. specialize (IH Hw Hp v Hv).
    assert (to_json s v <> JNull) as Hn by (apply to_json_null; by destruct (is_option s)).
    destruct (to_json s v); try done; by rewrite IH.
  - intros s IH Hw Hp v Hv. induction v as [|x v IHv]; [done|]. cbn in *. apply andb_prop in Hv as [Hx Hv].
    by rewrite (IH Hw Hp x Hx), IHv.
  - intros fs IH Hw Hp v Hv. by apply IH.
  - intros _ _ [] ms _ _. done.
  - intros n s IHs fs IHf [[Hn Hw]%andb_prop Hwf]%andb_prop [Hp Hpf]%andb_prop [x v] ms [Hx Hv]%andb_prop Hms.
    cbn in *. apply bool_decide_eq_true in Hn.
    rewrite (Hms n) by apply list_elem_of_here. rewrite String.eqb_refl, (IHs Hw Hp x Hx).
    rewrite (IHf Hwf Hpf v ms Hv); [done|]. intros m Hm. rewrite (Hms m) by by right.
    destruct (String.eqb_spec m n) as [->|]; done.
Qed.

Lemma to_variant_name vs (v : denv vs) : (to_variant vs v).1 ∈ variant_names vs.
Proof. induction vs as [|n fs vs IH]; [done|]. destruct v as [v|v]; cbn; [left|right; apply IH]. Qed.

Lemma write_inj :
  (forall s, well_formed s = true -> forall v w, to_json s v = to_json s w -> v = w) /\
  (forall fs, well_formed_fields fs = true -> forall v w, to_members fs v = to_members fs w -> v = w) /\
  (forall vs, well_formed_variants vs = true -> forall v w, to_variant vs v = to_variant vs w -> v = w).
Proof.
  apply shapes_ind; cbn.
  1-5: by intros _ v w [= ->].
  - intros _ v w [= E]. apply map_to_list_inj. enough (map_to_list v = map_to_list w) as -> by done.
    revert E. generalize (map_to_list v), (map_to_list w). intros l. induction l as [|[a b] l IH]; intros [|[c d] l'] E;
      try done. cbn in E. injection E as -> -> E. by rewrite (IH l').
  - intros s IH [Ho Hw]%andb_prop [v|] [w|] E; try done; [by rewrite (IH Hw v w)| |];
      exfalso; (eapply (to_json_null s); [by destruct (is_option s)|]); first [exact E|symmetry; exact E].
  - intros s IH Hw v. induction v as [|x v IHv]; intros [|y w] E; try done. cbn in E. injection E as Ex E.
    rewrite (IH Hw x y Ex). f_equal. apply IHv. by rewrite E.
  - intros fs IH Hw v w [= E]. by apply IH.
  - intros tag vs IH Hw v w E. destruct (to_variant vs v) as [n ms] eqn:Ev, (to_variant vs w) as [n' ms'] eqn:Ew.
    injection E as -> ->. apply IH; [done|]. congruence.
  - intros _ [] []. done.
  - intros n s IHs fs IHf [[_ Hw]%andb_prop Hwf]%andb_prop [x v] [y w] [= Ex E]. cbn in *.
    by rewrite (IHs Hw x y Ex), (IHf Hwf v w E).
  - by intros _ [].
  - intros n fs IHf vs IHv [[Hn Hw]%andb_prop Hwv]%andb_prop. apply bool_decide_eq_true in Hn.
    intros [v|v] [w|w] E; cbn in E.
    + injection E as E. f_equal. by apply IHf.
    + exfalso. apply Hn. replace n with (to_variant vs w).1 by by rewrite <- E. apply to_variant_name.
    + exfalso. apply Hn. replace n with (to_variant vs v).1 by by rewrite E. apply to_variant_name.
    + f_equal. by apply IHv.
Qed.

#[global] Instance json_serde : Serde json := {|
  de s j := match of_json s j with Some v => Ok v | None => Err BadData end;
  se s v j := j = to_json s v;
  doc_len := json_len;
|}.
#[global] Instance json_serde_laws : SerdeLaws json.
Proof.
  split; cbn.
  - intros s j v _ E. destruct (of_json s j) as [x|] eqn:Ej; [|done]. injection E as <-. by eapply of_json_fits.
  - intros s v j Hw Hp Hv ->. by rewrite (proj1 read_back s Hw Hp v Hv).
  - intros s v w j Hw _ _ -> E. by apply (proj1 write_inj s Hw).
Qed.
