(* ===== verification/Text.v ===== *)
(** * Texts

    What the sources use of Rust's standard library on texts: ASCII case,
    lossy decoding of UTF-8, and the parsing of an [f64].  A [String] is its
    bytes. *)

From S2P Require Import Prelude F64.

Definition byte_of (c : ascii) : Z := Z.of_N (N_of_ascii c).
Definition within (lo hi : Z) (c : ascii) : bool := (lo <=? byte_of c) && (byte_of c <=? hi).

(** ** [str::to_ascii_lowercase] *)

Fixpoint to_ascii_lowercase (s : string) : string :=
  match s with
  | EmptyString => EmptyString
  | String c s => String (if within 65 90 c then ascii_of_N (Z.to_N (byte_of c + 32)) else c) (to_ascii_lowercase s)
  end.

(** ** UTF-8 *)

Definition continuation : ascii -> bool := within 128 191.

(** What must follow a first byte. *)
Definition followers (c : ascii) : option (list (ascii -> bool)) :=
  if within 0 127 c then Some []
  else if within 194 223 c then Some [continuation]
  else if within 224 224 c then Some [within 160 191; continuation]
  else if within 225 236 c then Some [continuation; continuation]
  else if within 237 237 c then Some [within 128 159; continuation]
  else if within 238 239 c then Some [continuation; continuation]
  else if within 240 240 c then Some [within 144 191; continuation; continuation]
  else if within 241 243 c then Some [continuation; continuation; continuation]
  else if within 244 244 c then Some [within 128 143; continuation; continuation]
  else None.

(** The well-formed texts. *)
Inductive is_utf8 : string -> Prop :=
| utf8_nil : is_utf8 EmptyString
| utf8_char c ps l s : followers c = Some ps -> Forall2 (fun p d => p d = true) ps l -> is_utf8 s ->
    is_utf8 (String c (string_of_list_ascii l +:+ s)).

(** The bytes that match, whether all do, and the rest. *)
Fixpoint accept (ps : list (ascii -> bool)) (s : string) {struct ps} : string * bool * string :=
  match ps with
  | [] => (EmptyString, true, s)
  | p :: ps =>
      match s with
      | String c s' => if p c then let '(a, ok, r) := accept ps s' in (String c a, ok, r) else (EmptyString, false, s)
      | EmptyString => (EmptyString, false, s)
      end
  end.

(** U+FFFD. *)
Definition REPLACEMENT : string := String "239" (String "191" (String "189" EmptyString)).

(** [String::from_utf8_lossy]: a maximal prefix of a character that does not
    go on becomes one replacement character. *)
Fixpoint lossy (fuel : nat) (s : string) {struct fuel} : string :=
  match fuel, s with
  | S fuel, String c s =>
      match followers c with
      | Some ps =>
          let '(a, ok, r) := accept ps s in
          (if ok : bool then String c a else REPLACEMENT) +:+ lossy fuel r
      | None => REPLACEMENT +:+ lossy fuel s
      end
  | _, _ => EmptyString
  end.
Definition from_utf8_lossy (s : string) : string := lossy (String.length s) s.

(** ** [f64::from_str] *)

Fixpoint digits (s : string) (v n : Z) {struct s} : Z * Z * string :=
  match s with
  | String c s' => if within 48 57 c then digits s' (10 * v + (byte_of c - 48)) (n + 1) else (v, n, s)
  | EmptyString => (v, n, s)
  end.

Definition sign (s : string) : bool * string :=
  match s with
  | String c s' => if Ascii.eqb c "-" then (true, s') else if Ascii.eqb c "+" then (false, s') else (false, s)
  | EmptyString => (false, s)
  end.

(** [e], [E] with a signed number, or nothing. *)
Definition exponent (s : string) : option Z :=
  match s with
  | EmptyString => Some 0
  | String c s =>
      if Ascii.eqb c "e" || Ascii.eqb c "E" then
        let '(neg, s) := sign s in
        let '(e, n, s) := digits s 0 0 in
        if (0 <? n) && String.eqb s "" then Some (if neg : bool then - e else e) else None
      else None
  end.

(** The double nearest to [m * 10^e]. *)
Definition decimal (neg : bool) (m e : Z) : f64 :=
  match m with
  | Zpos p =>
      if 0 <=? e then binary_round f64_prec f64_emax neg (Z.to_pos (Zpos p * 10 ^ e)) 0
      else let '(m', e', l) := SFdiv_core_binary f64_prec f64_emax (Zpos p) 0 (10 ^ (- e)) 0 in
           binary_round_aux f64_prec f64_emax neg m' e' l
  | _ => S754_zero neg
  end.

Definition parse_f64 (s : string) : option f64 :=
  let '(neg, s) := sign s in
  let lower := to_ascii_lowercase s in
  if String.eqb lower "inf" || String.eqb lower "infinity" then Some (S754_infinity neg)
  else if String.eqb lower "nan" then Some S754_nan
  else
    let '(m, whole, s) := digits s 0 0 in
    let '(m, frac, s) :=
      match s with
      | String c s' => if Ascii.eqb c "." then digits s' m 0 else (m, 0, s)
      | EmptyString => (m, 0, s)
      end in
    if whole + frac =? 0 then None else
    e ← exponent s; Some (decimal neg m (e - frac)).

Example parse_f64_09 : parse_f64 "0.9" = Some (f64_lit 9 1).
Proof. vm_compute. reflexivity. Qed.
Example parse_f64_exponent : parse_f64 "-12.5e1" = Some (f64_of_Z (-125)).
Proof. vm_compute. reflexivity. Qed.
Example parse_f64_not : Forall (fun s => parse_f64 s = None) [""; "."; "e5"; "1e"; "1 "; "--1"; "0x1"]%string.
Proof. repeat constructor. Qed.

(** ** Lemmas *)

Lemma app_cons c (s t : string) : String c s +:+ t = String c (s +:+ t).
Proof. done. Qed.

Lemma accept_length ps : forall s, (String.length (accept ps s).2 <= String.length s)%nat.
Proof.
  induction ps as [|p ps IH]; intros s; [done|]. cbn. destruct s as [|c s]; [done|].
  destruct (p c); [|done]. specialize (IH s). destruct (accept ps s) as [[a ok] r]. cbn in *. lia.
Qed.

Lemma accept_all ps l s : Forall2 (fun p d => p d = true) ps l ->
  accept ps (string_of_list_ascii l +:+ s) = (string_of_list_ascii l, true, s).
Proof.
  induction 1 as [|p d ps l E _ IH]; [done|]. cbn [string_of_list_ascii]. rewrite app_cons. cbn.
  by rewrite E, IH.
Qed.

Lemma accepted_all ps : forall s a r, accept ps s = (a, true, r) ->
  exists l, a = string_of_list_ascii l /\ Forall2 (fun p d => p d = true) ps l.
Proof.
  induction ps as [|p ps IH]; intros s a r E; cbn in E.
  { injection E as <- _. exists []. by split. }
  destruct s as [|c s]; [done|]. destruct (p c) eqn:Ec; [|done].
  destruct (accept ps s) as [[a' ok] r'] eqn:Ea. injection E as <- -> _.
  destruct (IH s a' r' Ea) as (l & -> & Hl). exists (c :: l). split; [done|by constructor].
Qed.

(** The replacement character is well formed. *)
Lemma utf8_replacement s : is_utf8 s -> is_utf8 (REPLACEMENT +:+ s).
Proof.
  intros Hs. apply (utf8_char "239" [continuation; continuation] ["191"; "189"]%char); [done| |done].
  by repeat constructor.
Qed.

(** Decoding yields a well-formed text and leaves one as it is. *)
Lemma lossy_utf8 n : forall s, is_utf8 (lossy n s).
Proof.
  induction n as [|n IH]; intros s; [constructor|]. cbn. destruct s as [|c s]; [constructor|].
  destruct (followers c) as [ps|] eqn:Ef; [|by apply utf8_replacement].
  destruct (accept ps s) as [[a ok] r] eqn:Ea. destruct ok; [|by apply utf8_replacement].
  destruct (accepted_all _ _ _ _ Ea) as (l & -> & Hl). rewrite app_cons. by eapply utf8_char.
Qed.

Lemma lossy_id s : is_utf8 s -> forall n, (String.length s <= n)%nat -> lossy n s = s.
Proof.
  induction 1 as [|c ps l s Ef Hl Hs IH]; intros n Hn; [by destruct n|].
  destruct n as [|n]; cbn in Hn; [lia|]. cbn. rewrite Ef, (accept_all _ _ _ Hl).
  rewrite string_app_length in Hn. by rewrite app_cons, IH by lia.
Qed.

Lemma from_utf8_lossy_utf8 s : is_utf8 (from_utf8_lossy s).
Proof. apply lossy_utf8. Qed.
Lemma from_utf8_lossy_id s : is_utf8 s -> from_utf8_lossy s = s.
Proof. intros. by apply lossy_id. Qed.

(** ASCII texts are well formed. *)
Lemma ascii_utf8 s : forallb (within 0 127) (list_ascii_of_string s) = true -> is_utf8 s.
Proof.
  induction s as [|c s IH]; cbn; [constructor|]. intros E. apply andb_prop in E as [Ec E].
  apply (utf8_char c [] []); [by unfold followers; rewrite Ec|constructor|by apply IH].
Qed.
