(* ===== verification/Lattice.v ===== *)
(** * The store pressure index ([crates/server/src/lattice.rs])

    Moving averages of latency, failures and contention, and the index and
    tier computed from them.  The logarithm of the platform is a parameter:
    nothing below depends on it.  The theorems: the index stays in its range,
    the tier grows with the index, and a store that fails is under siege
    whatever the rest. *)

From S2P Require Import Prelude Core F64.

(** [ALPHA]. *)
Definition ALPHA : f64 := f64_lit 3 1.

Record StorePressureIndex := mk_spi {
  latency_us : f64; failure_ratio : f64; contention_ratio : f64; spi : f64; last_tick : Z }.

Inductive Tier := Normal | Elevated | Critical | Siege.

Definition as_u8 (t : Tier) : Z := match t with Normal => 0 | Elevated => 1 | Critical => 2 | Siege => 3 end.
Definition as_str (t : Tier) : string :=
  match t with Normal => "NORMAL" | Elevated => "ELEVATED" | Critical => "CRITICAL" | Siege => "SIEGE" end.

Abbreviation f := f64_of_Z.

(** [default], at an instant. *)
Definition spi_new (now : Z) : StorePressureIndex := mk_spi (f 500) (f 0) (f 0) (f 0) now.

(** [avg += ALPHA * (x - avg)]. *)
Definition smooth (avg x : f64) : f64 := f64_add avg (f64_mul ALPHA (f64_sub x avg)).

(** [observe]. *)
Definition observe (latency : duration) (ok denied : bool) (s : StorePressureIndex) : StorePressureIndex :=
  let us := f (latency / 1000) in
  mk_spi (smooth (latency_us s) us) (smooth (failure_ratio s) (if ok then f 0 else f 1))
    (smooth (contention_ratio s) (if denied then f 1 else f 0)) (spi s) (last_tick s).

(** [tier]. *)
Definition tier_of (x : f64) : Tier :=
  if f64_leb (f 90) x then Siege
  else if f64_leb (f 70) x then Critical
  else if f64_leb (f 40) x then Elevated
  else Normal.
Definition tier (s : StorePressureIndex) : Tier := tier_of (spi s).

(** [recommended_cadence_multiplier]. *)
Definition cadence_multiplier (s : StorePressureIndex) : f64 :=
  match tier s with Normal => f 1 | Elevated => f64_lit 15 1 | Critical => f 2 | Siege => f 3 end.

Section tick.
Variable ln : f64 -> f64.

Definition raw_score (s : StorePressureIndex) : f64 :=
  let lat_norm := f64_min (f64_div (f64_max (ln (f64_div (latency_us s) (f 10000))) (f 0)) (f 5)) (f 1) in
  f64_add (f64_add (f64_mul lat_norm (f 35)) (f64_mul (failure_ratio s) (f 55))) (f64_mul (contention_ratio s) (f 10)).

(** [tick], at an instant. *)
Definition tick (now : Z) (s : StorePressureIndex) : StorePressureIndex :=
  let score := raw_score s in
  let score := if f64_ltb (f64_lit 8 1) (failure_ratio s) then f64_max score (f 95) else score in
  mk_spi (latency_us s) (failure_ratio s) (contention_ratio s) (f64_clamp score (f 0) (f 100)) now.
End tick.

(** ** Lemmas *)

Lemma clamp_range x : is_nan x = false ->
  f64_leb (f 0) (f64_clamp x (f 0) (f 100)) = true /\ f64_leb (f64_clamp x (f 0) (f 100)) (f 100) = true.
Proof.
  intros Hx. unfold f64_clamp. destruct (f64_ltb x (f 0)) eqn:E0.
  { split; vm_compute; reflexivity. }
  pose proof (f64_leb_total x (f 0) Hx eq_refl E0) as H0. destruct (f64_ltb (f 100) x) eqn:E1.
  { split; vm_compute; reflexivity. }
  split; [done|]. by apply f64_leb_total.
Qed.

Lemma max_at_least x y : is_nan y = false -> f64_leb y (f64_max x y) = true.
Proof.
  intros Hy. unfold f64_max. destruct (is_nan x) eqn:Hx; [by apply f64_leb_refl|]. rewrite Hy.
  destruct (f64_ltb x y) eqn:E; [by apply f64_leb_refl|by apply f64_leb_total].
Qed.

Lemma clamp_keeps x lo : f64_leb lo x = true -> f64_leb (f 0) lo = true -> f64_leb lo (f 100) = true ->
  f64_leb lo (f64_clamp x (f 0) (f 100)) = true.
Proof.
  intros H1 H2 H3. destruct (f64_leb_nan _ _ H1) as [Hlo Hx]. pose proof (f64_leb_trans _ _ _ H2 H1) as H0. unfold f64_clamp.
  assert (f64_ltb x (f 0) = false) as ->.
  { rewrite f64_leb_ltb in H0 by done. by apply negb_true_iff in H0. }
  cbv beta iota zeta. by destruct (f64_ltb (f 100) x).
Qed.

(** ** Properties *)

(** The index stays in its range and the tier grows with it: after every
    tick the index is between 0 and 100 (or, from a NaN in the averages, a
    NaN), and of two indices the larger has the same tier or a higher one. *)
Theorem pressure_bounds ln now s :
  (is_nan (spi (tick ln now s)) = false ->
     f64_leb (f 0) (spi (tick ln now s)) = true /\ f64_leb (spi (tick ln now s)) (f 100) = true) /\
  (forall x y, f64_leb x y = true -> as_u8 (tier_of x) <= as_u8 (tier_of y)).
Proof.
  split.
  - intros Hn. unfold tick in *. cbn [spi] in *. apply clamp_range.
    destruct (if f64_ltb (f64_lit 8 1) _ then _ else _); [done..| |done]. exfalso. vm_compute in Hn. discriminate.
  - intros x y Hxy. unfold tier_of.
    assert (forall b, f64_leb b x = true -> f64_leb b y = true) as Ht by (intros b Hb; by eapply f64_leb_trans).
    destruct (f64_leb (f 90) x) eqn:E1; [by rewrite (Ht _ E1)|].
    destruct (f64_leb (f 70) x) eqn:E2; [rewrite (Ht _ E2); by destruct (f64_leb (f 90) y)|].
    destruct (f64_leb (f 40) x) eqn:E3; [rewrite (Ht _ E3)|];
      destruct (f64_leb (f 90) y), (f64_leb (f 70) y); try destruct (f64_leb (f 40) y); done.
Qed.

(** A failing store is under siege.  Whenever the failure average exceeds
    0.8 the next tick puts the tier at [Siege], whatever the latency, the
    contention and the logarithm; and five failures in a row from a fresh
    index, whatever their latencies and denials, are enough for that. *)
Theorem failures_besiege ln now s :
  (f64_ltb (f64_lit 8 1) (failure_ratio s) = true -> tier (tick ln now s) = Siege) /\
  (forall t0 obs, length obs = 5%nat ->
     tier (tick ln now (foldl (fun s (o : duration * bool) => observe o.1 false o.2 s) (spi_new t0) obs)) = Siege).
Proof.
  assert (forall s, f64_ltb (f64_lit 8 1) (failure_ratio s) = true -> tier (tick ln now s) = Siege) as Hs.
  { intros s' Hf. unfold tier, tier_of, tick. cbn [spi]. rewrite Hf.
    assert (f64_leb (f 95) (f64_clamp (f64_max (raw_score ln s') (f 95)) (f 0) (f 100)) = true) as H95.
    { apply clamp_keeps; [by apply max_at_least|vm_compute; reflexivity..]. }
    by rewrite (f64_leb_trans (f 90) (f 95) _ eq_refl H95). }
  split; [apply Hs|]. intros t0 [|o1 [|o2 [|o3 [|o4 [|o5 [|o6 obs]]]]]] Hl; try done. apply Hs.
  cbn [foldl observe failure_ratio spi_new]. vm_compute. reflexivity.
Qed.

Lemma pressure_bounds_witness :
  (is_nan (spi (tick id 0 (spi_new 0))) = false -> f64_leb (spi (tick id 0 (spi_new 0))) (f 100) = true) /\
  as_u8 (tier_of (f 50)) <= as_u8 (tier_of (f 80)).
Proof.
  destruct (pressure_bounds id 0 (spi_new 0)) as [H1 H2]. split; [intros Hn; by apply H1|].
  apply H2. vm_compute. reflexivity.
Defined.

Lemma failures_besiege_witness :
  tier (tick id 0 (foldl (fun s (o : duration * bool) => observe o.1 false o.2 s) (spi_new 0)
    (replicate 5 (from_millis 1, true)))) = Siege.
Proof. apply (failures_besiege id 0 (spi_new 0)). reflexivity. Defined.
