(* ===== verification/Predictor.v ===== *)
(** * The contention predictor ([crates/core/src/predictor.rs])

    Per key, a running mean and variance of hold times in double precision,
    and the window forecast from them.  The theorems: when a forecast is
    offered, and that a key that is always held for the same time is forecast
    exactly. *)

From S2P Require Import Prelude Core F64.

Definition MIN_SAMPLES : Z := 3.

Record AvailabilityForecast := mk_forecast {
  best_case_ms : Z; expected_ms : Z; worst_case_ms : Z; confidence_samples : Z }.

Record KeyStats := mk_stats { ewma_ms : f64; ewma_var_ms : f64; samples : Z }.

(** The map in the mutex. *)
Abbreviation predictor := (gmap string KeyStats).

(** The update of one key's statistics. *)
Definition observe_stats (hold_ms : Z) (st : KeyStats) : KeyStats :=
  let n := samples st + 1 in
  let alpha := f64_div (f64_of_Z 1) (f64_of_Z (Z.min n 20)) in
  let delta := f64_sub (f64_of_Z hold_ms) (ewma_ms st) in
  mk_stats (f64_add (ewma_ms st) (f64_mul alpha delta))
    (f64_add (ewma_var_ms st) (f64_mul alpha (f64_sub (f64_mul delta delta) (ewma_var_ms st)))) n.

(** [observe_hold]. *)
Definition observe_hold (key : string) (hold_ms : Z) (keys : predictor) : predictor :=
  let st := default (mk_stats (f64_of_Z hold_ms) (f64_of_Z 0) 0) (keys !! key) in
  <[key := observe_stats hold_ms st]> keys.

Definition window (st : KeyStats) (elapsed : Z) : AvailabilityForecast :=
  let sigma := f64_max (f64_sqrt (ewma_var_ms st)) (f64_of_Z 1) in
  let remaining_best := f64_sub (f64_max (f64_sub (ewma_ms st) sigma) (f64_of_Z 1)) (f64_of_Z elapsed) in
  let remaining_exp := f64_sub (ewma_ms st) (f64_of_Z elapsed) in
  let remaining_worst := f64_sub (f64_add (ewma_ms st) sigma) (f64_of_Z elapsed) in
  let ms x := f64_as_u64 (f64_max x (f64_of_Z 0)) in
  mk_forecast (ms remaining_best) (ms remaining_exp) (ms remaining_worst) (samples st).

(** [forecast]. *)
Definition forecast (key : string) (elapsed : Z) (keys : predictor) : option AvailabilityForecast :=
  st ← keys !! key; if samples st <? MIN_SAMPLES then None else Some (window st elapsed).

Definition observe_all (key : string) (holds : list Z) (keys : predictor) : predictor :=
  foldl (fun keys h => observe_hold key h keys) keys holds.

(** Holds of 100, 200 and 300 ms: mean 200 ms, spread about 104 ms; the
    worst case is one spread above the mean. *)
Example forecast_spread :
  forecast "k" 0 (observe_all "k" [100; 200; 300] ∅) = Some (mk_forecast 95 200 304 3).
Proof. vm_compute. reflexivity. Qed.

(** ** Small integers are exact *)

Lemma digits2_bound m : 2 ^ (Z.pos (digits2_pos m) - 1) <= Z.pos m.
Proof.
  induction m as [m IH|m IH|]; cbn [digits2_pos]; [| |done]; rewrite Pos2Z.inj_succ;
    replace (Z.succ (Z.pos (digits2_pos m)) - 1) with (Z.succ (Z.pos (digits2_pos m) - 1)) by lia;
    rewrite Z.pow_succ_r by lia; lia.
Qed.

Lemma digits2_iter m p : Z.pos (digits2_pos (Pos.iter xO m p)) = Z.pos (digits2_pos m) + Z.pos p.
Proof.
  induction p as [|p IH] using Pos.peano_ind; [cbn; lia|]. rewrite Pos.iter_succ. cbn [digits2_pos]. lia.
Qed.

Lemma iter_xO_value m p : Z.pos (Pos.iter xO m p) = Z.pos m * 2 ^ Z.pos p.
Proof.
  induction p as [|p IH] using Pos.peano_ind; [cbn; lia|]. rewrite Pos.iter_succ, Pos2Z.inj_succ, Z.pow_succ_r by lia. lia.
Qed.

Lemma round_exact m e : Z.pos (digits2_pos m) = 53 -> -1074 <= e <= 971 ->
  binary_round_aux 53 f64_emax false (Z.pos m) e loc_Exact = S754_finite false m e.
Proof.
  intros Hd He. unfold binary_round_aux, shr_fexp, fexp, SpecFloat.emin, f64_emax. cbn [Zdigits2 shr_record_of_loc].
  rewrite Hd. rewrite Z.max_l by lia. replace (53 + e - 53 - e) with 0 by lia. cbn [shr shr_m loc_of_shr_record round_nearest_even].
  cbn [Zdigits2 shr_record_of_loc]. rewrite Hd. rewrite Z.max_l by lia. replace (53 + e - 53 - e) with 0 by lia. cbn [shr shr_m].
  rewrite (proj2 (Z.leb_le _ _)) by lia. done.
Qed.

(** An integer below 2^53 is a double of its own value. *)
Lemma f64_of_Z_exact z : 0 < z < 2 ^ 53 -> exists m e, f64_of_Z z = S754_finite false m e /\ f64_as_u64 (f64_of_Z z) = z.
Proof.
  intros Hz. destruct z as [|m|m]; try lia. pose proof (digits2_bound m) as Hb.
  assert (Z.pos (digits2_pos m) <= 53) as Hd.
  { apply Z.nlt_ge. intros Hlt. assert (2 ^ 53 <= 2 ^ (Z.pos (digits2_pos m) - 1)) by (apply Z.pow_le_mono_r; lia). lia. }
  set (d := digits2_pos m) in *.
  unfold f64_of_Z, binary_normalize, binary_round, shl_align, fexp, SpecFloat.emin.
  change (3 - f64_emax - f64_prec) with (-1074). change f64_prec with 53. fold d.
  rewrite Z.max_l by lia. rewrite Z.add_0_r, Z.sub_0_r.
  destruct (Z.pos d - 53) as [|p|p] eqn:Ed; [|lia|].
  - rewrite (round_exact m 0) by lia. exists m, 0. split; [done|]. cbn [f64_as_u64 Z.leb Z.compare]. unfold u64_max, u64_mod. lia.
  - pose proof (digits2_iter m p) as Hi. fold d in Hi. rewrite (round_exact _ (Z.neg p)) by lia.
    eexists _, _. split; [done|]. cbn [f64_as_u64]. rewrite (proj2 (Z.leb_gt _ _)) by lia.
    change (- Z.neg p) with (Z.pos p). rewrite iter_xO_value, Z.div_mul by lia. unfold u64_max, u64_mod. lia.
Qed.

(** ** A steady key *)

Lemma sub_same s m e : f64_sub (S754_finite s m e) (S754_finite s m e) = S754_zero false.
Proof. unfold f64_sub, SFsub. by rewrite Z.sub_diag. Qed.

Lemma alpha_finite n : 1 <= n -> exists m e, f64_div (f64_of_Z 1) (f64_of_Z (Z.min n 20)) = S754_finite false m e.
Proof.
  intros Hn.
  assert (forallb (fun k => match f64_div (f64_of_Z 1) (f64_of_Z k) with S754_finite false _ _ => true | _ => false end)
    (seqZ 1 20) = true) as Hc by (vm_compute; reflexivity).
  rewrite forallb_forall in Hc. specialize (Hc (Z.min n 20)).
  destruct (f64_div (f64_of_Z 1) (f64_of_Z (Z.min n 20))) as [|[]| |[] m e];
    try (discriminate Hc; apply list_elem_of_In, elem_of_seqZ; lia). by exists m, e.
Qed.

Lemma steady_step h st : 0 < h < 2 ^ 53 -> 0 <= samples st -> ewma_ms st = f64_of_Z h -> ewma_var_ms st = f64_of_Z 0 ->
  observe_stats h st = mk_stats (f64_of_Z h) (f64_of_Z 0) (samples st + 1).
Proof.
  intros Hh Hn He Hv. destruct (f64_of_Z_exact h Hh) as (m & e & Ef & _). unfold observe_stats. rewrite He, Hv.
  destruct (alpha_finite (samples st + 1)) as (am & ae & ->); [lia|]. rewrite Ef, sub_same.
  change (f64_of_Z 0) with (S754_zero false). done.
Qed.

Lemma steady_from key h n : 0 < h < 2 ^ 53 -> forall k keys, 0 <= k ->
  keys !! key = Some (mk_stats (f64_of_Z h) (f64_of_Z 0) k) ->
  observe_all key (replicate n h) keys !! key = Some (mk_stats (f64_of_Z h) (f64_of_Z 0) (k + Z.of_nat n)).
Proof.
  intros Hh. unfold observe_all. induction n as [|n IH]; intros k keys Hk E; cbn [replicate foldl].
  { rewrite E. do 2 f_equal. lia. }
  rewrite (IH (k + 1)); [do 2 f_equal; lia|lia|].
  unfold observe_hold. rewrite E, lookup_insert_eq. cbn [default]. by rewrite (steady_step h).
Qed.

Lemma steady_all key h n : 0 < h < 2 ^ 53 -> (0 < n)%nat ->
  observe_all key (replicate n h) ∅ !! key = Some (mk_stats (f64_of_Z h) (f64_of_Z 0) (Z.of_nat n)).
Proof.
  intros Hh Hn. destruct n as [|n]; [lia|]. cbn [replicate].
  change (observe_all key (h :: replicate n h) ∅) with (observe_all key (replicate n h) (observe_hold key h ∅)).
  rewrite (steady_from key h n Hh 1); [do 2 f_equal; lia|lia|].
  unfold observe_hold. rewrite lookup_empty, lookup_insert_eq. cbn [default]. by rewrite (steady_step h).
Qed.

Lemma observe_all_samples key holds : forall keys n, (samples <$> keys !! key) = (if n =? 0 then None else Some n) -> 0 <= n ->
  (samples <$> observe_all key holds keys !! key) =
    (if n + Z.of_nat (length holds) =? 0 then None else Some (n + Z.of_nat (length holds))).
Proof.
  induction holds as [|h holds IH]; intros keys n E Hn; [by rewrite Z.add_0_r|]. cbn [observe_all foldl length].
  unfold observe_all in IH. rewrite (IH _ (n + 1)); [by replace (n + 1 + Z.of_nat (length holds)) with (n + Z.of_nat (S (length holds))) by lia| |lia].
  unfold observe_hold. rewrite lookup_insert_eq. cbn [fmap option_fmap option_map samples observe_stats].
  rewrite (proj2 (Z.eqb_neq (n + 1) 0)) by lia. destruct (keys !! key) as [st|]; cbn in E |- *; case_match; zbool; simplify_eq; do 2 f_equal; lia.
Qed.

(** A forecast is offered from the third completed hold of a key on, and
    not before, whatever the holds were. *)
Theorem forecast_needs_samples key holds elapsed :
  is_Some (forecast key elapsed (observe_all key holds ∅)) <-> (3 <= length holds)%nat.
Proof.
  pose proof (observe_all_samples key holds ∅ 0 eq_refl ltac:(lia)) as E. rewrite Z.add_0_l in E. unfold forecast.
  destruct (observe_all key holds ∅ !! key) as [st|]; cbn in E |- *; case_match; zbool; simplify_eq.
  - rewrite E. unfold MIN_SAMPLES. destruct (_ <? 3) eqn:H3; zbool; split; [by intros []|lia|lia|done].
  - split; [by intros []|lia].
Qed.

(** A key that is held for the same time, a whole number of milliseconds
    below 2^53, three times or more is forecast exactly: at the moment it is
    taken, the expected release is that many milliseconds away. *)
Theorem steady_forecast_exact key h n : 0 < h < 2 ^ 53 -> (3 <= n)%nat ->
  exists w, forecast key 0 (observe_all key (replicate n h) ∅) = Some w /\ expected_ms w = h /\
            confidence_samples w = Z.of_nat n.
Proof.
  intros Hh Hn. unfold forecast. rewrite steady_all by (done || lia). cbn [mbind option_bind samples].
  unfold MIN_SAMPLES. rewrite (proj2 (Z.ltb_ge _ _)) by lia. eexists. split; [reflexivity|]. split; [|done].
  unfold window. cbn [expected_ms ewma_ms]. destruct (f64_of_Z_exact h Hh) as (m & e & Ef & Ev).
  change (f64_of_Z 0) with (S754_zero false). rewrite Ef in Ev |- *. exact Ev.
Qed.

Lemma steady_forecast_exact_witness : exists w,
  forecast "k" 0 (observe_all "k" (replicate 25 37) ∅) = Some w /\ expected_ms w = 37 /\ confidence_samples w = 25.
Proof. apply (steady_forecast_exact "k" 37 25); [done|lia]. Defined.
