(* ===== verification/FencePg.v ===== *)
(** * The Postgres fencing adapter ([crates/core/src/fence_pg.rs])

    The SQL texts, [None] where the code panics.  The theorems: which calls
    produce a text, and the places of its parameters. *)

From S2P Require Import Prelude.

(** [char::is_ascii_alphanumeric], [_] or [.]. *)
Definition identifier_char (c : Ascii.ascii) : bool :=
  let n := Z.of_nat (Ascii.nat_of_ascii c) in
  (48 <=? n) && (n <=? 57) || (65 <=? n) && (n <=? 90) || (97 <=? n) && (n <=? 122) || (n =? 95) || (n =? 46).

(** [assert_identifier]: whether the assertion passes. *)
Definition identifier (id : string) : bool :=
  negb (String.eqb id "") && forallb identifier_char (list_ascii_of_string id).

Definition param (i : nat) : string := "$" +:+ pretty (N.of_nat i).

(** [ensure_fence_column]. *)
Definition ensure_fence_column (table : string) : option string :=
  if identifier table
  then Some ("ALTER TABLE " +:+ table +:+ " ADD COLUMN IF NOT EXISTS last_fence BIGINT NOT NULL DEFAULT 0")
  else None.

(** The assignments and their parameters, from [$2] on. *)
Definition set_parts (assignments : list string) : list string :=
  imap (fun i a => a +:+ " = " +:+ param (i + 2)) assignments.

(** [fenced_update]. *)
Definition fenced_update (table id_col : string) (assignments : list string) : option (string * nat) :=
  if identifier table && identifier id_col && forallb (fun a => negb (String.eqb a "")) assignments then
    let fence_idx := (length assignments + 2)%nat in
    Some ("UPDATE " +:+ table +:+ " SET " +:+ String.concat ", " (set_parts assignments) +:+ ", last_fence = "
          +:+ param fence_idx +:+ " WHERE " +:+ id_col +:+ " = $1 AND " +:+ param fence_idx +:+ " > last_fence",
          fence_idx)
  else None.

(** [fenced_select]. *)
Definition fenced_select (table id_col : string) (value_cols : list string) : option string :=
  if identifier table && identifier id_col then
    let cols := match value_cols with [] => "last_fence" | _ => String.concat ", " value_cols +:+ ", last_fence" end in
    Some ("SELECT " +:+ cols +:+ " FROM " +:+ table +:+ " WHERE " +:+ id_col +:+ " = $1 AND $2 > last_fence")
  else None.

(** The texts the source's tests expect. *)
Example fenced_update_shapes_params : fenced_update "orders" "id" ["status"; "amount"]%string =
  Some ("UPDATE orders SET status = $2, amount = $3, last_fence = $4 WHERE id = $1 AND $4 > last_fence"%string, 4%nat).
Proof. vm_compute. reflexivity. Qed.
Example fenced_select_shapes : fenced_select "orders" "id" ["status"]%string =
  Some "SELECT status, last_fence FROM orders WHERE id = $1 AND $2 > last_fence"%string.
Proof. vm_compute. reflexivity. Qed.
Example rejects_injection_in_table : fenced_update "orders; DROP TABLE users" "id" ["x = "]%string = None.
Proof. vm_compute. reflexivity. Qed.

Lemma param_inj : Inj (=) (=) param.
Proof. intros i j E. unfold param in E. by apply (inj (String.append "$")), (inj pretty), (inj N.of_nat) in E. Qed.

(** The parameters of a fenced update.  A call with valid identifiers and
    non-empty assignments gives a text; its [i]-th assignment binds parameter
    [i + 2], so that the row id, the assignments and the fence have
    parameters of their own, the fence the last of them; every other call
    panics. *)
Theorem fenced_update_params table id_col assignments :
  match fenced_update table id_col assignments with
  | Some (_, fence_idx) => identifier table = true /\ identifier id_col = true /\ Forall (fun a => a <> ""%string) assignments /\
      (forall i a, assignments !! i = Some a ->
         set_parts assignments !! i = Some (a +:+ " = " +:+ param (i + 2)) /\
         param (i + 2) <> param 1 /\ param (i + 2) <> param fence_idx) /\
      NoDup (param <$> seq 1 fence_idx)
  | None => identifier table = false \/ identifier id_col = false \/ Exists (fun a => a = ""%string) assignments
  end.
Proof.
  unfold fenced_update. destruct (identifier table); [|by left]. destruct (identifier id_col); [|by right; left].
  cbn [andb]. destruct (forallb _ assignments) eqn:Ea.
  - split_and!; [done|done| | |].
    + apply Forall_forall. intros a Ha. rewrite forallb_forall in Ea. apply list_elem_of_In in Ha. specialize (Ea a Ha).
      apply negb_true_iff, String.eqb_neq in Ea. done.
    + intros i a Hi. unfold set_parts. rewrite list_lookup_imap, Hi. split; [done|].
      pose proof (lookup_lt_Some _ _ _ Hi). split; intros E; apply (inj param) in E; lia.
    + apply NoDup_fmap_2; [apply param_inj|apply NoDup_seq].
  - right. right. apply not_true_iff_false in Ea. rewrite forallb_forall in Ea.
    destruct (decide (Exists (fun a => a = ""%string) assignments)) as [|Hn]; [done|]. exfalso. apply Ea.
    intros a Ha. apply negb_true_iff, String.eqb_neq. intros ->. apply Hn, Exists_exists. exists ""%string.
    split; [by apply list_elem_of_In|done].
Qed.
