(* ===== verification/Redlock.v ===== *)
(** * Redlock ([crates/redis/src/redlock.rs])

    Quorum locking over independent servers: the acquisition round, renewal,
    release and watchdog over the servers of a [world].  The main theorem is
    quorum intersection: while one token holds a quorum, no round of another
    token succeeds. *)

From S2P Require Import Prelude Core Redis Scripts World Lease Single F64.

Definition redlock_RENEWAL_DIVISOR : Z := 3.
Definition MAX_CONSECUTIVE_RENEW_FAILURES : Z := 2.
Definition MAX_ROUND_FRACTION : f64 := f64_lit 9 1.
Definition FENCE_ALLOCATOR_KEY : string := "__palisade__:fence-allocator".

(** [RedlockConfig::validate]. *)
Definition redlock_validate (nodes : list string) : res error unit :=
  if (length nodes <? 3)%nat then Err (InvalidConfig "redlock needs at least 3 independent masters, got {}")
  else if existsb is_blank nodes then Err (InvalidConfig "empty redlock node url")
  else Ok tt.

Record RedlockManager := mk_redlock {
  rl_nodes : list conn;
  rl_allocator : conn;
  rl_quorum : nat;
  rl_default_ttl : duration;
}.

(** The manager of a ring; its fence allocator is the first node. *)
Definition redlock_ring (nodes : list conn) : RedlockManager :=
  mk_redlock nodes (default 0%nat (head nodes)) (length nodes / 2 + 1) (from_secs 30).

(** [RedlockManager::connect], with the connection of each URL given. *)
Definition redlock_connect (config : list string) (open : string -> conn) : res error RedlockManager :=
  match redlock_validate config with
  | Err e => Err e
  | Ok _ => Ok (redlock_ring (map open config))
  end.

Section redlock.
Context {U : UuidSource} {R : Type} `{Redis R}.
Open Scope world_scope.

(** [RedlockShared]; [gone], [poisoned] and [lost] are in the cell. *)
Record RedlockShared := mk_redlock_handle {
  ql_manager : RedlockManager;
  ql_key : string;
  ql_token : string;
  ql_owner : OwnerId;
  ql_fence : FencingToken;
  ql_ttl : duration;
  ql_cell : nat;
}.

Definition redlock_lost (s : RedlockShared) : error := Lost (ql_key s) (value (ql_fence s)).

(** [RedlockManager::release_node]. *)
Definition release_node (node : conn) (key token : string) : M R (option Z) :=
  let* r := invoke_int node RELEASE [key; fence_key_for key] [token] in
  ret (match r with Ok z => Some z | Err _ => None end).

(** [RedlockManager::allocate_fence]. *)
Definition allocate_fence (m : RedlockManager) : M R (res error FencingToken) :=
  let? v := backend "fence allocation failed: {e}" (invoke (rl_allocator m) (r_incr FENCE_ALLOCATOR_KEY)) in
  ret (Ok (fence_new (wrap64 v))).

(** The loop over the nodes of [try_lock]: those that granted, or the error
    reply of one of them, which ends the call. *)
Fixpoint acquire_nodes (nodes : list conn) (key token : string) (ttl_ms : Z) (acquired : list conn)
    {struct nodes} : M R (res error (list conn)) :=
  match nodes with
  | [] => ret (Ok acquired)
  | node :: nodes =>
      let slice := from_millis (Z.max (ttl_ms / 4) 100) in
      let* r := timeout slice
        (invoke_pair node ACQUIRE [key; fence_key_for key]
           [token; z_to_string ttl_ms; z_to_string (u64_mul ttl_ms 10)]) in
      match r with
      | Some (Ok (status, _)) =>
          if (status =? 1) || (status =? 2)
          then acquire_nodes nodes key token ttl_ms (acquired ++ [node])
          else acquire_nodes nodes key token ttl_ms acquired
      | Some (Err _) => ret (Err (Backend "redlock node {i}: {e}"))
      | None => acquire_nodes nodes key token ttl_ms acquired
      end
  end.

Fixpoint release_nodes (nodes : list conn) (key token : string) {struct nodes} : M R (list (option Z)) :=
  match nodes with
  | [] => ret []
  | node :: nodes =>
      let* r := release_node node key token in
      let* rs := release_nodes nodes key token in
      ret (r :: rs)
  end.

(** [RedlockManager::make_handle]. *)
Definition make_handle (m : RedlockManager) (key token : string) (owner : OwnerId) (fence : FencingToken)
    (t : duration) : M R RedlockShared :=
  let* cell := new_cell in
  do* spawn (TWatchdog cell) in
  ret (mk_redlock_handle m key token owner fence t cell).

(** [RedlockManager::try_lock]. *)
Definition redlock_try_lock (m : RedlockManager) (key : string) (options : LockOptions) :
    M R (res error RedlockShared) :=
  let? _u := ret (validate options) in
  let* started := instant_now in
  let ttl_ms := as_millis_u64 (ttl options) in
  let* owner := fresh_owner in
  let token := owner_token owner in
  let? acquired := acquire_nodes (rl_nodes m) key token ttl_ms [] in
  let* now := instant_now in
  let elapsed_ok := f64_ltb (as_secs_f64 (now - started)) (f64_mul (as_secs_f64 (ttl options)) MAX_ROUND_FRACTION) in
  if (rl_quorum m <=? length acquired)%nat && elapsed_ok then
    let? fence := allocate_fence m in
    let* h := make_handle m key token owner fence (ttl options) in
    ret (Ok h)
  else
    let* _rs := release_nodes acquired key token in
    ret (Err (Held key)).

Definition try_lock_default (m : RedlockManager) (key : string) : M R (res error RedlockShared) :=
  redlock_try_lock m key (with_ttl (rl_default_ttl m) default_options).

(** [RedlockManager::try_lock_for]. *)
Definition redlock_try_lock_for (fuel : nat) (m : RedlockManager) (key : string) (options : LockOptions)
    (wait : duration) : M R (res error RedlockShared) :=
  poll_for fuel key wait (redlock_try_lock m key options).

(** [LockManager::lock] for this manager. *)
Definition redlock_lock (fuel : nat) (m : RedlockManager) (key : string) (options : LockOptions) :
    M R (res error RedlockShared) :=
  redlock_try_lock_for fuel m key options duration_max.

(** [RedlockShared::fire_extend]: how many nodes extended, and whether one
    answered that the token is not the owner. *)
Fixpoint extend_nodes (nodes : list conn) (s : RedlockShared) (ttl_ms : Z) (ok : nat) (saw_not_owner : bool)
    {struct nodes} : M R (nat * bool) :=
  match nodes with
  | [] => ret (ok, saw_not_owner)
  | node :: nodes =>
      let* r := invoke_int node EXTEND [ql_key s; fence_key_for (ql_key s)]
        [ql_token s; z_to_string ttl_ms; z_to_string (u64_mul ttl_ms 10)] in
      match r with
      | Ok z => if z =? 1 then extend_nodes nodes s ttl_ms (S ok) saw_not_owner
                else extend_nodes nodes s ttl_ms ok true
      | Err _ => extend_nodes nodes s ttl_ms ok saw_not_owner
      end
  end.

Definition redlock_fire_extend (s : RedlockShared) (t : duration) : M R (res error bool) :=
  let* counts := extend_nodes (rl_nodes (ql_manager s)) s (as_millis_u64 t) 0 false in
  let '(ok, saw_not_owner) := counts in
  ret (if (rl_quorum (ql_manager s) <=? ok)%nat then Ok true
       else if saw_not_owner : bool then Ok false
       else Err (Backend "extend round failed on all nodes")).

(** [run_release]. *)
Definition redlock_run_release (s : RedlockShared) : M R (res error unit) :=
  let* rs := release_nodes (rl_nodes (ql_manager s)) (ql_key s) (ql_token s) in
  let released_any := existsb (fun r => bool_decide (r = Some 1)) rs in
  let saw_not_owner := existsb (fun r => bool_decide (r = Some 0)) rs in
  ret (if released_any then Ok tt
       else if saw_not_owner then Err (redlock_lost s)
       else Err (Backend "release failed on all nodes")).

(** [RedlockHandle::release]. *)
Definition redlock_release (s : RedlockShared) : M R (res error unit) :=
  let* first := mark_released (ql_cell s) in
  if negb first then ret (Ok tt) else redlock_run_release s.

(** [RedlockHandle::extend]. *)
Definition redlock_extend (s : RedlockShared) (t : duration) : M R (res error unit) :=
  if t <? MIN_TTL then ret (Err (InvalidConfig "extend ttl {:?} is below the {:?} floor")) else
  let* f := cell (ql_cell s) in
  if released f then ret (Err (redlock_lost s)) else
  let* r := redlock_fire_extend s t in
  match r with
  | Ok true => ret (Ok tt)
  | Ok false => do* mark_lost (ql_cell s) in ret (Err (redlock_lost s))
  | Err e => ret (Err e)
  end.

(** One round of [spawn_watchdog]. *)
Definition redlock_watchdog_round (s : RedlockShared) (transient_failures : Z) : M R (option Z) :=
  do* sleep (ql_ttl s / redlock_RENEWAL_DIVISOR) in
  let* f := cell (ql_cell s) in
  if dropped f then ret None else
  if released f then ret None else
  let* r := redlock_fire_extend s (ql_ttl s) in
  match r with
  | Ok true => ret (Some 0)
  | Ok false => do* mark_lost (ql_cell s) in ret None
  | Err _ =>
      let transient_failures := transient_failures + 1 in
      if MAX_CONSECUTIVE_RENEW_FAILURES <=? transient_failures
      then do* mark_lost (ql_cell s) in ret None
      else ret (Some transient_failures)
  end.

(** [Drop for RedlockShared]: one detached task releases on every node. *)
Definition redlock_drop (runtime : bool) (s : RedlockShared) : M R unit :=
  do* update_cell (ql_cell s) set_dropped in
  let* first := mark_released (ql_cell s) in
  if negb first then ret tt else
  if runtime
  then spawn (TScriptEach (rl_nodes (ql_manager s)) RELEASE [ql_key s; fence_key_for (ql_key s)] [ql_token s])
  else ret tt.

Lemma safe_acquire_nodes nodes key token ttl_ms : forall acquired,
  safe (R:=R) (acquire_nodes nodes key token ttl_ms acquired).
Proof.
  induction nodes as [|n nodes IH]; intros acquired; cbn [acquire_nodes]; [solve_safe|].
  apply safe_bind; [apply safe_timeout; [unfold from_millis; lia|apply safe_invoke_pair]|].
  intros [[[st f]|e]|]; [destruct (_ || _)| |]; solve_safe.
Qed.
Lemma safe_release_nodes nodes key token : safe (R:=R) (release_nodes nodes key token).
Proof.
  induction nodes as [|n nodes IH]; cbn [release_nodes]; [solve_safe|]. unfold release_node. solve_safe.
Qed.
Hint Resolve safe_acquire_nodes safe_release_nodes : safe.
Lemma safe_redlock_try_lock m key options : safe (R:=R) (redlock_try_lock m key options).
Proof. unfold redlock_try_lock, allocate_fence, make_handle, instant_now. solve_safe. Qed.
End redlock.
#[export] Hint Resolve safe_redlock_try_lock : safe.

(** One node of a round, in closed form. *)
Definition slice_of (ttl_ms : Z) : Z := from_millis (Z.max (ttl_ms / 4) 100).

Lemma acquire_nodes_cons {R} `{Redis R} node nodes key token ttl acquired (w : world R) :
  w_budget w = None -> u64_mul ttl 10 = 10 * ttl ->
  let m := as_pair (lop_script key (LAcquire token ttl (10 * ttl))) in
  acquire_nodes (node :: nodes) key token ttl acquired w =
    (if Z.max 0 (st_latency (step_of w)) <=? slice_of ttl
     then match reply_of node m w with
          | Ok (status, _) => acquire_nodes nodes key token ttl
              (if (status =? 1) || (status =? 2) then acquired ++ [node] else acquired)
          | Err _ => ret (Err (Backend "redlock node {i}: {e}"))
          end
     else acquire_nodes nodes key token ttl acquired) (after_bounded_invoke (slice_of ttl) node m w).
Proof.
  intros B Hm m. cbn [acquire_nodes]. rewrite Hm. unfold invoke_pair.
  change (eval_script ACQUIRE _ _) with (lop_script (R:=R) key (LAcquire token ttl (10 * ttl))).
  fold m. fold (slice_of ttl).
  assert (0 <= slice_of ttl) as Hs by (unfold slice_of, from_millis; lia).
  rewrite (bind_done _ _ _ _ _ (timeout_invoke_eq (slice_of ttl) node m w B Hs)).
  destruct (_ <=? _); [|done]. destruct (reply_of node m w) as [[st f]|e]; [|done]. by destruct (_ || _).
Qed.

(** ** A ring on which another token holds a quorum *)

(** What the other clients do at a wait, node by node: mutex operations on
    the key, and time. *)
Record ring_step := mk_ring { rg_events : conn -> list event; rg_fate : fate; rg_latency : Z }.

Definition env_of {R} `{Redis R} (key : string) (st : ring_step) : env_step R :=
  mk_step (fun srv c => (run_events key (rg_events st c) (srv c)).2) (rg_fate st) (rg_latency st).

(** All that others do on node [c]. *)
Definition events_on (c : conn) (sts : list ring_step) : list event := sts ≫= (fun st => rg_events st c).

Lemma events_ok_app evs1 : forall now evs2, events_ok now (evs1 ++ evs2) ->
  events_ok now evs1 /\ events_ok (now + total_time evs1) evs2.
Proof.
  induction evs1 as [|[op|dt] evs IH]; intros now evs2 F; cbn in *.
  - by rewrite Z.add_0_r.
  - destruct F as [F1 F2]. destruct (IH _ _ F2). by split.
  - destruct F as [F1 F2]. destruct (IH _ _ F2). rewrite Z.add_assoc. by split.
Qed.

Lemma total_time_app evs1 evs2 : total_time (evs1 ++ evs2) = total_time evs1 + total_time evs2.
Proof. induction evs1 as [|[op|dt] evs IH]; cbn; lia. Qed.

Section ring.
Context {R : Type} `{RedisLaws R} (key : string) (a : string) (ttlA : Z).

(** On a node in state [s], [a] holds the lock beyond [T], and the events
    [evs] to come keep it so and end before [T]. *)
Definition guarded (T : Z) (evs : list event) (s : R) : Prop :=
  exists l, view key (r_db s) l /\ held_until a T l /\ T - ttlA <= l_now l /\
    events_ok (l_now l) evs /\ Forall (event_keeps a ttlA) evs /\ l_now l + total_time evs < T.

Lemma guarded_others T evs1 evs2 s :
  guarded T (evs1 ++ evs2) s -> guarded T evs2 (run_events key evs1 s).2.
Proof.
  intros (l & V & Hh & HT & F & K & Ht). destruct (events_ok_app _ _ _ F) as [F1 F2].
  rewrite Forall_app in K. destruct K as [K1 K2]. rewrite total_time_app in Ht.
  pose proof (total_time_nonneg _ _ F1). pose proof (total_time_nonneg _ _ F2).
  destruct (events_refine key evs1 s l V F1) as (l' & Hr & V').
  pose proof (lease_run_now _ _ _ _ Hr) as En. exists l'. rewrite En. split_and!; try done; try lia.
  refine (proj2 (lease_run_invariant (fun x => T - ttlA <= l_now x /\ held_until a T x)
            (event_keeps a ttlA) T _ evs1 l _ l' (conj HT Hh) K1 F1 Hr _)); [|rewrite ?En; lia].
  intros x ev o x' [Hx Hhx] Hev S Fx Hlt. pose proof (lease_step_now _ _ _ _ S).
  pose proof (total_time_nonneg _ _ Fx). split; [lia|]. by eapply held_until_step.
Qed.

(** Operations of another token leave it so; its acquisition is refused. *)
Definition foreign (b : string) (op : lop) : Prop :=
  match op with LAcquire t _ _ | LRelease t | LExtend t _ _ => t = b | LForce => False end.

Lemma guarded_foreign T evs s b op : b <> a -> foreign b op -> (forall now, now < T -> lop_fits now op) ->
  guarded T evs s -> guarded T evs (lop_script key op s).2.
Proof.
  intros Hne Hb Hf (l & V & Hh & HT & F & K & Ht). pose proof (total_time_nonneg _ _ F).
  destruct (lop_refines_any key s l op V (Hf (l_now l) ltac:(lia))) as (_ & V' & _).
  exists l. split_and!; try done. enough ((lease_op op l).2 = l) as E by by rewrite E in V'.
  pose proof (lease_other_denied _ _ _ _ Hh Hne) as Hd.
  destruct op as [t ttl fttl|t|t ttl fttl|]; cbn [foreign] in Hb; [..|done]; subst t; cbn [lease_op].
  - by rewrite (lease_acquire_denied _ _ _ _ _ _ Hh Hne).
  - unfold lease_release. by rewrite Hd.
  - unfold lease_extend. by rewrite Hd.
Qed.

Lemma guarded_acquire T evs s b ttl fttl : b <> a ->
  (forall now, now < T -> lop_fits now (LAcquire b ttl fttl)) -> guarded T evs s ->
  (lop_script key (LAcquire b ttl fttl) s).1 = Ok (RPair 0 0).
Proof.
  intros Hne Hf (l & V & Hh & HT & F & K & Ht). pose proof (total_time_nonneg _ _ F).
  destruct (lop_refines_any key s l _ V (Hf (l_now l) ltac:(lia))) as (-> & _).
  cbn [lease_op]. by rewrite (lease_acquire_denied _ _ _ _ _ _ Hh Hne).
Qed.

(** *** The holding quorum in a world *)

Variables (HA : list conn) (T : conn -> Z).

Definition ring_inv (sts : list ring_step) (w : world R) : Prop :=
  w_budget w = None /\ w_steps w = map (env_of key) sts /\
  forall c, c ∈ HA -> guarded (T c) (events_on c sts) (w_server w c).

Lemma ring_before sts w c : ring_inv sts w -> c ∈ HA ->
  guarded (T c) (events_on c (tail sts)) (servers_before w c).
Proof.
  intros (_ & Es & Hg) Hc. specialize (Hg c Hc). unfold servers_before, step_of. rewrite Es.
  destruct sts as [|st sts]; [exact Hg|]. cbn. by apply guarded_others.
Qed.

Section exchange.
Context {A : Type} (m : cmd R A) (b : string) (op : lop).
Hypothesis Hm : forall s, (m s).2 = (lop_script key op s).2.
Hypothesis Hb : b <> a.
Hypothesis Hop : foreign b op.
Hypothesis Hfit : forall c now, c ∈ HA -> now < T c -> lop_fits now op.

Lemma ring_invoke sts w c : ring_inv sts w -> ring_inv (tail sts) (after_invoke c m w).
Proof.
  intros I. pose proof I as (_ & Es & _). split_and!; [done|cbn; rewrite Es; by destruct sts|].
  intros c' Hc'. pose proof (ring_before _ _ _ I Hc') as Hg. cbn.
  assert (forall s, guarded (T c') (events_on c' (tail sts)) s ->
            guarded (T c') (events_on c' (tail sts)) (m s).2) as Hk.
  { intros s Hs. rewrite Hm. eapply guarded_foreign; eauto. }
  destruct (st_fate (step_of w)); [..|done];
    (destruct (decide (c = c')) as [<-|Hne]; [rewrite fn_lookup_insert; by apply Hk|by rewrite fn_lookup_insert_ne]).
Qed.

Lemma ring_timeout sts w d c : ring_inv sts w -> ring_inv (tail sts) (after_bounded_invoke d c m w).
Proof. intros I. destruct (ring_invoke _ _ c I) as (H1 & H2 & H3). by split_and!. Qed.
End exchange.
End ring.

(** ** Rounds of another token *)

Section rounds.
Context {U : UuidSource} {R : Type} `{RedisLaws R} (key a : string) (ttlA : Z) (HA : list conn) (T : conn -> Z).
Variable b : string.
Hypothesis Hb : b <> a.
Abbreviation inv := (ring_inv (R:=R) key a ttlA HA T).

Lemma ring_acquire_reply sts (w : world R) c ttl fttl (p : Z * Z) : inv sts w -> c ∈ HA ->
  (forall now, now < T c -> lop_fits now (LAcquire b ttl fttl)) ->
  reply_of c (as_pair (lop_script key (LAcquire b ttl fttl))) w = Ok p -> p = (0, 0).
Proof.
  intros I Hc Hf. unfold reply_of. destruct (st_fate (step_of w)); [|done..].
  rewrite as_pair_run. cbn [fst].
  rewrite (guarded_acquire key a ttlA _ _ _ b ttl fttl Hb Hf (ring_before _ _ _ _ _ _ _ _ I Hc)).
  by intros [= <-].
Qed.

(** A round of [b]: it takes no node of [a]'s quorum and leaves them held. *)
Lemma ring_acquire_nodes nodes ttl : 0 <= ttl -> u64_mul ttl 10 = 10 * ttl ->
  (forall c now, c ∈ HA -> now < T c -> lop_fits now (LAcquire b ttl (10 * ttl))) ->
  forall sts (w : world R) acquired, inv sts w ->
  exists r sts' w', acquire_nodes nodes key b ttl acquired w = (Done r, w') /\ inv sts' w' /\
    match r with
    | Ok acq => exists more, acq = acquired ++ more /\ sublist more nodes /\ forall c, c ∈ more -> c ∉ HA
    | Err e => e = Backend "redlock node {i}: {e}"
    end.
Proof.
  intros Ht Hm Hf. induction nodes as [|n nodes IH]; intros sts w acquired I.
  { exists (Ok acquired), sts, w. split_and!; [done..|]. exists []. rewrite app_nil_r. split_and!; [done..|]. set_solver. }
  rewrite (acquire_nodes_cons _ _ _ _ _ _ _ (proj1 I) Hm).
  set (slice := slice_of ttl). set (m := as_pair _).
  assert (inv (tail sts) (after_bounded_invoke slice n m w)) as I'.
  { eapply (ring_timeout key a ttlA HA T m b); [|done| |exact Hf|done]; [|done].
    intros s. unfold m. by rewrite as_pair_run. }
  assert (forall k, exists r sts' w', acquire_nodes nodes key b ttl k (after_bounded_invoke slice n m w) = (Done r, w') /\
    inv sts' w' /\ match r with
    | Ok acq => exists more, acq = k ++ more /\ sublist more (n :: nodes) /\ forall c, c ∈ more -> c ∉ HA
    | Err e => e = Backend "redlock node {i}: {e}" end) as Hskip.
  { intros k. destruct (IH _ _ k I') as (r & sts' & w' & E & I2 & Hr). exists r, sts', w'. split_and!; [done..|].
    destruct r as [acq|e]; [|done]. destruct Hr as (more & ? & ? & ?). exists more. split_and!; [done| |done].
    by apply sublist_cons. }
  destruct (_ <=? slice); [|apply Hskip].
  destruct (reply_of n m w) as [[st f]|e] eqn:Hr; [|by eexists (Err _), _, _].
  destruct ((st =? 1) || (st =? 2)) eqn:Hg; [|apply Hskip].
  assert (n ∉ HA) as Hn.
  { intros Hn. pose proof (ring_acquire_reply sts w n ttl (10 * ttl) _ I Hn (fun now => Hf n now Hn) Hr) as E.
    by injection E as -> ->. }
  destruct (IH _ _ (acquired ++ [n]) I') as (r & sts' & w' & E & I2 & Hmore). exists r, sts', w'.
  split_and!; [done..|]. destruct r as [acq|e]; [|done]. destruct Hmore as (more & -> & Hs & Hd).
  exists (n :: more). split_and!; [by rewrite <- app_assoc|by apply sublist_skip|].
  intros c [->|Hc]%elem_of_cons; auto.
Qed.

Lemma ring_release_nodes nodes : forall sts (w : world R), inv sts w ->
  exists rs sts' w', release_nodes nodes key b w = (Done rs, w') /\ inv sts' w'.
Proof.
  induction nodes as [|n nodes IH]; intros sts w I; [by exists [], sts, w|].
  cbn [release_nodes]. unfold release_node, invoke_int.
  change (eval_script RELEASE _ _) with (lop_script (R:=R) key (LRelease b)).
  set (m := as_int _). unfold bind at 1. rewrite (bind_done _ _ _ _ _ (invoke_eq n m w (proj1 I))).
  unfold ret at 1.
  assert (inv (tail sts) (after_invoke n m w)) as I'.
  { eapply (ring_invoke key a ttlA HA T m b (LRelease b)); try done. intros s. unfold m. by rewrite as_int_run. }
  destruct (IH _ _ I') as (rs & sts' & w' & E & I2). rewrite (bind_done _ _ _ _ _ E). by eexists _, sts', w'.
Qed.

Lemma quorum_disjoint (nodes more : list conn) : NoDup nodes -> NoDup HA -> HA ⊆ nodes ->
  sublist more nodes -> (forall c, c ∈ more -> c ∉ HA) -> (length more + length HA <= length nodes)%nat.
Proof.
  intros N1 N2 Hi Hs Hd. rewrite <- length_app. apply submseteq_length, NoDup_submseteq.
  - apply NoDup_app. split; [exact (sublist_NoDup _ _ N1 Hs)|]. split; [exact Hd|exact N2].
  - intros c [Hc|Hc]%elem_of_app; [|by apply Hi]. by eapply elem_of_submseteq, sublist_submseteq.
Qed.
End rounds.

(** ** Properties *)

Section properties.
Context {U : UuidSource} {R : Type} `{RedisLaws R}.
Implicit Types w : world R.

(** C5: Redlock excludes.  On a ring of distinct servers, while token [a] holds
    the key on a majority of them (whatever the other clients do meanwhile,
    on every node, as long as they keep [a]'s leases in force, with any
    messages lost or late), an acquisition with another token returns an
    error and not a handle, and [a] still holds every one of those nodes
    afterwards: the round takes no node of the majority and its rollback
    releases none. *)
Theorem redlock_exclusion w nodes key options a ttlA HA (T : conn -> Z) sts :
  let m := redlock_ring nodes in
  NoDup nodes -> NoDup HA -> HA ⊆ nodes -> (rl_quorum m <= length HA)%nat ->
  w_budget w = None -> w_steps w = map (env_of key) sts ->
  owner_token (owner_generate (w_uuids w)) <> a ->
  (forall c, c ∈ HA -> guarded key a ttlA (T c) (events_on c sts) (w_server w c)) ->
  (forall c, c ∈ HA -> T c + 10 * as_millis (ttl options) <= i64_max) ->
  exists e w', redlock_try_lock m key options w = (Done (Err e), w') /\
    forall c, c ∈ HA -> exists l, view key (r_db (w_server w' c)) l /\ held_until a (T c) l.
Proof.
  intros m N1 N2 Hi Hq B Es Hne Hg Hf.
  assert (forall sts' w', ring_inv key a ttlA HA T sts' w' -> forall c, c ∈ HA ->
            exists l, view key (r_db (w_server w' c)) l /\ held_until a (T c) l) as Hend.
  { intros sts' w' (_ & _ & Hg') c Hc. destruct (Hg' c Hc) as (l & ? & ? & _). by exists l. }
  assert (ring_inv key a ttlA HA T sts w) as I by by split_and!.
  unfold redlock_try_lock. unfold try_ at 1, bind at 1, ret at 1.
  destruct (validate options) as [[]|e] eqn:Hv; [|by exists e, w; eauto].
  unfold bind at 1, instant_now at 1, gets at 1, fresh_owner. unfold bind at 1.
  set (b := owner_token _) in *. set (w0 := set_uuids _ w).
  assert (exists c, c ∈ HA) as [c0 Hc0].
  { destruct HA as [|c HA']; [change (length nodes / 2 + 1 <= 0)%nat in Hq; lia|]. exists c. set_solver. }
  pose proof (options_ttl _ Hv) as Ht. destruct (Hg c0 Hc0) as (l0 & V0 & _ & _ & F0 & _ & Ht0).
  pose proof (view_clock _ _ _ V0). pose proof (total_time_nonneg _ _ F0). specialize (Hf c0 Hc0) as Hf0.
  destruct (ttl_args (ttl options) (l_now l0)) as [E1 E2]; [lia..|]. rewrite E1.
  assert (ring_inv key a ttlA HA T sts w0) as I0 by exact I.
  destruct (ring_acquire_nodes key a ttlA HA T b Hne nodes (as_millis (ttl options)) ltac:(lia) E2) with (2 := I0)
    (acquired := @nil conn) as (r & sts1 & w1 & E & I1 & Hr).
  { intros c now Hc Hn. specialize (Hf c Hc). unfold lop_fits, ttl_fits. lia. }
  unfold try_ at 1. rewrite (bind_done _ _ _ _ _ E). destruct r as [acq|e]; [|exists e, w1; eauto].
  destruct Hr as (more & -> & Hs & Hd). cbn [app].
  unfold bind at 1, instant_now, gets.
  pose proof (quorum_disjoint HA nodes more N1 N2 Hi Hs Hd) as Hl.
  assert ((rl_quorum m <=? length more)%nat = false) as ->.
  { apply Nat.leb_gt. pose proof (eq_refl : rl_quorum m = (length nodes / 2 + 1)%nat) as Eq.
    pose proof (Nat.div_mod_eq (length nodes) 2). pose proof (Nat.mod_upper_bound (length nodes) 2). lia. }
  cbn [andb]. destruct (ring_release_nodes key a ttlA HA T b Hne more _ _ I1) as (rs & sts2 & w2 & E3 & I3).
  rewrite (bind_done _ _ _ _ _ E3). eexists _, w2. split; [reflexivity|eauto].
Qed.

(** A node error ends the round without rollback: when the first node
    grants and the exchange with the second fails (its message or reply is
    lost), [try_lock] returns a backend error while the first node still
    holds the lock under the token of the failed call, for its whole
    lifetime, and no release has been sent or scheduled. *)
Theorem redlock_error_leaks w m key options n1 n2 rest st1 st2 steps l :
  let t := as_millis (ttl options) in
  let token := owner_token (owner_generate (w_uuids w)) in
  rl_nodes m = n1 :: n2 :: rest -> w_budget w = None -> validate options = Ok tt ->
  w_steps w = st1 :: st2 :: steps ->
  st_fate st1 = Replied -> st_latency st1 <= from_millis 100 ->
  st_fate st2 = NotDelivered -> st_latency st2 <= from_millis 100 ->
  (forall srv, st_others st2 srv n1 = srv n1) ->
  view key (r_db (st_others st1 (w_server w) n1)) l -> l_holder l = None ->
  l_now l + 10 * t <= i64_max -> fence_count l < i64_max ->
  exists w', redlock_try_lock m key options w = (Done (Err (Backend "redlock node {i}: {e}")), w') /\
    (exists l', view key (r_db (w_server w' n1)) l' /\ l_holder l' = Some (token, l_now l + t)) /\
    w_tasks w' = w_tasks w.
Proof.
  intros t token En B Hv Es F1 L1 F2 L2 Ho V Hh Hf Hc.
  pose proof (options_ttl _ Hv) as Ht. fold t in Ht. pose proof (view_clock _ _ _ V).
  destruct (ttl_args (ttl options) (l_now l)) as [E1 E2]; [unfold t in *; lia..|].
  set (op := LAcquire token t (10 * t)).
  assert (lop_fits (l_now l) op) as Fit by (unfold op, lop_fits, ttl_fits; lia).
  destruct (lop_refines_any key _ _ _ V Fit) as (Er & V' & _).
  assert ((lease_op op l) = (Ok (RPair 1 (fence_count l + 1)),
    mk_lease (l_now l) (Some (token, l_now l + t)) (Some (fence_count l + 1, Some (l_now l + 10 * t))))) as Eo.
  { unfold op. cbn [lease_op]. unfold lease_acquire, lease_bump. rewrite Hh. cbn.
    change (fence_count (lease_hold token t l)) with (fence_count l). by rewrite (proj2 (Z.leb_le _ _)) by lia. }
  rewrite Eo in Er, V'. cbn [fst snd] in Er, V'.
  change (u64_mul t 10 = 10 * t) in E2.
  assert (forall d, d <= from_millis 100 -> (Z.max 0 d <=? slice_of t) = true) as Hin.
  { intros d Hd. apply Z.leb_le. unfold slice_of, from_millis in *. lia. }
  unfold redlock_try_lock. unfold try_ at 1, bind at 1, ret at 1. rewrite Hv.
  unfold bind at 1, instant_now at 1, gets at 1, fresh_owner. unfold bind at 1. fold token.
  rewrite E1. fold t. rewrite En. set (w0 := set_uuids _ w). set (q := as_pair (lop_script (R:=R) key op)).
  assert (step_of w0 = st1) as S1 by (unfold w0, step_of; cbn; by rewrite Es).
  assert (servers_before w0 n1 = st_others st1 (w_server w) n1) as S2 by (unfold servers_before; by rewrite S1).
  unfold try_ at 1. unfold bind at 1. rewrite (acquire_nodes_cons _ _ _ _ _ _ w0 B E2). fold op. fold q.
  rewrite S1, Hin by done.
  assert (reply_of n1 q w0 = Ok (1, fence_count l + 1)) as ->.
  { unfold reply_of, q. by rewrite S1, F1, as_pair_run, S2, Er. }
  cbn [Z.eqb Pos.eqb orb]. set (w1 := after_bounded_invoke _ n1 q w0).
  assert (step_of w1 = st2) as S3 by (unfold w1, step_of; cbn; by rewrite Es).
  rewrite (acquire_nodes_cons _ _ _ _ _ _ w1 eq_refl E2). fold op. fold q. rewrite S3, Hin by done.
  unfold reply_of at 1. rewrite S3, F2. eexists. split; [reflexivity|]. split; [|done].
  refine (ex_intro _ (mk_lease _ (Some _) _) (conj _ eq_refl)).
  cbn. rewrite S3, F2. unfold servers_before. rewrite S3, Ho.
  unfold w1. cbn. rewrite S1, F1, fn_lookup_insert. unfold q. rewrite as_pair_run, S2. exact V'.
Qed.

(** [LockManager::lock] on this manager never waits: its deadline
    [Instant::now() + Duration::MAX] overflows, so the call panics before the
    first attempt, whatever the state of the ring. *)
Theorem redlock_lock_panics fuel m key options w : 0 <= w_clock w ->
  redlock_lock fuel m key options w = (Panic, w).
Proof. apply poll_forever_panics. Qed.
End properties.

(** ** Witnesses *)

Definition demo_ring : list conn := [0; 1; 2]%nat.
Definition demo_majority : list conn := [0; 1]%nat.
Definition demo_ring_step : ring_step :=
  mk_ring (fun _ => [ETime 10; EOp (LRelease "C")]) ReplyLost (from_millis 1).
Definition demo_ring_world : world db := demo_world demo_granted [env_of "job" demo_ring_step].

Lemma demo_guarded c : guarded "job" "A" 100 100 (events_on c [demo_ring_step]) (w_server demo_ring_world c).
Proof.
  exists demo_held. split; [exact view_demo_held|]. split; [by exists 100|]. split; [cbn; lia|].
  split; [cbn; lia|]. split; [|cbn; lia]. cbn. repeat constructor. done.
Qed.

Lemma redlock_exclusion_witness : exists e w',
  redlock_try_lock (redlock_ring demo_ring) "job" single_demo_options demo_ring_world = (Done (Err e), w').
Proof.
  destruct (redlock_exclusion demo_ring_world demo_ring "job" single_demo_options "A" 100 demo_majority (fun _ => 100)
    [demo_ring_step]) as (e & w' & E & _).
  - apply (bool_decide_unpack _). reflexivity.
  - apply (bool_decide_unpack _). reflexivity.
  - apply (bool_decide_unpack _). reflexivity.
  - cbn. lia.
  - reflexivity.
  - reflexivity.
  - vm_compute. discriminate.
  - intros c _. apply demo_guarded.
  - intros c _. concrete.
  - exists e, w'. exact E.
Defined.

Definition demo_leak_world : world db := demo_world demo_db [quiet; mk_step id NotDelivered 0].

Lemma redlock_error_leaks_witness : exists w',
  redlock_try_lock (redlock_ring demo_ring) "job" single_demo_options demo_leak_world =
    (Done (Err (Backend "redlock node {i}: {e}")), w').
Proof.
  destruct (redlock_error_leaks demo_leak_world (redlock_ring demo_ring) "job" single_demo_options 0%nat 1%nat
    [2%nat] quiet (mk_step id NotDelivered 0) [] demo_lease) as (w' & E & _);
    [reflexivity..|concrete|reflexivity|concrete|reflexivity|by apply view_free|reflexivity|concrete|concrete|].
  exists w'. exact E.
Defined.

Lemma redlock_lock_panics_witness :
  redlock_lock 1 (redlock_ring demo_ring) "job" single_demo_options demo_leak_world = (Panic, demo_leak_world).
Proof. apply redlock_lock_panics. cbn. lia. Defined.
