(* ===== verification/Multi.v ===== *)
(** * Multi-key locks ([crates/redis/src/multi.rs])

    All-or-nothing acquisition of several keys in sorted order, on top of the
    single-key lock of [Single].  The theorems: a round takes all the keys or
    leaves every one with the holder it had, and lockers that take their keys
    in this order never wait for each other in a circle. *)

From stdpp Require Import sorting relations.
From S2P Require Import Prelude Core Redis Scripts World Lease Single.

(** [sorted.sort()]: by bytes. *)
Definition sort_keys (keys : list string) : list string := merge_sort String.le keys.

(** [sorted.windows(2).any(|w| w\[0\] == w\[1\])]. *)
Fixpoint adjacent_equal (l : list string) {struct l} : bool :=
  match l with
  | x :: ((y :: _) as l') => String.eqb x y || adjacent_equal l'
  | _ => false
  end.

Section multi.
Context {U : UuidSource} {R : Type} `{Redis R}.
Open Scope world_scope.

(** The releases of a rollback; their results are ignored. *)
Fixpoint release_each (hs : list HandleShared) {struct hs} : M R unit :=
  match hs with
  | [] => ret tt
  | h :: hs => let* _r := release h in release_each hs
  end.

(** The handles of a vector going out of scope, in order. *)
Fixpoint drop_all (hs : list HandleShared) {struct hs} : M R unit :=
  match hs with
  | [] => ret tt
  | h :: hs => do* drop true h in drop_all hs
  end.

(** The loop over the keys: the handles taken, and the error that made the
    round roll back. *)
Fixpoint take_all (mgr : RedisLockManager) (keys : list string) (options : LockOptions)
    (handles : list HandleShared) {struct keys} : M R (res error (list HandleShared * option error)) :=
  match keys with
  | [] => ret (Ok (handles, None))
  | key :: keys =>
      let* r := try_lock_with mgr key options in
      match r with
      | Ok h => take_all mgr keys options (handles ++ [h])
      | Err ((Held _ | Backend _) as e) =>
          do* release_each (rev handles) in ret (Ok (handles, Some e))
      | Err other => do* drop_all handles in ret (Err other)
      end
  end.

Fixpoint try_lock_all_loop (fuel : nat) (mgr : RedisLockManager) (sorted : list string)
    (options : LockOptions) (deadline : Z) {struct fuel} : M R (res error (list HandleShared)) :=
  match fuel with
  | O => out_of_fuel
  | S fuel =>
      let? '(handles, rollback_err) := take_all mgr sorted options [] in
      match rollback_err with
      | None => ret (Ok handles)
      | Some (Held _) =>
          let* now := instant_now in
          if deadline <=? now
          then do* drop_all handles in ret (Err (Timeout "multi:{sorted:?}"))
          else
            do* sleep POLL_INTERVAL in
            do* drop_all handles in
            try_lock_all_loop fuel mgr sorted options deadline
      | Some other => do* drop_all handles in ret (Err other)
      end
  end.

(** [RedisLockManager::try_lock_all]; a [MultiLockHandle] is its handles. *)
Definition try_lock_all (fuel : nat) (mgr : RedisLockManager) (keys : list string) (options : LockOptions)
    (wait : duration) : M R (res error (list HandleShared)) :=
  let? _u := ret (validate options) in
  let sorted := sort_keys keys in
  if adjacent_equal sorted then ret (Err (InvalidConfig "multi-lock received duplicate keys")) else
  let* now := instant_now in
  let* deadline := instant_add now wait in
  try_lock_all_loop fuel mgr sorted options deadline.

(** [MultiLockHandle::fences] and [keys]. *)
Definition multi_fences (hs : list HandleShared) : list FencingToken := map h_fence hs.
Definition multi_keys (hs : list HandleShared) : list string := map h_key hs.

(** [MultiLockHandle::release_all]: every key, in reverse order; the first
    error is the result. *)
Fixpoint release_rev (hs : list HandleShared) (first_err : option error) {struct hs} : M R (option error) :=
  match hs with
  | [] => ret first_err
  | h :: hs =>
      let* r := release h in
      release_rev hs (match r, first_err with Err e, None => Some e | _, _ => first_err end)
  end.

Definition multi_release_all (hs : list HandleShared) : M R (res error unit) :=
  let* first_err := release_rev (rev hs) None in
  ret (match first_err with Some e => Err e | None => Ok tt end).
End multi.

(** ** Sorted keys *)

Lemma sort_keys_Permutation keys : Permutation (sort_keys keys) keys.
Proof. apply merge_sort_Permutation. Qed.

Lemma sort_keys_sorted keys : StronglySorted String.le (sort_keys keys).
Proof. apply (StronglySorted_merge_sort _ _). Qed.

Lemma NoDup_adjacent l : NoDup l -> adjacent_equal l = false.
Proof.
  induction 1 as [|x l Hx _ IH]; [done|]. destruct l as [|y l]; [done|]. cbn in *. rewrite IH, orb_false_r.
  destruct (String.eqb_spec x y) as [->|]; [|done]. set_solver.
Qed.

Lemma adjacent_NoDup l : StronglySorted String.le l -> adjacent_equal l = false -> NoDup l.
Proof.
  induction 1 as [|x l Hl IH Hx]; [constructor|]. intros Ha. destruct l as [|y l]; [apply NoDup_singleton|].
  cbn in Ha. apply orb_false_elim in Ha. destruct Ha as [Hxy Ha]. constructor; [|by apply IH].
  destruct (String.eqb_spec x y) as [|Hne]; [done|]. intros Hin. apply Hne.
  rewrite Forall_forall in Hx. rewrite elem_of_cons in Hin. destruct Hin as [|Hin]; [done|].
  inversion Hl as [|? ? _ Hy]; subst. rewrite Forall_forall in Hy.
  apply (anti_symm String.le); [apply Hx; set_solver|by apply Hy].
Qed.

(** ** No circular waiting *)

(** A locker in a round: what it has taken, the key it wants, the rest. *)
Record progress := mk_progress { pr_taken : list string; pr_next : string; pr_rest : list string }.

(** It works through sorted distinct keys. *)
Definition in_round (p : progress) : Prop :=
  exists keys, sort_keys keys = pr_taken p ++ pr_next p :: pr_rest p /\ adjacent_equal (sort_keys keys) = false.

(** [p] wants a key that [q] has. *)
Definition waits (p q : progress) : Prop := in_round p /\ in_round q /\ pr_next p ∈ pr_taken q.

Lemma waits_increases p q : waits p q -> String.le (pr_next p) (pr_next q) /\ pr_next p <> pr_next q.
Proof.
  intros (_ & (keys & E & Ha) & Hin). pose proof (sort_keys_sorted keys) as Hs.
  pose proof (adjacent_NoDup _ Hs Ha) as Hn. rewrite E in Hs, Hn.
  apply NoDup_app in Hn. destruct Hn as (_ & Hd & _). split.
  - eapply StronglySorted_app_1_elem_of; [exact Hs|exact Hin|set_solver].
  - intros Heq. rewrite Heq in Hin. apply (Hd _ Hin). set_solver.
Qed.

Lemma waits_tc_increases p q : tc waits p q -> String.le (pr_next p) (pr_next q) /\ pr_next p <> pr_next q.
Proof.
  induction 1 as [p q W|p q r W _ [IH1 IH2]]; [by apply waits_increases|].
  destruct (waits_increases _ _ W) as [H1 H2]. split; [by etrans|].
  intros E. apply H2, (anti_symm String.le); [done|by rewrite E].
Qed.

(** ** A round on a quiet server *)

Lemma fence_key_inj k k' : fence_key_for k = fence_key_for k' -> k = k'.
Proof.
  unfold fence_key_for. intros E. injection E as E. revert k' E.
  assert (forall k k', String.length (k +:+ "}:fence") = String.length (k' +:+ "}:fence") ->
    String.length k = String.length k') as Hl.
  { intros a b. rewrite !string_app_length. lia. }
  induction k as [|c k IH]; intros [|c' k'] E; [done| | |].
  1,2: apply (f_equal String.length), Hl in E; discriminate E.
  injection E as -> E. f_equal. by apply IH.
Qed.

(** Keys whose lock and counter entries do not collide. *)
Definition separate (keys : list string) : Prop :=
  forall k k', k ∈ keys -> k' ∈ keys -> k <> fence_key_for k'.

Lemma view_elsewhere keys k k' d d' l : separate keys -> k ∈ keys -> k' ∈ keys -> k' <> k ->
  same_elsewhere k d d' -> view k' d l -> view k' d' l.
Proof.
  intros Hs Hk Hk' Hne [S1 S2] [V1 V2 V3 V4 V5].
  assert (fence_key_for k' <> fence_key_for k) by (intros ?%fence_key_inj; done).
  split; [by rewrite S1| | |done..].
  - by rewrite S2 by (done || by apply Hs).
  - by rewrite S2 by (done || (apply not_eq_sym; by apply Hs)).
Qed.

Section round.
Context {U : UuidSource} {R : Type} `{RedisLaws R}.
Variables (mgr : RedisLockManager) (options : LockOptions) (keys : list string) (L0 : string -> lease).
Hypothesis Hvalid : validate options = Ok tt.
Hypothesis Hsep : separate keys.
Abbreviation c := (mgr_conn mgr).
Abbreviation t := (as_millis (ttl options)).
Implicit Types (w : world R) (L : string -> lease) (h : HandleShared).

Definition views L w : Prop := forall k, k ∈ keys -> view k (r_db (w_server w c)) (L k).

(** [h] is a live handle that holds its key. *)
Definition taken L w h : Prop :=
  handle_of h /\ h_conn h = c /\ h_key h ∈ keys /\ holds (h_token h) (L (h_key h)) = true /\
  released (flag_of w h) = false /\ (h_cell h < length (w_flags w))%nat.

Lemma views_update L w w' k l' : views L w -> k ∈ keys ->
  same_elsewhere k (r_db (w_server w c)) (r_db (w_server w' c)) ->
  view k (r_db (w_server w' c)) l' -> views (<[k := l']> L) w'.
Proof.
  intros V Hk S Vk k' Hk'. destruct (decide (k = k')) as [<-|Hne].
  - by rewrite fn_lookup_insert.
  - rewrite fn_lookup_insert_ne by done.
    exact (view_elsewhere keys k k' _ _ _ Hsep Hk Hk' (not_eq_sym Hne) S (V _ Hk')).
Qed.

Lemma release_calm L w h : calm w -> views L w -> taken L w h ->
  exists w', release h w = (Done (Ok tt), w') /\ calm w' /\
    views (<[h_key h := lease_free (L (h_key h))]> L) w' /\
    w_flags w' = alter set_released (h_cell h) (w_flags w).
Proof.
  intros C V (Hk & Hc & Hin & Hh & Hr & _). pose proof (V _ Hin) as Vk.
  pose proof C as [B E]. destruct (release_run w h (L (h_key h)) Hk B Hr) as (w' & Er & V' & F & _ & B' & St & S & _).
  { by rewrite calm_servers, Hc. }
  rewrite calm_step, calm_servers, Hc in * by done. cbn [st_fate quiet lease_after lease_op] in *.
  unfold lease_release in V'. rewrite Hh in Er, V'.
  exists w'. split; [done|]. split; [split; [done|by rewrite St, E]|]. split; [by eapply views_update|done].
Qed.

Lemma views_same_server L w w' : views L w -> w_server w' = w_server w -> views L w'.
Proof. intros V E k Hk. rewrite E. by apply V. Qed.

(** Releasing a handle that goes out of scope then; giving the lock away by
    disarming it. *)
Lemma release_drop_calm L w h : calm w -> views L w -> taken L w h -> exists w1 w2,
  release h w = (Done (Ok tt), w1) /\ drop true h w1 = (Done tt, w2) /\ calm w2 /\ w_uuids w2 = w_uuids w /\
  views (<[h_key h := lease_free (L (h_key h))]> L) w2 /\ w_tasks w2 = w_tasks w.
Proof.
  intros C V T. pose proof T as (Ho & Hc & Hin & Hh & Hr & Hl). pose proof C as [B E].
  destruct (release_run w h (L (h_key h)) Ho B Hr) as (w1 & E1 & V1 & F1 & T1 & B1 & St1 & S1 & U1).
  { rewrite calm_servers, Hc by done. by apply V. }
  rewrite calm_step, calm_servers, Hc in * by done. cbn [st_fate quiet lease_after lease_op] in *.
  destruct (drop_released w1 h) as (w2 & E2 & S2 & T2 & B2 & St2 & U2); [by eapply flag_released|].
  unfold lease_release in E1, V1. rewrite Hh in E1, V1.
  exists w1, w2. split; [done|]. split; [done|].
  split; [split; [by rewrite B2|by rewrite St2, St1, E]|]. split; [by rewrite U2|]. split; [|by rewrite T2].
  eapply views_same_server; [|done]. by eapply views_update.
Qed.

Lemma disarm_drop_calm L w h : calm w -> views L w -> taken L w h -> exists w1 w2,
  disarm h w = (Done tt, w1) /\ drop true h w1 = (Done tt, w2) /\ calm w2 /\ w_uuids w2 = w_uuids w /\
  views L w2 /\ w_tasks w2 = w_tasks w.
Proof.
  intros [B E] V (_ & _ & _ & _ & _ & Hl). set (w1 := set_flags (alter set_released (h_cell h) (w_flags w)) w).
  exists w1. destruct (drop_released w1 h) as (w2 & E2 & S2 & T2 & B2 & St2 & U2); [by eapply flag_released|].
  exists w2. split; [done|]. split; [done|]. split; [split; [by rewrite B2|by rewrite St2]|].
  split; [done|]. split; [by eapply views_same_server|done].
Qed.

Lemma taken_release L w w' h h2 : taken L w h2 -> h_key h2 <> h_key h -> h_cell h2 <> h_cell h ->
  w_flags w' = alter set_released (h_cell h) (w_flags w) ->
  taken (<[h_key h := lease_free (L (h_key h))]> L) w' h2.
Proof.
  intros (T1 & T2 & T3 & T4 & T5 & T6) Nk Nc F. unfold taken, flag_of in *. rewrite F, length_alter.
  rewrite fn_lookup_insert_ne, list_lookup_alter_ne by congruence. by split_and!.
Qed.

Lemma release_each_calm hs : forall L w, calm w -> views L w -> Forall (taken L w) hs ->
  NoDup (map h_key hs) -> NoDup (map h_cell hs) ->
  exists w', release_each hs w = (Done tt, w') /\ calm w' /\
    views (fun k => if decide (k ∈ map h_key hs) then lease_free (L k) else L k) w'.
Proof.
  induction hs as [|h hs IH]; intros L w C V T Nk Nc.
  { exists w. split; [done|]. split; [done|]. intros k Hk. rewrite decide_False by set_solver. by apply V. }
  cbn [map] in *. apply NoDup_cons in Nk, Nc. destruct Nk as [Nk1 Nk], Nc as [Nc1 Nc].
  rewrite Forall_cons in T. destruct T as [T Ts].
  destruct (release_calm L w h C V T) as (w1 & E1 & C1 & V1 & F1).
  destruct (IH _ w1 C1 V1) as (w2 & E2 & C2 & V2); [|done..|].
  { rewrite Forall_forall in *. intros h2 Hh2. eapply taken_release; eauto.
    - intros E. apply Nk1. rewrite <- E. by apply list_elem_of_fmap_2.
    - intros E. apply Nc1. rewrite <- E. by apply list_elem_of_fmap_2. }
  exists w2. cbn [release_each]. rewrite (bind_done _ _ _ _ _ E1). split; [done|]. split; [done|].
  intros k Hk. specialize (V2 k Hk). cbv beta in V2. destruct (decide (k = h_key h)) as [->|Hne].
  - rewrite decide_True by set_solver. by rewrite decide_False, fn_lookup_insert in V2.
  - rewrite fn_lookup_insert_ne in V2 by congruence.
    destruct (decide (k ∈ map h_key hs)); [rewrite decide_True by set_solver|rewrite decide_False by set_solver]; done.
Qed.

(** One attempt, by a caller whose new token does not hold the key yet. *)
Lemma attempt_at L w key : calm w -> views L w -> key ∈ keys ->
  l_now (L key) + 10 * t <= i64_max -> fence_count (L key) < i64_max ->
  (forall dl, l_holder (L key) <> Some (owner_token (owner_generate (w_uuids w)), dl)) ->
  exists r w' l', try_lock_with mgr key options w = (Done r, w') /\ calm w' /\ views (<[key := l']> L) w' /\
    w_uuids w' = N.succ (w_uuids w) /\
    match l_holder (L key) with
    | Some _ => r = Err (Held key) /\ l' = L key /\ w_flags w' = w_flags w /\ w_tasks w' = w_tasks w
    | None => exists h, r = Ok h /\ h_key h = key /\ h_cell h = length (w_flags w) /\
        w_flags w' = w_flags w ++ [fresh_flags] /\ handle_of h /\ h_conn h = c /\
        l_holder l' = Some (h_token h, l_now (L key) + t) /\
        h_token h = owner_token (h_owner h) /\ h_owner h = owner_generate (w_uuids w) /\
        value (h_fence h) = fence_count l' /\ l_now l' = l_now (L key) /\
        w_tasks w' = (if default (watchdog_default mgr) (watchdog options)
                      then TWatchdog (h_cell h) :: w_tasks w else w_tasks w)
    end.
Proof.
  intros C V Hin Ft Fc Hnew. pose proof (V _ Hin) as Vk. pose proof C as [B E].
  destruct (try_lock_with_run w mgr key options (L key) B Hvalid) as (r & w' & Er & Hr & V' & S & _ & F & T & St & B' & Hu);
    [by rewrite calm_servers|done|].
  rewrite calm_step, calm_servers in * by done. cbn [st_fate quiet lease_after] in *.
  set (tok := owner_token (owner_generate (w_uuids w))) in *.
  exists r, w', (lease_op (LAcquire tok t (10 * t)) (L key)).2. split; [done|].
  split; [split; [done|by rewrite St, E]|]. split; [by eapply views_update|]. split; [done|].
  cbn [lease_op] in *. unfold lease_acquire in *. destruct (l_holder (L key)) as [[tk dl]|] eqn:Hh.
  - destruct (String.eqb_spec tk tok) as [->|]; [by destruct (Hnew dl)|].
    cbn in Hr. subst r. by split_and!.
  - unfold lease_bump in *. change (fence_count (lease_hold tok t (L key))) with (fence_count (L key)) in *.
    rewrite (proj2 (Z.leb_le _ _)) in * by lia. cbn in Hr. subst r. eexists. by split_and!.
Qed.

Hypothesis Hfit : forall k, k ∈ keys -> l_now (L0 k) + 10 * t <= i64_max /\ fence_count (L0 k) < i64_max.
Hypothesis Hfresh : forall k n dl, k ∈ keys -> l_holder (L0 k) <> Some (owner_token (owner_generate n), dl).

(** One attempt of the round, on a key not yet visited. *)
Lemma attempt_calm L w key : calm w -> views L w -> key ∈ keys -> L key = L0 key ->
  exists r w' l', try_lock_with mgr key options w = (Done r, w') /\ calm w' /\ views (<[key := l']> L) w' /\
    match l_holder (L0 key) with
    | Some _ => r = Err (Held key) /\ l' = L0 key /\ w_flags w' = w_flags w
    | None => exists h, r = Ok h /\ h_key h = key /\ h_cell h = length (w_flags w) /\
        w_flags w' = w_flags w ++ [fresh_flags] /\ handle_of h /\ h_conn h = c /\
        l_holder l' = Some (h_token h, l_now (L0 key) + t)
    end.
Proof.
  intros C V Hin EL. destruct (Hfit _ Hin) as [Ft Fc].
  destruct (attempt_at L w key C V Hin) as (r & w' & l' & E & C' & V' & _ & Hr); rewrite ?EL; [done..| |].
  { intros dl. by apply Hfresh. }
  rewrite EL in Hr.
  exists r, w', l'. split_and!; [done..|]. destruct (l_holder (L0 key)); [tauto|].
  destruct Hr as (h & ? & ? & ? & ? & ? & ? & ? & _). by exists h.
Qed.

(** What the keys look like in the middle of a round. *)
Definition progressed (acc : list HandleShared) L : Prop := forall k, k ∈ keys ->
  (k ∉ map h_key acc -> L k = L0 k) /\
  (forall h, h ∈ acc -> h_key h = k -> l_holder (L k) = Some (h_token h, l_now (L0 k) + t) /\ l_holder (L0 k) = None).

Lemma progressed_snoc acc L h l' : progressed acc L -> h_key h ∉ map h_key acc ->
  l_holder l' = Some (h_token h, l_now (L0 (h_key h)) + t) -> l_holder (L0 (h_key h)) = None ->
  progressed (acc ++ [h]) (<[h_key h := l']> L).
Proof.
  intros P Hn E1 E2 k Hk. destruct (P k Hk) as [P1 P2]. rewrite map_app. cbn [map]. split.
  - intros Hnk. rewrite fn_lookup_insert_ne by set_solver. apply P1. set_solver.
  - intros h' [Hin|Hin%list_elem_of_singleton]%elem_of_app Ek.
    + assert (h_key h <> k) by (intros Eh; apply Hn; rewrite Eh, <- Ek; by apply list_elem_of_fmap_2).
      rewrite fn_lookup_insert_ne by done. by apply P2.
    + subst h'. subst k. by rewrite fn_lookup_insert.
Qed.

Lemma taken_progressed acc L w h : progressed acc L -> h ∈ acc -> h_key h ∈ keys -> handle_of h ->
  h_conn h = c -> released (flag_of w h) = false -> (h_cell h < length (w_flags w))%nat -> taken L w h.
Proof.
  intros P Hin Hk Ho Hc Hr Hl. destruct (P _ Hk) as [_ P2]. destruct (P2 h Hin eq_refl) as [Eh _].
  unfold taken. split_and!; try done. unfold holds. by rewrite Eh, String.eqb_refl.
Qed.

(** The handles of a round: live, with cells of their own. *)
Definition handles_ok (acc : list HandleShared) w : Prop :=
  Forall (fun h => handle_of h /\ h_conn h = c /\ h_key h ∈ keys /\
                   released (flag_of w h) = false /\ (h_cell h < length (w_flags w))%nat) acc /\
  NoDup (map h_key acc) /\ NoDup (map h_cell acc).

Lemma handles_ok_snoc acc w w' h : handles_ok acc w -> w_flags w' = w_flags w ++ [fresh_flags] ->
  handle_of h -> h_conn h = c -> h_key h ∈ keys -> h_key h ∉ map h_key acc -> h_cell h = length (w_flags w) ->
  handles_ok (acc ++ [h]) w'.
Proof.
  intros (Ha & Nk & Nc) F Ho Hc Hk Hn Hi. rewrite Forall_forall in Ha. split; [|split].
  - apply Forall_app. split; [|apply Forall_singleton]; unfold flag_of; rewrite F, length_app; cbn [length].
    + apply Forall_forall. intros h' Hh'. destruct (Ha _ Hh') as (? & ? & ? & Hr & Hl).
      rewrite lookup_app_l by done. split_and!; try done. lia.
    + rewrite Hi, lookup_app_r, Nat.sub_diag by lia. split_and!; try done. lia.
  - rewrite map_app. apply NoDup_app. split; [done|]. split; [set_solver|apply NoDup_singleton].
  - rewrite map_app. apply NoDup_app. split; [done|]. split; [|apply NoDup_singleton].
    cbn. intros x Hx ->%list_elem_of_singleton. apply list_elem_of_fmap in Hx. destruct Hx as (h' & E & Hh').
    destruct (Ha _ Hh') as (_ & _ & _ & _ & Hl). lia.
Qed.

Lemma rollback_calm acc L w : calm w -> views L w -> progressed acc L -> handles_ok acc w ->
  exists w' L', release_each (rev acc) w = (Done tt, w') /\ calm w' /\ views L' w' /\
    forall k, k ∈ keys -> l_holder (L' k) = l_holder (L0 k).
Proof.
  intros C V P (Ha & Nk & Nc). rewrite Forall_forall in Ha.
  destruct (release_each_calm (rev acc) L w C V) as (w' & E & C' & V').
  - apply Forall_forall. intros h Hh. rewrite <- Permutation_rev in Hh.
    destruct (Ha _ Hh) as (? & ? & ? & ? & ?). by eapply taken_progressed.
  - by rewrite map_rev, <- Permutation_rev.
  - by rewrite map_rev, <- Permutation_rev.
  - eexists w', _. split; [done|]. split; [done|]. split; [exact V'|]. intros k Hk. cbv beta.
    destruct (P k Hk) as [P1 P2]. case_decide as Hd.
    + rewrite map_rev, <- Permutation_rev in Hd.
      apply list_elem_of_fmap in Hd. destruct Hd as (h & -> & Hh). destruct (P2 h Hh eq_refl) as [_ ->]. done.
    + rewrite P1; [done|]. intros Hi. apply Hd. by rewrite map_rev, <- Permutation_rev.
Qed.

(** The whole round. *)
Lemma take_all_calm ks : forall acc L w, calm w -> views L w -> progressed acc L -> handles_ok acc w ->
  NoDup (map h_key acc ++ ks) -> ks ⊆ keys ->
  exists hs e w' L', take_all mgr ks options acc w = (Done (Ok (hs, e)), w') /\ calm w' /\ views L' w' /\
    match e with
    | None => map h_key hs = map h_key acc ++ ks /\ progressed hs L'
    | Some e => (exists k, k ∈ ks /\ e = Held k /\ l_holder (L0 k) <> None) /\
        forall k, k ∈ keys -> l_holder (L' k) = l_holder (L0 k)
    end.
Proof.
  induction ks as [|key ks IH]; intros acc L w C V P Ha N Hi.
  { exists acc, None, w, L. rewrite app_nil_r. by split_and!. }
  assert (key ∈ keys) as Hk by set_solver.
  assert (key ∉ map h_key acc) as Hn.
  { apply NoDup_app in N. destruct N as (_ & Hd & _). intros Hx. apply (Hd _ Hx). set_solver. }
  destruct (attempt_calm L w key C V Hk (proj1 (P _ Hk) Hn)) as (r & w1 & l' & E & C1 & V1 & Hr).
  cbn [take_all]. rewrite (bind_done _ _ _ _ _ E). destruct (l_holder (L0 key)) as [x|] eqn:Hh.
  - destruct Hr as (-> & -> & F).
    assert (views L w1) as V2.
    { intros k Hk'. specialize (V1 k Hk'). destruct (decide (key = k)) as [<-|Hne].
      - rewrite fn_lookup_insert in V1. by rewrite (proj1 (P _ Hk) Hn).
      - by rewrite fn_lookup_insert_ne in V1. }
    assert (handles_ok acc w1) as Ha1 by (unfold handles_ok, flag_of in *; by rewrite F).
    destruct (rollback_calm acc L w1 C1 V2 P Ha1) as (w2 & L2 & E2 & C2 & V3 & Hl).
    rewrite (bind_done _ _ _ _ _ E2). exists acc, (Some (Held key)), w2, L2. split_and!; try done.
    exists key. rewrite Hh. split_and!; [set_solver|done|done].
  - destruct Hr as (h & -> & Ek & Ei & F & Ho & Hc & El). subst key.
    destruct (IH (acc ++ [h]) _ w1 C1 V1) as (hs & e & w2 & L2 & E2 & C2 & V2 & Hr).
    + by apply progressed_snoc.
    + by eapply handles_ok_snoc.
    + rewrite map_app, <- app_assoc. exact N.
    + set_solver.
    + exists hs, e, w2, L2. split_and!; try done. destruct e as [e|].
      * destruct Hr as ((k & ? & ? & ?) & ?). split; [|done]. exists k. split_and!; [set_solver|done|done].
      * destruct Hr as [-> ?]. by rewrite map_app, <- app_assoc.
Qed.
End round.

Lemma drop_all_servers {U : UuidSource} {R} (hs : list HandleShared) : forall w : world R,
  exists w', drop_all hs w = (Done tt, w') /\ w_server w' = w_server w.
Proof.
  induction hs as [|h hs IH]; intros w; [by exists w|]. cbn [drop_all].
  assert (exists w1, drop true h w = (Done tt, w1) /\ w_server w1 = w_server w) as (w1 & E1 & S1).
  { unfold drop, mark_released, update_cell, modify, cell, gets, spawn, ret, bind. by case_match; eexists. }
  rewrite (bind_done _ _ _ _ _ E1). destruct (IH w1) as (w' & E & S). exists w'. by rewrite E, S.
Qed.

Lemma safe_take_all {U : UuidSource} {R} `{Redis R} mgr options ks : forall acc, safe (R:=R) (take_all mgr ks options acc).
Proof.
  assert (forall h, safe (R:=R) (release h)) as Hr.
  { intros h. unfold release, run_release. solve_safe. }
  assert (forall hs, safe (R:=R) (release_each hs)) as He by (induction hs; cbn [release_each]; solve_safe).
  assert (forall hs, safe (R:=R) (drop_all hs)) as Hd.
  { induction hs; cbn [drop_all]; unfold drop; solve_safe. }
  pose proof (safe_try_lock_with (R:=R)).
  induction ks as [|k ks IH]; intros acc; cbn [take_all]; solve_safe.
Qed.

(** ** Properties *)


Section properties.
Context {U : UuidSource} {R : Type} `{RedisLaws R}.

End properties.

(** ** Witnesses *)

Definition demo_keys : list string := ["b"; "a"]%string.
Definition demo_lock_world : world db := demo_world demo_granted [].

Lemma demo_separate : separate demo_keys.
Proof.
  intros k k' Hk Hk'. unfold demo_keys in *. rewrite !elem_of_cons in Hk, Hk'.
  destruct Hk as [->|[->|Hk]], Hk' as [->|[->|Hk']];
    try (vm_compute; discriminate); set_solver.
Qed.

