(* ===== verification/Semantic.v ===== *)
(** * Semantic locks ([crates/redis/src/semantic.rs])

    A grant that also checks predicates on the hash [<key>:data].  The code
    writes a Lua script for the predicates at hand: the text is modelled, with
    the quoting it relies on, and what the script does for texts that the
    quoting carries over.  The theorems: which texts those are, what a text
    outside them does to the script, the outcome of an attempt, and the fence
    counter that runs out under a semantic lock. *)

From S2P Require Import Prelude Core Redis Scripts World Lease Single Simulation Multi F64.

Inductive Predicate :=
| Equals (field value : string)
| FieldGt (field : string) (value : f64)
| Absent (field : string).

(** ** The text *)

(** [esc]: [s.replace('\'', "\\'")]. *)
Fixpoint esc (s : string) : string :=
  match s with
  | EmptyString => EmptyString
  | String c s => if Ascii.eqb c "'" then String "\" (String "'" (esc s)) else String c (esc s)
  end.

Section text.
(** [Display] of an [f64]: its shortest decimal text. *)
Variable display : f64 -> string.

(** [Predicate::to_lua]. *)
Definition to_lua (p : Predicate) : string :=
  match p with
  | Equals field value => "(redis.call('HGET', KEYS[3], '" +:+ esc field +:+ "') == '" +:+ esc value +:+ "')"
  | FieldGt field value =>
      "((tonumber(redis.call('HGET', KEYS[3], '" +:+ esc field +:+ "')) or -999999) > " +:+ display value +:+ ")"
  | Absent field => "(redis.call('HEXISTS', KEYS[3], '" +:+ esc field +:+ "') == 0)"
  end.

(** [conditions.join(" and ")]. *)
Fixpoint combined (ps : list Predicate) : string :=
  match ps with
  | [] => ""
  | [p] => to_lua p
  | p :: ps => to_lua p +:+ " and " +:+ combined ps
  end.
End text.

(** What Lua reads after an opening quote: the value up to the closing one,
    and the text that follows.  A backslash takes the next character; only
    the escapes of the quote and of the backslash itself matter here, others
    and line breaks are not read. *)
Fixpoint lua_quoted (s : string) : option (string * string) :=
  match s with
  | EmptyString => None
  | String c s =>
      if Ascii.eqb c "'" then Some (EmptyString, s)
      else if Ascii.eqb c "\" then
        match s with
        | String d s =>
            if Ascii.eqb d "'" || Ascii.eqb d "\" then (fun p => (String d p.1, p.2)) <$> lua_quoted s else None
        | EmptyString => None
        end
      else if Ascii.eqb c "010" || Ascii.eqb c "013" then None
      else (fun p => (String c p.1, p.2)) <$> lua_quoted s
  end.

(** Texts without backslash or line break. *)
Fixpoint carried (s : string) : bool :=
  match s with
  | EmptyString => true
  | String c s => negb (Ascii.eqb c "\" || Ascii.eqb c "010" || Ascii.eqb c "013") && carried s
  end.

(** ** The script *)

Section script.
Context {R : Type} `{Redis R}.
Open Scope script_scope.

(** Lua's [(tonumber(x) or -999999) > v] for a field's value. *)
Variable exceeds : option string -> f64 -> bool.

Definition predicate_lua (k3 : string) (p : Predicate) : cmd R bool :=
  match p with
  | Equals field value => let! v := r_hget k3 field in cret (is_text v value)
  | FieldGt field value => let! v := r_hget k3 field in cret (exceeds v value)
  | Absent field => let! n := r_hexists k3 field in cret (n =? 0)
  end.

(** [and] evaluates its right operand only if the left one holds. *)
Fixpoint conditions_lua (k3 : string) (ps : list Predicate) : cmd R bool :=
  match ps with
  | [] => cret true
  | p :: ps => let! b := predicate_lua k3 p in if b : bool then conditions_lua k3 ps else cret false
  end.

Definition semantic_lua (ps : list Predicate) (KEYS ARGV : list string) : cmd R reply :=
  let! k3 := at_ KEYS 3 in let! k1 := at_ KEYS 1 in
  let! data := r_exists k3 in
  if data =? 0 then cret (RPair 0 0) else
  let! held := r_exists k1 in
  if held =? 1 then cret (RPair 0 0) else
  let! ok := conditions_lua k3 ps in
  if negb ok then cret (RPair 0 0) else
  let! tok := at_ ARGV 1 in let! px := int_at ARGV 2 in
  do! r_set k1 tok false (Some px) in
  let! k2 := at_ KEYS 2 in
  let! fence := r_incr k2 in
  cret (RPair 1 fence).

(** ** The guard *)

Record SemanticGuard := mk_semantic {
  sg_mgr : RedisLockManager; sg_key : string; sg_preds : list Predicate; sg_ttl : duration }.

Definition acquire_where (mgr : RedisLockManager) (key : string) : SemanticGuard :=
  mk_semantic mgr key [] (from_secs 30).
Definition where_ (p : Predicate) (g : SemanticGuard) : SemanticGuard :=
  mk_semantic (sg_mgr g) (sg_key g) (sg_preds g ++ [p]) (sg_ttl g).
Definition field_equals (f v : string) : SemanticGuard -> SemanticGuard := where_ (Equals f v).
Definition field_gt (f : string) (v : f64) : SemanticGuard -> SemanticGuard := where_ (FieldGt f v).
Definition field_absent (f : string) : SemanticGuard -> SemanticGuard := where_ (Absent f).
Definition guard_ttl (d : duration) (g : SemanticGuard) : SemanticGuard :=
  mk_semantic (sg_mgr g) (sg_key g) (sg_preds g) d.

Definition data_key_for (key : string) : string := key +:+ ":data".
End script.

Section acquire.
Context {U : UuidSource} {R : Type} `{Redis R}.
Variable exceeds : option string -> f64 -> bool.
Open Scope world_scope.

(** [SemanticGuard::acquire]. *)
Definition semantic_acquire (g : SemanticGuard) : M R (res error HandleShared) :=
  match sg_preds g with
  | [] => ret (Err (InvalidConfig "at least one predicate required"))
  | preds =>
      let* owner := fresh_owner in
      let token := owner_token owner in
      let ttl_ms := as_millis_u64 (sg_ttl g) in
      let? '(status, fence) := backend "semantic acquire failed: {e}"
        (invoke (mgr_conn (sg_mgr g))
           (as_pair (semantic_lua exceeds preds [sg_key g; fence_key_for (sg_key g); data_key_for (sg_key g)]
              [token; z_to_string ttl_ms]))) in
      if negb (status =? 1) then ret (Err (Held (sg_key g))) else
      let* h := build_handle_from_parts (sg_mgr g) (sg_key g) token owner (wrap64 fence) (sg_ttl g) in
      ret (Ok h)
  end.
End acquire.

(** ** Quoting *)

(** Quoting round trip.  A text without backslash or line break, escaped
    and put between quotes, is read back by Lua as the text it was, and the
    script goes on after the closing quote. *)
Theorem esc_roundtrip s rest : carried s = true -> lua_quoted (esc s +:+ String "'" rest) = Some (s, rest).
Proof.
  induction s as [|c s IH]; intros Hc; [done|]. cbn [carried] in Hc. apply andb_prop in Hc. destruct Hc as [Hn Hc].
  apply negb_true_iff, orb_false_iff in Hn. destruct Hn as [Hn H3]. apply orb_false_iff in Hn. destruct Hn as [H1 H2].
  specialize (IH Hc). cbn [esc]. destruct (Ascii.eqb c "'") eqn:E.
  - apply Ascii.eqb_eq in E. subst c.
    change (lua_quoted (String "\" (String "'" (esc s +:+ String "'" rest))) = Some (String "'" s, rest)).
    cbn [lua_quoted]. rewrite IH. done.
  - change (lua_quoted (String c (esc s +:+ String "'" rest)) = Some (String c s, rest)).
    cbn [lua_quoted]. rewrite E, H1, H2, H3, IH. done.
Qed.

(** A backslash gets out of the quotes.  [esc] leaves backslashes alone,
    so a text that starts with a backslash and a quote is read by Lua as a
    single backslash, and what the caller wrote after it becomes script. *)
Theorem esc_injection x rest :
  lua_quoted (esc (String "\" (String "'" x)) +:+ String "'" rest) = Some ("\"%string, esc x +:+ String "'" rest).
Proof. done. Qed.

(** ** The script on a store *)

Definition satisfied (exceeds : option string -> f64 -> bool) (h : gmap string string) (p : Predicate) : bool :=
  match p with
  | Equals field value => is_text (h !! field) value
  | FieldGt field value => exceeds (h !! field) value
  | Absent field => negb (bool_decide (is_Some (h !! field)))
  end.

(** When the script grants, and the lease it leaves: the counter keeps the
    deadline it had. *)
Definition semantic_grants exceeds (ps : list Predicate) (hash : option (gmap string string * option Z)) (l : lease) : bool :=
  match hash with
  | Some (h, _) => bool_decide (l_holder l = None) && forallb (satisfied exceeds h) ps
  | None => false
  end.
Definition semantic_lease (tok : string) (ttl : Z) (l : lease) : lease :=
  mk_lease (l_now l) (Some (tok, l_now l + ttl)) (Some (fence_count l + 1, l_fence l ≫= snd)).

Lemma data_key_ne key : data_key_for key <> key /\ data_key_for key <> fence_key_for key.
Proof.
  split; intros E; apply (f_equal String.length) in E; unfold data_key_for, fence_key_for in E;
    rewrite !string_app_length in E; cbn [String.length] in E; lia.
Qed.

Section store.
Variables (exceeds : option string -> f64 -> bool) (key : string).
Abbreviation dk := (data_key_for key).
Abbreviation fk := (fence_key_for key).

Lemma conditions_run d h dl ps : db_live d !! dk = Some (mk_entry (VHash h) dl) ->
  conditions_lua exceeds dk ps d = (Ok (forallb (satisfied exceeds h) ps), d).
Proof.
  intros E. induction ps as [|p ps IH]; [done|]. cbn [conditions_lua forallb].
  assert (predicate_lua exceeds dk p d = (Ok (satisfied exceeds h p), d)) as Ep.
  { destruct p as [f v|f v|f]; cbn [predicate_lua satisfied]; to_doc.
    - by rewrite (cbind_ok _ _ _ _ _ (hget_at dk _ _ _ f E)).
    - by rewrite (cbind_ok _ _ _ _ _ (hget_at dk _ _ _ f E)).
    - rewrite (cbind_ok _ _ _ _ _ (hexists_at dk _ _ _ f E)). by destruct (h !! f). }
  rewrite (cbind_ok _ _ _ _ _ Ep). by destruct (satisfied exceeds h p).
Qed.

Lemma semantic_run ps d l hash tok ttl :
  view key d l -> db_live d !! dk = (fun h => mk_entry (VHash h.1) h.2) <$> hash ->
  ttl_fits (l_now l) ttl -> fence_count l < i64_max ->
  let r := semantic_lua exceeds ps [key; fk; dk] [tok; z_to_string ttl] d in
  if semantic_grants exceeds ps hash l
  then r.1 = Ok (RPair 1 (fence_count l + 1)) /\ view key r.2 (semantic_lease tok ttl l) /\ same_elsewhere key d r.2
  else r = (Ok (RPair 0 0), d).
Proof.
  intros V Ed F Hc r. unfold r, semantic_lua, semantic_grants. clear r. run_at. run_at. to_doc.
  destruct hash as [[h dl]|]; cbn in Ed.
  2:{ by run_with (exists_at_None dk _ Ed). }
  run_with (exists_at_Some dk _ _ Ed). cbn [Z.eqb]. pose proof (view_holder _ _ _ V) as Vh.
  destruct (l_holder l) as [[t0 dl0]|] eqn:Hh; cbn in Vh.
  { by run_with (exists_at_Some key _ _ Vh). }
  run_with (exists_at_None key _ Vh). cbn [Z.eqb]. run_with (conditions_run _ _ _ ps Ed).
  rewrite bool_decide_eq_true_2 by done. cbn [andb]. destruct (forallb _ ps); cbn [negb]; [|done].
  run_at. run_with (int_at_ttl [tok; z_to_string ttl] 2 _ _ d eq_refl (view_clock _ _ _ V) F).
  assert (doc_set key tok false (Some ttl) d = (Ok true, put key (VStr tok) (Some (l_now l + ttl)) d)) as Es.
  { unfold doc_set. by rewrite expire_ok_fits, (view_now _ _ _ V) by by rewrite (view_now _ _ _ V). }
  run_with Es. run_at. to_doc. pose proof (put_hold_view _ _ _ tok ttl V) as V1.
  pose proof (doc_incr_view _ _ _ V1) as Ei.
  change (fence_count (lease_hold tok ttl l)) with (fence_count l) in Ei.
  change (l_fence (lease_hold tok ttl l)) with (l_fence l) in Ei.
  rewrite (proj2 (Z.leb_le _ _)) in Ei by lia. run_with Ei. split; [done|]. unfold cret. cbn [snd].
  split; [|auto 6 with palisade]. pose proof (view_count _ _ _ V). apply (put_fence_view key _ _ _ _ V1). lia.
Qed.
End store.

Section attempts.
Context {U : UuidSource} {R : Type} `{RedisLaws R} (exceeds : option string -> f64 -> bool).

Lemma meets_semantic ps KEYS ARGV : meets (semantic_lua (R:=R) exceeds ps KEYS ARGV) (semantic_lua exceeds ps KEYS ARGV).
Proof.
  assert (forall k, meets (conditions_lua (R:=R) exceeds k ps) (conditions_lua exceeds k ps)) as Hc.
  { intros k. induction ps as [|p ps IH]; cbn [conditions_lua]; [solve_meets|].
    apply meets_bind; [destruct p; cbn [predicate_lua]; solve_meets|intros []; [apply IH|solve_meets]]. }
  unfold semantic_lua, int_at, at_. solve_meets.
Qed.

(** One attempt with predicates. *)
Lemma semantic_attempt g (w : world R) l hash :
  let key := sg_key g in
  let c := mgr_conn (sg_mgr g) in
  let t := as_millis_u64 (sg_ttl g) in
  let tok := owner_token (owner_generate (w_uuids w)) in
  sg_preds g <> [] -> calm w -> view key (r_db (w_server w c)) l ->
  db_live (r_db (w_server w c)) !! data_key_for key = (fun h => mk_entry (VHash h.1) h.2) <$> hash ->
  ttl_fits (l_now l) t -> fence_count l < i64_max ->
  exists r w', semantic_acquire exceeds g w = (Done r, w') /\ calm w' /\ w_tasks w' = w_tasks w /\
    if semantic_grants exceeds (sg_preds g) hash l then exists h, r = Ok h /\ h_key h = key /\ h_token h = tok /\
      h_owner h = owner_generate (w_uuids w) /\ h_fence h = fence_new (fence_count l + 1) /\
      flag_of w' h = fresh_flags /\ (h_cell h < length (w_flags w'))%nat /\
      view key (r_db (w_server w' c)) (semantic_lease tok t l) /\ same_elsewhere key (r_db (w_server w c)) (r_db (w_server w' c))
    else r = Err (Held key) /\ r_db (w_server w' c) = r_db (w_server w c).
Proof.
  intros key c t tok Hp C V Ed F Hc. subst key t. unfold semantic_acquire.
  destruct (sg_preds g) as [|p0 ps0] eqn:Eps; [done|]. rewrite <- Eps in *. clear p0 ps0 Eps.
  unfold bind at 1, fresh_owner. fold tok. set (w1 := set_uuids _ w). assert (calm w1) as C1 by done.
  set (m := semantic_lua exceeds (sg_preds g) _ _). unfold try_ at 1, backend, bind at 1, bind at 1.
  rewrite calm_invoke by done. change (w_server w1) with (w_server w). rewrite as_pair_run. cbn [fst snd]. unfold ret at 1. cbv iota.
  set (s := w_server w (mgr_conn (sg_mgr g))).
  pose proof (semantic_run exceeds (sg_key g) (sg_preds g) (r_db s) l hash tok _ V Ed F Hc) as Hr. cbv zeta in Hr.
  pose proof (meets_semantic (sg_preds g) [sg_key g; fence_key_for (sg_key g); data_key_for (sg_key g)]
    [tok; z_to_string (as_millis_u64 (sg_ttl g))] s) as Em. fold m in Em. pose proof (view_count _ _ _ V) as Hn. destruct (semantic_grants exceeds (sg_preds g) hash l).
  - rewrite <- Em in Hr. cbn [fst snd] in Hr. destruct Hr as (E1 & V' & S'). rewrite E1. cbn [res_map_err Z.eqb negb].
    unfold build_handle_from_parts, bind at 1, new_cell, bind at 1.
    eexists _, _. split; [reflexivity|]. split; [by destruct C|]. split; [done|]. eexists. split; [reflexivity|].
    rewrite wrap64_small by (unfold in_u64, u64_mod, i64_max in *; lia). unfold flag_of. cbn.
    rewrite fn_lookup_insert, lookup_app_r, Nat.sub_diag, length_app by lia. cbn. split_and!; try done. lia.
  - rewrite Hr in Em. injection Em as E1 E2. rewrite E1. cbn [res_map_err Z.eqb negb].
    eexists _, _. split; [reflexivity|]. split; [by destruct C|]. split; [done|]. split; [done|].
    cbn. by rewrite fn_lookup_insert.
Qed.

End attempts.

(** ** The counter under a semantic lock *)

Section counter.
Context {R : Type} `{RedisLaws R} (exceeds : option string -> f64 -> bool).

(** A semantic lock does not keep its fence counter.  The script leaves
    the counter with the deadline it had (the mutex pushes it out to ten
    leases at every grant); when that deadline passes while the lock is still
    held, the counter goes, and the next holder of the key, by the mutex, is
    given fence 1: it does not supersede the fence of the lock before it. *)
Theorem semantic_fence_restarts key ps (s : R) l hash dlf ttl dt tok b ttl2 :
  view key (r_db s) l -> db_live (r_db s) !! data_key_for key = (fun h => mk_entry (VHash h.1) h.2) <$> hash ->
  ttl_fits (l_now l) ttl -> fence_count l < i64_max -> semantic_grants exceeds ps hash l = true ->
  (exists c, l_fence l = Some (c, Some dlf)) -> 0 <= dt -> dlf < l_now l + dt < l_now l + ttl ->
  lop_fits (l_now l + dt) (LAcquire b ttl2 (10 * ttl2)) ->
  let s1 := (semantic_lua exceeds ps [key; fence_key_for key; data_key_for key] [tok; z_to_string ttl] s).2 in
  let s2 := r_elapse dt s1 in
  let s3 := (lop_script key (LRelease tok) s2).2 in
  (exists dl, db_live (r_db s2) !! key = Some (holder_entry (tok, dl))) /\
  (lop_script key (LAcquire b ttl2 (10 * ttl2)) s3).1 = Ok (RPair 1 1) /\
  supersedes (fence_new 1) (fence_new (fence_count l + 1)) = false.
Proof.
  intros V Ed F Hc Hg (c & Ef) Hdt Hd F2 s1 s2 s3.
  pose proof (semantic_run exceeds key ps (r_db s) l hash tok ttl V Ed F Hc) as Hr. cbv zeta in Hr. rewrite Hg in Hr.
  rewrite <- (meets_semantic exceeds ps _ _ s) in Hr. cbn [fst snd] in Hr. destruct Hr as (_ & V1 & _). fold s1 in V1.
  destruct (elapse_refines key dt (r_db s1) (r_db s2) _ (elapse_law dt s1 Hdt) Hdt V1) as (l2 & (En & Eh & Ec) & V2).
  cbn [semantic_lease l_now l_holder l_fence] in En, Eh, Ec. rewrite Ef in Ec. unfold expires in Eh, Ec.
  cbn in Eh, Ec. rewrite En in Eh, Ec.
  assert (l_holder l2 = Some (tok, l_now l + ttl)) as Hh2 by (destruct Eh as [[_ ->]|[[? _]|[? _]]]; done || lia).
  assert (l_fence l2 = None) as Hf2 by (destruct Ec as [[? _]|[[_ ->]|[? _]]]; done || lia).
  destruct (lop_refines_any key s2 l2 (LRelease tok) V2 I) as (_ & V3 & _). fold s3 in V3.
  cbn [lease_op] in V3. unfold lease_release, holds in V3. rewrite Hh2, String.eqb_refl in V3. cbn [snd] in V3.
  split_and!.
  - exists (l_now l + ttl). by rewrite (view_holder _ _ _ V2), Hh2.
  - assert (l_now (lease_free l2) = l_now l + dt) as En3 by done. rewrite <- En3 in F2.
    destruct (lop_refines_any key s3 (lease_free l2) _ V3 F2) as (-> & _). cbn [lease_op].
    unfold lease_acquire, lease_free, lease_bump, fence_count, lease_hold. cbn. rewrite Hf2. done.
  - unfold supersedes, fence_count. rewrite Ef. pose proof (view_count _ _ _ V) as Hn. unfold fence_count in Hn. rewrite Ef in Hn.
    cbn. apply Z.ltb_ge. lia.
Qed.
End counter.

(** ** Witnesses *)

Definition demo_exceeds (_ : option string) (_ : f64) : bool := false.
Definition demo_hash : gmap string string := {["state"%string := "ready"%string]}.
(** The mutex granted and released once: a counter with a deadline. *)
Definition demo_stock : db :=
  mk_db 0 {["job:data"%string := mk_entry (VHash demo_hash) None; fence_key_for "job" := fence_entry (4, Some 1000)]}.
Definition demo_stock_lease : lease := mk_lease 0 None (Some (4, Some 1000)).
Definition demo_guard : SemanticGuard := field_absent "owner" (field_equals "state" "ready" (acquire_where demo_mgr "job")).

Lemma demo_stock_view : view "job" demo_stock demo_stock_lease.
Proof. split; [reflexivity|vm_compute; reflexivity|vm_compute; reflexivity|concrete|concrete]. Qed.

Lemma esc_roundtrip_witness :
  lua_quoted (esc "it's" +:+ String "'" "') == 1") = Some ("it's"%string, "') == 1"%string).
Proof. apply (esc_roundtrip "it's" "') == 1"). reflexivity. Defined.


Lemma semantic_fence_restarts_witness :
  (lop_script "job" (LAcquire "B" 100 1000) (lop_script "job" (LRelease "A")
     (r_elapse 2000 (semantic_lua demo_exceeds (sg_preds demo_guard) ["job"; fence_key_for "job"; data_key_for "job"]
        ["A"; z_to_string 30000] demo_stock).2)).2).1 = Ok (RPair 1 1).
Proof.
  apply (semantic_fence_restarts demo_exceeds "job" (sg_preds demo_guard) demo_stock demo_stock_lease
    (Some (demo_hash, None)) 1000 30000 2000 "A" "B" 100).
  - exact demo_stock_view.
  - vm_compute. reflexivity.
  - concrete.
  - concrete.
  - vm_compute. reflexivity.
  - by exists 4.
  - done.
  - done.
  - concrete.
Defined.
