(* ===== verification/EtcdStore.v ===== *)
(** * The etcd store

    etcd is not part of the repository: a class lists the calls the client
    library makes and another the documented effects of those calls (v3
    transactions over a multi-version key space, leases that delete their
    keys), on the state a client can observe.  The lemmas say what keeps a
    leased key in place and how the revision moves; a reference store
    satisfies the laws. *)

From S2P Require Import Prelude Redis.

(** ** What a client can observe *)

Record ekv := mk_ekv { ev_value : string; ev_create : Z; ev_lease : Z }.
#[global] Instance ekv_eq_dec : EqDecision ekv.
Proof. solve_decision. Defined.

(** The clock in ms, the revision, the live keys, and the live leases with
    their granted time to live in seconds and their deadline. *)
Record edb := mk_edb {
  ed_now : Z;
  ed_rev : Z;
  ed_kvs : gmap string ekv;
  ed_leases : gmap Z (Z * Z);
}.

Inductive ecompare :=
| CreateRevision (key : string) (rev : Z)
| ValueIs (key v : string).
Inductive eop :=
| EPut (key v : string) (lease : Z)
| EDelete (key : string).

(** ** Documented effects *)

(** A comparison of the value of an absent key fails; the create revision of
    an absent key is 0. *)
Definition compare_holds (d : edb) (c : ecompare) : bool :=
  match c with
  | CreateRevision key rev => match ed_kvs d !! key with Some kv => ev_create kv =? rev | None => 0 =? rev end
  | ValueIs key v => match ed_kvs d !! key with Some kv => String.eqb (ev_value kv) v | None => false end
  end.

(** A put names a live lease (0: none). *)
Definition lease_known (d : edb) (o : eop) : bool :=
  match o with EPut _ _ l => (l =? 0) || bool_decide (is_Some (ed_leases d !! l)) | EDelete _ => true end.

(** Whether the operation takes a new revision, and what it does. *)
Definition modifies (d : edb) (o : eop) : bool :=
  match o with EPut _ _ _ => true | EDelete key => bool_decide (is_Some (ed_kvs d !! key)) end.
Definition apply_op (rev : Z) (o : eop) (m : gmap string ekv) : gmap string ekv :=
  match o with
  | EPut key v l => <[key := mk_ekv v (match m !! key with Some kv => ev_create kv | None => rev end) l]> m
  | EDelete key => delete key m
  end.

Definition set_kvs (d : edb) (rev : Z) (m : gmap string ekv) : edb := mk_edb (ed_now d) rev m (ed_leases d).

(** [txn]: whether the comparisons held, and the revision after it. *)
Definition doc_txn (cmps : list ecompare) (ops : list eop) (d : edb) : res rerr (bool * Z) * edb :=
  let succeeded := forallb (compare_holds d) cmps in
  let ops := if succeeded then ops else [] in
  if forallb (lease_known d) ops then
    let rev := if existsb (modifies d) ops then ed_rev d + 1 else ed_rev d in
    (Ok (succeeded, rev), set_kvs d rev (foldl (fun m o => apply_op rev o m) (ed_kvs d) ops))
  else (Err Io, d).

(** The keys attached to lease [id] go with it. *)
Definition attached (id : Z) (m : gmap string ekv) : gmap string ekv := filter (fun kv => ev_lease kv.2 = id) m.
Definition drop_lease (id : Z) (d : edb) : edb :=
  mk_edb (ed_now d) (if bool_decide (attached id (ed_kvs d) = ∅) then ed_rev d else ed_rev d + 1)
    (filter (fun kv => ev_lease kv.2 <> id) (ed_kvs d)) (delete id (ed_leases d)).

Definition doc_revoke (id : Z) (d : edb) : res rerr unit * edb :=
  match ed_leases d !! id with Some _ => (Ok tt, drop_lease id d) | None => (Err Io, d) end.

(** A keep-alive answers the time to live, 0 for a lease that is gone. *)
Definition doc_keep_alive (id : Z) (d : edb) : res rerr Z * edb :=
  match ed_leases d !! id with
  | Some (secs, _) =>
      (Ok secs, mk_edb (ed_now d) (ed_rev d) (ed_kvs d) (<[id := (secs, ed_now d + 1000 * secs)]> (ed_leases d)))
  | None => (Ok 0, d)
  end.

(** [time_to_live]: whole seconds left, -1 for a lease that is gone. *)
Definition doc_time_to_live (id : Z) (d : edb) : res rerr Z * edb :=
  (Ok match ed_leases d !! id with Some (_, dl) => Z.max 0 ((dl - ed_now d) / 1000) | None => -1 end, d).

(** A grant makes a new lease of at least the time asked for, or fails. *)
Definition granted_lease (secs : Z) (r : res rerr Z) (d d' : edb) : Prop :=
  match r with
  | Ok id => id <> 0 /\ ed_leases d !! id = None /\ (forall k kv, ed_kvs d !! k = Some kv -> ev_lease kv <> id) /\
      exists ttl, secs <= ttl /\
        d' = mk_edb (ed_now d) (ed_rev d) (ed_kvs d) (<[id := (ttl, ed_now d + 1000 * ttl)]> (ed_leases d))
  | Err _ => d' = d
  end.

(** Time passes: some leases past their deadline are dropped, none before. *)
Record etcd_elapsed (dt : Z) (d d' : edb) : Prop := mk_etcd_elapsed {
  ee_now : ed_now d' = ed_now d + dt;
  ee_rev : ed_rev d <= ed_rev d';
  ee_lease : forall id l, ed_leases d !! id = Some l -> ed_now d' < l.2 -> ed_leases d' !! id = Some l;
  ee_lease_back : forall id l, ed_leases d' !! id = Some l -> ed_leases d !! id = Some l;
  ee_kv : forall k kv, ed_kvs d !! k = Some kv ->
    ev_lease kv = 0 \/ ed_leases d' !! ev_lease kv <> None -> ed_kvs d' !! k = Some kv;
  ee_kv_back : forall k kv, ed_kvs d' !! k = Some kv ->
    ed_kvs d !! k = Some kv /\ (ev_lease kv = 0 \/ ed_leases d' !! ev_lease kv <> None);
}.

(** ** The interface *)

Class Etcd (E : Type) := {
  e_db : E -> edb;
  e_grant : Z -> cmd E Z;
  e_revoke : Z -> cmd E unit;
  e_open_keep_alive : Z -> cmd E unit;
  e_keep_alive : Z -> cmd E Z;
  e_time_to_live : Z -> cmd E Z;
  e_txn : list ecompare -> list eop -> cmd E (bool * Z);
  e_elapse : Z -> E -> E;
}.

(** Opening a keep-alive stream may already renew the lease. *)
Class EtcdLaws (E : Type) `{Etcd E} := {
  grant_law secs s : 0 < secs -> granted_lease secs (e_grant secs s).1 (e_db s) (e_db (e_grant secs s).2);
  revoke_law id s : ((e_revoke id s).1, e_db (e_revoke id s).2) = doc_revoke id (e_db s);
  open_law id s : e_db (e_open_keep_alive id s).2 = e_db s \/
    e_db (e_open_keep_alive id s).2 = (doc_keep_alive id (e_db s)).2;
  keep_alive_law id s : ((e_keep_alive id s).1, e_db (e_keep_alive id s).2) = doc_keep_alive id (e_db s);
  time_to_live_law id s : ((e_time_to_live id s).1, e_db (e_time_to_live id s).2) = doc_time_to_live id (e_db s);
  txn_law cmps ops s : ((e_txn cmps ops s).1, e_db (e_txn cmps ops s).2) = doc_txn cmps ops (e_db s);
  etcd_elapse_law dt s : 0 <= dt -> etcd_elapsed dt (e_db s) (e_db (e_elapse dt s));
}.

(** ** The two transactions of a lock *)

Definition acquire_txn {E} `{Etcd E} (key token : string) (lease : Z) : cmd E (bool * Z) :=
  e_txn [CreateRevision key 0] [EPut key token lease].
Definition release_txn {E} `{Etcd E} (key token : string) : cmd E (bool * Z) :=
  e_txn [ValueIs key token] [EDelete key].

(** Revisions count from 1, keys are created by one of them, and a key names
    a live lease. *)
Record edb_ok (d : edb) : Prop := mk_edb_ok {
  eo_rev : 0 < ed_rev d;
  eo_create : forall k kv, ed_kvs d !! k = Some kv -> 0 < ev_create kv <= ed_rev d;
  eo_lease : forall k kv, ed_kvs d !! k = Some kv -> ev_lease kv <> 0 -> is_Some (ed_leases d !! ev_lease kv);
}.

Definition put_key (key token : string) (lease : Z) (d : edb) : edb :=
  set_kvs d (ed_rev d + 1) (<[key := mk_ekv token (ed_rev d + 1) lease]> (ed_kvs d)).
Definition delete_key (key : string) (d : edb) : edb := set_kvs d (ed_rev d + 1) (delete key (ed_kvs d)).

Lemma acquire_txn_eq key token lease d : edb_ok d ->
  doc_txn [CreateRevision key 0] [EPut key token lease] d =
    match ed_kvs d !! key with
    | Some _ => (Ok (false, ed_rev d), d)
    | None => if (lease =? 0) || bool_decide (is_Some (ed_leases d !! lease))
              then (Ok (true, ed_rev d + 1), put_key key token lease d) else (Err Io, d)
    end.
Proof.
  intros [Hr Hc Hl]. unfold doc_txn. cbn [forallb compare_holds].
  destruct (ed_kvs d !! key) as [kv|] eqn:E.
  - specialize (Hc _ _ E). rewrite (proj2 (Z.eqb_neq _ _)) by lia. cbn. by destruct d.
  - cbn. rewrite andb_true_r. destruct (_ || _); [|done]. unfold put_key. by rewrite E.
Qed.

Lemma release_txn_eq key token d :
  doc_txn [ValueIs key token] [EDelete key] d =
    match ed_kvs d !! key with
    | Some kv => if String.eqb (ev_value kv) token then (Ok (true, ed_rev d + 1), delete_key key d)
                 else (Ok (false, ed_rev d), d)
    | None => (Ok (false, ed_rev d), d)
    end.
Proof.
  unfold doc_txn. cbn [forallb compare_holds].
  destruct (ed_kvs d !! key) as [kv|] eqn:E; [destruct (String.eqb _ _)|]; cbn; rewrite ?E; cbn; by destruct d.
Qed.

(** ** Steps of the store *)

(** What anybody can make the store do, and time. *)
Inductive eevent :=
| EvGrant (secs : Z)
| EvAcquire (key token : string) (lease : Z)
| EvRelease (key token : string)
| EvRevoke (id : Z)
| EvKeepAlive (id : Z)
| EvTime (dt : Z).

Definition eevent_run {E} `{Etcd E} (ev : eevent) (s : E) : E :=
  match ev with
  | EvGrant secs => (e_grant secs s).2
  | EvAcquire key token lease => (acquire_txn key token lease s).2
  | EvRelease key token => (release_txn key token s).2
  | EvRevoke id => (e_revoke id s).2
  | EvKeepAlive id => (e_keep_alive id s).2
  | EvTime dt => e_elapse dt s
  end.
Definition eevents_run {E} `{Etcd E} (evs : list eevent) (s : E) : E := foldl (fun s ev => eevent_run ev s) s evs.

Definition eevent_ok (ev : eevent) : Prop :=
  match ev with EvGrant secs => 0 < secs | EvTime dt => 0 <= dt | _ => True end.
Definition eevent_time (ev : eevent) : Z := match ev with EvTime dt => dt | _ => 0 end.
Definition etime (evs : list eevent) : Z := foldr (fun ev t => eevent_time ev + t) 0 evs.

(** One observable step. *)
Inductive edb_step (d : edb) : eevent -> edb -> Prop :=
| es_grant secs r d' : granted_lease secs r d d' -> edb_step d (EvGrant secs) d'
| es_acquire key token lease :
    edb_step d (EvAcquire key token lease) (doc_txn [CreateRevision key 0] [EPut key token lease] d).2
| es_release key token : edb_step d (EvRelease key token) (doc_txn [ValueIs key token] [EDelete key] d).2
| es_revoke id : edb_step d (EvRevoke id) (doc_revoke id d).2
| es_keep id : edb_step d (EvKeepAlive id) (doc_keep_alive id d).2
| es_time dt d' : etcd_elapsed dt d d' -> edb_step d (EvTime dt) d'.

Lemma eevent_step {E} `{EtcdLaws E} ev (s : E) : eevent_ok ev -> edb_step (e_db s) ev (e_db (eevent_run ev s)).
Proof.
  destruct ev as [secs|key token lease|key token|id|id|dt]; intros Hok; cbn [eevent_run].
  - econstructor. by apply grant_law.
  - pose proof (f_equal snd (txn_law [CreateRevision key 0] [EPut key token lease] s)) as E1. cbn [snd] in E1.
    unfold acquire_txn. rewrite E1. constructor.
  - pose proof (f_equal snd (txn_law [ValueIs key token] [EDelete key] s)) as E1. cbn [snd] in E1.
    unfold release_txn. rewrite E1. constructor.
  - pose proof (f_equal snd (revoke_law id s)) as E1. cbn [snd] in E1. rewrite E1. constructor.
  - pose proof (f_equal snd (keep_alive_law id s)) as E1. cbn [snd] in E1. rewrite E1. constructor.
  - constructor. by apply etcd_elapse_law.
Qed.

Lemma edb_step_now d ev d' : edb_step d ev d' -> edb_ok d -> ed_now d' = ed_now d + eevent_time ev.
Proof.
  destruct 1 as [secs r d' G|key token lease|key token|id|id|dt d' [En _ _ _ _ _]]; intros Hok; cbn [eevent_time].
  - unfold granted_lease in G. destruct r; [destruct G as (_ & _ & _ & ttl & _ & ->)|subst d']; cbn; lia.
  - rewrite acquire_txn_eq by done. repeat case_match; cbn; lia.
  - rewrite release_txn_eq. repeat case_match; cbn; lia.
  - unfold doc_revoke. case_match; cbn; lia.
  - unfold doc_keep_alive. repeat case_match; cbn; lia.
  - done.
Qed.

(** The revision never goes back. *)
Lemma edb_step_rev d ev d' : edb_step d ev d' -> edb_ok d -> ed_rev d <= ed_rev d'.
Proof.
  destruct 1 as [secs r d' G|key token lease|key token|id|id|dt d' [_ Er _ _ _ _]]; intros Hok.
  - unfold granted_lease in G. destruct r; [destruct G as (_ & _ & _ & ttl & _ & ->)|subst d']; cbn; lia.
  - rewrite acquire_txn_eq by done. repeat case_match; cbn; lia.
  - rewrite release_txn_eq. repeat case_match; cbn; lia.
  - unfold doc_revoke, drop_lease. case_match; cbn; [|lia]. case_bool_decide; lia.
  - unfold doc_keep_alive. repeat case_match; cbn; lia.
  - done.
Qed.

Lemma put_key_ok key token lease d : edb_ok d -> lease = 0 \/ is_Some (ed_leases d !! lease) ->
  edb_ok (put_key key token lease d).
Proof.
  intros [Hr Hc Hl] Hk. constructor; cbn.
  - lia.
  - intros k kv. destruct (decide (key = k)) as [<-|Hne].
    + rewrite lookup_insert_eq. intros [= <-]. cbn. lia.
    + rewrite lookup_insert_ne by done. intros E. specialize (Hc _ _ E). lia.
  - intros k kv. destruct (decide (key = k)) as [<-|Hne].
    + rewrite lookup_insert_eq. intros [= <-] Hne. cbn in *. by destruct Hk.
    + rewrite lookup_insert_ne by done. apply Hl.
Qed.

Lemma delete_key_ok key d : edb_ok d -> edb_ok (delete_key key d).
Proof.
  intros [Hr Hc Hl]. constructor; cbn.
  - lia.
  - intros k kv E. apply lookup_delete_Some in E. destruct E as [_ E]. specialize (Hc _ _ E). lia.
  - intros k kv E. apply lookup_delete_Some in E. destruct E as [_ E]. by eapply Hl.
Qed.

Lemma lease_insert_ok d id l : edb_ok d -> edb_ok (mk_edb (ed_now d) (ed_rev d) (ed_kvs d) (<[id := l]> (ed_leases d))).
Proof.
  intros [Hr Hc Hl]. constructor; cbn; [done|done|]. intros k kv E Hne. apply lookup_insert_is_Some'. right. by eapply Hl.
Qed.

Lemma drop_lease_ok id d : edb_ok d -> edb_ok (drop_lease id d).
Proof.
  intros [Hr Hc Hl]. unfold drop_lease. constructor; cbn.
  - case_bool_decide; lia.
  - intros k kv E. apply map_lookup_filter_Some in E. destruct E as [E _]. specialize (Hc _ _ E). case_bool_decide; lia.
  - intros k kv E Hne. apply map_lookup_filter_Some in E. destruct E as [E Hid]. cbn in Hid.
    rewrite lookup_delete_ne by done. by eapply Hl.
Qed.

Lemma edb_step_ok d ev d' : edb_step d ev d' -> edb_ok d -> edb_ok d'.
Proof.
  destruct 1 as [secs r d' G|key token lease|key token|id|id|dt d' [En Er El Elb Ek Ekb]]; intros Hok.
  - unfold granted_lease in G. destruct r; [destruct G as (_ & _ & _ & ttl & _ & ->)|by subst d']. by apply lease_insert_ok.
  - rewrite acquire_txn_eq by done. destruct (ed_kvs d !! key); [done|]. destruct (_ || _) eqn:Hl; [|done].
    apply put_key_ok; [done|]. apply orb_prop in Hl. rewrite Z.eqb_eq, bool_decide_eq_true in Hl. done.
  - rewrite release_txn_eq. repeat case_match; try done. by apply delete_key_ok.
  - unfold doc_revoke. case_match; [|done]. by apply drop_lease_ok.
  - unfold doc_keep_alive. repeat case_match; [|done]. by apply lease_insert_ok.
  - destruct Hok as [Hr Hc Hl]. constructor; [lia| |].
    + intros k kv E. apply Ekb in E. destruct E as [E _]. specialize (Hc _ _ E). lia.
    + intros k kv E Hne. apply Ekb in E. destruct E as [_ [?|Hs]]; [done|]. by apply not_eq_None_Some.
Qed.

(** ** A key under a live lease *)

(** [a] holds [key] under lease [id], which lives beyond [T]. *)
Record leased (a key : string) (id T : Z) (d : edb) : Prop := mk_leased {
  ld_ok : edb_ok d;
  ld_kv : exists rev, ed_kvs d !! key = Some (mk_ekv a rev id);
  ld_id : id <> 0;
  ld_lease : exists ttl dl, ed_leases d !! id = Some (ttl, dl) /\ T <= dl <= ed_now d + 1000 * ttl;
}.

(** What others may do: anything but use [a]'s token or revoke its lease. *)
Definition spares (a key : string) (id : Z) (ev : eevent) : Prop :=
  match ev with
  | EvRelease k token => k <> key \/ token <> a
  | EvRevoke i => i <> id
  | _ => True
  end.

Lemma leased_step a key id T d ev d' : edb_step d ev d' -> eevent_ok ev -> spares a key id ev ->
  ed_now d' < T -> leased a key id T d -> leased a key id T d'.
Proof.
  intros S Hev Hs Ht [Hok (rev & Hk) Hid (ttl & dl & Hl & HT)].
  pose proof (edb_step_ok _ _ _ S Hok) as Hok'. constructor; [done| |done|].
  - destruct S as [secs r d' G|k token lease|k token|i|i|dt d' [En Er El Elb Ek Ekb]].
    + unfold granted_lease in G. destruct r; [destruct G as (_ & _ & _ & ttl' & _ & ->)|subst d']; by exists rev.
    + rewrite acquire_txn_eq by done. destruct (ed_kvs d !! k) eqn:E; [by exists rev|]. destruct (_ || _); [|by exists rev].
      exists rev. cbn. rewrite lookup_insert_ne; [done|]. congruence.
    + rewrite release_txn_eq. destruct (ed_kvs d !! k) as [kv|] eqn:E; [|by exists rev].
      destruct (String.eqb_spec (ev_value kv) token) as [Hv|]; [|by exists rev]. exists rev. cbn.
      rewrite lookup_delete_ne; [done|]. intros ->. rewrite Hk in E. injection E as <-. cbn in Hv. cbn in Hs. by destruct Hs.
    + unfold doc_revoke. destruct (ed_leases d !! i); [|by exists rev]. exists rev. cbn.
      apply map_lookup_filter_Some. split; [done|]. cbn. cbn in Hs. congruence.
    + unfold doc_keep_alive. destruct (ed_leases d !! i) as [[? ?]|]; by exists rev.
    + exists rev. apply Ek; [done|]. right. cbn. rewrite (El id _ Hl); [done|]. cbn. lia.
  - destruct S as [secs r d' G|k token lease|k token|i|i|dt d' [En Er El Elb Ek Ekb]].
    + unfold granted_lease in G. destruct r as [i|]; [destruct G as (_ & Hn & _ & ttl' & _ & ->)|subst d'; by exists ttl, dl].
      exists ttl, dl. cbn. rewrite lookup_insert_ne; [done|]. congruence.
    + rewrite acquire_txn_eq by done. repeat case_match; by exists ttl, dl.
    + rewrite release_txn_eq. repeat case_match; by exists ttl, dl.
    + unfold doc_revoke. destruct (ed_leases d !! i); [|by exists ttl, dl]. exists ttl, dl. cbn.
      rewrite lookup_delete_ne; [done|]. cbn in Hs. congruence.
    + unfold doc_keep_alive. destruct (ed_leases d !! i) as [[t2 d2]|] eqn:E; [|by exists ttl, dl].
      destruct (decide (i = id)) as [->|Hne].
      * rewrite Hl in E. injection E as <- <-. exists ttl, (ed_now d + 1000 * ttl). cbn.
        rewrite lookup_insert_eq. split; [done|lia].
      * exists ttl, dl. cbn. by rewrite lookup_insert_ne.
    + exists ttl, dl. split; [apply El; [done|cbn; lia]|]. cbn in Hev. lia.
Qed.

(** *** A run of steps *)

Section runs.
Context {E : Type} `{EtcdLaws E}.
Implicit Types s : E.

Lemma etime_nonneg evs : Forall eevent_ok evs -> 0 <= etime evs.
Proof.
  unfold etime. induction 1 as [|ev evs Hev _ IH]; cbn [foldr]; [lia|].
  enough (0 <= eevent_time ev) by lia. by destruct ev.
Qed.

Lemma etime_cons ev evs : etime (ev :: evs) = eevent_time ev + etime evs.
Proof. done. Qed.

Lemma eevents_app evs1 evs2 s : eevents_run (evs1 ++ evs2) s = eevents_run evs2 (eevents_run evs1 s).
Proof. unfold eevents_run. by rewrite foldl_app. Qed.

Lemma eevents_ok evs : forall s, Forall eevent_ok evs -> edb_ok (e_db s) ->
  edb_ok (e_db (eevents_run evs s)) /\ ed_now (e_db (eevents_run evs s)) = ed_now (e_db s) + etime evs /\
  ed_rev (e_db s) <= ed_rev (e_db (eevents_run evs s)).
Proof.
  induction evs as [|ev evs IH]; intros s F Hok; [split_and!; [done|change (etime []) with 0; cbn; lia..]|].
  change (eevents_run (ev :: evs) s) with (eevents_run evs (eevent_run ev s)). rewrite etime_cons.
  inversion F as [|? ? Hev F']; subst. pose proof (eevent_step ev s Hev) as S.
  pose proof (edb_step_now _ _ _ S Hok). pose proof (edb_step_rev _ _ _ S Hok).
  destruct (IH _ F' (edb_step_ok _ _ _ S Hok)) as (Hok' & Hn & Hr). split_and!; [done|lia..].
Qed.

Lemma leased_run a key id T evs : forall s, Forall eevent_ok evs -> Forall (spares a key id) evs ->
  ed_now (e_db s) + etime evs < T -> leased a key id T (e_db s) -> leased a key id T (e_db (eevents_run evs s)).
Proof.
  induction evs as [|ev evs IH]; intros s F K Ht L; [done|].
  change (eevents_run (ev :: evs) s) with (eevents_run evs (eevent_run ev s)). rewrite etime_cons in Ht.
  inversion F as [|? ? Hev F']; subst. inversion K as [|? ? Hk K']; subst.
  pose proof (eevent_step ev s Hev) as S. pose proof (edb_step_now _ _ _ S (ld_ok _ _ _ _ _ L)) as En.
  pose proof (etime_nonneg _ F'). apply IH; [done..|lia|]. eapply leased_step; [done..| |done]. lia.
Qed.
End runs.

(** ** A store with these effects *)

(** Exactly the leases past their deadline are dropped; grants count up. *)
Definition max_id (l : list Z) : Z := foldr Z.max 0 l.
Definition next_lease (d : edb) : Z :=
  1 + max_id ((map_to_list (ed_leases d)).*1 ++ (ev_lease ∘ snd <$> map_to_list (ed_kvs d))).
Definition expire (d : edb) (dt : Z) : edb :=
  let now := ed_now d + Z.max 0 dt in
  let leases := filter (fun l => now < l.2.2) (ed_leases d) in
  let kvs := filter (fun kv => ev_lease kv.2 = 0 \/ is_Some (leases !! ev_lease kv.2)) (ed_kvs d) in
  mk_edb now (if bool_decide (kvs = ed_kvs d) then ed_rev d else ed_rev d + 1) kvs leases.

#[export] Instance model_etcd : Etcd edb := {
  e_db d := d;
  e_grant secs d :=
    let id := next_lease d in
    (Ok id, mk_edb (ed_now d) (ed_rev d) (ed_kvs d) (<[id := (secs, ed_now d + 1000 * secs)]> (ed_leases d)));
  e_revoke := doc_revoke;
  e_open_keep_alive id d := match doc_keep_alive id d with
    | (Ok t, d') => (if 0 <? t then Ok tt else Err Io, d') | (Err e, d') => (Err e, d') end;
  e_keep_alive := doc_keep_alive;
  e_time_to_live := doc_time_to_live;
  e_txn := doc_txn;
  e_elapse dt d := expire d dt;
}.

Lemma max_id_ge l x : x ∈ l -> x <= max_id l.
Proof. induction l as [|y l IH]; [by intros ?%elem_of_nil|]. intros [->|Hx]%elem_of_cons; unfold max_id in *; cbn [foldr]; [lia|]. specialize (IH Hx). lia. Qed.
Lemma max_id_nonneg l : 0 <= max_id l.
Proof. unfold max_id. induction l; cbn [foldr]; lia. Qed.

Lemma next_lease_fresh d : next_lease d <> 0 /\ ed_leases d !! next_lease d = None /\
  forall k kv, ed_kvs d !! k = Some kv -> ev_lease kv <> next_lease d.
Proof.
  unfold next_lease. set (l := _ ++ _). pose proof (max_id_nonneg l). split_and!; [lia| |].
  - apply eq_None_not_Some. intros [v E].
    assert (1 + max_id l ∈ l) as Hin; [|apply max_id_ge in Hin; lia].
    apply elem_of_app. left. apply list_elem_of_fmap. exists (1 + max_id l, v). split; [done|]. by apply elem_of_map_to_list.
  - intros k kv E Hid. assert (1 + max_id l ∈ l) as Hin; [|apply max_id_ge in Hin; lia].
    apply elem_of_app. right. apply list_elem_of_fmap. exists (k, kv). split; [done|]. by apply elem_of_map_to_list.
Qed.

Lemma expire_elapsed dt d : 0 <= dt -> etcd_elapsed dt d (expire d dt).
Proof.
  intros Hdt. unfold expire. rewrite Z.max_r by lia. constructor; cbn [ed_now ed_rev ed_kvs ed_leases].
  - done.
  - case_bool_decide; lia.
  - intros id l E Hl. apply map_lookup_filter_Some. by split.
  - intros id l E. by apply map_lookup_filter_Some in E as [E _].
  - intros k kv E Hl. apply map_lookup_filter_Some. split; [done|]. cbn. by rewrite <- not_eq_None_Some.
  - intros k kv E. apply map_lookup_filter_Some in E as [E Hl]. split; [done|]. cbn in Hl. by rewrite not_eq_None_Some.
Qed.

#[export] Instance model_etcd_laws : EtcdLaws edb.
Proof.
  constructor; cbn; try done.
  - intros secs d _. destruct (next_lease_fresh d) as (? & ? & ?). split_and!; [done..|]. exists secs. by split; [lia|].
  - intros id d. by destruct (doc_revoke id d).
  - intros id d. right. by destruct (doc_keep_alive id d) as [[t|e] d'].
  - intros id d. by destruct (doc_keep_alive id d).
  - intros cmps ops d. by destruct (doc_txn cmps ops d).
  - intros dt d Hdt. by apply expire_elapsed.
Qed.

Definition edb_new : edb := mk_edb 0 1 ∅ ∅.
Lemma edb_new_ok : edb_ok edb_new.
Proof. constructor; [done|intros k kv; cbn; by rewrite lookup_empty..]. Qed.
