(* ===== verification/Etcd.v ===== *)
(** * palisade-etcd

    [crates/etcd/src/lib.rs] over the store of [EtcdStore]: leases, the two
    transactions, the handle with its watchdog.  The revision of the granting
    transaction is the fencing token, and the lease does the expiring. *)

From S2P Require Import Prelude Core Redis Scripts World Lease F64 EtcdStore.

Open Scope world_scope.

(** ** Configuration *)

Record EtcdConfig := mk_etcd_config { ec_endpoints : list string; ec_default_ttl : duration }.

Definition etcd_config_new (endpoints : list string) : EtcdConfig := mk_etcd_config endpoints (from_secs 30).
Definition etcd_with_default_ttl (t : duration) (c : EtcdConfig) : EtcdConfig := mk_etcd_config (ec_endpoints c) t.

(** [str::trim().is_empty()], on ASCII text. *)
Definition blank (s : string) : bool :=
  forallb (fun c => bool_decide (c ∈ [" "; "009"; "010"; "011"; "012"; "013"]%char)) (list_ascii_of_string s).

Definition etcd_config_validate (c : EtcdConfig) : res error unit :=
  match ec_endpoints c with
  | [] => Err (InvalidConfig "etcd endpoints are empty")
  | es => if existsb blank es then Err (InvalidConfig "etcd endpoints are empty") else Ok tt
  end.

(** [EtcdConfig::lease_secs]. *)
Definition lease_secs (t : duration) : Z := Z.max (f64_ceil_as_i64 (as_secs_f64 t)) 1.
#[global] Arguments lease_secs : simpl never.

(** Whole seconds for the clients' options, rounded up. *)
Example lease_secs_values :
  map lease_secs [from_millis 10; from_secs 1; from_millis 1001; from_secs 30] = [1; 1; 2; 30].
Proof. vm_compute. reflexivity. Qed.

(** ** The manager and the handle *)

(** The cluster the client is connected to. *)
Record EtcdLockManager := mk_etcd_manager { em_client : conn; em_default_ttl : duration }.

Section etcd.
Context {U : UuidSource} {R : Type} `{Etcd R}.

(** [connect]: what [Client::connect] answers is an argument. *)
Definition etcd_connect (client : res rerr conn) (config : EtcdConfig) : res error EtcdLockManager :=
  match etcd_config_validate config with
  | Err e => Err e
  | Ok _ =>
      match client with
      | Ok c => Ok (mk_etcd_manager c (ec_default_ttl config))
      | Err _ => Err (Backend "etcd connect failed: {e}")
      end
  end.

Record EtcdShared := mk_etcd_shared {
  es_client : conn;
  es_key : string;
  es_token : string;
  es_owner : OwnerId;
  es_fence : FencingToken;
  es_lease : Z;
  es_cell : nat;
}.
Definition etcd_lost (s : EtcdShared) : error := Lost (es_key s) (value (es_fence s)).

(** [make_handle]. *)
Definition etcd_make_handle (m : EtcdLockManager) (key token : string) (owner : OwnerId) (fence : FencingToken)
    (lease_id : Z) (watchdog : bool) : M R EtcdShared :=
  let* cell := new_cell in
  do* (if watchdog then spawn (TWatchdog cell) else ret tt) in
  ret (mk_etcd_shared (em_client m) key token owner fence lease_id cell).

(** [EtcdLockManager::try_lock_with]. *)
Definition etcd_try_lock_with (m : EtcdLockManager) (key : string) (options : LockOptions) :
    M R (res error EtcdShared) :=
  let? _u := ret (validate options) in
  let secs := lease_secs (ttl options) in
  let? lease_id := backend "lease grant failed: {e}" (invoke (em_client m) (e_grant secs)) in
  let* owner := fresh_owner in
  let token := owner_token owner in
  let* r := invoke (em_client m) (acquire_txn key token lease_id) in
  match r with
  | Err _ =>
      do* invoke (em_client m) (e_revoke lease_id) in
      ret (Err (Backend "acquire txn failed: {e}"))
  | Ok (succeeded, revision) =>
      if negb succeeded then
        do* invoke (em_client m) (e_revoke lease_id) in
        ret (Err (Held key))
      else
        let fence := fence_new (wrap64 revision) in
        let* h := etcd_make_handle m key token owner fence lease_id (default false (watchdog options)) in
        ret (Ok h)
  end.

Definition etcd_try_lock (m : EtcdLockManager) (key : string) : M R (res error EtcdShared) :=
  etcd_try_lock_with m key (with_ttl (em_default_ttl m) default_options).

(** [try_lock_for], and [LockManager::lock] as the trait defaults it. *)
Definition etcd_try_lock_for (fuel : nat) (m : EtcdLockManager) (key : string) (options : LockOptions)
    (wait : duration) : M R (res error EtcdShared) :=
  poll_for fuel key wait (etcd_try_lock_with m key options).
Definition etcd_lock (fuel : nat) (m : EtcdLockManager) (key : string) (options : LockOptions) :
    M R (res error EtcdShared) :=
  etcd_try_lock_for fuel m key options duration_max.

Definition lease_time_to_live (m : EtcdLockManager) (lease_id : Z) : M R (res error Z) :=
  backend "time_to_live failed: {e}" (invoke (em_client m) (e_time_to_live lease_id)).

(** [HandleShared::release_inner]. *)
Definition release_inner (c : conn) (key token : string) (lease_id : Z) : M R (res error bool) :=
  let? p := backend "release txn failed: {e}" (invoke c (release_txn key token)) in
  if negb p.1 then ret (Ok false) else
  do* invoke c (e_revoke lease_id) in
  ret (Ok true).

(** [EtcdLockHandle::release]. *)
Definition etcd_release (s : EtcdShared) : M R (res error unit) :=
  let* first := mark_released (es_cell s) in
  if negb first then ret (Ok tt) else
  let? released := release_inner (es_client s) (es_key s) (es_token s) (es_lease s) in
  if released : bool then ret (Ok tt)
  else do* mark_lost (es_cell s) in ret (Err (etcd_lost s)).

(** [Drop for HandleShared], and the task it spawns. *)
Definition etcd_drop (runtime : bool) (s : EtcdShared) : M R unit :=
  do* update_cell (es_cell s) set_dropped in
  let* first := mark_released (es_cell s) in
  if negb first then ret tt else
  if runtime then spawn (TEtcdRelease (es_client s) (es_key s) (es_token s) (es_lease s)) else ret tt.
Definition etcd_run_detached (t : task) : M R unit :=
  match t with
  | TEtcdRelease c key token lease_id => do* release_inner c key token lease_id in ret tt
  | _ => ret tt
  end.

(** [keeper.keep_alive()] puts a request on the stream; [stream.message()]
    awaits the answer of the server. *)
Definition keeper_send (c : conn) : M R (res rerr unit) := invoke c (cret tt).
Definition stream_message (c : conn) (lease_id : Z) : M R (res rerr Z) := invoke c (e_keep_alive lease_id).

(** [EtcdLockHandle::extend]. *)
Definition etcd_extend (s : EtcdShared) (_ttl : duration) : M R (res error unit) :=
  let* f := cell (es_cell s) in
  if released f || poisoned f then ret (Err (etcd_lost s)) else
  let* pair := invoke (es_client s) (e_open_keep_alive (es_lease s)) in
  match pair with
  | Err _ => ret (Err (Backend "keepalive failed: {e}"))
  | Ok _ =>
      let* sent := keeper_send (es_client s) in
      if negb (is_ok sent) then ret (Err (Backend "keepalive send failed")) else
      let* r := stream_message (es_client s) (es_lease s) in
      match r with
      | Ok t => if 0 <? t then ret (Ok tt) else do* mark_lost (es_cell s) in ret (Err (etcd_lost s))
      | Err _ => do* mark_lost (es_cell s) in ret (Err (etcd_lost s))
      end
  end.

(** The watchdog's [mark_lost], if the handle is still there. *)
Definition upgrade_mark_lost (s : EtcdShared) : M R unit :=
  let* f := cell (es_cell s) in
  if dropped f then ret tt else mark_lost (es_cell s).

(** One turn of the watchdog's loop; whether it goes on. *)
Definition etcd_watchdog_round (s : EtcdShared) (t : duration) : M R bool :=
  do* sleep (t / 3) in
  let* f := cell (es_cell s) in
  if dropped f then ret false else
  if released f then ret false else
  let* sent := keeper_send (es_client s) in
  if negb (is_ok sent) then ret true else
  let* r := stream_message (es_client s) (es_lease s) in
  match r with
  | Ok ttl_left => if 0 <? ttl_left then ret true else do* upgrade_mark_lost s in ret false
  | Err _ => do* upgrade_mark_lost s in ret false
  end.

Fixpoint etcd_watchdog_rounds (n : nat) (s : EtcdShared) (t : duration) : M R bool :=
  match n with
  | O => ret true
  | S n => let* go := etcd_watchdog_round s t in if go : bool then etcd_watchdog_rounds n s t else ret false
  end.

(** [spawn_watchdog], for [n] turns. *)
Definition etcd_watchdog (n : nat) (s : EtcdShared) (t : duration) : M R bool :=
  let* f := cell (es_cell s) in
  if dropped f then ret false else
  let* pair := invoke (es_client s) (e_open_keep_alive (es_lease s)) in
  match pair with
  | Err _ => do* upgrade_mark_lost s in ret false
  | Ok _ => etcd_watchdog_rounds n s t
  end.

Definition etcd_is_lost (s : EtcdShared) : M R bool := let* f := cell (es_cell s) in ret (poisoned f).

Lemma safe_etcd_try_lock_with m key options : safe (R:=R) (etcd_try_lock_with m key options).
Proof. unfold etcd_try_lock_with, etcd_make_handle. solve_safe. Qed.
End etcd.
#[export] Hint Resolve safe_etcd_try_lock_with : safe.

(** What a release does to the store: with [token] under the key, the key
    and the lease go, with whatever else hangs on it, and nothing more. *)
Definition released_db (key token : string) (id : Z) (d d' : edb) (done : bool) : Prop :=
  if decide (ev_value <$> ed_kvs d !! key = Some token)
  then done = true /\ ed_leases d' = delete id (ed_leases d) /\ forall k,
    ed_kvs d' !! k = (if decide (k = key) then None else
                        match ed_kvs d !! k with
                        | Some kv => if decide (ev_lease kv = id) then None else Some kv | None => None end)
  else done = false /\ d' = d.

(** ** What the other clients do

    At each wait: calls on the cluster, and time. *)

Record etcd_step := mk_etcd_step { et_events : list eevent; et_fate : fate; et_latency : Z }.
Definition etcd_env {R} `{Etcd R} (st : etcd_step) : env_step R :=
  mk_step (fun srv c => eevents_run (et_events st) (srv c)) (et_fate st) (et_latency st).
Definition all_events (sts : list etcd_step) : list eevent := sts ≫= et_events.

(** The calls of an attempt, up to a revocation. *)
Definition attempts (ev : eevent) : Prop :=
  match ev with EvGrant secs => 0 < secs | EvAcquire _ _ _ => True | _ => False end.

(** A condition on the cluster [c] and on the events to come, kept by each of
    them, is kept by an exchange whose effect is such an event. *)
Section exchange.
Context {R : Type} `{EtcdLaws R} (c : conn) (P : list eevent -> R -> Prop).
Hypothesis P_event : forall ev evs s, P (ev :: evs) s -> P evs (eevent_run ev s).

Definition etcd_inv (sts : list etcd_step) (w : world R) : Prop :=
  w_budget w = None /\ w_steps w = map etcd_env sts /\ P (all_events sts) (w_server w c).

Lemma P_events evs1 : forall evs2 s, P (evs1 ++ evs2) s -> P evs2 (eevents_run evs1 s).
Proof. induction evs1 as [|ev evs IH]; intros evs2 s HP; [done|]. apply IH, P_event, HP. Qed.

Lemma etcd_inv_before sts w : etcd_inv sts w -> P (all_events (tail sts)) (servers_before w c).
Proof.
  intros (_ & E & HP). unfold servers_before, step_of. rewrite E. destruct sts as [|st sts]; [done|]. cbn.
  by apply P_events.
Qed.

Lemma etcd_invoke ev {A} (m : cmd R A) sts w : etcd_inv sts w ->
  (forall s, (m s).2 = eevent_run ev s) -> (forall evs s, P evs s -> P (ev :: evs) s) ->
  exists r w', invoke c m w = (Done r, w') /\ etcd_inv (tail sts) w' /\ w_uuids w' = w_uuids w /\
    forall a, r = Ok a -> exists s, P (all_events (tail sts)) s /\ (m s).1 = Ok a /\ w_server w' c = (m s).2.
Proof.
  intros I Hm Hev. pose proof I as (B & E & _). pose proof (etcd_inv_before _ _ I) as HP.
  exists (reply_of c m w), (after_invoke c m w). split; [by apply invoke_eq|]. split; [split; [done|split]|split; [done|]].
  - cbn. rewrite E. by destruct sts.
  - cbn. destruct (st_fate (step_of w)); rewrite ?fn_lookup_insert, ?Hm; [..|done]; by apply P_event, Hev.
  - unfold reply_of. cbn. destruct (st_fate (step_of w)); [|done..].
    intros a Ha. exists (servers_before w c). by rewrite fn_lookup_insert.
Qed.

(** A whole attempt: the condition still holds, and a grant is a transaction
    that succeeded in a state where it held. *)
Hypothesis P_own : forall ev evs s, attempts ev -> P evs s -> P (ev :: evs) s.
Hypothesis P_granted : forall evs s secs id, 0 < secs -> P evs s -> (e_grant secs s).1 = Ok id ->
  forall evs s, P evs s -> P (EvRevoke id :: evs) s.

Lemma etcd_attempt {U : UuidSource} m key options sts w : etcd_inv sts w -> em_client m = c ->
  exists r sts' w', etcd_try_lock_with m key options w = (Done r, w') /\ etcd_inv sts' w' /\
    forall h, r = Ok h -> exists s lease rev, P (all_events sts') s /\
      acquire_txn key (owner_token (owner_generate (w_uuids w))) lease s = (Ok (true, rev), w_server w' c) /\
      es_fence h = fence_new (wrap64 rev).
Proof.
  intros I Ec. unfold etcd_try_lock_with. unfold try_ at 1, bind at 1, ret at 1.
  destruct (validate options) as [_u|e]; [|by exists (Err e), sts, w]. rewrite Ec.
  assert (0 < lease_secs (ttl options)) as Hs by (unfold lease_secs; lia).
  set (secs := lease_secs _) in *.
  destruct (etcd_invoke (EvGrant secs) (e_grant secs) sts w I) as (r1 & w1 & E1 & I1 & U1 & R1); [done|by intros; apply P_own|].
  unfold try_ at 1, backend at 1. unfold bind at 1, bind at 1. rewrite E1. unfold ret at 1.
  destruct r1 as [id|e]; [|by exists (Err (Backend "lease grant failed: {e}")), (tail sts), w1].
  cbn [res_map_err]. destruct (R1 id eq_refl) as (s1 & P1 & G1 & _).
  pose proof (P_granted _ _ _ _ Hs P1 G1) as Hrev.
  unfold bind at 1, fresh_owner at 1. rewrite U1. set (token := owner_token _).
  assert (etcd_inv (tail sts) (set_uuids (N.succ (w_uuids w)) w1)) as I2 by exact I1.
  destruct (etcd_invoke (EvAcquire key token id) (acquire_txn key token id) _ _ I2) as (r2 & w2 & E2 & I3 & _ & R2);
    [done|by intros; apply P_own|].
  rewrite (bind_done _ _ _ _ _ E2).
  destruct (etcd_invoke (EvRevoke id) (e_revoke id) _ _ I3) as (r3 & w3 & E3 & I4 & _ & _); [done|done|].
  destruct r2 as [[[|] rev]|e]; cbn [negb].
  - destruct (R2 _ eq_refl) as (s2 & P2 & A2 & S2).
    unfold bind at 1, etcd_make_handle, bind at 1, new_cell. unfold bind at 1.
    destruct (default false (watchdog options)); (eexists (Ok _), (tail (tail sts)), _; split; [reflexivity|];
      split; [exact I3|]; intros h [= <-]; exists s2, id, rev; split; [exact P2|]; split; [|done];
      fold token; cbn; rewrite S2; rewrite <- A2; by destruct (acquire_txn key token id s2)).
  - rewrite (bind_done _ _ _ _ _ E3). by exists (Err (Held key)), (tail (tail (tail sts))), w3.
  - rewrite (bind_done _ _ _ _ _ E3). by exists (Err (Backend "acquire txn failed: {e}")), (tail (tail (tail sts))), w3.
Qed.
End exchange.

(** ** Lemmas *)

Section lemmas.
Context {R : Type} `{EtcdLaws R}.
Implicit Types s : R.

Lemma acquire_txn_run key token lease s : edb_ok (e_db s) ->
  match ed_kvs (e_db s) !! key with
  | Some _ => (acquire_txn key token lease s).1 = Ok (false, ed_rev (e_db s)) /\
              e_db (acquire_txn key token lease s).2 = e_db s
  | None => if (lease =? 0) || bool_decide (is_Some (ed_leases (e_db s) !! lease))
            then (acquire_txn key token lease s).1 = Ok (true, ed_rev (e_db s) + 1) /\
                 e_db (acquire_txn key token lease s).2 = put_key key token lease (e_db s)
            else (acquire_txn key token lease s).1 = Err Io /\ e_db (acquire_txn key token lease s).2 = e_db s
  end.
Proof.
  intros Hok. pose proof (txn_law [CreateRevision key 0] [EPut key token lease] s) as E.
  rewrite acquire_txn_eq in E by done. unfold acquire_txn.
  destruct (ed_kvs (e_db s) !! key); [|destruct (_ || _)]; by injection E as <- <-.
Qed.

(** A grant is a transaction that found the key absent and took the next
    revision. *)
Lemma acquire_txn_granted key token lease s rev s' : edb_ok (e_db s) ->
  acquire_txn key token lease s = (Ok (true, rev), s') ->
  ed_kvs (e_db s) !! key = None /\ rev = ed_rev (e_db s) + 1 /\ e_db s' = put_key key token lease (e_db s).
Proof.
  intros Hok E. pose proof (acquire_txn_run key token lease s Hok) as Hr. rewrite E in Hr. cbn [fst snd] in Hr.
  destruct (ed_kvs (e_db s) !! key); [by destruct Hr|].
  destruct (_ || _); destruct Hr as [[= ->] Hd]. by split_and!.
Qed.

(** [a]'s lease, and events that leave it alone and end before [T]. *)
Definition a_holds (a key : string) (id T : Z) (evs : list eevent) (s : R) : Prop :=
  leased a key id T (e_db s) /\ Forall eevent_ok evs /\ Forall (spares a key id) evs /\
  ed_now (e_db s) + etime evs < T.

Lemma a_holds_event a key id T ev evs s : a_holds a key id T (ev :: evs) s -> a_holds a key id T evs (eevent_run ev s).
Proof.
  intros (L & F & K & Ht). inversion F as [|? ? Fe F']; subst. inversion K as [|? ? Ke K']; subst.
  rewrite etime_cons in Ht. pose proof (eevent_step ev s Fe) as S. pose proof (ld_ok _ _ _ _ _ L) as Hok.
  pose proof (edb_step_now _ _ _ S Hok). pose proof (etime_nonneg _ F').
  split; [eapply leased_step; [done..|lia|done]|]. split_and!; [done..|lia].
Qed.

Lemma a_holds_cons a key id T ev evs s : eevent_ok ev -> spares a key id ev -> eevent_time ev = 0 ->
  a_holds a key id T evs s -> a_holds a key id T (ev :: evs) s.
Proof.
  intros He Hs Ht (L & F & K & Hn). split; [done|]. split_and!; [by constructor..|]. rewrite etime_cons. lia.
Qed.

Lemma a_holds_own a key id T ev evs s : attempts ev -> a_holds a key id T evs s -> a_holds a key id T (ev :: evs) s.
Proof. intros He. apply a_holds_cons; by destruct ev. Qed.

Lemma a_holds_granted a key id T evs s secs i : 0 < secs -> a_holds a key id T evs s ->
  (e_grant secs s).1 = Ok i -> forall evs s, a_holds a key id T evs s -> a_holds a key id T (EvRevoke i :: evs) s.
Proof.
  intros Hs (L & _) G evs' s' HP. apply a_holds_cons; [done| |done|done]. cbn. intros ->.
  pose proof (grant_law secs s Hs) as GL. rewrite G in GL. destruct GL as (_ & En & _).
  destruct (ld_lease _ _ _ _ _ L) as (ttl & dl & El & _). by rewrite En in El.
Qed.

(** A store past revision [lo]. *)
Definition past (lo : Z) (evs : list eevent) (s : R) : Prop :=
  edb_ok (e_db s) /\ Forall eevent_ok evs /\ lo <= ed_rev (e_db s).

Lemma past_event lo ev evs s : past lo (ev :: evs) s -> past lo evs (eevent_run ev s).
Proof.
  intros (Hok & F & Hl). inversion F as [|? ? Fe F']; subst. pose proof (eevent_step ev s Fe) as S.
  pose proof (edb_step_rev _ _ _ S Hok). split; [by eapply edb_step_ok|]. split; [done|lia].
Qed.

Lemma past_cons lo ev evs s : eevent_ok ev -> past lo evs s -> past lo (ev :: evs) s.
Proof. intros He (? & ? & ?). split_and!; [done|by constructor|done]. Qed.

Lemma past_own lo ev evs s : attempts ev -> past lo evs s -> past lo (ev :: evs) s.
Proof. intros He. apply past_cons; by destruct ev. Qed.

Lemma past_granted lo evs s secs i : 0 < secs -> past lo evs s -> (e_grant secs s).1 = Ok i ->
  forall evs s, past lo evs s -> past lo (EvRevoke i :: evs) s.
Proof. intros _ _ _ evs' s'. by apply past_cons. Qed.

(** A lease granted and revoked again leaves no trace. *)
Lemma grant_revoke secs i d d' : granted_lease secs (Ok i) d d' ->
  exists n, secs <= n /\ ed_leases d !! i = None /\ i <> 0 /\
    d' = mk_edb (ed_now d) (ed_rev d) (ed_kvs d) (<[i := (n, ed_now d + 1000 * n)]> (ed_leases d)) /\
    (doc_revoke i d').2 = d.
Proof.
  intros (Hi & Hn & Hk & n & Hs & ->). exists n. split_and!; [done..|].
  unfold doc_revoke. cbn. rewrite lookup_insert_eq. unfold drop_lease. cbn.
  rewrite delete_insert_eq, delete_id by done.
  assert (filter (fun kv => ev_lease kv.2 <> i) (ed_kvs d) = ed_kvs d) as ->.
  { apply map_filter_id. intros k kv E. by apply (Hk k). }
  assert (attached i (ed_kvs d) = ∅) as ->.
  { apply map_empty. intros k. apply map_lookup_filter_None. right. intros kv E. by apply (Hk k kv). }
  by destruct d.
Qed.

Lemma release_txn_run key token s :
  let p := match ed_kvs (e_db s) !! key with
           | Some kv => if String.eqb (ev_value kv) token then (Ok (true, ed_rev (e_db s) + 1), delete_key key (e_db s))
                        else (Ok (false, ed_rev (e_db s)), e_db s)
           | None => (Ok (false, ed_rev (e_db s)), e_db s)
           end in
  (release_txn key token s).1 = p.1 /\ e_db (release_txn key token s).2 = p.2.
Proof.
  intros p. pose proof (txn_law [ValueIs key token] [EDelete key] s) as E. rewrite release_txn_eq in E.
  fold p in E. unfold release_txn. by rewrite <- E.
Qed.

(** Only what hangs on a revoked lease goes. *)
Lemma revoke_spec i d : edb_ok d -> let d' := (doc_revoke i d).2 in
  ed_leases d' = delete i (ed_leases d) /\
  (forall k, i <> 0 -> ed_kvs d' !! k = match ed_kvs d !! k with
                              | Some kv => if decide (ev_lease kv = i) then None else Some kv | None => None end).
Proof.
  intros [_ _ Hl]. unfold doc_revoke. destruct (ed_leases d !! i) eqn:E; cbn.
  - split; [done|]. intros k _. rewrite map_lookup_filter. destruct (ed_kvs d !! k) as [kv|]; [|done]. cbn.
    destruct (decide (ev_lease kv = i)); [rewrite option_guard_False by (cbn; tauto)|rewrite option_guard_True by done]; done.
  - split; [by rewrite delete_id|]. intros k Hi. destruct (ed_kvs d !! k) as [kv|] eqn:Ek; [|done].
    destruct (decide (ev_lease kv = i)) as [<-|]; [|done]. destruct (Hl k kv Ek Hi) as [x Hx]. by rewrite E in Hx.
Qed.
Lemma release_inner_calm c key token id (w : world R) : calm w -> edb_ok (e_db (w_server w c)) -> id <> 0 ->
  exists b w', release_inner c key token id w = (Done (Ok b), w') /\ calm w' /\ w_flags w' = w_flags w /\
    released_db key token id (e_db (w_server w c)) (e_db (w_server w' c)) b.
Proof.
  intros C Hok Hi. unfold release_inner, try_ at 1, backend. unfold bind at 1, bind at 1. rewrite calm_invoke by done.
  unfold ret at 1. cbv iota. pose proof (release_txn_run key token (w_server w c)) as Rt.
  set (d := e_db (w_server w c)) in *. set (s1 := (release_txn _ _ (w_server w c)).2) in *.
  set (w2 := calm_after c s1 w). unfold released_db.
  destruct (ed_kvs d !! key) as [kv|] eqn:Ek; [destruct (String.eqb_spec (ev_value kv) token) as [Ev|Ev]|];
    destruct Rt as [-> Hs1]; cbn [res_map_err fst snd negb] in *.
  2,3: exists false, w2; split_and!; [done..|]; rewrite decide_False by (cbn; congruence); cbn;
    by rewrite fn_lookup_insert.
  rewrite (bind_done _ _ _ _ _ (calm_invoke c (e_revoke id) w2 C)).
  exists true, (calm_after c (e_revoke id (w_server w2 c)).2 w2). split; [done|]. split; [done|]. split; [done|].
  rewrite decide_True by (cbn; by rewrite Ev). cbn. rewrite !fn_lookup_insert.
  pose proof (f_equal snd (revoke_law id s1)) as L. cbn [snd] in L. rewrite L, Hs1.
  destruct (revoke_spec id (delete_key key d) (delete_key_ok _ _ Hok)) as [El Ekv].
  split_and!; [done|exact El|]. intros k. rewrite (Ekv k Hi). cbn. destruct (decide (k = key)) as [->|Hne].
  - by rewrite lookup_delete_eq.
  - by rewrite lookup_delete_ne.
Qed.
End lemmas.

(** An attempt in a store past [lo]: a fence beyond [lo]. *)
Lemma etcd_attempt_past {U : UuidSource} {R} `{EtcdLaws R} lo m key options sts (w : world R) :
  etcd_inv (em_client m) (past lo) sts w ->
  exists r sts' w', etcd_try_lock_with m key options w = (Done r, w') /\ etcd_inv (em_client m) (past lo) sts' w' /\
    forall h, r = Ok h -> es_fence h = fence_new (wrap64 (ed_rev (e_db (w_server w' (em_client m))))) /\
                          lo < ed_rev (e_db (w_server w' (em_client m))).
Proof.
  intros I.
  destruct (etcd_attempt (em_client m) (past lo) (past_event lo) (past_own lo) (past_granted lo) m key options sts w
    I eq_refl) as (r & sts' & w' & E & I' & Hr).
  exists r, sts', w'. split_and!; [done..|]. intros h Hh. destruct (Hr h Hh) as (s & lease & rev & (Hok & _ & Hlo) & A & ->).
  destruct (acquire_txn_granted _ _ _ _ _ _ Hok A) as (_ & -> & ->). cbn. split; [done|lia].
Qed.

(** ** Properties *)

Section properties.
Context {U : UuidSource} {R : Type} `{EtcdLaws R}.

(** C6: Exclusion on etcd.  As long as [a]'s lease runs (its deadline [T] lies
    beyond all the time that passes), an attempt on the key by anybody else
    does not succeed, whatever other clients do meanwhile (grants, renewals,
    acquisitions of any key, releases of other tokens, revocations of other
    leases), whatever leases the attempt grants and revokes, and whichever of
    its messages are lost; and [a]'s key and lease are still there after
    it. *)
Theorem etcd_exclusion m (w : world R) sts a key id T options :
  etcd_inv (em_client m) (a_holds a key id T) sts w ->
  exists e w', etcd_try_lock_with m key options w = (Done (Err e), w') /\
               leased a key id T (e_db (w_server w' (em_client m))).
Proof.
  intros I.
  destruct (etcd_attempt (em_client m) _ (a_holds_event a key id T) (a_holds_own a key id T) (a_holds_granted a key id T)
    m key options sts w I eq_refl) as (r & sts' & w' & E & I' & Hr).
  destruct r as [h|e]; [|exists e, w'; split; [done|by apply I']]. exfalso.
  destruct (Hr h eq_refl) as (s & lease & rev & (L & _) & A & _).
  destruct (acquire_txn_granted _ _ _ _ _ _ (ld_ok _ _ _ _ _ L) A) as (Hn & _).
  destruct (ld_kv _ _ _ _ _ L) as (r' & Hk). by rewrite Hk in Hn.
Qed.

(** C17: Fences on etcd increase across all keys and all time.  Of two grants
    by any managers of the cluster, of the same key or of different ones,
    with any well-formed activity before, between and during them (expiry of
    every lease included), the later has the larger fence, as long as the
    revision fits an [i64]. *)
Theorem etcd_fences_increase m1 m2 k1 k2 o1 o2 (w1 w1' w2 w2' : world R) sts1 sts2 evs h1 h2 :
  let c := em_client m1 in
  em_client m2 = c ->
  etcd_inv c (past 0) sts1 w1 -> etcd_try_lock_with m1 k1 o1 w1 = (Done (Ok h1), w1') ->
  w_budget w2 = None -> w_steps w2 = map etcd_env sts2 ->
  Forall eevent_ok evs -> Forall eevent_ok (all_events sts2) ->
  w_server w2 c = eevents_run evs (w_server w1' c) -> etcd_try_lock_with m2 k2 o2 w2 = (Done (Ok h2), w2') ->
  ed_rev (e_db (w_server w2' c)) <= i64_max ->
  value (es_fence h1) < value (es_fence h2).
Proof.
  intros c Ec I1 E1 B2 S2 Fe F2 Es E2 Hmax. subst c. set (c := em_client m1) in *.
  destruct (etcd_attempt_past 0 m1 k1 o1 sts1 w1 I1) as (r & sts' & w' & E & (_ & _ & Hok1 & _ & _) & Hr).
  rewrite E1 in E. injection E as <- <-. destruct (Hr h1 eq_refl) as (-> & Hlo). fold c in Hok1, Hlo |- *.
  destruct (eevents_ok evs (w_server w1' c) Fe Hok1) as (Hok2 & _ & Hrev).
  set (lo := ed_rev (e_db (w_server w1' c))) in *.
  destruct (etcd_attempt_past lo m2 k2 o2 sts2 w2) as (r & sts'' & w' & E & (_ & _ & Hok3 & _ & _) & Hr2).
  { rewrite Ec. split; [done|]. split; [done|]. rewrite Es. by split_and!. }
  rewrite E2 in E. injection E as <- <-. destruct (Hr2 h2 eq_refl) as (-> & Hlo2). rewrite Ec in Hlo2 |- *.
  cbn. rewrite !wrap64_small; [done|unfold in_u64, u64_mod, i64_max in *; lia..].
Qed.


(** [release] on a quiet cluster.  While the key holds the handle's token
    it deletes the key and revokes the lease, with whatever else hangs on it,
    and nothing more; otherwise (the lease ran out, or another client has the
    key) it changes nothing on the cluster, poisons the handle and answers
    [Lost].  Releasing again is a success that touches nothing. *)
Theorem etcd_release_correct (s : EtcdShared) (w : world R) f :
  let c := es_client s in
  let d := e_db (w_server w c) in
  calm w -> edb_ok d -> es_lease s <> 0 -> w_flags w !! es_cell s = Some f -> released f = false ->
  exists r w', etcd_release s w = (Done r, w') /\
    released_db (es_key s) (es_token s) (es_lease s) d (e_db (w_server w' c)) (is_ok r) /\
    (forall e, r = Err e -> e = Lost (es_key s) (value (es_fence s)) /\
       exists f', w_flags w' !! es_cell s = Some f' /\ poisoned f' = true) /\
    exists w'', etcd_release s w' = (Done (Ok tt), w'') /\ w_server w'' = w_server w'.
Proof.
  intros c d C Hok Hi Hf Hr. unfold etcd_release at 1.
  assert (mark_released (es_cell s) w = (Done true, set_flags (alter set_released (es_cell s) (w_flags w)) w)) as Em.
  { unfold mark_released, cell, bind, gets, update_cell, modify, ret. rewrite Hf.
    change (default fresh_flags (Some f)) with f. by rewrite Hr. }
  rewrite (bind_done _ _ _ _ _ Em). cbn [negb]. set (w1 := set_flags _ w).
  assert (forall w' g, w_flags w' !! es_cell s = Some g -> released g = true ->
    exists w'', etcd_release s w' = (Done (Ok tt), w'') /\ w_server w'' = w_server w') as Again.
  { intros w' g Hg Hrg. unfold etcd_release, mark_released, cell, bind, gets, update_cell, modify, ret. rewrite Hg.
    change (default fresh_flags (Some g)) with g. rewrite Hrg. by eexists. }
  assert (w_flags w1 !! es_cell s = Some (set_released f)) as F1 by (cbn; by rewrite list_lookup_alter_eq, Hf).
  destruct (release_inner_calm c (es_key s) (es_token s) (es_lease s) w1 C Hok Hi) as (b & w2 & E & C2 & F2 & D).
  unfold try_ at 1. rewrite (bind_done _ _ _ _ _ E). rewrite <- F2 in F1. destruct b.
  - exists (Ok tt), w2. split_and!; [done|done|done|]. by eapply Again.
  - do 2 eexists. split; [reflexivity|]. split; [exact D|]. split.
    + intros e [= <-]. split; [done|]. exists (set_lost (set_released f)). cbn. by rewrite list_lookup_alter_eq, F1.
    + eapply Again; [cbn; by rewrite list_lookup_alter_eq, F1|done].
Qed.

(** The watchdog never gives up while the requests cannot be sent.
    However many turns fail to put their request on the stream, and whatever
    the cluster does to the lease and the key meanwhile, the watchdog goes on
    and the handle is not told: [is_lost] answers as it did before. *)
Theorem etcd_watchdog_blind (s : EtcdShared) t turns : forall (w : world R),
  let f := default fresh_flags (w_flags w !! es_cell s) in
  w_budget w = None -> w_steps w = turns ≫= (fun p => [p.1; p.2]) ->
  Forall (fun p => st_fate p.2 = NotDelivered) turns -> released f = false -> dropped f = false ->
  exists w', etcd_watchdog_rounds (length turns) s t w = (Done true, w') /\ w_flags w' = w_flags w /\
             etcd_is_lost s w' = (Done (poisoned f), w').
Proof.
  induction turns as [|[st1 st2] turns IH]; intros w f B Es F Hr Hd.
  { exists w. split_and!; [done..|]. unfold etcd_is_lost, cell, bind, gets, ret. done. }
  inversion F as [|? ? F1 F2]; subst. cbn [length etcd_watchdog_rounds].
  assert (exists w1, etcd_watchdog_round s t w = (Done true, w1) /\ w_budget w1 = None /\
    w_steps w1 = turns ≫= (fun p => [p.1; p.2]) /\ w_flags w1 = w_flags w) as (w1 & E1 & B1 & S1 & Fl).
  { unfold etcd_watchdog_round. rewrite (bind_done _ _ _ _ _ (sleep_eq _ w B)).
    unfold bind at 1, cell, gets. cbn [after_sleep w_flags]. fold f. rewrite Hd, Hr.
    unfold keeper_send. rewrite (bind_done _ _ _ _ _ (invoke_eq _ _ (after_sleep (t / 3) w) eq_refl)).
    unfold reply_of, step_of at 1. cbn [after_sleep w_steps]. rewrite Es. cbn [bind mbind list_bind app tail fst snd]. cbn in F1. rewrite F1.
    eexists. split; [reflexivity|]. unfold after_invoke, step_of. cbn. rewrite Es. cbn. done. }
  rewrite (bind_done _ _ _ _ _ E1). unfold f in *. rewrite <- Fl in Hr, Hd |- *. by apply IH.
Qed.

(** [extend] renews by the lease's own time to live, whatever is asked.
    On a quiet cluster, for a handle neither released nor poisoned: a success
    puts the deadline of the handle's lease at its granted time to live from
    now, leaves every key and every other lease alone, and does not depend on
    the [ttl] argument; the handle is poisoned, with [Lost], only when the
    lease is gone. *)
Theorem etcd_extend_correct (s : EtcdShared) t (w : world R) f :
  let c := es_client s in
  let d := e_db (w_server w c) in
  calm w -> w_flags w !! es_cell s = Some f -> released f = false -> poisoned f = false ->
  exists r w', etcd_extend s t w = (Done r, w') /\ let d' := e_db (w_server w' c) in
    ed_kvs d' = ed_kvs d /\
    match r with
    | Ok _ => exists secs dl, 0 < secs /\ ed_leases d !! es_lease s = Some (secs, dl) /\
        ed_leases d' = <[es_lease s := (secs, ed_now d + 1000 * secs)]> (ed_leases d)
    | Err (Lost _ _) => forall secs dl, ed_leases d !! es_lease s = Some (secs, dl) -> secs <= 0
    | Err e => e = Backend "keepalive failed: {e}" /\ w_flags w' = w_flags w
    end.
Proof.
  intros c d C Hf Hr Hp. unfold etcd_extend. unfold bind at 1, cell, gets. rewrite Hf.
  change (default fresh_flags (Some f)) with f. rewrite Hr, Hp. cbn [orb]. fold c.
  rewrite (bind_done _ _ _ _ _ (calm_invoke c (e_open_keep_alive (es_lease s)) w C)).
  set (s1 := (e_open_keep_alive (es_lease s) (w_server w c)).2). set (w1 := calm_after c s1 w).
  assert (ed_kvs (e_db s1) = ed_kvs d /\ (doc_keep_alive (es_lease s) (e_db s1)) = doc_keep_alive (es_lease s) d)
    as [Hk1 Hd1].
  { unfold s1. destruct (open_law (es_lease s) (w_server w c)) as [-> | ->]; [done|]. fold d. unfold doc_keep_alive.
    destruct (ed_leases d !! es_lease s) as [[secs dl]|] eqn:E; cbn; rewrite ?lookup_insert_eq, ?E; [|done].
    by rewrite insert_insert_eq. }
  destruct ((e_open_keep_alive (es_lease s) (w_server w c)).1) as [u|e].
  2:{ eexists _, _. split; [reflexivity|]. cbn. by rewrite fn_lookup_insert. }
  rewrite (bind_done _ _ _ _ _ (calm_invoke c (cret tt) w1 C)). cbn [is_ok negb fst snd cret].
  set (w2 := calm_after c (w_server w1 c) w1). assert (w_server w2 c = s1) as S2 by (cbn; by rewrite !fn_lookup_insert).
  unfold stream_message. rewrite (bind_done _ _ _ _ _ (calm_invoke c (e_keep_alive (es_lease s)) w2 C)). rewrite S2.
  pose proof (keep_alive_law (es_lease s) s1) as K. rewrite Hd1 in K. unfold doc_keep_alive in K.
  destruct (ed_leases d !! es_lease s) as [[secs dl]|] eqn:El; injection K as -> K2.
  2:{ do 2 eexists. split; [reflexivity|]. cbn. rewrite fn_lookup_insert, K2. done. }
  destruct (0 <? secs) eqn:Hs; zbool; (do 2 eexists; split; [reflexivity|]); cbn; rewrite fn_lookup_insert, K2;
    (split; [done|]).
  - exists secs, dl. done.
  - intros secs' dl' [= <- <-]. lia.
Qed.

(** [LockManager::lock] on this manager panics. *)
Theorem etcd_lock_panics fuel m key options (w : world R) : 0 <= w_clock w ->
  etcd_lock fuel m key options w = (Panic, w).
Proof. apply poll_forever_panics. Qed.
End properties.

(** ** Witnesses *)

Definition demo_etcd : EtcdLockManager := mk_etcd_manager 0 (from_secs 30).
Definition demo_edb : edb :=
  mk_edb 0 5 {[ "job"%string := mk_ekv "A" 5 7 ]} {[ 7 := (30, 30000) ]}.
Definition etcd_world (d : edb) (sts : list etcd_step) : world edb :=
  mk_world (fun _ => d) 7 0 [fresh_flags] [] (map etcd_env sts) None.
Definition quiet_etcd : etcd_step := mk_etcd_step [] Replied 0.
Definition demo_etcd_step : etcd_step :=
  mk_etcd_step [EvTime 10; EvRelease "job" "C"; EvGrant 5; EvKeepAlive 7; EvRevoke 9] ReplyLost 3.
Definition demo_etcd_handle : EtcdShared :=
  mk_etcd_shared 0 "job" "A" (owner_generate 3) (mk_fence 5) 7 0.

Lemma demo_leased : leased "A" "job" 7 30000 demo_edb.
Proof.
  constructor; [constructor|by exists 5|done|by exists 30, 30000].
  - done.
  - intros k kv E. cbn [ed_kvs demo_edb] in E. apply lookup_singleton_Some in E as [_ <-]. done.
  - intros k kv E _. cbn [ed_kvs demo_edb] in E. apply lookup_singleton_Some in E as [_ <-]. by exists (30, 30000).
Qed.

Lemma etcd_exclusion_witness : exists e w',
  etcd_try_lock_with demo_etcd "job" default_options (etcd_world demo_edb [quiet_etcd; demo_etcd_step]) = (Done (Err e), w') /\
  leased "A" "job" 7 30000 (e_db (w_server w' 0%nat)).
Proof.
  apply (etcd_exclusion demo_etcd _ [quiet_etcd; demo_etcd_step] "A" "job" 7 30000 default_options).
  split; [done|]. split; [done|]. split; [exact demo_leased|]. split; [concrete|]. split; [|done].
  repeat (apply Forall_cons_2 || apply Forall_nil_2); cbn; try done. right. done.
Defined.

Definition demo_first : outcome (res error EtcdShared) * world edb :=
  etcd_try_lock_with demo_etcd "a" default_options (etcd_world edb_new []).
Definition demo_second_world : world edb :=
  etcd_world (eevents_run [EvTime 60000] (w_server demo_first.2 0%nat)) [mk_etcd_step [EvAcquire "c" "C" 0] Replied 3].
Abbreviation demo_second := (etcd_try_lock_with demo_etcd "b" default_options demo_second_world).

Definition demo_grant (key : string) (fence : Z) : EtcdShared :=
  mk_etcd_shared 0 key "uuid-7" (owner_generate 7) (mk_fence fence) 1 1.

Lemma etcd_fences_increase_witness :
  demo_first.1 = Done (Ok (demo_grant "a" 2)) /\ demo_second.1 = Done (Ok (demo_grant "b" 5)) /\ 2 < 5.
Proof.
  assert (demo_first.1 = Done (Ok (demo_grant "a" 2))) as E1 by (vm_compute; reflexivity).
  assert (demo_second.1 = Done (Ok (demo_grant "b" 5))) as E2 by (vm_compute; reflexivity).
  split; [exact E1|]. split; [exact E2|].
  apply (etcd_fences_increase demo_etcd demo_etcd "a" "b" default_options default_options (etcd_world edb_new [])
    demo_first.2 demo_second_world demo_second.2 [] [mk_etcd_step [EvAcquire "c" "C" 0] Replied 3] [EvTime 60000]
    (demo_grant "a" 2) (demo_grant "b" 5)).
  - reflexivity.
  - split; [done|]. split; [done|]. split; [exact edb_new_ok|]. by split.
  - exact (fst_eq demo_first _ E1).
  - done.
  - done.
  - by repeat constructor.
  - by repeat constructor.
  - done.
  - exact (fst_eq demo_second _ E2).
  - vm_compute. discriminate.
Defined.


Lemma etcd_release_correct_witness : exists r w',
  etcd_release demo_etcd_handle (etcd_world demo_edb []) = (Done r, w') /\
  released_db "job" "A" 7 demo_edb (w_server w' 0%nat) (is_ok r).
Proof.
  destruct (etcd_release_correct demo_etcd_handle (etcd_world demo_edb []) fresh_flags) as (r & w' & E & Hr & _).
  - by split.
  - exact (ld_ok _ _ _ _ _ demo_leased).
  - done.
  - reflexivity.
  - reflexivity.
  - exists r, w'. split; [exact E|exact Hr].
Defined.

(** The lease runs out and another client takes the key; the watchdog, unable
    to send, does not notice. *)
Definition demo_taken : edb := mk_edb 40000 9 {[ "job"%string := mk_ekv "B" 9 0 ]} ∅.
Definition demo_blind : list (env_step edb * env_step edb) :=
  [(mk_step (fun _ _ => demo_taken) Replied 0, mk_step id NotDelivered 0); (quiet, mk_step id NotDelivered 0)].

Lemma etcd_watchdog_blind_witness : exists w',
  etcd_watchdog_rounds 2 demo_etcd_handle (from_secs 30)
    (mk_world (fun _ => demo_edb) 7 0 [fresh_flags] [] (demo_blind ≫= (fun p => [p.1; p.2])) None) = (Done true, w') /\
  etcd_is_lost demo_etcd_handle w' = (Done false, w').
Proof.
  destruct (etcd_watchdog_blind demo_etcd_handle (from_secs 30) demo_blind
    (mk_world (fun _ => demo_edb) 7 0 [fresh_flags] [] (demo_blind ≫= (fun p => [p.1; p.2])) None)) as (w' & E & _ & Hl).
  - reflexivity.
  - reflexivity.
  - by repeat constructor.
  - reflexivity.
  - reflexivity.
  - exists w'. split; [exact E|exact Hl].
Defined.

Lemma etcd_extend_correct_witness : exists w',
  etcd_extend demo_etcd_handle (from_secs 3600) (etcd_world demo_edb []) = (Done (Ok tt), w') /\
  exists secs dl, ed_leases demo_edb !! 7 = Some (secs, dl) /\
    ed_leases (w_server w' 0%nat) = <[7 := (secs, 0 + 1000 * secs)]> (ed_leases demo_edb).
Proof.
  destruct (etcd_extend_correct demo_etcd_handle (from_secs 3600) (etcd_world demo_edb []) fresh_flags)
    as (r & w' & E & _ & Hr).
  - by split.
  - reflexivity.
  - reflexivity.
  - reflexivity.
  - assert ((etcd_extend demo_etcd_handle (from_secs 3600) (etcd_world demo_edb [])).1 = Done (Ok tt)) as E1
      by (vm_compute; reflexivity).
    rewrite E in E1. injection E1 as ->. exists w'. split; [exact E|]. destruct Hr as (secs & dl & _ & Hl & Hl').
    exists secs, dl. split; [exact Hl|exact Hl'].
Defined.

Lemma etcd_lock_panics_witness : etcd_lock 0 demo_etcd "job" default_options (etcd_world edb_new []) =
  (Panic, etcd_world edb_new []).
Proof. apply (etcd_lock_panics 0 demo_etcd "job" default_options (etcd_world edb_new [])). done. Defined.
