(* ===== verification/Registry.v ===== *)
(** * The quota registry ([crates/server/src/registry.rs])

    Which principal is charged for which key.  [try_acquire] runs under the
    [holders] mutex; [release] takes the two mutexes one after the other, so
    other calls run between its two halves: the step relation has one step
    for each half.  The theorems: the ceiling is never exceeded in any
    interleaving, the counts are exact whenever no release is half done, and
    what happens to a key whose lock expired without an unlock. *)

From S2P Require Import Prelude.

Record HeldRegistry := mk_registry {
  holders : gmap string string;      (* key -> principal name *)
  counts : gmap string nat;          (* principal name -> live held count *)
}.

(** [HeldRegistry::new]. *)
Definition registry_new : HeldRegistry := mk_registry ∅ ∅.

Definition count_for (r : HeldRegistry) (principal : string) : nat := default 0%nat (counts r !! principal).

(** [HeldRegistry::try_acquire]; [max_keys as usize]. *)
Definition try_acquire (key principal : string) (max_keys : nat) (r : HeldRegistry) : bool * HeldRegistry :=
  match holders r !! key with
  | Some _ => (true, r)
  | None =>
      if (0 <? max_keys)%nat && (max_keys <=? count_for r principal)%nat then (false, r)
      else (true, mk_registry (<[key := principal]> (holders r))
                    (<[principal := S (count_for r principal)]> (counts r)))
  end.

(** [HeldRegistry::release], first half: remove the holder. *)
Definition release_holder (key : string) (r : HeldRegistry) : option string * HeldRegistry :=
  (holders r !! key, mk_registry (delete key (holders r)) (counts r)).

(** Second half: free the slot, [n.saturating_sub(1)]. *)
Definition release_count (owner : string) (r : HeldRegistry) : option string * HeldRegistry :=
  match counts r !! owner with
  | Some n => (Some owner, mk_registry (holders r) (<[owner := (n - 1)%nat]> (counts r)))
  | None => (None, r)
  end.

(** The whole call, undisturbed. *)
Definition registry_release (key : string) (r : HeldRegistry) : option string * HeldRegistry :=
  match release_holder key r with
  | (Some owner, r1) => release_count owner r1
  | (None, r1) => (None, r1)
  end.

(** ** Interleavings *)

(** The registry and the principals whose slot a half-done release is about
    to free. *)
Record rstate := mk_rstate { rs_reg : HeldRegistry; rs_pending : list string }.

(** The ceiling each principal calls with (0: none). *)
Inductive rstep (max_keys : string -> nat) : rstate -> rstate -> Prop :=
| rstep_acquire r ps key p :
    rstep max_keys (mk_rstate r ps) (mk_rstate (try_acquire key p (max_keys p) r).2 ps)
| rstep_holder r ps key owner r' :
    release_holder key r = (Some owner, r') -> rstep max_keys (mk_rstate r ps) (mk_rstate r' (owner :: ps))
| rstep_unknown r ps key r' :
    release_holder key r = (None, r') -> rstep max_keys (mk_rstate r ps) (mk_rstate r' ps)
| rstep_count r ps1 ps2 owner :
    rstep max_keys (mk_rstate r (ps1 ++ owner :: ps2)) (mk_rstate (release_count owner r).2 (ps1 ++ ps2)).

Definition reachable (max_keys : string -> nat) : rstate -> Prop :=
  rtc (rstep max_keys) (mk_rstate registry_new []).

(** The keys charged to [p]. *)
Definition charged (p : string) (r : HeldRegistry) : gmap string string :=
  filter (fun kv => kv.2 = p) (holders r).
Definition held_by (p : string) (r : HeldRegistry) : nat := size (charged p r).
Definition pending_for (p : string) (ps : list string) : nat := length (filter (fun q => q = p) ps).

#[global] Arguments count_for : simpl never.
#[global] Arguments held_by : simpl never.
#[global] Arguments pending_for : simpl never.

(** A count is the keys charged and the slots about to be freed. *)
Definition counted (max_keys : string -> nat) (s : rstate) : Prop := forall p,
  count_for (rs_reg s) p = (held_by p (rs_reg s) + pending_for p (rs_pending s))%nat /\
  (max_keys p = 0 \/ count_for (rs_reg s) p <= max_keys p)%nat.

Lemma held_by_insert p key q hs cs cs' : hs !! key = None ->
  held_by p (mk_registry (<[key := q]> hs) cs) = ((if decide (q = p) then 1 else 0) + held_by p (mk_registry hs cs'))%nat.
Proof.
  intros E. unfold held_by, charged. cbn [holders]. rewrite map_filter_insert. cbn [snd]. case_decide.
  - rewrite map_size_insert_None; [done|]. apply map_lookup_filter_None. left. done.
  - rewrite map_filter_delete, delete_id; [done|]. apply map_lookup_filter_None. by left.
Qed.

Lemma held_by_delete p key q hs cs cs' : hs !! key = Some q ->
  held_by p (mk_registry hs cs) = ((if decide (q = p) then 1 else 0) + held_by p (mk_registry (delete key hs) cs'))%nat.
Proof.
  intros E. rewrite <- (insert_delete_id hs key q E) at 1. apply held_by_insert, lookup_delete_eq.
Qed.

Lemma pending_app p a b : pending_for p (a ++ b) = (pending_for p a + pending_for p b)%nat.
Proof. unfold pending_for. by rewrite filter_app, length_app. Qed.

Lemma pending_cons p q ps : pending_for p (q :: ps) = ((if decide (q = p) then 1 else 0) + pending_for p ps)%nat.
Proof. unfold pending_for. rewrite filter_cons. by case_decide. Qed.

Lemma count_for_insert p q n hs cs :
  count_for (mk_registry hs (<[q := n]> cs)) p = if decide (q = p) then n else count_for (mk_registry hs cs) p.
Proof.
  unfold count_for. cbn. case_decide as E; [subst q; by rewrite lookup_insert_eq|by rewrite lookup_insert_ne].
Qed.

Lemma counted_acquire max_keys r ps key p : counted max_keys (mk_rstate r ps) ->
  counted max_keys (mk_rstate (try_acquire key p (max_keys p) r).2 ps).
Proof.
  intros C. unfold try_acquire. destruct (holders r !! key) eqn:E; [done|].
  destruct (_ && _) eqn:Hm; [done|].
  apply andb_false_iff in Hm. rewrite Nat.ltb_ge, Nat.leb_gt in Hm. intros q. destruct (C q) as [C1 C2]. cbn in *.
  rewrite count_for_insert, (held_by_insert _ _ _ _ _ (counts r)) by done. destruct r as [hs cs]. cbn in *.
  case_decide as Eq; [|by split]. subst q. split; lia.
Qed.

Lemma counted_count max_keys r ps1 ps2 owner : counted max_keys (mk_rstate r (ps1 ++ owner :: ps2)) ->
  counted max_keys (mk_rstate (release_count owner r).2 (ps1 ++ ps2)).
Proof.
  intros C q. destruct (C q) as [C1 C2]. destruct (C owner) as [O1 _]. cbn in *.
  rewrite pending_app, pending_cons in C1, O1. rewrite decide_True in O1 by done. rewrite pending_app.
  unfold release_count. destruct (counts r !! owner) as [n|] eqn:En; cbn [snd].
  - rewrite count_for_insert. unfold held_by in *. destruct r as [hs cs]. cbn in *.
    unfold count_for in O1. cbn in O1. rewrite En in O1. cbn in O1.
    change (charged q (mk_registry hs (<[owner:=(n - 1)%nat]> cs))) with (charged q (mk_registry hs cs)).
    destruct (decide (owner = q)) as [->|Hne]; [|lia].
    unfold count_for in C2. cbn in C2. rewrite En in C2. cbn in C2. lia.
  - unfold count_for in O1. rewrite En in O1. cbn in O1. lia.
Qed.

Lemma counted_step max_keys s s' : counted max_keys s -> rstep max_keys s s' -> counted max_keys s'.
Proof.
  intros C S. destruct S as [r ps key p|r ps key owner r' E|r ps key r' E|r ps1 ps2 owner].
  - by apply counted_acquire.
  - unfold release_holder in E. injection E as E <-. intros q. destruct (C q) as [C1 C2]. cbn in *.
    split; [|done]. rewrite pending_cons. destruct r as [hs cs]. cbn in *.
    rewrite (held_by_delete _ _ _ _ _ cs E) in C1. unfold count_for in *. cbn in *. rewrite C1. lia.
  - unfold release_holder in E. injection E as E <-. rewrite delete_id by done. by destruct r.
  - by apply counted_count.
Qed.

Lemma counted_new max_keys : counted max_keys (mk_rstate registry_new []).
Proof.
  intros p. cbn. assert (count_for registry_new p = 0%nat) as -> by done.
  assert (held_by p registry_new = 0%nat) as ->.
  { unfold held_by, charged. cbn. by rewrite map_filter_empty, map_size_empty. }
  split; [done|lia].
Qed.

(** ** Properties *)

(** C33: The registry enforces the ceiling.  In every state that calls of any
    principals can reach, with any interleaving of the two halves of their
    releases, a principal with ceiling [max_keys > 0] is charged for at most
    that many keys; its count is the keys charged to it plus the slots of
    releases half done, so it is exact when none is in flight. *)
Theorem registry_quota max_keys s p : reachable max_keys s ->
  count_for (rs_reg s) p = (held_by p (rs_reg s) + pending_for p (rs_pending s))%nat /\
  (max_keys p = 0%nat \/ (held_by p (rs_reg s) <= max_keys p)%nat).
Proof.
  intros Hr. enough (counted max_keys s) as C by (destruct (C p) as [C1 C2]; split; [done|lia]).
  unfold reachable in Hr. pose proof (counted_new max_keys) as C0. revert C0.
  induction Hr; eauto using counted_step.
Qed.

(** A grant is refused for exactly one reason, and a release gives the slot
    back: on a registry whose counts are exact, [try_acquire] of a key nobody
    is charged for fails exactly when the principal is at its ceiling, and
    otherwise [release] returns the principal and restores the charges and
    counts there were. *)
Theorem registry_roundtrip r key p max_keys :
  holders r !! key = None ->
  let '(ok, r1) := try_acquire key p max_keys r in
  (ok = false <-> (0 < max_keys <= count_for r p)%nat) /\
  if ok then (registry_release key r1).1 = Some p /\ holders (registry_release key r1).2 = holders r /\
             forall q, count_for (registry_release key r1).2 q = count_for r q
  else r1 = r.
Proof.
  intros E. unfold try_acquire. rewrite E. destruct (_ && _) eqn:Hm.
  - apply andb_prop in Hm. rewrite Nat.ltb_lt, Nat.leb_le in Hm. split; [by split|done].
  - apply andb_false_iff in Hm. rewrite Nat.ltb_ge, Nat.leb_gt in Hm. split; [split; [done|lia]|].
    unfold registry_release, release_holder, release_count. cbn. rewrite !lookup_insert_eq. cbn.
    rewrite delete_insert_id by done. split_and!; [done..|]. intros q. destruct r as [hs cs].
    rewrite !count_for_insert. case_decide as Eq; [|done]. subst q. cbn. lia.
Qed.

(** A lock that expired without an unlock stays charged to its first
    holder: when [q] is granted the key later, [try_acquire] succeeds whatever
    [q]'s ceiling, [q] is charged nothing, and the release of [q]'s lock frees
    a slot of [p]. *)
Theorem registry_charges_first_holder r key p q max_keys :
  holders r !! key = Some p -> (0 < count_for r p)%nat ->
  try_acquire key q max_keys r = (true, r) /\
  (registry_release key r).1 = Some p /\
  count_for (registry_release key r).2 p = (count_for r p - 1)%nat.
Proof.
  intros E Hp. unfold try_acquire, registry_release, release_holder, release_count. rewrite E. cbn.
  unfold count_for in *. destruct (counts r !! p) as [n|] eqn:En; [|cbn in Hp; lia].
  cbn. rewrite lookup_insert_eq. done.
Qed.

(** ** Witnesses *)

Definition demo_registry : HeldRegistry := (try_acquire "job" "ci" 1 registry_new).2.

Lemma registry_quota_witness : reachable (fun _ => 1%nat) (mk_rstate demo_registry []) /\
  (held_by "ci" demo_registry <= 1)%nat.
Proof.
  assert (reachable (fun _ => 1%nat) (mk_rstate demo_registry [])) as Hr.
  { eapply rtc_l; [apply (rstep_acquire (fun _ => 1%nat) registry_new [] "job" "ci")|apply rtc_refl]. }
  split; [exact Hr|]. destruct (registry_quota (fun _ => 1%nat) _ "ci" Hr) as [_ [H|H]]; [discriminate H|exact H].
Defined.

Lemma registry_roundtrip_witness : (registry_release "job" demo_registry).1 = Some "ci"%string.
Proof. exact (proj1 (proj2 (registry_roundtrip registry_new "job" "ci" 1 eq_refl))). Defined.

Lemma registry_charges_first_holder_witness : try_acquire "job" "dev" 1 demo_registry = (true, demo_registry).
Proof.
  exact (proj1 (registry_charges_first_holder demo_registry "job" "ci" "dev" 1 eq_refl (Nat.lt_0_succ 0))).
Defined.
