(* ===== verification/Auth.v ===== *)
(** * Authorization and quotas ([crates/server/src/auth.rs])

    Principals with prefix-scoped permissions, how a request is resolved to
    one, and the watcher quota with its guard.  The counters behind
    [Arc<AtomicUsize>] are cells of a store shared by the clones of a
    principal.  The theorems: which requests are admitted, the watcher
    quota under every interleaving, and the mode whose callers are always
    refused. *)

From S2P Require Import Prelude Core.

(** [tonic::Status], by code. *)
Inductive Status :=
| PermissionDenied | ResourceExhausted | Unauthenticated | InvalidArgument | NotFound | Unavailable | Internal.
#[global] Instance Status_eq_dec : EqDecision Status.
Proof. solve_decision. Defined.

Record PrincipalConfig := mk_principal_config {
  pc_name : string;
  pc_token : string;
  key_prefixes : list string;
  can_lock : bool;
  can_unlock : bool;
  can_extend : bool;
  can_watch : bool;
  can_admin : bool;
  max_keys : Z;
  max_watchers : Z;
}.

Inductive AuthMode := File | TrustedHeader.
#[global] Instance AuthMode_eq_dec : EqDecision AuthMode.
Proof. solve_decision. Defined.

(** [held_keys] and [watchers] are the numbers of two counters. *)
Record Principal := mk_principal { p_cfg : PrincipalConfig; held_keys : nat; watchers : nat }.
Definition p_name (p : Principal) : string := pc_name (p_cfg p).

(** The atomic counters, all [usize]. *)
Abbreviation store := (list Z).
Definition load (i : nat) (st : store) : Z := default 0 (st !! i).
Definition fetch_add (i : nat) (st : store) : Z * store := (load i st, alter (fun n => u64_add n 1) i st).
Definition fetch_sub (i : nat) (st : store) : Z * store := (load i st, alter (fun n => wrap64 (n - 1)) i st).

(** ** Permissions *)

(** [str::starts_with]. *)
Definition starts_with (key p : string) : bool := String.prefix p key.

Definition in_prefixes (c : PrincipalConfig) (key : string) : bool := existsb (starts_with key) (key_prefixes c).

(** [Principal::may]. *)
Definition may (p : Principal) (key : string) (allowed : bool) : res Status unit :=
  if in_prefixes (p_cfg p) key
  then if allowed then Ok tt else Err PermissionDenied
  else Err PermissionDenied.

Definition check_lock (p : Principal) (key : string) (st : store) : res Status unit :=
  match may p key (can_lock (p_cfg p)) with
  | Err e => Err e
  | Ok _ =>
      if (0 <? max_keys (p_cfg p)) && (max_keys (p_cfg p) <=? load (held_keys p) st)
      then Err ResourceExhausted else Ok tt
  end.
Definition check_unlock (p : Principal) (key : string) : res Status unit := may p key (can_unlock (p_cfg p)).
Definition check_extend (p : Principal) (key : string) : res Status unit := may p key (can_extend (p_cfg p)).
Definition check_admin (p : Principal) (key : string) : res Status unit := may p key (can_admin (p_cfg p)).

(** A [WatcherGuard] is the counter it gives back when dropped. *)
Record WatcherGuard := mk_guard { g_counter : nat }.

(** The quota test against the counter's previous value; [max = 0] is no limit. *)
Definition over (max prev : Z) : bool := (0 <? max) && (max <=? prev).

(** [Principal::check_watch]; the two atomic operations of a refusal are
    separate steps below ([wstep]). *)
Definition check_watch (p : Principal) (key : string) (st : store) : res Status WatcherGuard * store :=
  match may p key (can_watch (p_cfg p)) with
  | Err e => (Err e, st)
  | Ok _ =>
      let '(prev, st) := fetch_add (watchers p) st in
      if over (max_watchers (p_cfg p)) prev
      then (Err ResourceExhausted, (fetch_sub (watchers p) st).2)
      else (Ok (mk_guard (watchers p)), st)
  end.

(** [Drop for WatcherGuard]. *)
Definition drop_guard (g : WatcherGuard) (st : store) : store := (fetch_sub (g_counter g) st).2.

Definition note_watcher_denial (p : Principal) (st : store) : store := (fetch_sub (watchers p) st).2.

(** ** The ACL *)

Record Acl := mk_acl { acl_open : bool; by_token : gmap string Principal; mode : AuthMode }.

(** [Acl::open] and [with_mode]. *)
Definition open_acl : Acl := mk_acl true ∅ File.
Definition with_mode (m : AuthMode) (a : Acl) : Acl := mk_acl (acl_open a) (by_token a) m.

(** [Acl::make_principal]: two new counters. *)
Definition make_principal (c : PrincipalConfig) (st : store) : Principal * store :=
  (mk_principal c (length st) (S (length st)), st ++ [0; 0]).

(** The loop of [Acl::from_json] over the parsed document. *)
Fixpoint insert_principals (cfgs : list PrincipalConfig) (m : gmap string Principal) (st : store)
    {struct cfgs} : res error (gmap string Principal) * store :=
  match cfgs with
  | [] => (Ok m, st)
  | c :: cfgs =>
      if String.eqb (pc_token c) "" then (Err (InvalidConfig "principal `{}` has empty token"), st) else
      let '(p, st) := make_principal c st in
      insert_principals cfgs (<[pc_token c := p]> m) st
  end.

Definition from_principals (cfgs : list PrincipalConfig) (st : store) : res error Acl * store :=
  let '(r, st) := insert_principals cfgs ∅ st in (res_map (fun m => mk_acl false m File) r, st).

Definition anonymous : PrincipalConfig :=
  mk_principal_config "anonymous" "" [""%string] true true true true true 0 0.

(** [str::strip_prefix]. *)
Fixpoint strip_prefix (p s : string) {struct p} : option string :=
  match p, s with
  | EmptyString, s => Some s
  | String a p, String b s => if Ascii.eqb a b then strip_prefix p s else None
  | String _ _, EmptyString => None
  end.

Section resolve.
(** The order in which [HashMap::values] yields the principals. *)
Variable values : gmap string Principal -> list Principal.
Hypothesis values_all : forall m p, p ∈ values m <-> exists t, m !! t = Some p.

(** [AclInner::by_name]. *)
Definition by_name (a : Acl) (name : string) : option Principal :=
  find (fun p => String.eqb (p_name p) name) (values (by_token a)).

(** [Acl::resolve_with_header]. *)
Definition resolve_with_header (a : Acl) (bearer principal_hdr : option string) (st : store) :
    res Status Principal * store :=
  if decide (mode a = TrustedHeader) then
    (match principal_hdr with
     | None => Err Unauthenticated
     | Some name => match by_name a name with Some p => Ok p | None => Err Unauthenticated end
     end, st)
  else if acl_open a then let '(p, st) := make_principal anonymous st in (Ok p, st)
  else
    (match bearer ≫= strip_prefix "Bearer " with
     | None => Err Unauthenticated
     | Some token => match by_token a !! token with Some p => Ok p | None => Err Unauthenticated end
     end, st).

(** [Acl::resolve]. *)
Definition resolve (a : Acl) (bearer : option string) (st : store) : res Status Principal * store :=
  resolve_with_header a bearer None st.

Lemma by_name_spec a name p : by_name a name = Some p ->
  p_name p = name /\ exists t, by_token a !! t = Some p.
Proof.
  intros E. apply find_some in E. destruct E as [Hin Hn]. apply String.eqb_eq in Hn. split; [done|].
  by apply values_all, list_elem_of_In.
Qed.
End resolve.

Lemma strip_prefix_app p s : strip_prefix p (p +:+ s) = Some s.
Proof.
  induction p as [|c p IH]; [done|]. change (String c p +:+ s) with (String c (p +:+ s)). cbn [strip_prefix].
  by rewrite Ascii.eqb_refl.
Qed.

Lemma strip_prefix_Some p s s' : strip_prefix p s = Some s' -> s = p +:+ s'.
Proof.
  revert s. induction p as [|c p IH]; intros s E; [by injection E|]. destruct s as [|b s]; [done|].
  cbn [strip_prefix] in E. destruct (Ascii.eqb_spec c b) as [<-|]; [|done].
  change (String c p +:+ s') with (String c (p +:+ s')). by rewrite <- (IH _ E).
Qed.

Lemma prefix_app p s : String.prefix p s = true -> exists r, s = p +:+ r.
Proof.
  revert s. induction p as [|c p IH]; intros s E; [by exists s|]. destruct s as [|b s]; [done|].
  cbn [String.prefix] in E. destruct (ascii_dec c b) as [<-|]; [|done]. destruct (IH _ E) as [r ->]. by exists r.
Qed.
Lemma app_prefix p r : String.prefix p (p +:+ r) = true.
Proof.
  induction p as [|c p IH]; [by destruct r|]. change (String c p +:+ r) with (String c (p +:+ r)).
  cbn [String.prefix]. by destruct (ascii_dec c c).
Qed.

(** The configuration a token stands for: the last one listed with it. *)
Definition last_with (token : string) (cfgs : list PrincipalConfig) : option PrincipalConfig :=
  find (fun c => String.eqb (pc_token c) token) (rev cfgs).

Lemma find_app {A} (f : A -> bool) l l' :
  find f (l ++ l') = match find f l with Some x => Some x | None => find f l' end.
Proof. induction l as [|x l IH]; [done|]. cbn. by destruct (f x). Qed.

Lemma insert_principals_lookup cfgs : forall m st,
  match (insert_principals cfgs m st).1 with
  | Err _ => Exists (fun c => pc_token c = ""%string) cfgs
  | Ok m' => Forall (fun c => pc_token c <> ""%string) cfgs /\
      forall t, p_cfg <$> m' !! t = match last_with t cfgs with Some c => Some c | None => p_cfg <$> m !! t end
  end.
Proof.
  induction cfgs as [|c cfgs IH]; intros m st; cbn [insert_principals]; [by split; [constructor|]|].
  destruct (String.eqb_spec (pc_token c) "") as [E|Hne]; [by constructor|]. cbn [make_principal].
  set (p := mk_principal c _ _). specialize (IH (<[pc_token c := p]> m) (st ++ [0; 0])).
  destruct ((insert_principals _ _ _).1) as [m'|e]; [|by constructor].
  destruct IH as [Hf Hl]. split; [by constructor|]. intros t. rewrite Hl. unfold last_with. cbn [rev].
  rewrite find_app. destruct (find _ (rev cfgs)); [done|]. cbn [find].
  destruct (String.eqb_spec (pc_token c) t) as [<-|Hn]; [by rewrite lookup_insert_eq|by rewrite lookup_insert_ne].
Qed.

(** ** The watcher counter under interleaving *)

(** One counter: the guards that are out, and the refusals between their
    [fetch_add] and their [fetch_sub]. *)
Record wstate := mk_wstate { ws_counter : Z; ws_guards : Z; ws_refused : Z }.

Inductive wstep (max : Z) : wstate -> wstate -> Prop :=
| wstep_admit n g r : over max n = false ->
    wstep max (mk_wstate n g r) (mk_wstate (u64_add n 1) (g + 1) r)
| wstep_refuse n g r : over max n = true ->
    wstep max (mk_wstate n g r) (mk_wstate (u64_add n 1) g (r + 1))
| wstep_undo n g r : 0 < r -> wstep max (mk_wstate n g r) (mk_wstate (wrap64 (n - 1)) g (r - 1))
| wstep_drop n g r : 0 < g -> wstep max (mk_wstate n g r) (mk_wstate (wrap64 (n - 1)) (g - 1) r).

(** Fewer than 2^64 calls at once: the [usize] counter does not wrap. *)
Definition in_range (s : wstate) : Prop := ws_guards s + ws_refused s < u64_mod.

Definition wreachable (max : Z) : wstate -> Prop :=
  rtc (fun s s' => wstep max s s' /\ in_range s') (mk_wstate 0 0 0).

Definition watch_counted (max : Z) (s : wstate) : Prop :=
  0 <= ws_guards s /\ 0 <= ws_refused s /\ ws_counter s = ws_guards s + ws_refused s /\
  (0 < max -> ws_guards s <= max).

Lemma watch_counted_step max s s' : watch_counted max s -> wstep max s s' -> in_range s' -> watch_counted max s'.
Proof.
  intros (Hg & Hr & Hc & Hm) S. unfold in_range, watch_counted.
  destruct S as [n g r Ho|n g r Ho|n g r Hp|n g r Hp]; cbn [ws_counter ws_guards ws_refused] in *; intros Hb; subst n.
  - rewrite u64_add_small by lia. split_and!; try lia. intros H0. unfold over in Ho.
    rewrite (proj2 (Z.ltb_lt _ _) H0) in Ho. cbn in Ho. zbool. lia.
  - rewrite u64_add_small by lia. split_and!; lia.
  - rewrite wrap64_small by (unfold in_u64; lia). split_and!; lia.
  - rewrite wrap64_small by (unfold in_u64; lia). split_and!; lia.
Qed.

(** [check_watch] run without interruption is one or two of these steps. *)
Lemma check_watch_steps p key st n g r : 0 <= r -> may p key (can_watch (p_cfg p)) = Ok tt ->
  (watchers p < length st)%nat -> load (watchers p) st = n ->
  exists n' g', load (watchers p) (check_watch p key st).2 = n' /\
    g' = (if is_ok (check_watch p key st).1 then g + 1 else g) /\
    rtc (wstep (max_watchers (p_cfg p))) (mk_wstate n g r) (mk_wstate n' g' r).
Proof.
  intros Hr Hm Hl Hn. unfold check_watch, fetch_add, fetch_sub, load in *. rewrite Hm, Hn.
  destruct (lookup_lt_is_Some_2 _ _ Hl) as [x Ex]. rewrite Ex in Hn. cbn in Hn. subst x.
  destruct (over _ n) eqn:Ho; cbn [is_ok fst snd].
  - rewrite !list_lookup_alter_eq, Ex. cbn. do 2 eexists. split; [reflexivity|]. split; [reflexivity|].
    eapply rtc_l; [by apply wstep_refuse|]. eapply rtc_l; [apply wstep_undo; lia|].
    replace (r + 1 - 1) with r by lia. apply rtc_refl.
  - rewrite list_lookup_alter_eq, Ex. cbn. do 2 eexists. split; [reflexivity|]. split; [reflexivity|].
    eapply rtc_l; [by apply wstep_admit|]. apply rtc_refl.
Qed.

(** ** Properties *)


(** The watcher quota holds under concurrency: with [check_watch] split
    into its atomic operations and any number of callers and departing
    watchers interleaved (fewer than 2^64 at once), a principal with
    [max_watchers > 0] never has more guards out than that, and its counter
    is the guards plus the refusals still to be undone. *)
Theorem watcher_quota max s : wreachable max s -> 0 < max ->
  ws_guards s <= max /\ ws_counter s = ws_guards s + ws_refused s.
Proof.
  intros Hr Hm. enough (watch_counted max s) as (_ & _ & ? & ?) by auto.
  unfold wreachable in Hr. remember (mk_wstate 0 0 0) as s0.
  assert (watch_counted max s0) as C by (subst s0; unfold watch_counted; cbn; split_and!; lia || done).
  clear Heqs0. induction Hr as [|s1 s2 s3 [S B] _ IH]; [done|]. apply IH. by eapply watch_counted_step.
Qed.

(** Bearer tokens identify principals: with the ACL loaded from a list of
    configurations (rejected exactly when one has an empty token), a request
    in file mode is resolved if and only if its header is [Bearer ] followed
    by a listed token, to the configuration listed last with that token; every
    other request is [Unauthenticated]. *)
Theorem resolve_correct values cfgs st bearer :
  match from_principals cfgs st with
  | (Err _, _) => Exists (fun c => pc_token c = ""%string) cfgs
  | (Ok a, st') => Forall (fun c => pc_token c <> ""%string) cfgs /\
      match (resolve values a bearer st').1 with
      | Ok p => exists token, bearer = Some ("Bearer " +:+ token) /\ last_with token cfgs = Some (p_cfg p)
      | Err e => e = Unauthenticated /\
          forall token, bearer = Some ("Bearer " +:+ token) -> last_with token cfgs = None
      end
  end.
Proof.
  unfold from_principals. pose proof (insert_principals_lookup cfgs ∅ st) as H.
  destruct (insert_principals cfgs ∅ st) as [[m|e] st']; [|exact H]. cbn in H |- *. destruct H as [Hf Hl].
  split; [done|]. unfold resolve, resolve_with_header. cbn [mode acl_open by_token].
  rewrite decide_False by done.
  assert (forall t, p_cfg <$> m !! t = last_with t cfgs) as Hm.
  { intros t. rewrite Hl, lookup_empty. by destruct (last_with t cfgs). }
  destruct bearer as [h|]; [|by split]. cbn [mbind option_bind fst].
  destruct (strip_prefix "Bearer " h) as [token|] eqn:E.
  - apply strip_prefix_Some in E. subst h. specialize (Hm token).
    destruct (m !! token) as [p|]; cbn in Hm; [by exists token|]. split; [done|].
    intros t Et. pose proof (strip_prefix_app "Bearer " t) as E1. pose proof (strip_prefix_app "Bearer " token) as E2.
    assert (token = t) as <- by congruence. done.
  - split; [done|]. intros t Et. assert (h = "Bearer " +:+ t) as -> by congruence. pose proof (strip_prefix_app "Bearer " t). congruence.
Qed.

(** A server in trusted-header mode refuses every request: the service
    resolves callers with [resolve], which passes no principal header, so
    whatever the ACL and the credentials the answer is [Unauthenticated]. *)
Theorem trusted_header_refuses values a bearer st :
  resolve values (with_mode TrustedHeader a) bearer st = (Err Unauthenticated, st).
Proof. unfold resolve, resolve_with_header. by rewrite decide_True. Qed.

(** ** Witnesses *)

Lemma watcher_quota_witness : wreachable 1 (mk_wstate 1 1 0) /\ 1 <= 1.
Proof.
  assert (wreachable 1 (mk_wstate 1 1 0)) as Hr.
  { eapply rtc_l; [|apply rtc_refl]. split; [exact (wstep_admit 1 0 0 0 eq_refl)|reflexivity]. }
  split; [exact Hr|]. exact (proj1 (watcher_quota 1 _ Hr eq_refl)).
Defined.
