(* ===== verification/Sessions.v ===== *)
(** * Server sessions ([crates/server/src/sessions.rs])

    Sessions bind locks to a client that must send heartbeats; the sweeper
    releases the locks of sessions that fell silent.  The theorems: what one
    sweep does to the book and to the locks on the server, how long a
    heartbeat keeps a session, that the documented cadence is never
    refused, and the window in which a heartbeat comes too late. *)

From S2P Require Import Prelude Core Redis Scripts World Lease Single Multi.

Definition SWEEP_INTERVAL : duration := from_millis 500.

Record SessionEntry := mk_session {
  client_id : string;
  s_ttl : duration;
  last_seen : Z;
  hb_floor : Z;
  locks : list (string * string);      (* key, owner token *)
}.

Abbreviation SessionBook := (gmap string SessionEntry).

Inductive HbResult := HbOk | RateLimited | Unknown.
#[global] Instance HbResult_eq_dec : EqDecision HbResult.
Proof. solve_decision. Defined.

(** [SessionEntry::expired]: [Instant::elapsed] saturates at zero. *)
Definition expired (now : Z) (e : SessionEntry) : bool := s_ttl e <? Z.max 0 (now - last_seen e).

Definition silent (book : SessionBook) (now : Z) (token : string) : bool :=
  match book !! token with Some e => expired now e | None => false end.

Section sessions.
Context {U : UuidSource} {R : Type} `{Redis R}.
Open Scope world_scope.

(** [SessionBook::register]. *)
Definition register (book : SessionBook) (client : string) (ttl : duration) : M R (string * SessionBook) :=
  let* owner := fresh_owner in
  let* now := instant_now in
  let token := owner_token owner in
  ret (token, <[token := mk_session client ttl now now []]> book).

(** [SessionBook::heartbeat]. *)
Definition heartbeat (book : SessionBook) (token : string) : M R (HbResult * SessionBook) :=
  let* now := instant_now in
  match book !! token with
  | Some e =>
      if now <? hb_floor e then ret (RateLimited, book) else
      let* floor := instant_add now (s_ttl e / 20) in
      ret (HbOk, <[token := mk_session (client_id e) (s_ttl e) now floor (locks e)]> book)
  | None => ret (Unknown, book)
  end.

(** [SessionBook::bind]. *)
Definition bind_lock (book : SessionBook) (token key lock_token : string) : M R (bool * SessionBook) :=
  let* now := instant_now in
  match book !! token with
  | Some e =>
      ret (true, <[token := mk_session (client_id e) (s_ttl e) now (hb_floor e)
                              (locks e ++ [(key, lock_token)])]> book)
  | None => ret (false, book)
  end.

(** [SessionBook::remove]. *)
Definition remove (book : SessionBook) (token : string) : list (string * string) * SessionBook :=
  (match book !! token with Some e => locks e | None => [] end, delete token book).

(** [SessionBook::release_all]: how many calls did not fail. *)
Fixpoint release_bound (mgr : RedisLockManager) (ls : list (string * string)) {struct ls} : M R Z :=
  match ls with
  | [] => ret 0
  | (key, lock_token) :: ls =>
      let* r := unlock_with_token mgr key lock_token in
      let* n := release_bound mgr ls in
      ret ((if is_ok r then 1 else 0) + n)
  end.

(** [SessionBook::close]. *)
Definition close (mgr : RedisLockManager) (book : SessionBook) (token : string) : M R (Z * SessionBook) :=
  let '(ls, book) := remove book token in
  let* n := release_bound mgr ls in
  ret (n mod 2 ^ 32, book).

(** [SessionBook::sweep_once], first part: the expired sessions, in the
    order the map is iterated. *)
Definition sweep_collect (order : list string) (book : SessionBook) : M R (list string) :=
  let* now := instant_now in
  ret (filter (fun t => silent book now t = true) order).

(** Second part, for one of them: another call may have closed it. *)
Definition sweep_token (mgr : RedisLockManager) (book : SessionBook) (token : string) : M R SessionBook :=
  match book !! token with
  | None => ret book
  | Some _ =>
      let '(ls, book) := remove book token in
      let* _n := release_bound mgr ls in
      ret book
  end.

Fixpoint sweep_tokens (mgr : RedisLockManager) (book : SessionBook) (tokens : list string)
    {struct tokens} : M R SessionBook :=
  match tokens with
  | [] => ret book
  | token :: tokens =>
      let* book := sweep_token mgr book token in
      sweep_tokens mgr book tokens
  end.

(** The whole sweep, with no other call in between. *)
Definition sweep_once (mgr : RedisLockManager) (order : list string) (book : SessionBook) : M R SessionBook :=
  let* tokens := sweep_collect order book in
  sweep_tokens mgr book tokens.

(** One turn of [spawn_sweeper]. *)
Definition sweeper_round (mgr : RedisLockManager) (order : SessionBook -> list string) (book : SessionBook) :
    M R SessionBook :=
  do* sleep SWEEP_INTERVAL in
  sweep_once mgr (order book) book.
End sessions.

(** ** The locks of a session *)

(** The leases after unlocking with each of [ls]. *)
Definition unlocked (ls : list (string * string)) (L : string -> lease) (k : string) : lease :=
  match l_holder (L k) with
  | Some (tok, _) => if bool_decide ((k, tok) ∈ ls) then lease_free (L k) else L k
  | None => L k
  end.

Lemma unlocked_nil L k : unlocked [] L k = L k.
Proof. unfold unlocked. by destruct (l_holder (L k)) as [[tok dl]|]. Qed.

Lemma unlocked_cons key tok ls L k :
  unlocked ls (<[key := (lease_release tok (L key)).2]> L) k = unlocked ((key, tok) :: ls) L k.
Proof.
  unfold unlocked, lease_release, holds. destruct (decide (key = k)) as [<-|Hne].
  - rewrite fn_lookup_insert. destruct (l_holder (L key)) as [[t dl]|] eqn:E; cbn [snd]; [|by rewrite E].
    destruct (String.eqb_spec t tok) as [->|Hn]; cbn [snd].
    + cbn. rewrite bool_decide_eq_true_2 by set_solver. done.
    + rewrite E. assert (((key, t) ∈ ls) <-> ((key, t) ∈ (key, tok) :: ls)) as Hi by set_solver.
      by rewrite (bool_decide_ext _ _ Hi).
  - rewrite fn_lookup_insert_ne by done. destruct (l_holder (L k)) as [[t dl]|]; [|done].
    assert (((k, t) ∈ ls) <-> ((k, t) ∈ (key, tok) :: ls)) as Hi by set_solver.
    by rewrite (bool_decide_ext _ _ Hi).
Qed.

Lemma unlocked_app ls1 ls2 L k : unlocked ls2 (unlocked ls1 L) k = unlocked (ls1 ++ ls2) L k.
Proof.
  unfold unlocked. destruct (l_holder (L k)) as [[t dl]|] eqn:E; [|by rewrite E].
  assert (bool_decide ((k, t) ∈ ls1 ++ ls2) = bool_decide ((k, t) ∈ ls1) || bool_decide ((k, t) ∈ ls2)) as ->.
  { rewrite <- bool_decide_or. apply bool_decide_ext. apply elem_of_app. }
  destruct (bool_decide ((k, t) ∈ ls1)); [done|]. by rewrite E.
Qed.

Section calm.
Context {U : UuidSource} {R : Type} `{RedisLaws R}.
Variables (mgr : RedisLockManager) (keys : list string).
Hypothesis Hsep : separate keys.
Abbreviation on_server L w := (views (R:=R) mgr keys L w).

Lemma views_ext L L' w : (forall k, L k = L' k) -> on_server L w -> on_server L' w.
Proof. intros E V k Hk. rewrite <- E. by apply V. Qed.

Lemma unlock_calm L w key tok : calm w -> on_server L w -> key ∈ keys ->
  exists w', unlock_with_token mgr key tok w = (Done (Ok (holds tok (L key))), w') /\ calm w' /\
    on_server (<[key := (lease_release tok (L key)).2]> L) w' /\ w_flags w' = w_flags w /\ w_uuids w' = w_uuids w.
Proof.
  intros C V Hin. pose proof C as [B E]. pose proof (V _ Hin) as Vk.
  destruct (int_exchange w (mgr_conn mgr) key (LRelease tok) (L key) RELEASE [key; fence_key_for key] [tok])
    as (w' & Er & V' & F & _ & B' & St & S & _ & Hu); [done|done|by rewrite calm_servers|exact I|].
  rewrite calm_step, calm_servers in * by done. cbn [st_fate quiet lease_after lease_op] in *.
  unfold unlock_with_token, try_, backend. unfold bind at 1 2. rewrite Er. unfold ret at 1.
  exists w'. split; [unfold lease_release; by destruct (holds tok (L key))|].
  split; [split; [done|by rewrite St, E]|]. split; [by eapply views_update|by split].
Qed.

Lemma release_bound_calm ls : forall L w, calm w -> on_server L w -> (forall p, p ∈ ls -> p.1 ∈ keys) ->
  exists w', release_bound mgr ls w = (Done (Z.of_nat (length ls)), w') /\ calm w' /\ on_server (unlocked ls L) w'.
Proof.
  induction ls as [|[key tok] ls IH]; intros L w C V Hk.
  { exists w. split; [done|]. split; [done|]. eapply views_ext; [|exact V]. intros k. by rewrite unlocked_nil. }
  destruct (unlock_calm L w key tok C V) as (w1 & E1 & C1 & V1 & _); [apply (Hk (key, tok)); set_solver|].
  destruct (IH _ w1 C1 V1) as (w2 & E2 & C2 & V2); [set_solver|].
  exists w2. cbn [release_bound]. rewrite (bind_done _ _ _ _ _ E1), (bind_done _ _ _ _ _ E2).
  split; [unfold ret; cbn [is_ok length]; do 2 f_equal; lia|]. split; [done|].
  eapply views_ext; [|exact V2]. intros k. apply unlocked_cons.
Qed.

(** What the tokens of a sweep have bound. *)
Definition bound_by (book : SessionBook) (tokens : list string) : list (string * string) :=
  tokens ≫= (fun t => match book !! t with Some e => locks e | None => [] end).

Definition without (tokens : list string) (book : SessionBook) : SessionBook := foldr delete book tokens.

Lemma without_lookup tokens book t : without tokens book !! t = if decide (t ∈ tokens) then None else book !! t.
Proof.
  unfold without. case_decide as Ht.
  - by apply lookup_foldr_delete.
  - by apply lookup_foldr_delete_not_elem_of.
Qed.

Lemma sweep_tokens_calm tokens : forall book L w, calm w -> on_server L w -> NoDup tokens ->
  (forall p, p ∈ bound_by book tokens -> p.1 ∈ keys) ->
  exists book' w', sweep_tokens mgr book tokens w = (Done book', w') /\ calm w' /\
    on_server (unlocked (bound_by book tokens) L) w' /\
    forall t, book' !! t = if decide (t ∈ tokens) then None else book !! t.
Proof.
  induction tokens as [|token tokens IH]; intros book L w C V N Hk.
  { exists book, w. split_and!; [done..| |done]. eapply views_ext; [|exact V]. intros k. by rewrite unlocked_nil. }
  apply NoDup_cons in N. destruct N as [N1 N].
  set (ls := match book !! token with Some e => locks e | None => [] end).
  assert (bound_by book (token :: tokens) = ls ++ bound_by book tokens) as Eb by done.
  assert (exists w1, sweep_token mgr book token w = (Done (delete token book), w1) /\ calm w1 /\
            on_server (unlocked ls L) w1) as (w1 & E1 & C1 & V1).
  { unfold sweep_token, remove. fold ls. destruct (book !! token) as [e|] eqn:Et.
    - destruct (release_bound_calm ls L w C V) as (w1 & E1 & C1 & V1); [rewrite Eb in Hk; set_solver|].
      rewrite (bind_done _ _ _ _ _ E1). by exists w1.
    - exists w. rewrite delete_id by done. split_and!; [done..|]. eapply views_ext; [|exact V].
      intros k. unfold ls. by rewrite unlocked_nil. }
  assert (bound_by (delete token book) tokens = bound_by book tokens) as Ed.
  { unfold bound_by. clear -N1. induction tokens as [|t tokens IH]; [done|]. cbn.
    rewrite not_elem_of_cons in N1. destruct N1. rewrite lookup_delete_ne by done. f_equal. by apply IH. }
  destruct (IH (delete token book) _ w1 C1 V1 N) as (book' & w2 & E2 & C2 & V2 & Hb).
  { rewrite Ed. rewrite Eb in Hk. set_solver. }
  exists book', w2. cbn [sweep_tokens]. rewrite (bind_done _ _ _ _ _ E1). split_and!; [done..| |].
  - rewrite Ed in V2. eapply views_ext; [|exact V2]. intros k. rewrite Eb. apply unlocked_app.
  - intros t. rewrite Hb. destruct (decide (t = token)) as [->|Hne].
    + rewrite lookup_delete_eq. rewrite (decide_True (P := token ∈ token :: tokens)) by set_solver. by case_decide.
    + rewrite lookup_delete_ne by done. repeat case_decide; set_solver.
Qed.
End calm.

(** ** Properties *)

Section properties.
Context {U : UuidSource} {R : Type} `{RedisLaws R}.
Implicit Types (w : world R) (book : SessionBook).

(** [k] is held with a token that an expired session has bound to it. *)
Definition bound_to_expired book (now : Z) (L : string -> lease) (k : string) : Prop :=
  exists t e tok dl, book !! t = Some e /\ expired now e = true /\
    l_holder (L k) = Some (tok, dl) /\ (k, tok) ∈ locks e.

(** C36: One sweep does its job: on a quiet server, whatever the order in which
    the map is iterated, exactly the expired sessions are dropped from the
    book; every lock an expired session has bound and still holds is free
    afterwards, and every other key (held by somebody else, even if an
    expired session once had it) keeps its holder and deadline. *)
Theorem sweep_correct w mgr order book keys L :
  calm w -> separate keys -> views mgr keys L w ->
  NoDup order -> (forall t, t ∈ order <-> is_Some (book !! t)) ->
  (forall t e p, book !! t = Some e -> p ∈ locks e -> p.1 ∈ keys) ->
  exists book' w', sweep_once mgr order book w = (Done book', w') /\
    (forall t, book' !! t = if silent book (w_clock w) t then None else book !! t) /\
    forall k, k ∈ keys -> exists l', view k (r_db (w_server w' (mgr_conn mgr))) l' /\
      (bound_to_expired book (w_clock w) L k -> l' = lease_free (L k)) /\
      (~ bound_to_expired book (w_clock w) L k -> l' = L k).
Proof.
  intros C Hs V N Ho Hk. set (now := w_clock w). set (tokens := filter (fun t => silent book now t = true) order).
  assert (forall t, t ∈ tokens <-> silent book now t = true) as Ht.
  { intros t. unfold tokens. rewrite list_elem_of_filter, Ho. split; [tauto|]. intros E. split; [done|].
    unfold silent in E. by destruct (book !! t). }
  assert (forall p, p ∈ bound_by book tokens <-> exists t e, book !! t = Some e /\ expired now e = true /\ p ∈ locks e)
    as Hp.
  { intros p. unfold bound_by. rewrite list_elem_of_bind. split.
    - intros (t & Hin & Hi). apply Ht in Hi. unfold silent in Hi. destruct (book !! t) as [e|] eqn:E; [|done]. by exists t, e.
    - intros (t & e & E & Hx & Hin). exists t. rewrite E. split; [done|]. apply Ht. unfold silent. by rewrite E. }
  destruct (sweep_tokens_calm mgr keys Hs tokens book L w C V) as (book' & w' & E & _ & V' & Hb).
  { by apply NoDup_filter. } { intros p Hin. apply Hp in Hin. destruct Hin as (t & e & ? & _ & ?). eauto. }
  exists book', w'. unfold sweep_once, sweep_collect. unfold bind at 1 2, instant_now, gets. unfold ret at 1.
  fold now. fold tokens. rewrite E. split; [done|]. split.
  - intros t. rewrite Hb. destruct (silent book now t) eqn:Es.
    + by rewrite decide_True by by apply Ht.
    + rewrite decide_False; [done|]. rewrite Ht, Es. done.
  - intros k Hin. exists (unlocked (bound_by book tokens) L k). split; [by apply V'|]. unfold unlocked. split.
    + intros (t & e & tok & dl & Et & Hx & Eh & Hl). rewrite Eh, bool_decide_eq_true_2; [done|]. apply Hp. eauto.
    + intros Hn. destruct (l_holder (L k)) as [[tok dl]|] eqn:Eh; [|done].
      rewrite bool_decide_eq_false_2; [done|]. intros Hl. apply Hp in Hl. destruct Hl as (t & e & ? & ? & ?).
      apply Hn. exists t, e, tok, dl. done.
Qed.

(** A heartbeat is answered [Unknown] for a token not in the book,
    [RateLimited] (changing nothing) before the session's floor, and is
    accepted otherwise; an accepted heartbeat keeps the session from expiring
    for exactly its time to live, and the next one is accepted from a
    twentieth of it on, so a client that keeps the documented cadence of a
    third is never refused. *)
Theorem heartbeat_correct w book token e :
  let now := w_clock w in
  book !! token = Some e -> 0 <= s_ttl e -> now + s_ttl e / 20 <= instant_max ->
  (forall other, book !! other = None -> heartbeat book other w = (Done (Unknown, book), w)) /\
  exists r book', heartbeat book token w = (Done (r, book'), w) /\
    (r = RateLimited <-> now < hb_floor e) /\ (r = RateLimited -> book' = book) /\
    (hb_floor e <= now -> r = HbOk /\ exists e', book' = <[token := e']> book /\
       client_id e' = client_id e /\ s_ttl e' = s_ttl e /\ locks e' = locks e /\
       (forall later, now <= later -> expired later e' = (now + s_ttl e <? later)) /\
       (forall later, now + s_ttl e / 3 <= later -> hb_floor e' <= later)).
Proof.
  intros now E Ht Hi. split.
  { intros other Eo. unfold heartbeat, bind, instant_now, gets. by rewrite Eo. }
  unfold heartbeat. unfold bind at 1, instant_now, gets. rewrite E. fold now.
  destruct (now <? hb_floor e) eqn:Hf; zbool.
  { do 2 eexists. split; [reflexivity|]. split; [by split|]. split; [done|]. lia. }
  unfold bind, instant_add, instant_checked_add. rewrite (proj2 (Z.leb_le _ _) Hi). unfold ret.
  do 2 eexists. split; [reflexivity|]. split; [split; [done|lia]|]. split; [done|]. intros _. split; [done|].
  eexists. split; [reflexivity|]. cbn. split_and!; try done.
  - intros later Hl. unfold expired. cbn. apply eq_true_iff_eq. rewrite !Z.ltb_lt. lia.
  - intros later Hl. assert (s_ttl e / 20 <= s_ttl e / 3); [|lia].
    apply Z.div_le_lower_bound; [lia|]. pose proof (Z.mul_div_le (s_ttl e) 20). lia.
Qed.

(** A heartbeat that arrives while a sweep is under way is accepted and
    lost: once the sweep has found the session expired, an accepted heartbeat
    refreshes it (it is no longer expired) and the sweep still removes it and
    releases every lock it has bound. *)
Theorem heartbeat_lost_in_sweep w mgr book token e keys L :
  let now := w_clock w in
  calm w -> separate keys -> views mgr keys L w -> (forall p, p ∈ locks e -> p.1 ∈ keys) ->
  book !! token = Some e -> expired now e = true -> hb_floor e <= now -> 0 <= s_ttl e ->
  now + s_ttl e / 20 <= instant_max ->
  exists book', heartbeat book token w = (Done (HbOk, book'), w) /\ silent book' now token = false /\
    exists w', sweep_token mgr book' token w = (Done (delete token book'), w') /\
      forall k tok dl, (k, tok) ∈ locks e -> l_holder (L k) = Some (tok, dl) ->
        view k (r_db (w_server w' (mgr_conn mgr))) (lease_free (L k)).
Proof.
  intros now C Hs V Hk E Hx Hf Ht Hi. unfold heartbeat. unfold bind at 1, instant_now, gets. rewrite E. fold now.
  rewrite (proj2 (Z.ltb_ge _ _) Hf). unfold bind, instant_add, instant_checked_add.
  rewrite (proj2 (Z.leb_le _ _) Hi). unfold ret. eexists. split; [reflexivity|].
  unfold silent. rewrite lookup_insert_eq. split.
  { unfold expired. cbn. apply Z.ltb_ge. lia. }
  unfold sweep_token, remove. rewrite lookup_insert_eq. cbn [locks].
  destruct (release_bound_calm mgr keys Hs (locks e) L w C V Hk) as (w' & Er & _ & V').
  rewrite (bind_done _ _ _ _ _ Er). exists w'. split; [done|]. intros k tok dl Hin Eh.
  specialize (V' k (Hk _ Hin)). unfold unlocked in V'. rewrite Eh in V'. by rewrite bool_decide_eq_true_2 in V'.
Qed.

(** [close] removes the session and counts calls, not locks: on a quiet
    server it returns the number of locks ever bound to the session (modulo
    2^32), whether or not the session still held any of them, while it frees
    exactly those it did. *)
Theorem close_counts_bound w mgr book token e keys L :
  calm w -> separate keys -> views mgr keys L w -> book !! token = Some e ->
  (forall p, p ∈ locks e -> p.1 ∈ keys) ->
  exists w', close mgr book token w =
    (Done (Z.of_nat (length (locks e)) mod 2 ^ 32, delete token book), w') /\
    forall k, k ∈ keys -> view k (r_db (w_server w' (mgr_conn mgr)))
      (match l_holder (L k) with
       | Some (tok, _) => if bool_decide ((k, tok) ∈ locks e) then lease_free (L k) else L k
       | None => L k
       end).
Proof.
  intros C Hs V E Hk. unfold close, remove. rewrite E.
  destruct (release_bound_calm mgr keys Hs (locks e) L w C V Hk) as (w' & Er & _ & V').
  rewrite (bind_done _ _ _ _ _ Er). exists w'. split; [done|]. exact V'.
Qed.
End properties.

(** ** Witnesses *)

Definition demo_session : SessionEntry := mk_session "client" (from_secs 10) 0 0 [("job", "A"); ("job", "B")]%string.
Definition demo_book : SessionBook := {["t" := demo_session]}.
Definition demo_later : world db :=
  set_clock (from_secs 11) (demo_world demo_granted []).

Lemma demo_separate_job : separate ["job"%string].
Proof. intros k k' ->%list_elem_of_singleton ->%list_elem_of_singleton. vm_compute. discriminate. Qed.

Lemma demo_views : views (R:=db) demo_mgr ["job"%string] (fun _ => demo_held) demo_later.
Proof. intros k ->%list_elem_of_singleton. exact view_demo_held. Qed.

Lemma demo_bound p : p ∈ locks demo_session -> p.1 ∈ ["job"%string].
Proof. cbn. intros Hp. rewrite !elem_of_cons in Hp. destruct Hp as [->|[->|Hp]]; set_solver. Qed.

Lemma sweep_correct_witness : exists book' w',
  sweep_once demo_mgr ["t"%string] demo_book demo_later = (Done book', w') /\ book' !! "t"%string = None.
Proof.
  destruct (sweep_correct demo_later demo_mgr ["t"%string] demo_book ["job"%string] (fun _ => demo_held))
    as (book' & w' & E & Hb & _).
  - by split.
  - exact demo_separate_job.
  - exact demo_views.
  - apply NoDup_singleton.
  - intros t. unfold demo_book. rewrite list_elem_of_singleton. split; [intros ->; by eexists|].
    intros [e He]. apply lookup_singleton_Some in He. by destruct He as [<- _].
  - intros t e p He. unfold demo_book in He. apply lookup_singleton_Some in He. destruct He as [_ <-]. apply demo_bound.
  - exists book', w'. split; [exact E|]. rewrite Hb. reflexivity.
Defined.

Lemma heartbeat_correct_witness : exists r book',
  heartbeat demo_book "t" demo_later = (Done (r, book'), demo_later) /\ r = HbOk.
Proof.
  destruct (heartbeat_correct demo_later demo_book "t" demo_session) as (_ & r & book' & E & _ & _ & Hr);
    [reflexivity|concrete|concrete|]. exists r, book'. split; [exact E|]. apply Hr. concrete.
Defined.

Lemma heartbeat_lost_in_sweep_witness : exists book',
  heartbeat demo_book "t" demo_later = (Done (HbOk, book'), demo_later).
Proof.
  destruct (heartbeat_lost_in_sweep demo_later demo_mgr demo_book "t" demo_session ["job"%string] (fun _ => demo_held))
    as (book' & E & _);
    [by split|exact demo_separate_job|exact demo_views|exact demo_bound|reflexivity|reflexivity|concrete|concrete|concrete|].
  exists book'. exact E.
Defined.

Lemma close_counts_bound_witness : exists w',
  close demo_mgr demo_book "t" demo_later = (Done (2, delete "t"%string demo_book), w').
Proof.
  destruct (close_counts_bound demo_later demo_mgr demo_book "t" demo_session ["job"%string] (fun _ => demo_held))
    as (w' & E & _); [by split|exact demo_separate_job|exact demo_views|reflexivity|exact demo_bound|].
  exists w'. exact E.
Defined.
