(* ===== verification/WatchHub.v ===== *)
(** * The watch hub ([crates/server/src/watch_hub.rs])

    One poller per key publishes its state to any number of subscribers over
    a [tokio] watch channel; each subscriber has a task that forwards
    transitions to a bounded queue.  The hub is a step relation over the
    pollers, the forwarding tasks and the clients.  The theorems: subscribers
    never lose their poller and there is one per key; what a subscriber sees
    is, in order, what was published, and the latest state once it has
    caught up; a subscriber that left is only noticed at the next transition. *)

From S2P Require Import Prelude.

Definition SUBSCRIBER_DEPTH : nat := 16.

(** [lock_event::Event]. *)
Inductive LockEvent := Acquired (version : Z) | Freed (version : Z).

#[global] Instance LockEvent_eq_dec : EqDecision LockEvent.
Proof. solve_decision. Defined.
Definition transition_event (held : bool) (version : Z) : LockEvent :=
  if held then Acquired version else Freed version.
Definition event_of (s : bool * Z) : LockEvent := transition_event s.1 s.2.

(** A [VersionBroadcast] with its poller.  [ch_log] is every state it was
    sent; the watch channel keeps the last one and how many there were. *)
Record channel := mk_channel { ch_key : string; ch_log : list (bool * Z); ch_poller : bool }.
Definition ch_value (c : channel) : option (bool * Z) := last (ch_log c).
Definition ch_version (c : channel) : nat := length (ch_log c).

(** Where a subscriber's task is: about to read the channel, in
    [event_tx.send(..).await], in [rx.changed().await], or returned. *)
Inductive phase := Looking | Sending (e : LockEvent) | Waiting | Gone.
#[global] Instance phase_eq_dec : EqDecision phase.
Proof. solve_decision. Defined.

(** A subscriber: its receiver's channel and the version it has seen, the
    queue to the client, whether the client still listens; [su_sent] is
    every event put in the queue. *)
Record subscriber := mk_sub {
  su_chan : nat;
  su_seen : nat;
  su_phase : phase;
  su_queue : list LockEvent;
  su_open : bool;
  su_sent : list LockEvent;
}.

(** [HubInner], with every channel and task ever made. *)
Record hub := mk_hub {
  hub_keys : gmap string nat;
  hub_channels : list channel;
  hub_subs : list subscriber;
}.

Definition hub_new : hub := mk_hub ∅ [] [].

(** [Sender::receiver_count]: a task holds its receiver until it returns. *)
Definition live_on (c : nat) (s : subscriber) : Prop := su_chan s = c /\ su_phase s <> Gone.
#[global] Instance live_on_dec c s : Decision (live_on c s).
Proof. unfold live_on. apply _. Defined.
Definition receiver_count (h : hub) (c : nat) : nat := length (filter (live_on c) (hub_subs h)).

Definition new_sub (c seen : nat) : subscriber := mk_sub c seen Looking [] true [].

(** [WatchHub::subscribe]. *)
Definition subscribe (key : string) (h : hub) : hub :=
  match hub_keys h !! key with
  | Some c =>
      let seen := match hub_channels h !! c with Some ch => ch_version ch | None => 0%nat end in
      mk_hub (hub_keys h) (hub_channels h) (hub_subs h ++ [new_sub c seen])
  | None =>
      let c := length (hub_channels h) in
      mk_hub (<[key := c]> (hub_keys h)) (hub_channels h ++ [mk_channel key [] true])
        (hub_subs h ++ [new_sub c 0])
  end.

(** The poller's check at the top of its loop: with no receiver left it
    removes the key and returns. *)
Definition may_retire (h : hub) (c : nat) (ch : channel) : bool :=
  (receiver_count h c =? 0)%nat && bool_decide (hub_keys h !! ch_key ch = Some c).
Definition retire (c : nat) (ch : channel) (h : hub) : hub :=
  mk_hub (delete (ch_key ch) (hub_keys h)) (<[c := mk_channel (ch_key ch) (ch_log ch) false]> (hub_channels h))
    (hub_subs h).

(** [send_if_modified] with the probed state. *)
Definition publish (state : bool * Z) (ch : channel) : channel :=
  if bool_decide (ch_value ch = Some state) then ch
  else mk_channel (ch_key ch) (ch_log ch ++ [state]) (ch_poller ch).

(** [borrow_and_update] and the test for a state. *)
Definition look (ch : channel) (s : subscriber) : subscriber :=
  mk_sub (su_chan s) (ch_version ch)
    (match ch_value ch with Some (held, version) => Sending (transition_event held version) | None => Waiting end)
    (su_queue s) (su_open s) (su_sent s).

(** [event_tx.send]: fails once the client is gone, waits while the queue is full. *)
Definition send_event (e : LockEvent) (s : subscriber) : option subscriber :=
  if su_open s then
    if (length (su_queue s) <? SUBSCRIBER_DEPTH)%nat
    then Some (mk_sub (su_chan s) (su_seen s) Waiting (su_queue s ++ [e]) (su_open s) (su_sent s ++ [e]))
    else None
  else Some (mk_sub (su_chan s) (su_seen s) Gone (su_queue s) (su_open s) (su_sent s)).

(** [rx.changed()]: an error once every sender is gone. *)
Definition changed (ch : channel) (s : subscriber) : option subscriber :=
  let at_ p := mk_sub (su_chan s) (su_seen s) p (su_queue s) (su_open s) (su_sent s) in
  if (su_seen s =? ch_version ch)%nat
  then if ch_poller ch then None else Some (at_ Gone)
  else Some (at_ Looking).

(** The client reads, or goes away. *)
Definition recv (s : subscriber) : subscriber :=
  mk_sub (su_chan s) (su_seen s) (su_phase s) (tail (su_queue s)) (su_open s) (su_sent s).
Definition leave (s : subscriber) : subscriber :=
  mk_sub (su_chan s) (su_seen s) (su_phase s) (su_queue s) false (su_sent s).

Definition set_sub (i : nat) (s : subscriber) (h : hub) : hub :=
  mk_hub (hub_keys h) (hub_channels h) (<[i := s]> (hub_subs h)).
Definition set_channel (c : nat) (ch : channel) (h : hub) : hub :=
  mk_hub (hub_keys h) (<[c := ch]> (hub_channels h)) (hub_subs h).

Inductive hub_step (h : hub) : hub -> Prop :=
| hs_subscribe key : hub_step h (subscribe key h)
| hs_retire c ch : hub_channels h !! c = Some ch -> ch_poller ch = true -> may_retire h c ch = true ->
    hub_step h (retire c ch h)
| hs_publish c ch state : hub_channels h !! c = Some ch -> ch_poller ch = true ->
    hub_step h (set_channel c (publish state ch) h)
| hs_look i s ch : hub_subs h !! i = Some s -> su_phase s = Looking ->
    hub_channels h !! su_chan s = Some ch -> hub_step h (set_sub i (look ch s) h)
| hs_send i s e s' : hub_subs h !! i = Some s -> su_phase s = Sending e -> send_event e s = Some s' ->
    hub_step h (set_sub i s' h)
| hs_changed i s ch s' : hub_subs h !! i = Some s -> su_phase s = Waiting ->
    hub_channels h !! su_chan s = Some ch -> changed ch s = Some s' -> hub_step h (set_sub i s' h)
| hs_recv i s : hub_subs h !! i = Some s -> hub_step h (set_sub i (recv s) h)
| hs_leave i s : hub_subs h !! i = Some s -> hub_step h (set_sub i (leave s) h).

Definition hub_reachable : hub -> Prop := rtc hub_step hub_new.

(** ** Invariant *)

(** What a subscriber has been sent, and the event it is about to send. *)
Definition seen_events (s : subscriber) : list LockEvent :=
  su_sent s ++ match su_phase s with Sending e => [e] | _ => [] end.

(** A subscriber and its channel. *)
Record sub_ok (ch : channel) (s : subscriber) : Prop := mk_sub_ok {
  so_version : (su_seen s <= ch_version ch)%nat;
  so_order : sublist (seen_events s) (map event_of (take (su_seen s) (ch_log ch)));
  so_first : su_phase s = Looking -> su_sent s = [] \/ (su_seen s < ch_version ch)%nat;
  so_latest : su_phase s = Waiting \/ (exists e, su_phase s = Sending e) ->
    last (seen_events s) = event_of <$> last (take (su_seen s) (ch_log ch));
}.

Record hub_ok (h : hub) : Prop := mk_hub_ok {
  (** The pollers are exactly those the map knows. *)
  ho_keys : forall key c, hub_keys h !! key = Some c <->
    exists ch, hub_channels h !! c = Some ch /\ ch_key ch = key /\ ch_poller ch = true;
  (** A running task has a poller, and has seen what it should. *)
  ho_subs : forall i s, hub_subs h !! i = Some s -> exists ch, hub_channels h !! su_chan s = Some ch /\
    (su_phase s <> Gone -> ch_poller ch = true) /\ sub_ok ch s;
}.

Lemma hub_ok_new : hub_ok hub_new.
Proof.
  split.
  - intros key c. cbn. rewrite lookup_empty. split; [done|]. by intros (ch & ? & _).
  - intros i s. cbn. by rewrite lookup_nil.
Qed.

Lemma take_publish ch s state : (su_seen s <= ch_version ch)%nat ->
  take (su_seen s) (ch_log (publish state ch)) = take (su_seen s) (ch_log ch) /\
  (su_seen s <= ch_version (publish state ch))%nat /\ (ch_version ch <= ch_version (publish state ch))%nat.
Proof.
  unfold publish, ch_version. case_bool_decide; [done|]. cbn. rewrite length_app. cbn. intros Hs.
  rewrite take_app_le by done. split; [done|lia].
Qed.

Lemma sub_ok_publish ch s state : sub_ok ch s -> sub_ok (publish state ch) s.
Proof.
  intros [V O F L]. destruct (take_publish ch s state V) as (E & V' & Hv). split; [done| | |].
  - by rewrite E.
  - intros Hl. destruct (F Hl); [by left|right; lia].
  - by rewrite E.
Qed.

Lemma sublist_look (sent : list LockEvent) (log : list (bool * Z)) seen state :
  sublist sent (map event_of (take seen log)) -> sent = [] \/ (seen < length log)%nat ->
  last log = Some state -> sublist (sent ++ [event_of state]) (map event_of log).
Proof.
  intros S F E. apply last_Some in E. destruct E as [l ->]. rewrite map_app. cbn [map].
  apply sublist_app; [|done]. destruct F as [->|F]; [apply sublist_nil_l|].
  rewrite length_app in F. cbn in F. rewrite take_app_le in S by lia.
  etrans; [exact S|]. apply fmap_sublist, sublist_take.
Qed.

Lemma sub_ok_look ch s : sub_ok ch s -> su_phase s = Looking -> sub_ok ch (look ch s).
Proof.
  intros [V O F L] P. specialize (F P). unfold seen_events in O. rewrite P, app_nil_r in O.
  unfold look, seen_events. split; cbn [su_seen su_phase su_sent]; unfold ch_version, ch_value in *.
  - done.
  - rewrite take_ge by done. destruct (last (ch_log ch)) as [[held v]|] eqn:E.
    + by apply (sublist_look _ _ (su_seen s) (held, v)).
    + apply last_None in E. rewrite E, take_nil in O. cbn. by rewrite app_nil_r, E.
  - by destruct (last (ch_log ch)) as [[]|].
  - intros _. rewrite take_ge by done. destruct (last (ch_log ch)) as [[held v]|] eqn:E; [cbn; by rewrite last_snoc|].
    apply last_None in E. rewrite E in F. destruct F as [->|F]; [done|cbn in F; lia].
Qed.

Lemma sub_ok_send ch s e s' : sub_ok ch s -> su_phase s = Sending e -> send_event e s = Some s' -> sub_ok ch s'.
Proof.
  intros [V O F L] P. unfold send_event. unfold seen_events in *. rewrite P in *.
  destruct (su_open s); [destruct (_ <? _)%nat; [|done]|]; intros [= <-]; split;
    unfold seen_events; cbn [su_seen su_phase su_sent]; rewrite ?app_nil_r; try done.
  - intros _. apply L. eauto.
  - etrans; [|exact O]. apply sublist_inserts_r. done.
  - intros [|[]]; done.
Qed.

Lemma sub_ok_changed ch s s' : sub_ok ch s -> su_phase s = Waiting -> changed ch s = Some s' ->
  sub_ok ch s' /\ (su_phase s' <> Gone -> (su_seen s < ch_version ch)%nat).
Proof.
  intros [V O F L] P. unfold changed, seen_events in *. rewrite P in *.
  destruct (Nat.eqb_spec (su_seen s) (ch_version ch)) as [E|E]; [destruct (ch_poller ch); [done|]|];
    intros [= <-]; (split; [split; unfold seen_events; cbn [su_seen su_phase su_sent]; try done|cbn; done || lia]).
  - by intros [|[]].
  - intros _. right. lia.
  - by intros [|[]].
Qed.

(** Changing one subscriber. *)
Lemma hub_ok_set_sub h i s s' ch : hub_ok h -> hub_subs h !! i = Some s -> su_chan s' = su_chan s ->
  hub_channels h !! su_chan s = Some ch -> (su_phase s' <> Gone -> ch_poller ch = true) -> sub_ok ch s' ->
  hub_ok (set_sub i s' h).
Proof.
  intros [K S] Hi Hc Ec Hp Ok. split; [exact K|]. cbn. intros j t. destruct (decide (i = j)) as [<-|Hne].
  - rewrite list_lookup_insert_eq by by apply lookup_lt_Some in Hi. intros [= <-]. exists ch. by rewrite Hc.
  - rewrite list_lookup_insert_ne by done. apply S.
Qed.

Lemma hub_ok_subscribe h key : hub_ok h -> hub_ok (subscribe key h).
Proof.
  intros [K S]. unfold subscribe. destruct (hub_keys h !! key) as [c|] eqn:E.
  - destruct (proj1 (K key c) E) as (ch & Ec & Ek & Hp). rewrite Ec. split; [exact K|]. cbn.
    intros i s Hi. apply lookup_snoc_Some in Hi. destruct Hi as [[_ Hi]|[_ <-]]; [by apply (S i)|].
    exists ch. split; [done|]. split; [done|]. split; cbn; [done|apply sublist_nil_l|by left|by intros [|[]]].
  - set (c := length _). assert (forall c' ch, hub_channels h !! c' = Some ch ->
      (hub_channels h ++ [mk_channel key [] true]) !! c' = Some ch) as Hl.
    { intros c' ch Hc. by rewrite lookup_app_l by by eapply lookup_lt_Some. }
    assert ((hub_channels h ++ [mk_channel key [] true]) !! c = Some (mk_channel key [] true)) as Hn.
    { unfold c. by rewrite lookup_app_r, Nat.sub_diag by done. }
    split; cbn [hub_keys hub_channels hub_subs].
    + intros key' c'. rewrite lookup_insert_Some. split.
      * intros [[<- <-]|[Hne Hk]]; [by eexists|]. apply K in Hk. destruct Hk as (ch & ? & ?). exists ch. eauto.
      * intros (ch & Ec & Ek & Hp). apply lookup_snoc_Some in Ec. destruct Ec as [[Hlt Ec]|[-> <-]]; [|by left].
        right. assert (hub_keys h !! key' = Some c') as Hk by (apply K; eauto). split; [|done].
        intros <-. by rewrite E in Hk.
    + intros i s Hi. apply lookup_snoc_Some in Hi. destruct Hi as [[_ Hi]|[_ <-]].
      * destruct (S i s Hi) as (ch & ? & ?). exists ch. eauto.
      * exists (mk_channel key [] true). split; [done|]. split; [done|].
        split; cbn; [lia|apply sublist_nil_l|by left|by intros [|[]]].
Qed.

Lemma hub_ok_retire h c ch : hub_ok h -> hub_channels h !! c = Some ch -> ch_poller ch = true ->
  may_retire h c ch = true -> hub_ok (retire c ch h).
Proof.
  intros [K S] Ec Hp Hr. unfold may_retire in Hr. apply andb_prop in Hr. destruct Hr as [Hr Hk].
  apply bool_decide_eq_true in Hk. apply Nat.eqb_eq, nil_length_inv in Hr.
  assert (c < length (hub_channels h))%nat as Hc by by eapply lookup_lt_Some.
  split; cbn [retire hub_keys hub_channels hub_subs].
  - intros key c'. rewrite lookup_delete_Some. destruct (decide (c = c')) as [<-|Hne].
    + rewrite list_lookup_insert_eq by done. split.
      * intros [Hn Hk']. destruct (proj1 (K key c) Hk') as (ch' & E' & Ek & _). congruence.
      * intros (ch' & [= <-] & _ & ?). done.
    + rewrite list_lookup_insert_ne by done. rewrite (K key c'). split; [tauto|]. intros (ch' & E' & Ek & Hp').
      split; [|by eexists]. intros E. apply Hne. assert (hub_keys h !! key = Some c') as Hk' by (apply K; eauto).
      rewrite E in Hk. congruence.
  - intros i s Hi. destruct (S i s Hi) as (ch' & E' & Hg & Ok). destruct (decide (su_chan s = c)) as [Es|Hne].
    + rewrite Es in *. rewrite list_lookup_insert_eq by done. eexists. split; [reflexivity|].
      assert (ch' = ch) as -> by congruence. destruct Ok. split; [|by split].
      intros Hlive. exfalso. assert (s ∈ filter (live_on c) (hub_subs h)) as Hin.
      { apply list_elem_of_filter. split; [by split|]. by eapply list_elem_of_lookup_2. }
      rewrite Hr in Hin. set_solver.
    + rewrite list_lookup_insert_ne by done. eauto.
Qed.

Lemma hub_ok_publish h c ch state : hub_ok h -> hub_channels h !! c = Some ch -> ch_poller ch = true ->
  hub_ok (set_channel c (publish state ch) h).
Proof.
  intros [K S] Ec Hp. assert (c < length (hub_channels h))%nat as Hc by by eapply lookup_lt_Some.
  assert (ch_key (publish state ch) = ch_key ch /\ ch_poller (publish state ch) = ch_poller ch) as [Pk Pp].
  { unfold publish. by case_bool_decide. }
  split; cbn [set_channel hub_keys hub_channels hub_subs].
  - intros key c'. rewrite (K key c'). destruct (decide (c = c')) as [<-|Hne].
    + rewrite list_lookup_insert_eq by done. split.
      * intros (ch' & E' & ? & ?). assert (ch' = ch) as -> by congruence. eexists. by rewrite Pk, Pp.
      * intros (ch' & [= <-] & ? & ?). exists ch. by rewrite Pk, Pp in *.
    + by rewrite list_lookup_insert_ne.
  - intros i s Hi. destruct (S i s Hi) as (ch' & E' & Hg & Ok). destruct (decide (su_chan s = c)) as [Es|Hne].
    + rewrite Es in *. rewrite list_lookup_insert_eq by done. eexists. split; [reflexivity|].
      assert (ch' = ch) as -> by congruence. rewrite Pp. split; [done|by apply sub_ok_publish].
    + rewrite list_lookup_insert_ne by done. eauto.
Qed.

Lemma hub_ok_step h h' : hub_ok h -> hub_step h h' -> hub_ok h'.
Proof.
  intros Ok St. pose proof Ok as [K S]. destruct St as [key|c ch Ec Hp Hr|c ch state Ec Hp|i s ch Hi P Ec
    |i s e s' Hi P E|i s ch s' Hi P Ec E|i s Hi|i s Hi].
  - by apply hub_ok_subscribe.
  - by apply hub_ok_retire.
  - by apply hub_ok_publish.
  - destruct (S i s Hi) as (ch' & E' & Hg & Os). assert (ch' = ch) as -> by congruence.
    eapply hub_ok_set_sub; eauto; [intros _; apply Hg; by rewrite P|by apply sub_ok_look].
  - destruct (S i s Hi) as (ch' & E' & Hg & Os).
    eapply (hub_ok_set_sub h i s s' ch'); eauto; [|intros _; apply Hg; by rewrite P|by eapply sub_ok_send].
    unfold send_event in E. by repeat case_match; simplify_eq.
  - destruct (S i s Hi) as (ch' & E' & Hg & Os). assert (ch' = ch) as -> by congruence.
    eapply (hub_ok_set_sub h i s s' ch); eauto; [|intros _; apply Hg; by rewrite P|by eapply sub_ok_changed].
    unfold changed in E. by repeat case_match; simplify_eq.
  - destruct (S i s Hi) as (ch' & E' & Hg & [V O F L]). by eapply (hub_ok_set_sub h i s (recv s) ch').
  - destruct (S i s Hi) as (ch' & E' & Hg & [V O F L]). by eapply (hub_ok_set_sub h i s (leave s) ch').
Qed.

Lemma hub_ok_reachable h : hub_reachable h -> hub_ok h.
Proof.
  unfold hub_reachable. pose proof hub_ok_new as H. revert H. generalize hub_new.
  intros h0 H Hr. induction Hr; eauto using hub_ok_step.
Qed.

(** ** A departed subscriber *)

(** Subscriber [i] of channel [c] has left while its task waits for the next
    transition after the [n]-th. *)
Definition departed (i c n : nat) (h : hub) : Prop := exists s ch,
  hub_subs h !! i = Some s /\ su_chan s = c /\ su_open s = false /\ su_phase s = Waiting /\ su_seen s = n /\
  hub_channels h !! c = Some ch /\ ch_version ch = n.

Definition moved_on (c n : nat) (h : hub) : Prop := exists ch,
  hub_channels h !! c = Some ch /\ (n < ch_version ch)%nat.

Lemma publish_version state ch : ch_version (publish state ch) = ch_version ch \/
  ch_version (publish state ch) = S (ch_version ch).
Proof. unfold publish, ch_version. case_bool_decide; [by left|]. right. cbn. rewrite length_app. cbn. lia. Qed.

(** No step takes transitions back. *)
Lemma channel_grows h h' c ch : hub_step h h' -> hub_channels h !! c = Some ch ->
  exists ch', hub_channels h' !! c = Some ch' /\ (ch_version ch <= ch_version ch')%nat.
Proof.
  intros St E. pose proof (lookup_lt_Some _ _ _ E) as Hlt.
  destruct St as [key|c' ch' Ec _ _|c' ch' state Ec _| | | | |]; try (exists ch; by split).
  - unfold subscribe. destruct (hub_keys h !! key); [by exists ch|]. exists ch. cbn.
    by rewrite lookup_app_l.
  - cbn. destruct (decide (c' = c)) as [->|]; [|rewrite list_lookup_insert_ne by done; by exists ch].
    rewrite list_lookup_insert_eq by done. assert (ch' = ch) as -> by congruence. by eexists.
  - cbn. destruct (decide (c' = c)) as [->|]; [|rewrite list_lookup_insert_ne by done; by exists ch].
    rewrite list_lookup_insert_eq by done. assert (ch' = ch) as -> by congruence. eexists. split; [done|].
    destruct (publish_version state ch); lia.
Qed.

(** A step that does not publish a transition does not wake the task. *)
Lemma departed_sub h h' i c n s : hub_ok h -> hub_step h h' -> hub_subs h !! i = Some s -> su_chan s = c ->
  su_open s = false -> su_phase s = Waiting -> su_seen s = n ->
  (exists ch, hub_channels h !! c = Some ch /\ ch_version ch = n) ->
  exists s', hub_subs h' !! i = Some s' /\ su_chan s' = c /\ su_open s' = false /\ su_phase s' = Waiting /\ su_seen s' = n.
Proof.
  intros Ok St Ei Hc Ho Hp Hn (ch & Ec & Ev). pose proof (lookup_lt_Some _ _ _ Ei) as Hlt.
  assert (ch_poller ch = true) as Hpo.
  { destruct (ho_subs _ Ok i s Ei) as (ch' & E' & Hg & _). assert (ch' = ch) as -> by congruence. apply Hg. by rewrite Hp. }
  destruct St as [key|c' ch' Ec' Hp' Hr|c' ch' state Ec' Hp'|j t ch' Ej Pj Ecj|j t e t' Ej Pj E
    |j t ch' t' Ej Pj Ecj E|j t Ej|j t Ej]; try (exists s; by split_and!);
    try (cbn; destruct (decide (j = i)) as [->|Hne];
      [rewrite list_lookup_insert_eq by done; assert (t = s) as -> by congruence|
       rewrite list_lookup_insert_ne by done; exists s; by split_and!]).
  - exists s. split_and!; try done. unfold subscribe. destruct (hub_keys h !! key); cbn; by rewrite lookup_app_l.
  - congruence.
  - congruence.
  - assert (ch' = ch) as -> by congruence. unfold changed in E.
    rewrite (proj2 (Nat.eqb_eq _ _)) in E by congruence. by rewrite Hpo in E.
  - eexists. by split_and!.
  - eexists. by split_and!.
Qed.

Lemma departed_step h h' i c n : hub_ok h -> hub_step h h' -> departed i c n h ->
  departed i c n h' \/ moved_on c n h'.
Proof.
  intros Ok St (s & ch & Ei & Hc & Ho & Hp & Hn & Ec & Ev).
  destruct (departed_sub h h' i c n s Ok St Ei Hc Ho Hp Hn ltac:(eauto)) as (s' & ? & ? & ? & ? & ?).
  destruct (channel_grows _ _ _ _ St Ec) as (ch' & Ec' & Hv).
  destruct (decide (ch_version ch' = n)) as [E|E]; [left; by exists s', ch'|right; exists ch'; split; [done|lia]].
Qed.

Lemma departed_steps h h' i c n : rtc hub_step h h' -> hub_ok h -> departed i c n h \/ moved_on c n h ->
  departed i c n h' \/ moved_on c n h'.
Proof.
  induction 1 as [h|h h1 h2 St _ IH]; [done|]. intros Ok D. apply IH; [by eapply hub_ok_step|].
  destruct D as [D|(ch & Ec & Hv)]; [by eapply departed_step|]. right.
  destruct (channel_grows _ _ _ _ St Ec) as (ch' & ? & ?). exists ch'. split; [done|lia].
Qed.

(** ** Properties *)

(** Polling cost is one poller per key, and nobody watches in vain: in every
    state the hub can reach, two running pollers have different keys, and
    the channel of every subscriber whose task is still running has a running
    poller, the one the map knows for its key, so a racing retirement never
    orphans a subscriber. *)
Theorem watch_one_poller h : hub_reachable h ->
  (forall c c' ch ch', hub_channels h !! c = Some ch -> hub_channels h !! c' = Some ch' ->
     ch_poller ch = true -> ch_poller ch' = true -> ch_key ch = ch_key ch' -> c = c') /\
  forall i s, hub_subs h !! i = Some s -> su_phase s <> Gone ->
    exists ch, hub_channels h !! su_chan s = Some ch /\ ch_poller ch = true /\
               hub_keys h !! ch_key ch = Some (su_chan s).
Proof.
  intros Hr. destruct (hub_ok_reachable h Hr) as [K S]. split.
  - intros c c' ch ch' E E' P P' Ek.
    assert (hub_keys h !! ch_key ch = Some c) as H1 by (apply K; eauto).
    assert (hub_keys h !! ch_key ch' = Some c') as H2 by (apply K; eauto). congruence.
  - intros i s Hi P. destruct (S i s Hi) as (ch & E & Hg & _). exists ch. split_and!; [done|auto|]. apply K. eauto.
Qed.

(** Watch streams are faithful: the events a subscriber was sent are, in
    order, transitions its key's poller published (some may be skipped, none
    invented or reordered), and a subscriber that has caught up was last
    sent the current state. *)
Theorem watch_events_faithful h i s : hub_reachable h -> hub_subs h !! i = Some s ->
  exists ch, hub_channels h !! su_chan s = Some ch /\
    sublist (su_sent s) (map event_of (ch_log ch)) /\
    (su_phase s = Waiting -> su_seen s = ch_version ch -> last (su_sent s) = event_of <$> ch_value ch).
Proof.
  intros Hr Hi. destruct (ho_subs _ (hub_ok_reachable h Hr) i s Hi) as (ch & E & _ & [V O F L]).
  exists ch. split; [done|]. split.
  - etrans; [|apply fmap_sublist, sublist_take]. etrans; [|exact O]. unfold seen_events. by apply sublist_inserts_r.
  - intros P Hs. specialize (L (or_introl P)). unfold seen_events in L. rewrite P, app_nil_r in L.
    rewrite L, Hs. unfold ch_version, ch_value. by rewrite take_ge.
Qed.

(** A departure goes unnoticed until the next transition: once a subscriber
    has left while its task waits, then whatever happens for as long as the
    key's state does not change, its task keeps its receiver, the key's
    poller keeps running and may not retire. *)
Theorem watch_departure_unnoticed h h' i c n ch' :
  hub_reachable h -> departed i c n h -> rtc hub_step h h' ->
  hub_channels h' !! c = Some ch' -> ch_version ch' = n ->
  departed i c n h' /\ ch_poller ch' = true /\ may_retire h' c ch' = false.
Proof.
  intros Hr D Hs Ec Ev.
  assert (departed i c n h') as D'.
  { destruct (departed_steps _ _ _ _ _ Hs (hub_ok_reachable h Hr) (or_introl D)) as [?|(ch & E & Hv)]; [done|].
    assert (ch = ch') as -> by congruence. lia. }
  split; [done|]. destruct D' as (s & ch & Ei & Hc & Ho & Hp & Hn & Ec' & _).
  assert (hub_ok h') as Ok by (apply hub_ok_reachable; unfold hub_reachable in *; by etrans).
  destruct (ho_subs _ Ok i s Ei) as (ch2 & E2 & Hg & _). rewrite Hc in E2. assert (ch2 = ch') as -> by congruence.
  split; [apply Hg; by rewrite Hp|]. unfold may_retire, receiver_count. apply andb_false_intro1, Nat.eqb_neq.
  intros Hl. apply nil_length_inv in Hl. assert (s ∈ filter (live_on c) (hub_subs h')) as Hin.
  { apply list_elem_of_filter. split; [split; [done|by rewrite Hp]|]. by eapply list_elem_of_lookup_2. }
  rewrite Hl in Hin. set_solver.
Qed.

(** ** Witnesses *)

Definition demo_ch : channel := mk_channel "job" [] true.
Definition demo_ch1 : channel := mk_channel "job" [(true, 1)] true.
Definition demo_sub : subscriber := new_sub 0 0.
Definition demo_hub0 : hub := subscribe "job" hub_new.
Definition demo_hub1 : hub := set_channel 0 demo_ch1 demo_hub0.
Definition demo_sub2 : subscriber := mk_sub 0 1 (Sending (Acquired 1)) [] true [].
Definition demo_sub3 : subscriber := mk_sub 0 1 Waiting [Acquired 1] true [Acquired 1].
Definition demo_hub3 : hub := set_sub 0 demo_sub3 (set_sub 0 demo_sub2 demo_hub1).
Definition demo_hub4 : hub := set_sub 0 (leave demo_sub3) demo_hub3.

Lemma demo_hub_reachable : hub_reachable demo_hub3.
Proof.
  eapply rtc_l; [apply (hs_subscribe hub_new "job")|].
  eapply rtc_l; [exact (hs_publish demo_hub0 0 demo_ch (true, 1) eq_refl eq_refl)|].
  eapply rtc_l; [exact (hs_look demo_hub1 0 demo_sub demo_ch1 eq_refl eq_refl eq_refl)|].
  eapply rtc_l; [exact (hs_send (set_sub 0 demo_sub2 demo_hub1) 0 demo_sub2 (Acquired 1) demo_sub3 eq_refl eq_refl eq_refl)|].
  apply rtc_refl.
Qed.

Lemma demo_hub4_reachable : hub_reachable demo_hub4.
Proof. eapply rtc_r; [exact demo_hub_reachable|]. exact (hs_leave demo_hub3 0 demo_sub3 eq_refl). Qed.

Lemma watch_one_poller_witness : exists ch, hub_channels demo_hub3 !! 0%nat = Some ch /\ ch_poller ch = true.
Proof.
  destruct (proj2 (watch_one_poller demo_hub3 demo_hub_reachable) 0%nat demo_sub3 eq_refl ltac:(discriminate))
    as (ch & E & P & _). exists ch. split; [exact E|exact P].
Defined.

Lemma watch_events_faithful_witness : last (su_sent demo_sub3) = Some (Acquired 1).
Proof.
  destruct (watch_events_faithful demo_hub3 0%nat demo_sub3 demo_hub_reachable eq_refl) as (ch & E & _ & L).
  injection E as <-. exact (L eq_refl eq_refl).
Defined.

Lemma watch_departure_unnoticed_witness : may_retire demo_hub4 0 demo_ch1 = false.
Proof.
  refine (proj2 (proj2 (watch_departure_unnoticed demo_hub4 demo_hub4 0 0 1 demo_ch1 demo_hub4_reachable _
    (rtc_refl _ _) eq_refl eq_refl))).
  exists (leave demo_sub3), demo_ch1. repeat split.
Defined.
