(* ===== verification/Service.v ===== *)
(** * The gRPC service ([crates/server/src/service.rs])

    The handlers that put authorization, the sessions, the held registry, the
    watch hub and the single-instance mutex together.  The state the handlers
    share is a [svc], and a schedule says what the others did to it before
    each access a handler makes.  Theorems about the handlers are in
    [ServiceSafety]. *)

From S2P Require Import Prelude Core Redis Scripts World Lease Single Scan Multi Registry Auth Sessions WatchHub Handlers.

(** ** Messages ([palisade.v1.proto]) *)

Record LockOptionsPb := mk_options_pb { pb_ttl_ms : Z; pb_watchdog : option bool }.

Inductive LockOutcome :=
| OGranted (token : string) (fencing_token ttl_ms : Z)
| OHeld (key : string)
| OTimedOut (key : string).

Inductive request :=
| TryLock (key : string) (options : option LockOptionsPb) (session : string)
| TryLockFor (key : string) (options : option LockOptionsPb) (wait_ms : Z) (session : string)
| Unlock (key token : string)
| Extend (key token : string) (ttl_ms : Z)
| Watch (key : string)
| RegisterSession (client_id : string) (ttl_ms : Z)
| Heartbeat (session_token : string)
| CloseSession (session_token : string)
| DescribeKey (key : string)
| UnlockForce (key : string)
| ListLocks (prefix : string).

Inductive response :=
| RLock (o : LockOutcome)
| RUnlocked (released : bool)                 (* Released, or Lost with fence 0 *)
| RExtended (extended : bool)                 (* Extended, or Lost with fence 0 *)
| RStream (stream : nat)
| RSession (session_token : string) (ttl_ms : Z)
| RHeartbeat
| RClosed (released_locks : Z)
| RKey (held : bool) (version ttl_ms : Z)
| RForced (released : bool)
| RList (prefix : string).

(** ** The service *)

Record ServiceConfig := mk_service_config { sc_default_ttl : duration; max_ttl : duration }.
Definition default_service_config : ServiceConfig := mk_service_config (from_secs 30) (from_secs 600).

(** What the handlers only read. *)
Record PalisadeService := mk_service {
  ps_manager : RedisLockManager;
  ps_config : ServiceConfig;
  ps_acl : Acl;
}.

(** The forwarder of a [watch] call: its guard, its hub subscription, the
    events in the channel to the client; [fw_live] until its task returns. *)
Record forwarder := mk_forwarder {
  fw_guard : WatcherGuard;
  fw_sub : nat;
  fw_queue : list LockEvent;
  fw_live : bool;
}.

(** What they share: the readiness flag, the session book, the registry, the
    atomic counters of the principals, the hub and the watch streams. *)
Record svc := mk_svc {
  sv_ready : bool;
  sv_sessions : SessionBook;
  sv_registry : HeldRegistry;
  sv_counters : store;
  sv_hub : hub;
  sv_streams : list forwarder;
}.

(** [PalisadeService::new] and [with_acl]. *)
Definition service_new (manager : RedisLockManager) (config : ServiceConfig) : PalisadeService * svc :=
  (mk_service manager config open_acl, mk_svc true ∅ registry_new [] hub_new []).
Definition with_acl (acl : Acl) (ps : PalisadeService) : PalisadeService :=
  mk_service (ps_manager ps) (ps_config ps) acl.

Section setters.
Definition set_ready (ready : bool) (s : svc) : svc :=
  mk_svc ready (sv_sessions s) (sv_registry s) (sv_counters s) (sv_hub s) (sv_streams s).
Definition set_sessions (b : SessionBook) (s : svc) : svc :=
  mk_svc (sv_ready s) b (sv_registry s) (sv_counters s) (sv_hub s) (sv_streams s).
Definition set_registry (r : HeldRegistry) (s : svc) : svc :=
  mk_svc (sv_ready s) (sv_sessions s) r (sv_counters s) (sv_hub s) (sv_streams s).
Definition set_counters (c : store) (s : svc) : svc :=
  mk_svc (sv_ready s) (sv_sessions s) (sv_registry s) c (sv_hub s) (sv_streams s).
Definition set_hub (h : hub) (s : svc) : svc :=
  mk_svc (sv_ready s) (sv_sessions s) (sv_registry s) (sv_counters s) h (sv_streams s).
Definition set_streams (l : list forwarder) (s : svc) : svc :=
  mk_svc (sv_ready s) (sv_sessions s) (sv_registry s) (sv_counters s) (sv_hub s) l.
End setters.

(** ** Handlers *)

Abbreviation shared := (shared_state svc).
Abbreviation HM R A := (SM svc R A).

(** [options_from_pb]. *)
Definition options_from_pb (pb : option LockOptionsPb) (config : ServiceConfig) : res Status LockOptions :=
  let t := default (sc_default_ttl config)
             (pb ≫= fun o => if pb_ttl_ms o =? 0 then None else Some (from_millis (pb_ttl_ms o))) in
  if max_ttl config <? t then Err InvalidArgument else
  let opts := with_ttl t default_options in
  Ok (match pb ≫= pb_watchdog with Some wd => with_watchdog wd opts | None => opts end).

Section handlers.
Context {U : UuidSource} {R : Type} `{RedisScan R}.
(** The iteration order of [HashMap::values]. *)
Variable values : gmap string Principal -> list Principal.
Variable ps : PalisadeService.
Open Scope handler_scope.

(** Accesses to the parts of the state. *)
Definition on_sessions {A} (f : SessionBook -> M R (A * SessionBook)) : HM R A :=
  haccess (fun s => bind (f (sv_sessions s)) (fun r => ret (r.1, set_sessions r.2 s))).
Definition on_registry {A} (f : HeldRegistry -> A * HeldRegistry) : HM R A :=
  hstate (fun s => let '(a, r) := f (sv_registry s) in (a, set_registry r s)).
Definition on_counters {A} (f : store -> A * store) : HM R A :=
  hstate (fun s => let '(a, c) := f (sv_counters s) in (a, set_counters c s)).

(** [PalisadeService::principal]: the [authorization] header only. *)
Definition principal (bearer : option string) : HM R (res Status Principal) :=
  on_counters (resolve values (ps_acl ps) bearer).

Definition check_ready : HM R (res Status unit) :=
  hstate (fun s => (if sv_ready s then Ok tt else Err Unavailable, s)).

(** [self.registry.try_acquire(..)] and [release(..)]: the latter locks twice. *)
Definition register_holder (key : string) (p : Principal) : HM R bool :=
  on_registry (Registry.try_acquire key (p_name p) (Z.to_nat (max_keys (p_cfg p)))).
Definition free_holder (key : string) : HM R (option string) :=
  let^ owner := on_registry (release_holder key) in
  match owner with
  | Some owner => on_registry (release_count owner)
  | None => hret None
  end.

(** [check_lock]: its load of a counter; [check_watch]: its increment, and
    the decrement of a refusal. *)
Definition lock_allowed (p : Principal) (key : string) : HM R (res Status unit) :=
  on_counters (fun c => (check_lock p key c, c)).
Definition watch_slot (p : Principal) (key : string) : HM R (res Status WatcherGuard) :=
  try^ _u := hret (may p key (can_watch (p_cfg p))) in
  let^ prev := on_counters (fetch_add (watchers p)) in
  if over (max_watchers (p_cfg p)) prev
  then do^ on_counters (fetch_sub (watchers p)) in hret (Err ResourceExhausted)
  else hret (Ok (mk_guard (watchers p))).
Definition return_slot (g : WatcherGuard) : HM R unit := on_counters (fun c => (tt, drop_guard g c)).

(** Undo a grant: [let _ = h.release().await] and the handle goes away. *)
Definition undo (h : HandleShared) (e : Status) : HM R (res Status LockOutcome) :=
  do^ hrun (release h) in
  do^ hrun (drop true h) in
  hret (Err e).

(** The branch [Ok(h)] of [try_lock] and [try_lock_for]. *)
Definition settle (p : Principal) (key session : string) (opts : LockOptions) (h : HandleShared) :
    HM R (res Status LockOutcome) :=
  let^ bound := if String.eqb session "" then hret true
                else on_sessions (fun b => bind_lock b session key (owner_token (h_owner h))) in
  if negb bound then undo h NotFound else
  let^ admitted := register_holder key p in
  if negb admitted then undo h ResourceExhausted else
  do^ hrun (disarm h) in
  do^ hrun (drop true h) in
  hret (Ok (OGranted (owner_token (h_owner h)) (value (h_fence h)) (as_millis_u64 (ttl opts)))).

(** [LockService::try_lock]. *)
Definition service_try_lock (bearer : option string) (key : string) (pb : option LockOptionsPb)
    (session : string) : HM R (res Status LockOutcome) :=
  try^ _u := check_ready in
  try^ p := principal bearer in
  try^ opts := hret (options_from_pb pb (ps_config ps)) in
  try^ _u := lock_allowed p key in
  let^ r := hrun (try_lock_with (ps_manager ps) key opts) in
  match r with
  | Ok h => settle p key session opts h
  | Err (Held _) => hret (Ok (OHeld key))
  | Err _ => hret (Err Internal)
  end.

(** [LockService::try_lock_for]. *)
Definition service_try_lock_for (fuel : nat) (bearer : option string) (key : string)
    (pb : option LockOptionsPb) (wait_ms : Z) (session : string) : HM R (res Status LockOutcome) :=
  try^ _u := check_ready in
  try^ p := principal bearer in
  try^ opts := hret (options_from_pb pb (ps_config ps)) in
  try^ _u := lock_allowed p key in
  let^ r := hrun (try_lock_for fuel (ps_manager ps) key opts (from_millis wait_ms)) in
  match r with
  | Ok h => settle p key session opts h
  | Err (Held _) => hret (Ok (OHeld key))
  | Err (Timeout _) => hret (Ok (OTimedOut key))
  | Err _ => hret (Err Internal)
  end.

(** [map_err(|e| Status::internal(..))]. *)
Definition internal {A} (m : HM R (res error A)) : HM R (res Status A) :=
  let^ r := m in hret (res_map_err (fun _ => Internal) r).

(** [LockService::unlock]. *)
Definition service_unlock (bearer : option string) (key token : string) : HM R (res Status bool) :=
  try^ p := principal bearer in
  try^ _u := hret (check_unlock p key) in
  try^ released := internal (hrun (unlock_with_token (ps_manager ps) key token)) in
  do^ (if released : bool then free_holder key else hret None) in
  hret (Ok released).

(** [LockService::extend]. *)
Definition service_extend (bearer : option string) (key token : string) (ttl_ms : Z) : HM R (res Status bool) :=
  try^ p := principal bearer in
  try^ _u := hret (check_extend p key) in
  let t := from_millis ttl_ms in
  if max_ttl (ps_config ps) <? t then hret (Err InvalidArgument) else
  internal (hrun (extend_with_token (ps_manager ps) key token t)).

(** [LockService::watch]: the subscription and a new forwarder. *)
Definition service_watch (bearer : option string) (key : string) : HM R (res Status nat) :=
  try^ p := principal bearer in
  try^ guard := watch_slot p key in
  let^ sub := hstate (fun s => (length (hub_subs (sv_hub s)), set_hub (subscribe key (sv_hub s)) s)) in
  hstate (fun s => (Ok (length (sv_streams s)),
    set_streams (sv_streams s ++ [mk_forwarder guard sub [] true]) s)).

(** [LockService::register_session]. *)
Definition service_register_session (client : string) (ttl_ms : Z) : HM R (res Status (string * Z)) :=
  let t := if ttl_ms =? 0 then from_secs 10 else Z.min (from_millis ttl_ms) (max_ttl (ps_config ps)) in
  let^ token := on_sessions (fun b => register b client t) in
  hret (Ok (token, as_millis_u64 t)).

(** [LockService::heartbeat]. *)
Definition service_heartbeat (token : string) : HM R (res Status unit) :=
  let^ r := on_sessions (fun b => heartbeat b token) in
  hret (match r with HbOk => Ok tt | RateLimited => Err ResourceExhausted | Unknown => Err NotFound end).

(** [LockService::close_session]. *)
Definition service_close_session (token : string) : HM R (res Status Z) :=
  let^ ls := on_sessions (fun b => ret (remove b token)) in
  let^ n := hrun (release_bound (ps_manager ps) ls) in
  hret (Ok (n mod 2 ^ 32)).

(** [LockService::describe_key]: the guard is dropped at once. *)
Definition service_describe_key (bearer : option string) (key : string) : HM R (res Status (bool * Z * Z)) :=
  try^ p := principal bearer in
  try^ guard := watch_slot p key in
  do^ return_slot guard in
  internal (hrun (describe_key (ps_manager ps) key)).

(** [LockService::unlock_force]. *)
Definition service_unlock_force (bearer : option string) (key : string) : HM R (res Status bool) :=
  try^ p := principal bearer in
  try^ _u := hret (check_admin p key) in
  try^ released := internal (hrun (force_unlock (ps_manager ps) key)) in
  do^ free_holder key in
  hret (Ok released).

(** [LockService::list_locks]: the stream is filled by a task that scans. *)
Definition service_list_locks (bearer : option string) (prefix : string) : HM R (res Status string) :=
  try^ p := principal bearer in
  try^ _u := hret (check_admin p prefix) in
  hret (Ok prefix).

(** The task of a listing: the states in order, or the error. *)
Definition list_task (fuel : nat) (prefix : string) : M R (list (res Status (string * bool * Z))) :=
  bind (scan_held fuel (ps_manager ps) prefix) (fun r =>
    ret (match r with
         | Ok entries => map (fun e => Ok (e.1, true, e.2)) entries
         | Err _ => [Err Internal]
         end)).

(** One request. *)
Definition serve (fuel : nat) (bearer : option string) (r : request) : HM R (res Status response) :=
  match r with
  | TryLock key options session =>
      try^ o := service_try_lock bearer key options session in hret (Ok (RLock o))
  | TryLockFor key options wait_ms session =>
      try^ o := service_try_lock_for fuel bearer key options wait_ms session in hret (Ok (RLock o))
  | Unlock key token => try^ b := service_unlock bearer key token in hret (Ok (RUnlocked b))
  | Extend key token ttl_ms => try^ b := service_extend bearer key token ttl_ms in hret (Ok (RExtended b))
  | Watch key => try^ n := service_watch bearer key in hret (Ok (RStream n))
  | RegisterSession client ttl_ms =>
      try^ p := service_register_session client ttl_ms in hret (Ok (RSession p.1 p.2))
  | Heartbeat token => try^ _u := service_heartbeat token in hret (Ok RHeartbeat)
  | CloseSession token => try^ n := service_close_session token in hret (Ok (RClosed n))
  | DescribeKey key => try^ p := service_describe_key bearer key in hret (Ok (RKey p.1.1 p.1.2 p.2))
  | UnlockForce key => try^ b := service_unlock_force bearer key in hret (Ok (RForced b))
  | ListLocks prefix => try^ p := service_list_locks bearer prefix in hret (Ok (RList p))
  end.
End handlers.

(** ** The forwarders of watch streams *)

Definition FORWARD_DEPTH : nat := 16.

Definition set_stream (i : nat) (f : forwarder) (s : svc) : svc :=
  set_streams (<[i := f]> (sv_streams s)) s.

(** The task's [hub_rx.recv()] yields an event and [tx.send(ev)] takes it. *)
Definition forward (i : nat) (s : svc) : option svc :=
  match sv_streams s !! i with
  | Some (mk_forwarder g sub q true) =>
      match hub_subs (sv_hub s) !! sub with
      | Some hs =>
          match su_queue hs with
          | e :: _ =>
              if (length q <? FORWARD_DEPTH)%nat
              then Some (set_stream i (mk_forwarder g sub (q ++ [e]) true)
                           (set_hub (set_sub sub (recv hs) (sv_hub s)) s))
              else None
          | [] => None
          end
      | None => None
      end
  | _ => None
  end.

(** The client goes away: the task returns, dropping the guard and the
    subscription. *)
Definition disconnect (i : nat) (s : svc) : svc :=
  match sv_streams s !! i with
  | Some (mk_forwarder g sub q true) =>
      let s := set_stream i (mk_forwarder g sub q false) s in
      let s := set_counters (drop_guard g (sv_counters s)) s in
      match hub_subs (sv_hub s) !! sub with
      | Some hs => set_hub (set_sub sub (leave hs) (sv_hub s)) s
      | None => s
      end
  | _ => s
  end.
