(* ===== verification/ServiceSafety.v ===== *)
(** * What the service guarantees

    Theorems about the handlers of [Service]: a caller without permission has
    no effect, and what a grant request leaves behind on every branch. *)

From S2P Require Import Prelude Core Redis Scripts World Lease Single Scan Multi Registry Auth Sessions WatchHub Handlers Service.

(** What the others made of the state, and nothing else. *)
Definition undisturbed : shared -> shared -> Prop := rtc (fun s s' => s' = interfere s).

Lemma undisturbed_once s : undisturbed s (interfere s).
Proof. by apply rtc_once. Qed.

(** ** Who may ask for what *)

(** The caller as configured. *)
Definition caller (values : gmap string Principal -> list Principal) (a : Acl) (bearer : option string) :
    res Status PrincipalConfig := res_map p_cfg (resolve values a bearer []).1.

(** [check_*] of the request, by the configuration. *)
Definition permitted (c : PrincipalConfig) (r : request) : bool :=
  match r with
  | TryLock key _ _ | TryLockFor key _ _ _ => in_prefixes c key && can_lock c
  | Unlock key _ => in_prefixes c key && can_unlock c
  | Extend key _ _ => in_prefixes c key && can_extend c
  | Watch key | DescribeKey key => in_prefixes c key && can_watch c
  | UnlockForce key | ListLocks key => in_prefixes c key && can_admin c
  | RegisterSession _ _ | Heartbeat _ | CloseSession _ => true
  end.

(** The requests whose handler looks at the caller at all. *)
Definition authenticated (r : request) : bool :=
  match r with RegisterSession _ _ | Heartbeat _ | CloseSession _ => false | _ => true end.

(** Why a request is refused, if it is. *)
Definition denial values (a : Acl) (bearer : option string) (r : request) : option Status :=
  if authenticated r then
    match caller values a bearer with
    | Err e => Some e
    | Ok c => if permitted c r then None else Some PermissionDenied
    end
  else None.

Lemma resolve_counters values a bearer st :
  match resolve values a bearer st with
  | (Ok p, st') => caller values a bearer = Ok (p_cfg p) /\ (acl_open a = false \/ mode a = TrustedHeader -> st' = st) /\
      (acl_open a = true -> mode a = File -> p_cfg p = anonymous)
  | (Err e, st') => caller values a bearer = Err e /\ st' = st
  end.
Proof.
  unfold caller, resolve, resolve_with_header. case_decide as Hm; [by cbn|].
  destruct (acl_open a) eqn:Ho; cbn.
  - split_and!; [done| |done]. by intros [?|?].
  - destruct (bearer ≫= _) as [token|]; cbn; [|done]. destruct (by_token a !! token); cbn; [|done].
    by split_and!.
Qed.

Lemma anonymous_permitted r : permitted anonymous r = true.
Proof.
  assert (forall key, in_prefixes anonymous key = true) as Hp by by intros [].
  destruct r; cbn [permitted]; rewrite ?Hp; done.
Qed.

Section denied.
Context {U : UuidSource} {R : Type} `{RedisScan R}.
Variables (values : gmap string Principal -> list Principal) (ps : PalisadeService).
Implicit Types (w : world R) (s : shared).

(** Resolving the caller, up to the counters of the principals. *)
Lemma principal_run bearer s w :
  exists r v, principal (R:=R) values ps bearer s w = (Done (r, mk_shared v (sh_others (interfere s))), w) /\
    res_map p_cfg r = caller values (ps_acl ps) bearer /\
    sv_ready v = sv_ready (sh_state (interfere s)) /\
    (forall c, caller values (ps_acl ps) bearer = Ok c -> c = anonymous \/ v = sh_state (interfere s)) /\
    (forall e, caller values (ps_acl ps) bearer = Err e -> v = sh_state (interfere s)).
Proof.
  pose proof (resolve_counters values (ps_acl ps) bearer (sv_counters (sh_state (interfere s)))) as Hr.
  assert (forall v : svc, set_counters (sv_counters v) v = v) as Hsame by by intros [].
  destruct (resolve values (ps_acl ps) bearer (sv_counters (sh_state (interfere s)))) as [[p|e] st] eqn:E.
  - destruct Hr as (Hc & Hst & Ha). eexists _, _. split.
    { unfold principal, on_counters. apply hstate_done. by rewrite E. }
    rewrite Hc. split_and!; [done|done| |done]. intros c [= <-].
    destruct (acl_open (ps_acl ps)) eqn:Ho; [destruct (mode (ps_acl ps)) eqn:Hm|].
    + left. by apply Ha.
    + right. rewrite Hst by by right. apply Hsame.
    + right. rewrite Hst by by left. apply Hsame.
  - destruct Hr as (Hc & ->). eexists _, _. split.
    { unfold principal, on_counters. apply hstate_done. by rewrite E. }
    rewrite Hc. split_and!; [done|done|done|]. intros. apply Hsame.
Qed.

(** A permission check of the configuration, as each handler makes it. *)
Lemma may_denied p key flag : in_prefixes (p_cfg p) key && flag = false -> may p key flag = Err PermissionDenied.
Proof. unfold may. by destruct (in_prefixes _ _), flag. Qed.
End denied.

Section properties.
Context {U : UuidSource} {R : Type} `{RedisScan R}.
Variables (values : gmap string Principal -> list Principal) (ps : PalisadeService).
Implicit Types (w : world R) (s : shared).

(** What a refused caller gets from the rest of a handler. *)
Lemma denied_after {A} (P : Status -> Prop) bearer (k : Principal -> HM R (res Status A)) s w :
  (match caller values (ps_acl ps) bearer with
   | Err e => P e
   | Ok c => c <> anonymous /\ forall p s', p_cfg p = c ->
       exists e s'', k p s' w = (Done (Err e, s''), w) /\ P e /\ undisturbed s' s''
   end) ->
  exists e s', htry (principal values ps bearer) k s w = (Done (Err e, s'), w) /\ P e /\ undisturbed s s'.
Proof.
  intros Hk. destruct (principal_run (R:=R) values ps bearer s w) as (r & v & E & Er & _ & Hv & He).
  assert (forall x : shared, mk_shared (sh_state (interfere x)) (sh_others (interfere x)) = interfere x) as Hi
    by by intros x; destruct (interfere x).
  destruct (caller values (ps_acl ps) bearer) as [c|e'] eqn:Hc.
  - destruct Hk as [Ha Hk]. destruct r as [p|]; [|done]. injection Er as Er.
    destruct (Hv c eq_refl) as [->| ->]; [done|]. rewrite Hi in E. rewrite (htry_ok _ _ _ _ _ _ _ E).
    destruct (Hk p (interfere s) Er) as (e & s'' & Es & HP & Hu). exists e, s''. split_and!; [done..|].
    eapply rtc_l; [reflexivity|done].
  - destruct r as [|e2]; [done|]. injection Er as ->. rewrite (He _ eq_refl), Hi in E.
    rewrite (htry_err _ _ _ _ _ _ _ E). do 2 eexists. split; [done|]. split; [done|]. apply undisturbed_once.
Qed.

(** The answers a denial may get: a grant request may be turned away before
    its permission is looked at. *)
Definition refusal (r : request) (d e : Status) : Prop :=
  e = d \/ match r with TryLock _ _ _ | TryLockFor _ _ _ _ => e = Unavailable \/ e = InvalidArgument | _ => False end.

Lemma grant_denied {A} (P : Status -> Prop) bearer key pb (k : Principal -> LockOptions -> HM R (res Status A)) s w d :
  P Unavailable -> P InvalidArgument -> P d ->
  match caller values (ps_acl ps) bearer with
  | Err e => d = e
  | Ok c => in_prefixes c key && can_lock c = false /\ d = PermissionDenied
  end ->
  exists e s', htry check_ready (fun _ => htry (principal values ps bearer) (fun p =>
      htry (hret (options_from_pb pb (ps_config ps))) (fun opts => htry (lock_allowed p key) (fun _ => k p opts)))) s w =
    (Done (Err e, s'), w) /\ P e /\ undisturbed s s'.
Proof.
  intros P1 P2 P3 Hd.
  destruct (sv_ready (sh_state (interfere s))) eqn:Hr.
  - rewrite (htry_ok _ _ s w tt (interfere s) w); last first.
    { apply hstate_same. by rewrite Hr. }
    enough (exists e s', htry (principal values ps bearer) (fun p =>
      htry (hret (options_from_pb pb (ps_config ps))) (fun opts => htry (lock_allowed p key) (fun _ => k p opts)))
      (interfere s) w = (Done (Err e, s'), w) /\ P e /\ undisturbed (interfere s) s') as (e & s' & E & HP & Hu).
    { exists e, s'. split_and!; [exact E|done|]. eapply rtc_l; [reflexivity|done]. }
    apply (denied_after P).
    destruct (caller values (ps_acl ps) bearer) as [c|e]; [|by subst].
    destruct Hd as [Hc ->]. split.
    { intros ->. pose proof (anonymous_permitted (TryLock key None "")). cbn [permitted] in *. congruence. }
    intros p s' Ep. destruct (options_from_pb pb (ps_config ps)) as [opts|e] eqn:Eo.
    + rewrite (htry_ok _ _ s' w opts s' w) by done. exists PermissionDenied, (interfere s'). split_and!; [|done|apply undisturbed_once].
      apply htry_err, hstate_same.
      unfold check_lock. rewrite may_denied by by rewrite Ep. by destruct (sh_state (interfere s')).
    + rewrite (htry_err _ _ s' w e s' w) by done. exists e, s'. split_and!; [done| |apply rtc_refl].
      unfold options_from_pb in Eo. destruct (_ <? _); [|done]. by injection Eo as <-.
  - exists Unavailable, (interfere s). split_and!; [|done|apply undisturbed_once].
    apply htry_err, hstate_same. by rewrite Hr.
Qed.

(** C11: Nobody acts without permission.  A request whose caller is unknown or
    whose configuration lacks the prefix or the flag is answered with that
    refusal ([Unauthenticated] or [PermissionDenied]; a grant request may be
    turned away earlier as [Unavailable] or [InvalidArgument]); no message
    goes to the store, and the shared state is left as the other handlers,
    whatever they do meanwhile, have made it.  Only sessions are open to
    everybody: [register_session], [heartbeat] and [close_session] look at no
    caller at all. *)
Theorem denied_no_effect fuel bearer r s w d :
  denial values (ps_acl ps) bearer r = Some d ->
  exists e s', serve values ps fuel bearer r s w = (Done (Err e, s'), w) /\ refusal r d e /\ undisturbed s s'.
Proof.
  intros Hd. unfold denial in Hd. destruct (authenticated r) eqn:Ha; [|done].
  assert (match caller values (ps_acl ps) bearer with
          | Err e => d = e
          | Ok c => permitted c r = false /\ d = PermissionDenied
          end) as Hc.
  { destruct (caller _ _ _) as [c|e]; [|by injection Hd]. destruct (permitted c r); [done|]. by injection Hd as <-. }
  clear Hd. assert (refusal r d d) as Hdd by by left.
  assert (forall c, permitted c r = false -> c <> anonymous) as Hna.
  { intros c Hp ->. by rewrite anonymous_permitted in Hp. }
  assert (forall A B (m : HM R (res Status A)) (f : A -> HM R (res Status B)) s,
    (exists e s', m s w = (Done (Err e, s'), w) /\ refusal r d e /\ undisturbed s s') ->
    exists e s', htry m f s w = (Done (Err e, s'), w) /\ refusal r d e /\ undisturbed s s') as Hlift.
  { intros A B m f s0 (e & s' & E & ?). exists e, s'. by rewrite (htry_err _ _ _ _ _ _ _ E). }
  assert (forall A p s' key flag (f : unit -> HM R (res Status A)),
    d = PermissionDenied -> in_prefixes (p_cfg p) key && flag = false ->
    exists e s'', htry (hret (may p key flag)) f s' w = (Done (Err e, s''), w) /\ refusal r d e /\ undisturbed s' s'') as Hmay.
  { intros A p s' key flag f -> Hf. exists PermissionDenied, s'. rewrite may_denied by done.
    split_and!; [done..|apply rtc_refl]. }
  assert (forall A (k : Principal -> HM R (res Status A)),
    (forall p s', permitted (p_cfg p) r = false -> d = PermissionDenied ->
       exists e s'', k p s' w = (Done (Err e, s''), w) /\ refusal r d e /\ undisturbed s' s'') ->
    exists e s', htry (principal values ps bearer) k s w = (Done (Err e, s'), w) /\ refusal r d e /\ undisturbed s s') as Hafter.
  { intros A k Hk. apply (denied_after (refusal r d)). destruct (caller _ _ _) as [c|e]; [|by subst].
    destruct Hc as [Hp ->]. split; [by apply Hna|]. intros p s' <-. by apply Hk. }
  destruct r; try done; cbn [serve]; apply Hlift; cbn [permitted] in *.
  - apply grant_denied with d; [by right; left|by right; right|done|done].
  - apply grant_denied with d; [by right; left|by right; right|done|done].
  - apply Hafter. intros p s' Hp Ed. by apply Hmay.
  - apply Hafter. intros p s' Hp Ed. by apply Hmay.
  - apply Hafter. intros p s' Hp Ed. apply Hlift. by apply Hmay.
  - apply Hafter. intros p s' Hp Ed. apply Hlift. by apply Hmay.
  - apply Hafter. intros p s' Hp Ed. by apply Hmay.
  - apply Hafter. intros p s' Hp Ed. by apply Hmay.
Qed.
End properties.

(** ** Grants on a quiet server *)

(** The session a grant is bound to, if it names one the book knows. *)
Definition bound_book (b : SessionBook) (session key tok : string) (now : Z) : SessionBook :=
  if String.eqb session "" then b else
  match b !! session with
  | Some e => <[session := mk_session (client_id e) (s_ttl e) now (hb_floor e) (locks e ++ [(key, tok)])]> b
  | None => b
  end.
Definition known_session (b : SessionBook) (session : string) : bool :=
  String.eqb session "" || bool_decide (is_Some (b !! session)).

Section grants.
Context {U : UuidSource} {R : Type} `{RS : RedisScan R} `{!RedisLaws R}.
Variables (values : gmap string Principal -> list Principal) (ps : PalisadeService) (keys : list string).
Hypothesis Hsep : separate keys.
Abbreviation mgr := (ps_manager ps).
Implicit Types (w : world R) (v : svc) (L : string -> lease).

Lemma undo_calm v w h e L : calm w -> views mgr keys L w -> taken mgr keys L w h -> exists w',
  undo h e (alone v) w = (Done (Err e, alone v), w') /\ calm w' /\ w_uuids w' = w_uuids w /\
  views mgr keys (<[h_key h := lease_free (L (h_key h))]> L) w' /\ w_tasks w' = w_tasks w.
Proof.
  intros C V T. destruct (release_drop_calm mgr keys Hsep L w h C V T) as (w1 & w2 & E1 & E2 & C2 & U2 & V2 & T2).
  exists w2. unfold undo. rewrite (hbind_done _ _ _ _ _ _ _ (hrun_done _ _ _ _ _ E1)).
  by rewrite (hbind_done _ _ _ _ _ _ _ (hrun_done _ _ _ _ _ E2)).
Qed.

Lemma bind_session_run {A} v w session key tok (f : bool -> HM R A) :
  hbind (if String.eqb session "" then hret true else on_sessions (fun b => bind_lock b session key tok)) f (alone v) w =
  f (known_session (sv_sessions v) session)
    (alone (set_sessions (bound_book (sv_sessions v) session key tok (w_clock w)) v)) w.
Proof.
  unfold known_session, bound_book. destruct (String.eqb session ""); cbn [orb].
  { unfold hbind, hret, bind, ret. cbn. unfold alone. do 3 f_equal. by destruct v. }
  unfold hbind, on_sessions, haccess, bind_lock, instant_now, gets, bind, ret. cbn.
  destruct (sv_sessions v !! session) as [e|]; cbn; [done|]. unfold alone. by destruct v.
Qed.

(** After the grant: the two registrations decide. *)
Lemma settle_calm v w p key session opts h L : calm w -> views mgr keys L w -> taken mgr keys L w h -> h_key h = key ->
  let tok := owner_token (h_owner h) in
  let v1 := set_sessions (bound_book (sv_sessions v) session key tok (w_clock w)) v in
  let '(admitted, reg) := Registry.try_acquire key (p_name p) (Z.to_nat (max_keys (p_cfg p))) (sv_registry v) in
  exists w', calm w' /\ w_uuids w' = w_uuids w /\ w_tasks w' = w_tasks w /\
    if known_session (sv_sessions v) session then
      if admitted then
        settle p key session opts h (alone v) w =
          (Done (Ok (OGranted tok (value (h_fence h)) (as_millis_u64 (ttl opts))), alone (set_registry reg v1)), w') /\
        views mgr keys L w'
      else
        settle p key session opts h (alone v) w = (Done (Err ResourceExhausted, alone v1), w') /\
        views mgr keys (<[key := lease_free (L key)]> L) w'
    else
      settle p key session opts h (alone v) w = (Done (Err NotFound, alone v1), w') /\
      views mgr keys (<[key := lease_free (L key)]> L) w'.
Proof.
  intros C V T Ek tok v1.
  destruct (Registry.try_acquire _ _ _ _) as [admitted reg] eqn:Ea.
  unfold settle. rewrite bind_session_run. fold tok. fold v1.
  destruct (known_session (sv_sessions v) session); cbn [negb].
  - assert (forall (f : bool -> HM R (res Status LockOutcome)), hbind (register_holder key p) f (alone v1) w =
      f admitted (alone (set_registry reg v1)) w) as Hreg.
    { intros f. apply hbind_done. unfold register_holder, on_registry. apply (hstate_done _ (alone v1)).
      cbn. by rewrite Ea. }
    rewrite Hreg. destruct admitted; cbn [negb].
    + destruct (disarm_drop_calm mgr keys L w h C V T) as (w1 & w2 & E1 & E2 & C2 & U2 & V2 & T2).
      rewrite (hbind_done _ _ _ _ _ _ _ (hrun_done _ _ _ _ _ E1)).
      rewrite (hbind_done _ _ _ _ _ _ _ (hrun_done _ _ _ _ _ E2)). exists w2. by split_and!.
    + assert (set_registry reg v1 = v1) as ->.
      { revert Ea. unfold Registry.try_acquire. destruct (holders _ !! key); [done|]. destruct (_ && _); [|done].
        intros [= <-]. by destruct v. }
      destruct (undo_calm v1 w h ResourceExhausted L C V T) as (w' & E & C' & U' & V' & T').
      exists w'. rewrite Ek in V'. by split_and!.
  - destruct (undo_calm v1 w h NotFound L C V T) as (w' & E & C' & U' & V' & T').
    exists w'. rewrite Ek in V'. by split_and!.
Qed.

(** The way of a grant request to the store. *)
Lemma try_lock_admitted v w bearer key pb session c opts :
  sv_ready v = true -> caller values (ps_acl ps) bearer = Ok c ->
  in_prefixes c key && can_lock c = true ->
  (forall p st, resolve values (ps_acl ps) bearer (sv_counters v) = (Ok p, st) -> load (held_keys p) st = 0) ->
  options_from_pb pb (ps_config ps) = Ok opts ->
  exists p st, p_cfg p = c /\
    service_try_lock (R:=R) values ps bearer key pb session (alone v) w =
      hbind (hrun (try_lock_with mgr key opts))
        (fun r => match r with
         | Ok h => settle p key session opts h
         | Err (Held _) => hret (Ok (OHeld key))
         | Err _ => hret (Err Internal)
         end) (alone (set_counters st v)) w.
Proof.
  intros Hr Hc Hp Hheld Ho. unfold service_try_lock.
  rewrite (htry_ok _ _ (alone v) w tt (alone v) w); [|apply (hstate_same _ (alone v)); cbn; by rewrite Hr].
  pose proof (resolve_counters values (ps_acl ps) bearer (sv_counters v)) as Hres. unfold caller in Hc.
  destruct (resolve values (ps_acl ps) bearer (sv_counters v)) as [[p|e] st] eqn:E;
    [|destruct Hres as [Hres _]; unfold caller in Hres; congruence].
  destruct Hres as [Hres _]. unfold caller in Hres. rewrite Hres in Hc. injection Hc as Hc.
  exists p, st. split; [done|].
  rewrite (htry_ok _ _ (alone v) w p (alone (set_counters st v)) w);
    [|unfold principal, on_counters; apply (hstate_done _ (alone v)); cbn; by rewrite E].
  rewrite (htry_ok _ _ _ w opts (alone (set_counters st v)) w) by by rewrite Ho.
  rewrite (htry_ok _ _ _ w tt (alone (set_counters st v)) w); [done|].
  unfold lock_allowed, on_counters. apply (hstate_same _ (alone (set_counters st v))). cbn.
  unfold check_lock, may. rewrite Hc. apply andb_prop in Hp. destruct Hp as [-> ->].
  rewrite (Hheld p st eq_refl). assert ((0 <? max_keys c) && (max_keys c <=? 0) = false) as ->; [|done].
  apply not_true_iff_false. intros Hm. zbool. lia.
Qed.

(** What a grant request leaves behind.  On a quiet server, for a caller
    with permission and a lease the server can hold: a key held by somebody is
    answered [Held] and nothing changes; a free key is granted exactly when
    the session it names (if any) is known and the caller is not at its
    ceiling, and then the token returned holds the key for the whole lease,
    with the fence allocated for it, the session has it bound and the
    registry has it charged to the caller; otherwise the answer is [NotFound]
    or [ResourceExhausted], the key is free again and nobody is charged.  No
    release is left behind that could take the lock from the caller. *)
Theorem grant_outcome v w bearer key pb session c opts L :
  let t := as_millis (ttl opts) in
  let tok := owner_token (owner_generate (w_uuids w)) in
  calm w -> views mgr keys L w -> key ∈ keys -> sv_ready v = true ->
  caller values (ps_acl ps) bearer = Ok c -> permitted c (TryLock key pb session) = true ->
  (forall p st, resolve values (ps_acl ps) bearer (sv_counters v) = (Ok p, st) -> load (held_keys p) st = 0) ->
  options_from_pb pb (ps_config ps) = Ok opts -> validate opts = Ok tt ->
  l_now (L key) + 10 * t <= i64_max -> fence_count (L key) < i64_max ->
  (forall dl, l_holder (L key) <> Some (tok, dl)) ->
  exists r v' w' l', service_try_lock values ps bearer key pb session (alone v) w = (Done (r, alone v'), w') /\
    calm w' /\ views mgr keys (<[key := l']> L) w' /\ w_uuids w' = N.succ (w_uuids w) /\
    (forall task, task ∈ w_tasks w' -> task ∈ w_tasks w \/ exists cell, task = TWatchdog cell) /\
    sv_ready v' = true /\
    match l_holder (L key) with
    | Some _ => r = Ok (OHeld key) /\ l' = L key /\
        sv_registry v' = sv_registry v /\ sv_sessions v' = sv_sessions v
    | None =>
        let known := known_session (sv_sessions v) session in
        let '(admitted, reg) := Registry.try_acquire key (pc_name c) (Z.to_nat (max_keys c)) (sv_registry v) in
        (exists now, w_clock w <= now /\ sv_sessions v' = bound_book (sv_sessions v) session key tok now) /\
        if known && admitted then
          r = Ok (OGranted tok (fence_count l') (as_millis_u64 (ttl opts))) /\
          l_holder l' = Some (tok, l_now (L key) + t) /\ sv_registry v' = reg
        else
          r = Err (if known then ResourceExhausted else NotFound) /\
          l_holder l' = None /\ sv_registry v' = sv_registry v
    end.
Proof.
  intros t tok C V Hin Hr Hc Hp Hheld Ho Hv Ft Fc Hnew.
  destruct (try_lock_admitted v w bearer key pb session c opts Hr Hc Hp Hheld Ho) as (p & st & Ec & ->).
  destruct (attempt_at mgr opts keys Hv Hsep L w key C V Hin Ft Fc Hnew) as (r & w1 & l1 & E1 & C1 & V1 & U1 & Hr1).
  rewrite (hbind_done _ _ _ _ _ _ _ (hrun_done _ _ _ _ _ E1)). destruct (l_holder (L key)) as [x|] eqn:Hh.
  { destruct Hr1 as (-> & -> & F1 & T1). eexists _, (set_counters st v), w1, (L key).
    split; [reflexivity|]. rewrite T1. split_and!; try done. tauto. }
  destruct Hr1 as (h & -> & Ek & Ei & F1 & Hho & Hhc & El & Et & Eo & Ef & En & T1).
  assert (taken mgr keys (<[key := l1]> L) w1 h) as T.
  { unfold taken, flag_of. rewrite Ek, F1, Ei, fn_lookup_insert, lookup_app_r, Nat.sub_diag by lia. unfold holds.
    rewrite El, String.eqb_refl, length_app. cbn. split_and!; try done. lia. }
  pose proof (settle_calm (set_counters st v) w1 p key session opts h _ C1 V1 T Ek) as Hs.
  cbn [set_counters sv_registry sv_sessions] in Hs.
  assert (p_name p = pc_name c) as Hn by by rewrite <- Ec. rewrite Hn, Ec in Hs.
  destruct (Registry.try_acquire _ _ _ _) as [admitted reg] eqn:Ea.
  destruct Hs as (w2 & C2 & U2 & T2 & Hs).
  assert (owner_token (h_owner h) = tok) as Htok by by rewrite Eo.
  assert (forall task, task ∈ w_tasks w2 -> task ∈ w_tasks w \/ exists cell, task = TWatchdog cell) as HT.
  { intros task. rewrite T2, T1. destruct (default _ _); [|tauto]. rewrite elem_of_cons. intros [->|]; [right|tauto]. eauto. }
  assert (w_clock w <= w_clock w1) as Hclk.
  { pose proof (safe_try_lock_with mgr key opts w) as Hs2. rewrite E1 in Hs2. apply Hs2. }
  assert (forall w', views mgr keys (<[key := lease_free l1]> (<[key := l1]> L)) w' ->
            views mgr keys (<[key := lease_free l1]> L) w') as Hins.
  { intros w' V2. eapply views_ext; [|exact V2]. intros k. destruct (decide (key = k)) as [<-|];
      by rewrite ?fn_lookup_insert, ?fn_lookup_insert_ne. }
  rewrite Htok, ?fn_lookup_insert in Hs.
  destruct (known_session (sv_sessions v) session); cbn [andb]; [destruct admitted|]; destruct Hs as [Es V2];
    rewrite Es.
  - eexists _, _, w2, l1. split; [rewrite Ef; reflexivity|].
    split_and!; try done; [by rewrite U2|by eexists|by rewrite El, Et, Htok].
  - eexists _, _, w2, (lease_free l1). split; [reflexivity|].
    split_and!; try done; [by apply Hins|by rewrite U2|by eexists].
  - eexists _, _, w2, (lease_free l1). split; [reflexivity|].
    split_and!; try done; [by apply Hins|by rewrite U2|by eexists].
Qed.
End grants.
