(* ===== verification/ServiceState.v ===== *)
(** * The registry and the locks

    The service as a transition system: requests served one after another and
    time that passes on the store.  The theorem: as long as no lease runs out
    and no session is closed, the registry lists exactly the locked keys.
    Then the two ways in which the service's accounts drift: a closed session
    keeps its slots, and [describe_key] needs a watcher slot. *)

From S2P Require Import Prelude Core Redis Scripts World Lease Single Scan Multi Registry Auth Sessions WatchHub Handlers Service ServiceSafety.

(** The requests considered: neither of them waits for a lock or releases
    what a session has bound. *)
Definition plain (r : request) : bool :=
  match r with TryLockFor _ _ _ _ | CloseSession _ => false | _ => true end.

(** The lock a request is about. *)
Definition subject (r : request) : option string :=
  match r with
  | TryLock key _ _ | TryLockFor key _ _ _ | Unlock key _ | Extend key _ _ | DescribeKey key | UnlockForce key => Some key
  | _ => None
  end.

Section system.
Context {U : UuidSource} {R : Type} `{RS : RedisScan R}.
Variables (values : gmap string Principal -> list Principal) (ps : PalisadeService) (keys : list string).
Abbreviation mgr := (ps_manager ps).
Abbreviation db_of w := (r_db (w_server w (mgr_conn mgr))).

(** The store can hold one more lease of the longest kind and allocate one
    more fence. *)
Definition room (d : db) : Prop :=
  db_now d + 10 * as_millis (max_ttl (ps_config ps)) <= i64_max /\
  forall k c, k ∈ keys -> db_live d !! fence_key_for k = Some (fence_entry c) -> c.1 < i64_max.

(** No lock expires within [dt]. *)
Definition lasting (d : db) (dt : Z) : Prop :=
  forall k e dl, k ∈ keys -> db_live d !! k = Some e -> e_deadline e = Some dl -> db_now d + dt < dl.

(** One request, or time. *)
Inductive sys_step : svc * world R -> svc * world R -> Prop :=
| sys_serve v w fuel bearer r a v' w' :
    plain r = true -> (forall key, subject r = Some key -> key ∈ keys) -> room (db_of w) ->
    serve values ps fuel bearer r (alone v) w = (Done (a, alone v'), w') -> sys_step (v, w) (v', w')
| sys_time v w dt :
    0 <= dt -> lasting (db_of w) dt ->
    sys_step (v, w) (v, set_server (<[mgr_conn mgr := r_elapse dt (w_server w (mgr_conn mgr))]> (w_server w)) w).
End system.

Section mirror.
Context {U : UuidSource} `{!UuidLaws U} {R : Type} `{RS : RedisScan R} `{!RedisLaws R}.
Variables (values : gmap string Principal -> list Principal) (ps : PalisadeService) (keys : list string).
Hypothesis Hsep : separate keys.
Abbreviation mgr := (ps_manager ps).
Abbreviation db_of w := (r_db (w_server w (mgr_conn mgr))).
Implicit Types (w : world R) (v : svc) (L : string -> lease) (reg : HeldRegistry).

(** The registry lists the locked keys, and no token yet to be made holds one. *)
Record mirrored (reg : HeldRegistry) (w : world R) (L : string -> lease) : Prop := mk_mirrored {
  mi_calm : calm w;
  mi_views : views mgr keys L w;
  mi_keys : forall k, k ∈ keys -> is_Some (holders reg !! k) <-> is_Some (l_holder (L k));
  mi_old : forall k n dl, k ∈ keys -> l_holder (L k) = Some (owner_token (owner_generate n), dl) -> (n < w_uuids w)%N;
}.
Definition mirrors (reg : HeldRegistry) (w : world R) : Prop := exists L, mirrored reg w L.

(** What a handler must do: keep the mirror. *)
Definition keeps {A} (m : HM R A) : Prop := forall v w a s' w',
  mirrors (sv_registry v) w -> room ps keys (db_of w) -> m (alone v) w = (Done (a, s'), w') ->
  exists v', s' = alone v' /\ mirrors (sv_registry v') w'.

(** A part that touches neither the world nor the registry. *)
Definition harmless {A} (m : HM R A) : Prop := forall v w,
  exists a v', m (alone v) w = (Done (a, alone v'), w) /\ sv_registry v' = sv_registry v.

Lemma harmless_ret {A} (a : A) : harmless (hret a).
Proof. intros v w. by exists a, v. Qed.
Lemma harmless_state {A} (f : svc -> A * svc) : (forall v, sv_registry (f v).2 = sv_registry v) -> harmless (hstate f).
Proof.
  intros Hf v w. exists (f v).1, (f v).2. split; [|done]. apply (hstate_done f (alone v)). cbn. by destruct (f v).
Qed.
Lemma harmless_counters {A} (f : store -> A * store) : harmless (on_counters f).
Proof. apply harmless_state. intros v. by destruct (f (sv_counters v)). Qed.
Lemma harmless_bind {A B} (m : HM R A) (f : A -> HM R B) : harmless m -> (forall a, harmless (f a)) -> harmless (hbind m f).
Proof.
  intros Hm Hf v w. destruct (Hm v w) as (a & v1 & E & R1). destruct (Hf a v1 w) as (b & v2 & E2 & R2).
  exists b, v2. by rewrite (hbind_done _ _ _ _ _ _ _ E), E2, R2.
Qed.
Lemma harmless_try {E A B} (m : HM R (res E A)) (f : A -> HM R (res E B)) :
  harmless m -> (forall a, harmless (f a)) -> harmless (htry m f).
Proof. intros Hm Hf. apply harmless_bind; [done|]. intros [a|e]; [apply Hf|apply harmless_ret]. Qed.
Lemma harmless_slot p key : harmless (watch_slot p key).
Proof.
  apply harmless_try; [apply harmless_ret|intros _]. apply harmless_bind; [apply harmless_counters|intros prev].
  destruct (over _ _); [apply harmless_bind; [apply harmless_counters|intros _]|]; apply harmless_ret.
Qed.

Lemma keeps_harmless {A} (m : HM R A) : harmless m -> keeps m.
Proof.
  intros Hm v w a s' w' M _ E. destruct (Hm v w) as (a1 & v1 & E1 & R1). rewrite E1 in E.
  injection E as _ <- <-. exists v1. by rewrite R1.
Qed.

Lemma keeps_front {A B} (m : HM R A) (f : A -> HM R B) : harmless m -> (forall a, keeps (f a)) -> keeps (hbind m f).
Proof.
  intros Hm Hf v w b s' w' M Hr E. destruct (Hm v w) as (a & v1 & E1 & R1).
  rewrite (hbind_done _ _ _ _ _ _ _ E1) in E. eapply Hf; [by rewrite R1|done|done].
Qed.

Lemma keeps_front_try {X A B} (m : HM R (res X A)) (f : A -> HM R (res X B)) :
  harmless m -> (forall a, keeps (f a)) -> keeps (htry m f).
Proof. intros Hm Hf. apply keeps_front; [done|]. intros [a|e]; [apply Hf|apply keeps_harmless, harmless_ret]. Qed.

(** The last thing a request does is wrap its answer. *)
Lemma keeps_return {A B} (m : HM R A) (f : A -> B) : keeps m -> keeps (hbind m (fun a => hret (f a))).
Proof.
  intros Hm v w b s' w' M Hr E. unfold hbind in E. unfold bind at 1 in E.
  destruct (m (alone v) w) as [[[a s1]| | |] w1] eqn:E1; [|done..].
  destruct (Hm v w a s1 w1 M Hr E1) as (v1 & -> & M1). injection E as _ <- <-. by exists v1.
Qed.

Lemma keeps_ext {A} (m m' : HM R A) : (forall s w, m s w = m' s w) -> keeps m -> keeps m'.
Proof. intros He Hm v w a s' w' M Hr E. rewrite <- He in E. by eapply Hm. Qed.

Lemma keeps_wrap {A B} (m : HM R (res Status A)) (f : A -> B) : keeps m -> keeps (htry m (fun a => hret (Ok (f a)))).
Proof.
  intros Hm. eapply keeps_ext; [|apply (keeps_return m (res_map f)), Hm]. intros s w. unfold htry, hbind, bind.
  by destruct (m s w) as [[[[a|e] s1]| | |] w1].
Qed.

(** ** The store calls *)

Lemma calm_call w c {A} (m : cmd R A) : calm w -> exists w', invoke c m w = (Done (m (w_server w c)).1, w') /\
  calm w' /\ w_uuids w' = w_uuids w /\ w_server w' c = (m (w_server w c)).2.
Proof.
  intros [B E]. eexists. rewrite invoke_eq by done. unfold reply_of, after_invoke, servers_before, step_of. rewrite E.
  split; [done|]. split; [done|]. split; [done|]. cbn [w_server st_fate quiet st_others]. by rewrite fn_lookup_insert.
Qed.

Lemma mirrored_put reg reg' w w' L key l' : mirrored reg w L -> key ∈ keys ->
  calm w' -> views mgr keys (<[key := l']> L) w' -> (w_uuids w <= w_uuids w')%N ->
  (forall k, k <> key -> holders reg' !! k = holders reg !! k) ->
  (is_Some (holders reg' !! key) <-> is_Some (l_holder l')) ->
  (forall n dl, l_holder l' = Some (owner_token (owner_generate n), dl) -> (n < w_uuids w')%N) ->
  mirrors reg' w'.
Proof.
  intros [C V M O] Hin C' V' Hu Hne Hk Ho. exists (<[key := l']> L). constructor; [done|done| |].
  - intros k Hin'. destruct (decide (key = k)) as [<-|Hn]; [by rewrite fn_lookup_insert|].
    rewrite fn_lookup_insert_ne, Hne by done. by apply M.
  - intros k n dl Hin'. destruct (decide (key = k)) as [<-|Hn]; [rewrite fn_lookup_insert; by apply Ho|].
    rewrite fn_lookup_insert_ne by done. intros Eh. eapply N.lt_le_trans; [by eapply O|done].
Qed.

Lemma mirrored_same reg w w' L : mirrored reg w L -> calm w' -> views mgr keys L w' -> (w_uuids w <= w_uuids w')%N ->
  mirrors reg w'.
Proof.
  intros [C V M O] C' V' Hu. exists L. constructor; [done..|]. intros k n dl Hin Eh.
  eapply N.lt_le_trans; [by eapply O|done].
Qed.

Lemma free_holder_run v w key : exists o v', free_holder (R:=R) key (alone v) w = (Done (o, alone v'), w) /\
  holders (sv_registry v') = delete key (holders (sv_registry v)).
Proof.
  unfold free_holder. erewrite (hbind_done _ _ (alone v) w); [|unfold on_registry; apply (hstate_done _ (alone v)); reflexivity].
  cbn [fst snd release_holder alone sh_state interfere sh_others].
  destruct (holders (sv_registry v) !! key) as [owner|] eqn:E.
  - set (v1 := set_registry _ v). destruct (release_count owner (sv_registry v1)) as [o reg] eqn:Ec.
    exists o, (set_registry reg v1). split.
    + unfold on_registry. apply (hstate_done _ (alone v1)). cbn. cbn in Ec. by rewrite Ec.
    + revert Ec. unfold release_count. cbn. destruct (counts _ !! owner); by intros [= _ <-].
  - eexists _, (set_registry _ v). split; [reflexivity|]. done.
Qed.

Lemma keeps_unlock key tok : key ∈ keys -> keeps
  (htry (internal (hrun (unlock_with_token mgr key tok))) (fun released =>
     hbind (if released : bool then free_holder key else hret None) (fun _ => hret (Ok released)))).
Proof.
  intros Hin v w a s' w' (L & M) _ E. pose proof M as [C V Mk O].
  destruct (unlock_calm mgr keys Hsep L w key tok C V Hin) as (w1 & E1 & C1 & V1 & _ & U1).
  erewrite (htry_ok _ _ (alone v) w) in E.
  2: { unfold internal. rewrite (hbind_done _ _ _ _ _ _ _ (hrun_done _ _ _ _ _ E1)). reflexivity. }
  unfold lease_release in V1. destruct (holds tok (L key)) eqn:Hh; cbn [snd] in V1.
  - destruct (free_holder_run v w1 key) as (o & v1 & E2 & H2).
    rewrite (hbind_done _ _ _ _ _ _ _ E2) in E. injection E as _ <- <-. exists v1. split; [done|].
    eapply mirrored_put; [exact M|exact Hin|exact C1|exact V1|by rewrite U1| | |by intros n dl].
    + intros k Hk. by rewrite H2, lookup_delete_ne.
    + rewrite H2, lookup_delete_eq. cbn. by split; intros [? [=]].
  - injection E as _ <- <-. exists v. split; [done|]. eapply mirrored_same; [exact M|done| |by rewrite U1].
    eapply views_ext; [|exact V1]. intros k. destruct (decide (key = k)) as [<-|]; by rewrite ?fn_lookup_insert, ?fn_lookup_insert_ne.
Qed.

Lemma keeps_force key : key ∈ keys -> keeps
  (htry (internal (hrun (force_unlock mgr key))) (fun released =>
     hbind (free_holder key) (fun _ => hret (Ok released)))).
Proof.
  intros Hin v w a s' w' (L & M) _ E. pose proof M as [C V Mk O].
  destruct (calm_call w (mgr_conn mgr) (r_del key) C) as (w1 & E1 & C1 & U1 & S1).
  assert (force_unlock mgr key w = (Done (res_map_err (fun _ => Backend "force unlock failed: {e}")
    (res_map (fun n => 0 <? n) (r_del key (w_server w (mgr_conn mgr))).1)), w1)) as Ef.
  { unfold force_unlock, try_, backend. unfold bind at 1 2. rewrite E1. unfold ret.
    by destruct ((r_del key (w_server w (mgr_conn mgr))).1). }
  destruct (lop_refines_any key (w_server w (mgr_conn mgr)) (L key) LForce (V _ Hin) I) as (Hr & Vk & Sk).
  assert ((lop_script key LForce (w_server w (mgr_conn mgr))).2 = (r_del key (w_server w (mgr_conn mgr))).2 /\
    exists n, (r_del key (w_server w (mgr_conn mgr))).1 = Ok n) as [E2 (n & En)].
  { revert Hr. cbn [lop_script]. unfold cbind. destruct (r_del key _) as [[n|e] s1]; cbn; [|done]. eauto. }
  rewrite E2, <- S1 in Vk, Sk.
  assert (views mgr keys (<[key := lease_free (L key)]> L) w1) as V1 by by eapply views_update.
  destruct (free_holder_run v w1 key) as (o & v1 & E3 & H3).
  erewrite (htry_ok _ _ (alone v) w) in E.
  2: { unfold internal. rewrite (hbind_done _ _ _ _ _ _ _ (hrun_done _ _ _ _ _ Ef)), En. reflexivity. }
  rewrite (hbind_done _ _ _ _ _ _ _ E3) in E. injection E as _ <- <-. exists v1. split; [done|].
  eapply mirrored_put; [exact M|exact Hin|exact C1|exact V1|by rewrite U1| | |by intros m dl].
  - intros k Hk. by rewrite H3, lookup_delete_ne.
  - rewrite H3, lookup_delete_eq. cbn. by split; intros [? [=]].
Qed.

(** Calls that leave the lock's holder alone. *)
Lemma keeps_call {A} (m : M R (res error A)) :
  (forall w L, calm w -> views mgr keys L w -> room ps keys (db_of w) -> exists r w' L', m w = (Done r, w') /\
     calm w' /\ views mgr keys L' w' /\ w_uuids w' = w_uuids w /\
     forall k, k ∈ keys -> fst <$> l_holder (L' k) = fst <$> l_holder (L k)) ->
  keeps (internal (hrun m)).
Proof.
  intros Hm v w a s' w' (L & M) Hr E. pose proof M as [C V Mk O].
  destruct (Hm w L C V Hr) as (r & w1 & L1 & E1 & C1 & V1 & U1 & Hh).
  unfold internal in E. rewrite (hbind_done _ _ _ _ _ _ _ (hrun_done _ _ _ _ _ E1)) in E. injection E as _ <- <-.
  exists v. split; [done|]. exists L1. constructor; [done|done| |].
  - intros k Hin. rewrite Mk by done. specialize (Hh k Hin).
    destruct (l_holder (L k)), (l_holder (L1 k)); try done; by split; intros [? [=]].
  - intros k n dl Hin Eh. specialize (Hh k Hin). rewrite Eh in Hh. rewrite U1.
    destruct (l_holder (L k)) as [[tok d]|] eqn:El; [|done]. cbn in Hh. injection Hh as <-. by eapply O.
Qed.

Lemma room_fits w L key t : views mgr keys L w -> key ∈ keys -> room ps keys (db_of w) ->
  t <= max_ttl (ps_config ps) -> l_now (L key) + 10 * as_millis t <= i64_max /\ fence_count (L key) < i64_max.
Proof.
  intros V Hin [H1 H2] Ht. specialize (V _ Hin). destruct V as [V1 V2 V3 V4 V5]. rewrite V1 in H1. split.
  - assert (as_millis t <= as_millis (max_ttl (ps_config ps))) by (unfold as_millis; apply Z.div_le_mono; lia). lia.
  - specialize (H2 key). rewrite V3 in H2. unfold fence_count. destruct (l_fence (L key)) as [[c dl]|] eqn:Ef.
    + exact (H2 (c, dl) Hin eq_refl).
    + unfold i64_max. lia.
Qed.

Lemma keeps_extend key tok t : key ∈ keys -> t <= max_ttl (ps_config ps) ->
  keeps (internal (hrun (extend_with_token mgr key tok t))).
Proof.
  intros Hin Ht. apply keeps_call. intros w L C V Hr. destruct (room_fits w L key t V Hin Hr Ht) as [Hf _].
  unfold extend_with_token. destruct (t <? MIN_TTL) eqn:Hm; [by eexists _, w, L|]. zbool.
  assert (0 < as_millis t) as Hpos.
  { unfold MIN_TTL, from_millis, as_millis in *. apply Z.div_str_pos. lia. }
  pose proof (view_clock _ _ _ (V _ Hin)) as Hnow.
  destruct (ttl_args t (l_now (L key))) as [E1 E2]; [lia|lia|lia|].
  destruct (ttl_op_fits t (L key) Hpos Hnow Hf tok) as [_ F]. pose proof C as [B E].
  destruct (int_exchange w (mgr_conn mgr) key (LExtend tok (as_millis t) (10 * as_millis t)) (L key) EXTEND
    [key; fence_key_for key] [tok; z_to_string (as_millis t); z_to_string (10 * as_millis t)])
    as (w1 & Er & V1 & _ & _ & B1 & St & Sk & _ & U1); [done|done|by rewrite calm_servers; [apply V|]|exact F|].
  rewrite calm_step, calm_servers in * by done. cbn [st_fate quiet lease_after] in *.
  rewrite E1, E2. unfold try_, backend. unfold bind at 1 2. rewrite Er. unfold ret at 1.
  set (l' := (lease_op (LExtend tok (as_millis t) (10 * as_millis t)) (L key)).2) in *.
  exists (Ok (holds tok (L key))), w1, (<[key := l']> L). split.
  { cbn [lease_op]. unfold lease_extend. destruct (holds tok (L key)); reflexivity. }
  split; [by split; [|rewrite St, E]|]. split; [by eapply views_update|]. split; [done|].
  intros k _. destruct (decide (key = k)) as [<-|]; [|by rewrite fn_lookup_insert_ne]. rewrite fn_lookup_insert.
  unfold l'. cbn [lease_op]. unfold lease_extend, holds. destruct (l_holder (L key)) as [[tk dl]|] eqn:Eh; cbn; [|by rewrite Eh].
  destruct (String.eqb_spec tk tok) as [->|]; cbn; [done|by rewrite Eh].
Qed.

Lemma keeps_describe key : keeps (internal (hrun (describe_key mgr key))).
Proof.
  apply keeps_call. intros w L C V _. unfold describe_key, try_, backend. unfold bind at 1 2.
  set (m := cbind _ _). destruct (calm_call w (mgr_conn mgr) m C) as (w1 & E1 & C1 & U1 & S1). rewrite E1.
  assert (meets m (let! held := doc_exists key in let! version := doc_get (fence_key_for key) in
                   let! pttl := doc_pttl key in cret (held, version, pttl))%script) as Hm
    by (unfold m; solve_meets).
  specialize (Hm (w_server w (mgr_conn mgr))). apply (f_equal snd) in Hm. cbn [snd] in Hm.
  assert (r_db (w_server w1 (mgr_conn mgr)) = db_of w) as Ed.
  { rewrite S1, Hm. unfold cbind, doc_exists, doc_get, doc_pttl, cret, doc_read. cbn.
    repeat (case_match; cbn); congruence. }
  unfold ret at 1. destruct (res_map_err _ (m (w_server w (mgr_conn mgr))).1) as [[[held version] pttl]|e];
    eexists _, w1, L; (split; [reflexivity|]); split_and!; try done; intros k Hk; rewrite Ed; by apply V.
Qed.

(** ** Grants *)

Lemma keeps_ret_try {X A B} (r : res X A) (f : A -> HM R (res X B)) :
  (forall a, r = Ok a -> keeps (f a)) -> keeps (htry (hret r) f).
Proof.
  intros Hf. destruct r as [a|e]; [exact (Hf a eq_refl)|].
  intros v w b s' w' M _ E. injection E as _ <- <-. by exists v.
Qed.

Lemma keeps_attempt p key session opts : key ∈ keys -> ttl opts <= max_ttl (ps_config ps) ->
  keeps (hbind (hrun (try_lock_with mgr key opts)) (fun r =>
    match r with
    | Ok h => settle p key session opts h
    | Err (Held _) => hret (Ok (OHeld key))
    | Err _ => hret (Err Internal)
    end)).
Proof.
  intros Hin Ht v w a s' w' (L & M) Hroom E. pose proof M as [C V Mk O].
  destruct (validate opts) as [[]|e] eqn:Hv; last first.
  { assert (try_lock_with mgr key opts w = (Done (Err e), w)) as Et.
    { unfold try_lock_with, try_, bind, ret. by rewrite Hv. }
    rewrite (hbind_done _ _ _ _ _ _ _ (hrun_done _ _ _ _ _ Et)) in E.
    unfold validate in Hv. destruct (_ <? _); [|done]. injection Hv as <-. injection E as _ <- <-.
    exists v. split; [done|]. by exists L. }
  destruct (room_fits w L key (ttl opts) V Hin Hroom Ht) as [Ft Fc].
  destruct (attempt_at mgr opts keys Hv Hsep L w key C V Hin Ft Fc) as (r & w1 & l1 & E1 & C1 & V1 & U1 & Hr).
  { intros dl Eh. specialize (O _ _ _ Hin Eh). lia. }
  rewrite (hbind_done _ _ _ _ _ _ _ (hrun_done _ _ _ _ _ E1)) in E.
  destruct (l_holder (L key)) as [x|] eqn:Hh.
  { destruct Hr as (-> & -> & _ & _). injection E as _ <- <-. exists v. split; [done|].
    eapply mirrored_put; [exact M|exact Hin|exact C1|exact V1|by rewrite U1; lia|done| |].
    - by apply Mk.
    - intros n dl Eh. specialize (O _ _ _ Hin Eh). lia. }
  destruct Hr as (h & -> & Ek & Ei & F1 & Hho & Hhc & El & Et & Eo & Ef & En & _).
  assert (taken mgr keys (<[key := l1]> L) w1 h) as T.
  { unfold taken, flag_of. rewrite Ek, F1, Ei, fn_lookup_insert, lookup_app_r, Nat.sub_diag by lia. unfold holds.
    rewrite El, String.eqb_refl, length_app. cbn. split_and!; try done. lia. }
  pose proof (settle_calm ps keys Hsep v w1 p key session opts h _ C1 V1 T Ek) as Hs.
  destruct (Registry.try_acquire _ _ _ _) as [admitted reg] eqn:Ea.
  destruct Hs as (w2 & C2 & U2 & _ & Hs).
  assert (holders (sv_registry v) !! key = None) as Hfree.
  { apply eq_None_not_Some. rewrite (Mk _ Hin), Hh. by intros []. }
  assert (views mgr keys (<[key := lease_free (<[key := l1]> L key)]> (<[key := l1]> L)) w2 ->
          mirrors (sv_registry v) w2) as Hback.
  { intros V2. eapply mirrored_put with (l' := lease_free l1); [exact M|exact Hin|exact C2| |rewrite U2, U1; lia|done| |by intros n dl].
    - eapply views_ext; [|exact V2]. intros k. destruct (decide (key = k)) as [<-|];
        by rewrite ?fn_lookup_insert, ?fn_lookup_insert_ne.
    - rewrite Hfree. cbn. by split; intros [? [=]]. }
  destruct (known_session (sv_sessions v) session); [destruct admitted|]; destruct Hs as [Es V2];
    rewrite Es in E; injection E as _ <- <-; (eexists; split; [reflexivity|]); [|by apply Hback..].
  revert Ea. unfold Registry.try_acquire. rewrite Hfree. destruct (_ && _); [done|]. intros [= <-].
  eapply mirrored_put; [exact M|exact Hin|exact C2|exact V2|rewrite U2, U1; lia| | |].
  - intros k Hk. cbn. by rewrite lookup_insert_ne.
  - cbn. rewrite lookup_insert_eq, El. by split; intros _; eexists.
  - intros n dl Eh. rewrite El in Eh. injection Eh as Eh _. rewrite Et, Eo in Eh.
    apply owner_token_inj in Eh. rewrite U2, U1. lia.
Qed.

Lemma options_bounded pb opts : options_from_pb pb (ps_config ps) = Ok opts -> ttl opts <= max_ttl (ps_config ps).
Proof.
  unfold options_from_pb. destruct (_ <? _) eqn:Hm; [done|]. zbool. intros [= <-]. by destruct (pb ≫= pb_watchdog).
Qed.

(** Sessions live outside the mirror. *)
Lemma keeps_sessions {A} (f : SessionBook -> M R (A * SessionBook)) :
  (forall b w r w', f b w = (Done r, w') -> w_server w' = w_server w /\ w_budget w' = w_budget w /\
     w_steps w' = w_steps w /\ (w_uuids w <= w_uuids w')%N) ->
  keeps (on_sessions f).
Proof.
  intros Hf v w a s' w' (L & M) _ E. unfold on_sessions, haccess in E. cbn in E. unfold bind in E.
  destruct (f (sv_sessions v) w) as [[[b bk]| | |] w1] eqn:Ef; [|done..]. injection E as _ <- <-.
  destruct (Hf _ _ _ _ Ef) as (S1 & B1 & St1 & U1). pose proof M as [[B St] V Mk O].
  eexists. split; [reflexivity|]. eapply mirrored_same; [exact M| | |exact U1].
  - split; [by rewrite B1|by rewrite St1].
  - by eapply views_same_server.
Qed.

Lemma keeps_serve fuel bearer r : plain r = true -> (forall key, subject r = Some key -> key ∈ keys) ->
  keeps (serve values ps fuel bearer r).
Proof.
  intros Hp Hin.
  assert (harmless (principal values ps bearer)) as Hpr by apply harmless_counters.
  destruct r; try done; cbn [serve].
  - apply keeps_wrap. unfold service_try_lock.
    apply keeps_front_try; [apply harmless_state; by intros v|intros _]. apply keeps_front_try; [done|intros p].
    apply keeps_ret_try. intros opts Ho. apply keeps_front_try; [apply harmless_counters|intros _].
    apply keeps_attempt; [by apply Hin|by eapply options_bounded].
  - apply keeps_wrap. apply keeps_front_try; [done|intros p]. apply keeps_front_try; [apply harmless_ret|intros _].
    by apply keeps_unlock, Hin.
  - apply keeps_wrap. apply keeps_front_try; [done|intros p]. apply keeps_front_try; [apply harmless_ret|intros _].
    cbv zeta. destruct (_ <? _) eqn:Ht; [apply keeps_harmless, harmless_ret|]. zbool. by apply keeps_extend; [apply Hin|].
  - apply keeps_wrap. apply keeps_front_try; [done|intros p]. apply keeps_front_try; [apply harmless_slot|intros g].
    apply keeps_front; [by apply harmless_state|intros sub]. apply keeps_harmless. by apply harmless_state.
  - apply keeps_wrap, keeps_return, keeps_sessions. intros b w x w'.
    unfold register, fresh_owner, instant_now, gets, bind, ret. cbn. intros [= _ <-]. split_and!; try done. cbn. lia.
  - apply keeps_wrap, keeps_return, keeps_sessions. intros b w x w'.
    unfold heartbeat, instant_now, gets, bind, ret. destruct (b !! _) as [e|]; [|by intros [= _ <-]].
    destruct (_ <? _); [by intros [= _ <-]|]. unfold instant_add. destruct (instant_checked_add _ _); [by intros [= _ <-]|done].
  - apply keeps_wrap. apply keeps_front_try; [done|intros p]. apply keeps_front_try; [apply harmless_slot|intros g].
    apply keeps_front; [apply harmless_counters|intros _]. apply keeps_describe.
  - apply keeps_wrap. apply keeps_front_try; [done|intros p]. apply keeps_front_try; [apply harmless_ret|intros _].
    by apply keeps_force, Hin.
  - apply keeps_wrap. apply keeps_front_try; [done|intros p]. apply keeps_front_try; [apply harmless_ret|intros _].
    apply keeps_harmless, harmless_ret.
Qed.

Lemma keeps_time reg w dt : 0 <= dt -> lasting keys (db_of w) dt -> mirrors reg w ->
  mirrors reg (set_server (<[mgr_conn mgr := r_elapse dt (w_server w (mgr_conn mgr))]> (w_server w)) w).
Proof.
  intros Hdt Hl (L & [C V Mk O]). set (s := w_server w (mgr_conn mgr)) in *. set (d' := r_db (r_elapse dt s)).
  set (L' k := mk_lease (db_now d') (l_holder (L k))
                 (if db_live d' !! fence_key_for k is Some _ then l_fence (L k) else None)).
  exists L'. constructor; [done| |done|done]. intros k Hin. cbn [w_server set_server]. rewrite fn_lookup_insert. fold d'.
  destruct (elapse_refines k dt _ _ (L k) (elapse_law dt s Hdt) Hdt (V _ Hin)) as (l' & (Hn & Hx & Hf) & V').
  fold d' in V'. enough (L' k = l') as -> by done.
  destruct V' as [V1 V2 V3 _ _]. destruct l' as [now h fc]. cbn [l_now l_holder l_fence] in *. unfold L'. f_equal; [done| |].
  - destruct (l_holder (L k)) as [[tok dl]|] eqn:Eh; cbn in Hx; [|done].
    assert (now < dl) as Hlt.
    { rewrite Hn, <- (view_now _ _ _ (V _ Hin)). apply (Hl k (holder_entry (tok, dl)) dl Hin); [|done].
      pose proof (view_holder _ _ _ (V _ Hin)) as Vh. by rewrite Eh in Vh. }
    destruct Hx as [[_ ?]|[[? _]|[? _]]]; [done|lia..].
  - rewrite V3. unfold expires in Hf. destruct (l_fence (L k)) as [[c [dl|]]|]; cbn in Hf; [|by subst fc..].
    by destruct Hf as [[_ ->]|[[_ ->]|[_ [->| ->]]]].
Qed.
End mirror.

Section properties.
Context {U : UuidSource} `{!UuidLaws U} {R : Type} `{RS : RedisScan R} `{!RedisLaws R}.


(** A closed session keeps its slots: on a quiet store [close_session]
    frees every lock the session still holds but tells the registry nothing,
    so the principal stays charged for the key; one that is at its ceiling is
    then refused every other key although it holds nothing. *)
Theorem close_leaks_slot ps keys v (w : world R) session e key tok dl L name max :
  calm w -> separate keys -> views (ps_manager ps) keys L w ->
  sv_sessions v !! session = Some e -> (key, tok) ∈ locks e -> (forall p, p ∈ locks e -> p.1 ∈ keys) ->
  l_holder (L key) = Some (tok, dl) -> holders (sv_registry v) !! key = Some name ->
  (0 < max <= count_for (sv_registry v) name)%nat ->
  exists n v' w', service_close_session ps session (alone v) w = (Done (Ok n, alone v'), w') /\
    view key (r_db (w_server w' (mgr_conn (ps_manager ps)))) (lease_free (L key)) /\
    sv_sessions v' !! session = None /\ holders (sv_registry v') !! key = Some name /\
    forall k, holders (sv_registry v) !! k = None -> (Registry.try_acquire k name max (sv_registry v')).1 = false.
Proof.
  intros C Hs V Eb Hl Hk Eh Er Hm.
  destruct (release_bound_calm (ps_manager ps) keys Hs (locks e) L w C V Hk) as (w1 & E1 & _ & V1).
  exists (Z.of_nat (length (locks e)) mod 2 ^ 32), (set_sessions (delete session (sv_sessions v)) v), w1. split_and!.
  - unfold service_close_session.
    rewrite (hbind_done _ _ (alone v) w (locks e) (alone (set_sessions (delete session (sv_sessions v)) v)) w);
      [|unfold on_sessions, haccess, bind, ret, remove; cbn; by rewrite Eb].
    by rewrite (hbind_done _ _ _ _ _ _ _ (hrun_done _ _ _ _ _ E1)).
  - specialize (V1 key (Hk _ Hl)). unfold unlocked in V1. rewrite Eh in V1. by rewrite bool_decide_eq_true_2 in V1.
  - cbn. by rewrite lookup_delete_eq.
  - done.
  - intros k Hnone. change (sv_registry (set_sessions _ v)) with (sv_registry v).
    unfold Registry.try_acquire. rewrite Hnone.
    by rewrite (proj2 (Nat.ltb_lt 0 max)), (proj2 (Nat.leb_le max _)) by lia.
Qed.

(** Watcher slots come back.  With a slot free, [watch] takes one and its
    stream gives it back, with its hub subscription, as soon as the client
    disconnects; without one it is refused and the count restored.  The same
    slot is needed for an instant by [describe_key], which a principal at its
    watcher limit is therefore refused. *)
Theorem watch_slots values ps v (w : world R) bearer key p n :
  resolve values (ps_acl ps) bearer (sv_counters v) = (Ok p, sv_counters v) ->
  may p key (can_watch (p_cfg p)) = Ok tt ->
  sv_counters v !! watchers p = Some n -> 0 <= n -> n + 1 < u64_mod ->
  let slots v := load (watchers p) (sv_counters v) in
  (over (max_watchers (p_cfg p)) n = false -> exists i v',
     service_watch values ps bearer key (alone v) w = (Done (Ok i, alone v'), w) /\
     slots v' = n + 1 /\ slots (disconnect i v') = n /\
     exists sub hs, hub_subs (sv_hub (disconnect i v')) !! sub = Some hs /\ su_open hs = false) /\
  (over (max_watchers (p_cfg p)) n = true -> exists v',
     service_watch values ps bearer key (alone v) w = (Done (Err ResourceExhausted, alone v'), w) /\
     service_describe_key values ps bearer key (alone v) w = (Done (Err ResourceExhausted, alone v'), w) /\
     slots v' = n).
Proof.
  intros Er Hm Hn H0 Hu slots.
  set (v1 := set_counters (alter (fun n => u64_add n 1) (watchers p) (sv_counters v)) v).
  assert (forall (A : Type) (k : Principal -> HM R (res Status A)), htry (principal values ps bearer) k (alone v) w = k p (alone v) w) as Hp.
  { intros A k. apply htry_ok. unfold principal, on_counters. apply (hstate_same _ (alone v)). cbn. rewrite Er. by destruct v. }
  assert (load (watchers p) (sv_counters v) = n) as Ld by by unfold load; rewrite Hn.
  split; intros Ho.
  - assert (forall (A : Type) (k : WatcherGuard -> HM R (res Status A)),
      htry (watch_slot p key) k (alone v) w = k (mk_guard (watchers p)) (alone v1) w) as Hslot.
    { intros A k. apply htry_ok. unfold watch_slot. rewrite (htry_ok _ _ (alone v) w tt (alone v) w) by by rewrite Hm.
      rewrite (hbind_done _ _ (alone v) w n (alone v1) w);
        [|unfold on_counters; apply (hstate_done _ (alone v)); cbn; by rewrite Ld]. by rewrite Ho. }
    set (fw := mk_forwarder (mk_guard (watchers p)) (length (hub_subs (sv_hub v))) [] true).
    set (v3 := set_streams (sv_streams v ++ [fw]) (set_hub (subscribe key (sv_hub v)) v1)).
    exists (length (sv_streams v)), v3. unfold service_watch. rewrite Hp, Hslot. split; [reflexivity|].
    unfold slots. change (sv_counters v3) with (sv_counters v1). split.
    { unfold load. cbn. rewrite list_lookup_alter_eq, Hn. cbn. by rewrite u64_add_small. }
    assert (sv_streams v3 !! length (sv_streams v) = Some fw) as Efw.
    { unfold v3. cbn [sv_streams set_streams]. by rewrite lookup_app_r, Nat.sub_diag by lia. }
    unfold disconnect. rewrite Efw. unfold fw. cbv zeta.
    assert (exists hs, hub_subs (subscribe key (sv_hub v)) !! length (hub_subs (sv_hub v)) = Some hs) as [hs Ehs].
    { unfold subscribe. destruct (hub_keys (sv_hub v) !! key); cbn; rewrite lookup_app_r, Nat.sub_diag by lia; by eexists. }
    cbn [sv_hub set_stream set_streams set_counters set_hub v3 v1]. rewrite Ehs. split.
    + unfold load, drop_guard, fetch_sub. cbn. rewrite !list_lookup_alter_eq, Hn. cbn.
      rewrite u64_add_small by lia. rewrite wrap64_small; [lia|]. unfold in_u64. lia.
    + exists (length (hub_subs (sv_hub v))), (leave hs). split; [|done]. cbn. apply list_lookup_insert_eq.
      by eapply lookup_lt_Some.
  - set (v2 := set_counters (alter (fun n => wrap64 (n - 1)) (watchers p) (sv_counters v1)) v1).
    assert (forall (A : Type) (k : WatcherGuard -> HM R (res Status A)),
      htry (watch_slot p key) k (alone v) w = (Done (Err ResourceExhausted, alone v2), w)) as Hslot.
    { intros A k. apply htry_err. unfold watch_slot. rewrite (htry_ok _ _ (alone v) w tt (alone v) w) by by rewrite Hm.
      rewrite (hbind_done _ _ (alone v) w n (alone v1) w);
        [|unfold on_counters; apply (hstate_done _ (alone v)); cbn; by rewrite Ld]. by rewrite Ho. }
    exists v2. unfold service_watch, service_describe_key. rewrite !Hp, !Hslot. split_and!; [done..|].
    unfold slots, load. cbn. rewrite !list_lookup_alter_eq, Hn. cbn.
    rewrite u64_add_small by lia. rewrite wrap64_small; [lia|]. unfold in_u64. lia.
Qed.
End properties.

(** ** Witnesses *)

Definition demo_values (m : gmap string Principal) : list Principal := map snd (map_to_list m).
Definition demo_ci : PrincipalConfig :=
  mk_principal_config "ci" "s3cret" ["job"%string] true true true true false 1 1.
Definition demo_acl : Acl := mk_acl false {["s3cret"%string := mk_principal demo_ci 0 1]} File.
Definition demo_service : PalisadeService := mk_service demo_mgr default_service_config demo_acl.
Definition demo_svc : svc := mk_svc true ∅ registry_new [0; 0] hub_new [].
Definition demo_bearer : option string := Some "Bearer s3cret"%string.

Lemma denied_no_effect_witness : exists e s',
  serve demo_values demo_service 1 demo_bearer (UnlockForce "job") (alone demo_svc) (demo_world demo_granted []) =
    (Done (Err e, s'), demo_world demo_granted []).
Proof.
  destruct (denied_no_effect demo_values demo_service 1 demo_bearer (UnlockForce "job") (alone demo_svc)
    (demo_world demo_granted []) PermissionDenied) as (e & s' & E & _); [vm_compute; reflexivity|].
  exists e, s'. exact E.
Defined.

Lemma grant_outcome_witness : exists r v' w',
  service_try_lock demo_values demo_service demo_bearer "job" None "" (alone demo_svc) (demo_world demo_db []) =
    (Done (r, alone v'), w').
Proof.
  destruct (grant_outcome demo_values demo_service ["job"%string] demo_separate_job demo_svc (demo_world demo_db [])
    demo_bearer "job" None "" demo_ci (with_ttl (from_secs 30) default_options) (fun _ => demo_lease))
    as (r & v' & w' & l' & E & _).
  - by split.
  - intros k ->%list_elem_of_singleton. apply view_free. done.
  - by apply list_elem_of_singleton.
  - reflexivity.
  - vm_compute. reflexivity.
  - reflexivity.
  - intros p st E. vm_compute in E. injection E as <- <-. reflexivity.
  - reflexivity.
  - reflexivity.
  - vm_compute. discriminate.
  - vm_compute. reflexivity.
  - discriminate.
  - exists r, v', w'. exact E.
Defined.


Definition demo_charged : svc :=
  mk_svc true {["t"%string := demo_session]} (Registry.try_acquire "job" "ci" 1 registry_new).2 [0; 0] hub_new [].

Lemma close_leaks_slot_witness : exists n v' w',
  service_close_session demo_service "t" (alone demo_charged) demo_later = (Done (Ok n, alone v'), w') /\
  (Registry.try_acquire "other" "ci" 1 (sv_registry v')).1 = false.
Proof.
  destruct (close_leaks_slot demo_service ["job"%string] demo_charged demo_later "t" demo_session "job" "A" 100
    (fun _ => demo_held) "ci" 1) as (n & v' & w' & E & _ & _ & _ & Hr).
  - by split.
  - exact demo_separate_job.
  - exact demo_views.
  - reflexivity.
  - by apply list_elem_of_here.
  - exact demo_bound.
  - reflexivity.
  - reflexivity.
  - vm_compute. split; constructor.
  - exists n, v', w'. split; [exact E|]. apply Hr. reflexivity.
Defined.

Lemma watch_slots_witness : exists i v',
  service_watch demo_values demo_service demo_bearer "job" (alone demo_svc) (demo_world demo_granted []) =
    (Done (Ok i, alone v'), demo_world demo_granted []).
Proof.
  destruct (watch_slots demo_values demo_service demo_svc (demo_world demo_granted []) demo_bearer "job"
    (mk_principal demo_ci 0 1) 0) as [H _]; [reflexivity|reflexivity|reflexivity|concrete|concrete|].
  destruct (H eq_refl) as (i & v' & E & _). exists i, v'. exact E.
Defined.
