(* ===== verification/Server.v ===== *)
(** * The server binary ([crates/server/src/main.rs])

    Its arguments, how the service is put together at startup (and when it
    refuses to start), and the shutdown: readiness off, health off, a grace,
    the listener closed (ADR 0023).  The theorems: a server whose ACL cannot
    be loaded never serves, draining refuses grants and changes nothing else,
    and what every run of the lifecycle keeps to. *)

From S2P Require Import Prelude Core Redis Scripts World Lease Single Scan Multi Registry Auth Sessions WatchHub Handlers Service ServiceState.

(** ** Arguments

    [SocketAddr]s are kept as the text they were parsed from. *)
Record Args := mk_args {
  redis_url : string;
  listen : string;
  max_ttl_secs : Z;
  tls_cert : option string;
  tls_key : option string;
  client_ca : option string;
  drain_grace_secs : Z;
  metrics_addr : option string;
  acl_file : option string;
  auth_mode : string;
}.

(** The [default_value]s of [#[arg]]. *)
Definition default_args : Args :=
  mk_args "redis://127.0.0.1:6379" "0.0.0.0:50051" 600 None None None 10 None None "file".

(** The [requires] of [#[arg]], which [clap] enforces on the arguments given;
    [mode_given]: [--auth-mode] was. *)
Definition implied (given needed : bool) : bool := negb given || needed.
Definition is_given {A} (o : option A) : bool := match o with Some _ => true | None => false end.
Definition args_accepted (a : Args) (mode_given : bool) : bool :=
  implied (is_given (tls_cert a)) (is_given (tls_key a)) && implied (is_given (tls_key a)) (is_given (tls_cert a)) &&
  implied (is_given (client_ca a)) (is_given (tls_cert a)) && implied mode_given (is_given (acl_file a)).

(** ** The ACL file *)

(** The outside world at startup: the Redis connection of a URL (or why there
    is none), a file's
    text, what [serde_json] makes of an ACL document, whether [tonic] takes
    the certificate, key and CA, whether an address can be bound, and whether
    the metrics recorder installs. *)
Class Host := {
  open_redis : string -> res error conn;
  read_file : string -> option string;
  parse_principals : string -> option (list PrincipalConfig);
  tls_accepted : string -> string -> option string -> bool;
  bind_address : string -> bool;
  install_recorder : bool;
}.

Section startup.
Context `{Host}.

(** [Acl::from_json]; the counters of its principals are new. *)
Definition from_json (json : string) : res error Acl * store :=
  match parse_principals json with
  | None => (Err (InvalidConfig "bad acl json: {e}"), [])
  | Some cfgs => from_principals cfgs []
  end.

(** [Acl::load_file]. *)
Definition load_file (path : string) : res error Acl * store :=
  match read_file path with
  | None => (Err (InvalidConfig "cannot read acl file {path:?}: {e}"), [])
  | Some json => from_json json
  end.

(** ** Startup *)

(** The errors [main] returns. *)
Inductive startup_error := RedisFailed (e : error) | AclFailed (e : error) | FileFailed | TlsFailed | BindFailed | MetricsFailed.

(** What [serve_with_incoming_shutdown] is given: the service and its shared
    state, the TLS material, the metrics address, the grace. *)
Record binary := mk_binary {
  bi_service : PalisadeService;
  bi_shared : svc;
  bi_tls : option (string * string * option string);
  bi_metrics : option string;
  bi_grace : duration;
}.

(** [RedisLockManager::connect] of the binary's URL. *)
Definition connect_redis (url : string) : res startup_error RedisLockManager :=
  match config_validate (config_new url) with
  | Err e => Err (RedisFailed e)
  | Ok _ => match open_redis url with
            | Ok c => res_map_err RedisFailed (connect (config_new url) c)
            | Err e => Err (RedisFailed e)
            end
  end.

(** The service, in open mode or under the ACL of the file. *)
Definition build_service (a : Args) (manager : RedisLockManager) : res startup_error (PalisadeService * svc) :=
  let '(ps, sv) := service_new manager
    (mk_service_config (sc_default_ttl default_service_config) (from_secs (max_ttl_secs a))) in
  match acl_file a with
  | None => Ok (ps, sv)
  | Some path =>
      match load_file path with
      | (Err e, _) => Err (AclFailed e)
      | (Ok acl, counters) =>
          let acl := if String.eqb (auth_mode a) "trusted-header" then Auth.with_mode TrustedHeader acl else acl in
          Ok (with_acl acl ps, set_counters counters sv)
      end
  end.

(** [if let (Some(cert), Some(key)) = ..]. *)
Definition build_tls (a : Args) : res startup_error (option (string * string * option string)) :=
  match tls_cert a, tls_key a with
  | Some cert, Some key =>
      match read_file cert, read_file key with
      | Some cert, Some key =>
          match client_ca a with
          | None => if tls_accepted cert key None then Ok (Some (cert, key, None)) else Err TlsFailed
          | Some ca =>
              match read_file ca with
              | Some ca => if tls_accepted cert key (Some ca) then Ok (Some (cert, key, Some ca)) else Err TlsFailed
              | None => Err FileFailed
              end
          end
      | _, _ => Err FileFailed
      end
  | _, _ => Ok None
  end.

(** [main] up to the call that serves. *)
Definition startup (a : Args) : res startup_error binary :=
  match connect_redis (redis_url a) with
  | Err e => Err e
  | Ok manager =>
      match build_service a manager with
      | Err e => Err e
      | Ok (ps, sv) =>
          match build_tls a with
          | Err e => Err e
          | Ok tls =>
              if negb (bind_address (listen a)) then Err BindFailed else
              match metrics_addr a with
              | Some _ => if install_recorder then Ok (mk_binary ps sv tls (metrics_addr a) (from_secs (drain_grace_secs a)))
                          else Err MetricsFailed
              | None => Ok (mk_binary ps sv tls None (from_secs (drain_grace_secs a)))
              end
          end
      end
  end.
End startup.

(** ** The lifecycle *)

(** The task [shutdown]: waiting for a signal; the readiness flag is next;
    the health service is next; the grace runs since an instant; done, when
    [tonic] closes the listener. *)
Inductive drain_phase := Waiting | Signalled | FlagOff | Grace (since : Z) | Shut (since at_ : Z).

Record server := mk_server {
  se_shared : svc;
  se_health : bool;              (* SERVING *)
  se_phase : drain_phase;
}.
Definition boot (b : binary) : server := mk_server (bi_shared b) true Waiting.

(** The listener takes connections. *)
Definition listening (se : server) : bool := match se_phase se with Shut _ _ => false | _ => true end.

(** The next step of [shutdown] once [drain_signal] resolved. *)
Definition shutdown_step (grace : duration) (now : Z) (se : server) : option server :=
  match se_phase se with
  | Waiting | Shut _ _ => None
  | Signalled => Some (mk_server (set_ready false (se_shared se)) (se_health se) FlagOff)
  | FlagOff => Some (mk_server (se_shared se) false (Grace now))
  | Grace since => if since + grace <=? now then Some (mk_server (se_shared se) (se_health se) (Shut since now)) else None
  end.

(** Which requests [check_ready] guards. *)
Definition asks_grant (r : request) : bool :=
  match r with TryLock _ _ _ | TryLockFor _ _ _ _ => true | _ => false end.

(** ** Draining changes nothing but grants *)

Definition dim (v : svc) : svc := set_ready false v.
Definition dim_shared (s : shared) : shared := mk_shared (dim (sh_state s)) (sh_others s).

(** What the other handlers do at an access: nothing with the flag. *)
Definition heedless (f : svc -> svc) : Prop := forall v, f (dim v) = dim (f v).

Section blind.
Context {R : Type}.

(** Code that runs the same whether the server drains or not: the same answer
    and the same world; the shared state differs in the flag only. *)
Definition dim_result {A} (r : outcome (A * shared) * world R) : outcome (A * shared) * world R :=
  match r with
  | (Done (a, s), w) => (Done (a, dim_shared s), w)
  | r => r
  end.
Definition blind {A} (m : HM R A) : Prop := forall s w, Forall heedless (sh_others s) ->
  m (dim_shared s) w = dim_result (m s w) /\
  match (m s w).1 with Done (_, s') => Forall heedless (sh_others s') | _ => True end.

Lemma blind_ret {A} (a : A) : blind (hret a).
Proof. done. Qed.
Lemma blind_bind {A B} (m : HM R A) (f : A -> HM R B) : blind m -> (forall a, blind (f a)) -> blind (hbind m f).
Proof.
  intros Hm Hf s w Ho. destruct (Hm s w Ho) as [E Ho']. unfold hbind, bind. rewrite E.
  destruct (m s w) as [[[a s']| | |] w']; [|done..]. cbn in *. by apply Hf.
Qed.
Lemma blind_try {X A B} (m : HM R (res X A)) (f : A -> HM R (res X B)) :
  blind m -> (forall a, blind (f a)) -> blind (htry m f).
Proof. intros Hm Hf. apply blind_bind; [done|]. intros [a|e]; [apply Hf|apply blind_ret]. Qed.
Lemma blind_run {A} (m : M R A) : blind (hrun m).
Proof. intros s w Ho. unfold hrun, bind, ret. by destruct (m w) as [[a| | |] w']. Qed.

Lemma dim_interfere s : Forall heedless (sh_others s) -> interfere (dim_shared s) = dim_shared (interfere s) /\
  Forall heedless (sh_others (interfere s)).
Proof.
  unfold interfere, dim_shared. destruct s as [v [|f fs]]; cbn; [done|]. intros [Hf Hfs]%Forall_cons.
  by rewrite Hf.
Qed.
Lemma blind_access {A} (f : svc -> M R (A * svc)) :
  (forall v w, f (dim v) w = match f v w with (Done (a, v'), w') => (Done (a, dim v'), w') | r => r end) ->
  blind (haccess f).
Proof.
  intros Hf s w Ho. unfold haccess, bind, ret. destruct (dim_interfere s Ho) as [-> Ho']. cbn. rewrite Hf.
  by destruct (f (sh_state (interfere s)) w) as [[[a v']| | |] w'].
Qed.
Lemma blind_state {A} (f : svc -> A * svc) : (forall v, f (dim v) = ((f v).1, dim (f v).2)) -> blind (hstate f).
Proof. intros Hf. apply blind_access. intros v w. unfold ret. rewrite Hf. by destruct (f v). Qed.
Lemma blind_sessions {A} (f : SessionBook -> M R (A * SessionBook)) : blind (on_sessions f).
Proof. apply blind_access. intros v w. unfold bind, ret. cbn. by destruct (f (sv_sessions v) w) as [[[a b]| | |] w']. Qed.
Lemma blind_registry {A} (f : HeldRegistry -> A * HeldRegistry) : blind (on_registry (R:=R) f).
Proof. apply blind_state. intros v. cbn. by destruct (f (sv_registry v)). Qed.
Lemma blind_counters {A} (f : store -> A * store) : blind (on_counters (R:=R) f).
Proof. apply blind_state. intros v. cbn. by destruct (f (sv_counters v)). Qed.
End blind.

Create HintDb blind discriminated.
#[export] Hint Resolve blind_ret blind_run blind_sessions blind_registry blind_counters : blind.
Ltac solve_blind :=
  repeat first
    [ solve [eauto with blind]
    | apply blind_try; [|intro] | apply blind_bind; [|intro]
    | match goal with
      | |- blind (match ?x with _ => _ end) => destruct x
      | |- blind (if ?x then _ else _) => destruct x
      end ].

Section handlers.
Context {U : UuidSource} {R : Type} `{RedisScan R}.
Variable values : gmap string Principal -> list Principal.
Variable ps : PalisadeService.

Lemma blind_principal bearer : blind (R:=R) (principal values ps bearer).
Proof. apply blind_counters. Qed.
Lemma blind_free key : blind (R:=R) (free_holder key).
Proof. unfold free_holder. solve_blind. Qed.
Lemma blind_slot p key : blind (R:=R) (watch_slot p key).
Proof. unfold watch_slot. solve_blind. Qed.
Lemma blind_internal {A} (m : HM R (res error A)) : blind m -> blind (internal m).
Proof. intros. unfold internal. apply blind_bind; [done|]. intros. apply blind_ret. Qed.

Lemma blind_serve fuel bearer r : asks_grant r = false -> blind (R:=R) (serve values ps fuel bearer r).
Proof.
  pose proof blind_principal as Hp. pose proof blind_free as Hf. pose proof blind_slot as Hs.
  destruct r; cbn [asks_grant serve]; intros [=]; apply blind_try; try (intros; apply blind_ret).
  - unfold service_unlock. apply blind_try; [done|]. intros p. apply blind_try; [apply blind_ret|]. intros _.
    apply blind_try; [apply blind_internal, blind_run|]. intros b. solve_blind.
  - unfold service_extend. apply blind_try; [done|]. intros p. apply blind_try; [apply blind_ret|]. intros _.
    cbn zeta. destruct (_ <? _); [apply blind_ret|]. apply blind_internal, blind_run.
  - unfold service_watch. apply blind_try; [done|]. intros p. apply blind_try; [done|]. intros g.
    apply blind_bind; [by apply blind_state|]. intros sub. by apply blind_state.
  - unfold service_register_session. cbn zeta. solve_blind.
  - unfold service_heartbeat. solve_blind.
  - unfold service_close_session. solve_blind.
  - unfold service_describe_key. apply blind_try; [done|]. intros p. apply blind_try; [done|]. intros g.
    apply blind_bind; [apply blind_counters|]. intros _. apply blind_internal, blind_run.
  - unfold service_unlock_force. apply blind_try; [done|]. intros p. apply blind_try; [apply blind_ret|]. intros _.
    apply blind_try; [apply blind_internal, blind_run|]. intros b. solve_blind.
  - unfold service_list_locks. apply blind_try; [done|]. intros p. apply blind_try; [apply blind_ret|]. intros _. apply blind_ret.
Qed.
End handlers.

(** *** A grant asked of a draining server *)

Section draining.
Context {U : UuidSource} {R : Type} `{RedisScan R}.
Variable values : gmap string Principal -> list Principal.
Variable ps : PalisadeService.

Lemma dim_off v : sv_ready v = false -> dim v = v.
Proof. destruct v; cbn. by intros ->. Qed.
Lemma dim_shared_off s : sv_ready (sh_state s) = false -> dim_shared s = s.
Proof. intros Hr. unfold dim_shared. rewrite dim_off by done. by destruct s. Qed.
Lemma interfere_off s : Forall heedless (sh_others s) -> sv_ready (sh_state s) = false ->
  sv_ready (sh_state (interfere s)) = false.
Proof. intros Ho Hr. rewrite <- (dim_shared_off s Hr). by destruct (dim_interfere s Ho) as [-> _]. Qed.

Lemma grant_refused fuel bearer r s (w : world R) : asks_grant r = true -> Forall heedless (sh_others s) ->
  sv_ready (sh_state s) = false -> serve values ps fuel bearer r s w = (Done (Err Unavailable, interfere s), w).
Proof.
  intros Hg Ho Hr. pose proof (interfere_off s Ho Hr) as Hi.
  assert (E : check_ready (R:=R) s w = (Done (Err Unavailable, interfere s), w)).
  { unfold check_ready, hstate, haccess, bind, ret. cbn. rewrite Hi. by destruct (interfere s). }
  destruct r; try done; cbn [serve]; eapply htry_err; unfold service_try_lock, service_try_lock_for; by eapply htry_err.
Qed.

(** While the flag is off no request turns it on. *)
Lemma serve_off fuel bearer r s (w : world R) a s' w' : Forall heedless (sh_others s) ->
  sv_ready (sh_state s) = false -> serve values ps fuel bearer r s w = (Done (a, s'), w') ->
  sv_ready (sh_state s') = false.
Proof.
  intros Ho Hr E. destruct (asks_grant r) eqn:Hg.
  - rewrite (grant_refused _ _ _ _ _ Hg Ho Hr) in E. injection E as <- <- <-. by apply interfere_off.
  - destruct (blind_serve values ps fuel bearer r Hg s w Ho) as [Eb _].
    rewrite (dim_shared_off s Hr), E in Eb. injection Eb as Es. rewrite Es. done.
Qed.
End draining.

(** ** Runs of the server *)

Section lifecycle.
Context {U : UuidSource} {R : Type} `{RedisScan R}.
Variable values : gmap string Principal -> list Principal.
Variable order : SessionBook -> list string.
Variable b : binary.
Abbreviation ps := (bi_service b).

(** An answered request, with the phase it arrived in. *)
Record entry := mk_entry { en_phase : drain_phase; en_request : request; en_answer : res Status response }.

(** What becomes of the lifecycle while a request is in flight: the signal,
    and steps of [shutdown] at instants between [lo] and [hi]. *)
Inductive advance (lo hi : Z) : server -> server -> Prop :=
| AdSignal se : se_phase se = Waiting -> advance lo hi se (mk_server (se_shared se) (se_health se) Signalled)
| AdShutdown now se se' : lo <= now <= hi -> shutdown_step (bi_grace b) now se = Some se' -> advance lo hi se se'.

(** One step of the process and of what is around it: a request that arrives
    while the listener is open, with other handlers at work and the lifecycle
    going on meanwhile (the flag is read once, at the start: after that it
    can go off at any point); a turn of the sweeper; the lifecycle; anything
    else in the world.  A request that arrived before the listener closed is
    answered after. *)
Inductive happens : server -> world R -> list entry -> server -> world R -> Prop :=
| HRequest fuel bearer r others se w a s' w' se' :
    listening se = true -> Forall heedless others ->
    serve values ps fuel bearer r (mk_shared (se_shared se) others) w = (Done (a, s'), w') ->
    w_clock w <= w_clock w' ->
    rtc (advance (w_clock w) (w_clock w')) (mk_server (sh_state s') (se_health se) (se_phase se)) se' ->
    happens se w [mk_entry (se_phase se) r a] se' w'
| HSweep se w book w' :
    sweeper_round (ps_manager ps) order (sv_sessions (se_shared se)) w = (Done book, w') -> w_clock w <= w_clock w' ->
    happens se w [] (mk_server (set_sessions book (se_shared se)) (se_health se) (se_phase se)) w'
| HLifecycle se w se' : advance (w_clock w) (w_clock w) se se' -> happens se w [] se' w
| HElse se w w' : w_clock w <= w_clock w' -> happens se w [] se w'.

Inductive runs (w0 : world R) : list entry -> server -> world R -> Prop :=
| RStart : runs w0 [] (boot b) w0
| RStep log se w new se' w' : runs w0 log se w -> happens se w new se' w' -> runs w0 (log ++ new) se' w'.

(** The flag is off from its step on; the health service answers NOT_SERVING
    from the next; the listener closes no sooner than the grace after that. *)
Record lifecycle_ok (now : Z) (se : server) : Prop := mk_lifecycle_ok {
  lo_ready : match se_phase se with Waiting | Signalled => True | _ => sv_ready (se_shared se) = false end;
  lo_health : se_health se = match se_phase se with Waiting | Signalled | FlagOff => true | _ => false end;
  lo_grace : match se_phase se with
    | Grace since => since <= now
    | Shut since at_ => since + bi_grace b <= at_ <= now
    | _ => True
    end;
}.

(** Requests were taken only while the listener was open, and a request for
    a grant that arrived after the flag went off was refused. *)
Definition entry_ok (e : entry) : Prop :=
  match en_phase e with
  | Waiting | Signalled => True
  | FlagOff | Grace _ => asks_grant (en_request e) = true -> en_answer e = Err Unavailable
  | Shut _ _ => False
  end.

Lemma lifecycle_later now now' se : now <= now' -> lifecycle_ok now se -> lifecycle_ok now' se.
Proof. intros Hn [A B C]. split; [done..|]. destruct (se_phase se); try done; lia. Qed.

Lemma advance_ok lo hi se se' : lifecycle_ok hi se -> advance lo hi se se' -> lifecycle_ok hi se'.
Proof.
  intros Hok Ha. revert Hok. destruct Ha as [se0 E|now se0 se1 Hnow E]; intros [A B C].
  - rewrite E in A, B, C. by split.
  - unfold shutdown_step in E. destruct (se_phase se0) eqn:P; try done.
    + injection E as <-. by split.
    + injection E as <-. split; cbn; [done..|lia].
    + destruct (_ <=? now) eqn:G; [|done]. injection E as <-. zbool. split; cbn; [done..|lia].
Qed.
Lemma advances_ok lo hi se se' : rtc (advance lo hi) se se' -> lifecycle_ok hi se -> lifecycle_ok hi se'.
Proof. induction 1 as [|x y z Hxy _ IH]; [done|]. intros Hx. apply IH. by eapply advance_ok. Qed.

Lemma happens_ok se w new se' w' : happens se w new se' w' -> lifecycle_ok (w_clock w) se ->
  lifecycle_ok (w_clock w') se' /\ Forall entry_ok new.
Proof.
  intros Hh. destruct Hh as [fuel bearer r others se0 w0 a s' w1 se1 Hl Ho E Hc Ha|se0 w0 book w1 E Hc|se0 w0 se1 Ha|se0 w0 w1 Hc]; intros Hok.
  - split.
    + eapply advances_ok; [exact Ha|]. destruct Hok as [A B C]. split; cbn; [|done|destruct (se_phase se0); try done; lia].
      pose proof (serve_off values ps fuel bearer r (mk_shared (se_shared se0) others) w0 a s' w1 Ho) as Hoff. cbn in Hoff.
      destruct (se_phase se0); [done..| | |]; by apply Hoff.
    + apply Forall_singleton. unfold entry_ok, listening in *. cbn. destruct Hok as [A _ _].
      destruct (se_phase se0); try done; intros Hg;
        rewrite (grant_refused values ps fuel bearer r (mk_shared (se_shared se0) others) w0 Hg Ho A) in E; by injection E as <- _ _.
  - split; [|done]. eapply (lifecycle_later (w_clock w0)); [done|]. by destruct Hok as [A B C].
  - split; [|done]. by eapply advance_ok.
  - split; [|done]. by eapply lifecycle_later.
Qed.

End lifecycle.

(** ** Properties *)

Section properties.
Context `{Host}.

Lemma resolve_store values a bearer st st' : acl_open a = false -> (resolve values a bearer st).1 = (resolve values a bearer st').1.
Proof. intros Ho. unfold resolve, resolve_with_header. rewrite Ho. by case_decide. Qed.

(** What [startup] put together. *)
Lemma startup_parts a b : startup a = Ok b -> exists manager,
  build_service a manager = Ok (bi_service b, bi_shared b) /\ build_tls a = Ok (bi_tls b).
Proof.
  unfold startup. destruct (connect_redis _) as [m|]; [|done]. destruct (build_service a m) as [[ps sv]|] eqn:E; [|done].
  destruct (build_tls a) as [tls|] eqn:Et; [|done]. destruct (negb _); [done|].
  destruct (metrics_addr a); [destruct install_recorder; [|done]|]; intros [= <-]; by exists m.
Qed.

(** C35: The server fails closed.  If it was started with [--acl-file], it
    serves only with that file read and parsed, every token in it non-empty,
    and no caller that does not present a token of the file is resolved to a
    principal -- with either [--auth-mode], mistyped ones too; and a
    certificate it was given is in use, with the key and the CA given. *)
Theorem startup_fails_closed a mode_given b : args_accepted a mode_given = true -> startup a = Ok b ->
  (forall path, acl_file a = Some path -> exists json cfgs,
    read_file path = Some json /\ parse_principals json = Some cfgs /\
    Forall (fun c => pc_token c <> ""%string) cfgs /\
    forall values bearer counters, (forall c, In c cfgs -> bearer <> Some ("Bearer " +:+ pc_token c)) ->
      (resolve values (ps_acl (bi_service b)) bearer counters).1 = Err Unauthenticated) /\
  (tls_cert a <> None -> exists cert key ca, bi_tls b = Some (cert, key, ca) /\
    (tls_cert a ≫= read_file) = Some cert /\ (tls_key a ≫= read_file) = Some key /\ (client_ca a ≫= read_file) = ca /\
    is_given ca = is_given (client_ca a) /\ tls_accepted cert key ca = true).
Proof.
  intros Hargs Hst. apply startup_parts in Hst as (m & Hs & Ht). split.
  - intros path Ep. unfold build_service, service_new, load_file, from_json in Hs. rewrite Ep in Hs.
    destruct (read_file path) as [json|]; [|done]. destruct (parse_principals json) as [cfgs|] eqn:Epar; [|done].
    destruct (from_principals cfgs []) as [[acl|e] st] eqn:Ea; [|done]. injection Hs as Hps _.
    exists json, cfgs. split; [done|]. split; [done|].
    assert (Hopen : acl_open acl = false).
    { unfold from_principals in Ea. destruct (insert_principals _ _ _) as [[]]; [|done]. by injection Ea as <- _. }
    pose proof (resolve_correct (fun _ => []) cfgs [] None) as Hf. rewrite Ea in Hf. split; [apply Hf|].
    intros values bearer counters Hb. rewrite <- Hps. cbn [ps_acl with_acl].
    destruct (String.eqb _ _); [by rewrite trusted_header_refuses|].
    rewrite (resolve_store _ _ _ _ st Hopen). pose proof (resolve_correct values cfgs [] bearer) as Hr.
    rewrite Ea in Hr. destruct Hr as [_ Hr]. destruct (resolve values acl bearer st).1 as [p|e]; [|by destruct Hr as [-> _]].
    destruct Hr as (token & -> & Hl). unfold last_with in Hl. apply find_some in Hl as [Hin Heq].
    apply in_rev in Hin. apply String.eqb_eq in Heq. exfalso. apply (Hb _ Hin). by rewrite Heq.
  - intros Hc. unfold build_tls in Ht. unfold args_accepted, implied in Hargs.
    destruct (tls_cert a) as [c|]; [|done]. destruct (tls_key a) as [k|]; [|done]. cbn [mbind option_bind].
    destruct (read_file c) as [cert|]; [|done]. destruct (read_file k) as [key|]; [|done].
    destruct (client_ca a) as [ca|]; cbn [mbind option_bind is_given].
    + destruct (read_file ca) as [pem|]; [|done]. destruct (tls_accepted _ _ _) eqn:E; [|done]. injection Ht as <-.
      by exists cert, key, (Some pem).
    + destruct (tls_accepted _ _ _) eqn:E; [|done]. injection Ht as <-. by exists cert, key, None.
Qed.
(** A [--max-ttl-secs] below the service's default lease of 30 s makes every
    request that names no ttl (or 0) an [InvalidArgument]. *)
Theorem short_max_refuses_default a b pb : startup a = Ok b -> max_ttl_secs a < 30 ->
  match pb with Some o => pb_ttl_ms o = 0 | None => True end ->
  options_from_pb pb (ps_config (bi_service b)) = Err InvalidArgument.
Proof.
  intros Hst Hm Hp. apply startup_parts in Hst as (m & Hs & _). unfold build_service, service_new in Hs.
  assert (ps_config (bi_service b) = mk_service_config (from_secs 30) (from_secs (max_ttl_secs a))) as ->.
  { destruct (acl_file a) as [path|]; [|by injection Hs as <- _].
    destruct (load_file path) as [[acl|e] st]; [|done]. by injection Hs as <- _. }
  assert ((pb ≫= fun o => if pb_ttl_ms o =? 0 then None else Some (from_millis (pb_ttl_ms o))) = None) as E.
  { destruct pb as [o|]; [|done]. cbn. by rewrite Hp. }
  unfold options_from_pb. rewrite E. cbn [default sc_default_ttl max_ttl]. unfold from_secs.
  by rewrite (proj2 (Z.ltb_lt _ _)) by lia.
Qed.
End properties.

Section drain.
Context {U : UuidSource} {R : Type} `{RedisScan R}.

(** C14: Draining is invisible to holders ("Unlock/Extend/Watch stay live
    throughout", ADR 0023): every request that is not for a grant is answered
    the same by a draining server -- the same answer, the same effect on
    Redis, the same commands at the same times, the same new state up to the
    flag -- under whatever the other handlers do meanwhile and whatever
    becomes of its messages. *)
Theorem drain_transparent values ps fuel bearer r v others (w : world R) :
  asks_grant r = false -> Forall heedless others ->
  serve values ps fuel bearer r (mk_shared (set_ready false v) others) w =
    dim_result (serve values ps fuel bearer r (mk_shared v others) w).
Proof. intros Hg Ho. exact (proj1 (blind_serve values ps fuel bearer r Hg (mk_shared v others) w Ho)). Qed.

(** C13: What every run of the server keeps to, whatever requests, sweeps and
    lifecycle steps interleave, with requests in flight across any of them:
    from the readiness flip on the flag stays off and every request for a
    grant that arrives is refused with [Unavailable]; the health service
    answers SERVING up to the step after the flip and not from there on; no
    request arrives once the listener is closed, which is no sooner than the
    grace after the health service was turned off. *)
Theorem drain_lifecycle values order b (w0 : world R) log se w : runs values order b w0 log se w ->
  lifecycle_ok b (w_clock w) se /\ Forall entry_ok log.
Proof.
  induction 1 as [|log se w new se' w' _ [IH1 IH2] Hh]; [by repeat split|].
  destruct (happens_ok _ _ _ _ _ _ _ _ Hh IH1) as [H1 H2]. split; [done|]. by apply Forall_app.
Qed.
End drain.

(** ** Witnesses *)

Definition demo_binary : binary := mk_binary demo_service demo_svc None None (from_secs 10).
Definition demo_up : server := boot demo_binary.
Definition demo_idle_world (t : Z) : world db := set_clock t (demo_world demo_db []).
Definition demo_by (m : gmap string Principal) : list Principal := map snd (map_to_list m).
Definition demo_order (b : SessionBook) : list string := map fst (map_to_list b).
Definition demo_flagged : server := mk_server (dim demo_svc) true FlagOff.

Lemma demo_to_flag : runs demo_by demo_order demo_binary (demo_idle_world 0) [] demo_flagged (demo_idle_world 0).
Proof.
  eapply (RStep _ _ _ _ [] (mk_server demo_svc true Signalled) _ []); [eapply (RStep _ _ _ _ [] demo_up _ []); [apply RStart|]|].
  - apply HLifecycle. by apply (AdSignal demo_binary _ _ demo_up).
  - apply HLifecycle. by apply (AdShutdown demo_binary _ _ 0).
Qed.

(** "One flag, two consumers: [..] they cannot disagree mid-rollout" (ADR
    0023): between its two steps grants are refused while the health service
    still answers SERVING. *)
Theorem flag_and_health_disagree : exists log se (w : world db),
  runs demo_by demo_order demo_binary (demo_idle_world 0) log se w /\ sv_ready (se_shared se) = false /\ se_health se = true.
Proof. exists [], demo_flagged, (demo_idle_world 0). split; [apply demo_to_flag|done]. Qed.

Lemma drain_transparent_witness :
  serve demo_by demo_service 1 demo_bearer (Unlock "job" "A") (mk_shared (set_ready false demo_svc) []) (demo_world demo_granted []) =
    dim_result (serve demo_by demo_service 1 demo_bearer (Unlock "job" "A") (mk_shared demo_svc []) (demo_world demo_granted [])).
Proof. apply (drain_transparent demo_by demo_service 1 demo_bearer (Unlock "job" "A") demo_svc []); [reflexivity|constructor]. Defined.

(** A whole shutdown, with a lock asked for during the grace. *)
Definition demo_asked : entry := mk_entry (Grace 0) (TryLock "job" None "") (Err Unavailable).
Definition demo_shut : server := mk_server (dim demo_svc) false (Shut 0 (from_secs 10)).

Lemma demo_shutdown : runs demo_by demo_order demo_binary (demo_idle_world 0) [demo_asked] demo_shut (demo_idle_world (from_secs 10)).
Proof.
  eapply (RStep _ _ _ _ [demo_asked] (mk_server (dim demo_svc) false (Grace 0)) (demo_idle_world (from_secs 10)) []); [eapply (RStep _ _ _ _ [demo_asked] (mk_server (dim demo_svc) false (Grace 0)) (demo_idle_world 0) []);
    [eapply (RStep _ _ _ _ [] (mk_server (dim demo_svc) false (Grace 0)) (demo_idle_world 0) [demo_asked]);
      [eapply (RStep _ _ _ _ [] demo_flagged _ []); [apply demo_to_flag|]|]|]|].
  - apply HLifecycle. by apply (AdShutdown demo_binary _ _ 0).
  - eapply (HRequest demo_by demo_order demo_binary 1 None (TryLock "job" None "") []); [done|constructor|..].
    + apply (grant_refused demo_by demo_service 1 None (TryLock "job" None "") (mk_shared (dim demo_svc) [])); [done|constructor|done].
    + done.
    + apply rtc_refl.
  - apply HElse. cbn. unfold from_secs. lia.
  - apply HLifecycle. by apply (AdShutdown demo_binary _ _ (from_secs 10)).
Qed.

Lemma drain_lifecycle_witness : lifecycle_ok demo_binary (from_secs 10) demo_shut /\ Forall entry_ok [demo_asked].
Proof. exact (drain_lifecycle _ _ _ _ _ _ _ demo_shutdown). Defined.

(** A host with one ACL file. *)
#[local] Instance demo_host : Host := {
  open_redis _ := Ok 0%nat;
  read_file p := if String.eqb p "acl.json" then Some "{..}"%string else None;
  parse_principals _ := Some [demo_ci];
  tls_accepted _ _ _ := true;
  bind_address _ := true;
  install_recorder := true;
}.
Definition demo_args : Args :=
  mk_args "redis://127.0.0.1:6379" "0.0.0.0:50051" 600 None None None 10 None (Some "acl.json"%string) "trusted_header".
Definition demo_started : binary :=
  match startup demo_args with Ok b => b | Err _ => demo_binary end.

Lemma startup_fails_closed_witness :
  (resolve demo_by (ps_acl (bi_service demo_started)) (Some "Bearer guess"%string) [0; 0]).1 = Err Unauthenticated.
Proof.
  destruct (startup_fails_closed demo_args true demo_started eq_refl) as [Hacl _]; [vm_compute; reflexivity|].
  destruct (Hacl "acl.json"%string eq_refl) as (json & cfgs & Ej & Ec & _ & Hr). apply Hr.
  injection Ec as <-. intros c [<-|[]]. vm_compute. discriminate.
Defined.
