(* ===== verification/Demo.v ===== *)
(** * The web console ([crates/server/src/demo.rs])

    An HTTP façade over the locks of the Redis backend.  Grants of the plain
    mutex go to the caller by token, as in [Service]; the handles of the other
    locks stay in the console, in six maps behind mutexes.  A request is an
    [api_request], its body decoded; [api_serve] is the router.  Theorems are
    in [DemoSafety]. *)

From S2P Require Import Prelude Core Redis Scripts World Lease Single Scan Simulation Reentrant Rwlock Semaphore Fair Latch Testament F64 Text Lattice Multi Semantic Sessions WatchHub Handlers.

Definition DEMO_MAX_TTL : duration := from_secs 60.

(** ** State *)

Section state.
Context {U : UuidSource}.

Record LiveHandles := mk_live {
  lv_reentrant : gmap string ReentrantShared;      (* key|owner *)
  lv_rw_read : gmap string RwShared;               (* key|fence *)
  lv_rw_write : gmap string RwShared;
  lv_permits : gmap string PermitShared;
  lv_fair : gmap string FairShared;
  lv_multi : gmap string (list HandleShared);      (* multi_id *)
}.
Definition no_handles : LiveHandles := mk_live ∅ ∅ ∅ ∅ ∅ ∅.

(** What the handlers share. *)
Record demo := mk_demo {
  d_pressure : StorePressureIndex;
  d_sessions : SessionBook;
  d_hub : hub;
  d_live : LiveHandles;
}.

(** What they only read: the manager, and the connection of the simulated
    resource. *)
Record DemoState := mk_demo_state { ds_manager : RedisLockManager; ds_data : conn }.

(** [DemoState::new]. *)
Definition demo_new (manager : RedisLockManager) (data : conn) (now : Z) : DemoState * demo :=
  (mk_demo_state manager data, mk_demo (spi_new now) ∅ hub_new no_handles).

Definition set_pressure (p : StorePressureIndex) (d : demo) : demo := mk_demo p (d_sessions d) (d_hub d) (d_live d).
Definition set_book (b : SessionBook) (d : demo) : demo := mk_demo (d_pressure d) b (d_hub d) (d_live d).
Definition set_demo_hub (h : hub) (d : demo) : demo := mk_demo (d_pressure d) (d_sessions d) h (d_live d).
Definition set_live (l : LiveHandles) (d : demo) : demo := mk_demo (d_pressure d) (d_sessions d) (d_hub d) l.

(** One of the maps of [LiveHandles]. *)
Record live_map (H : Type) := mk_live_map {
  lm_get : LiveHandles -> gmap string H;
  lm_set : gmap string H -> LiveHandles -> LiveHandles;
}.
Definition reentrant_map : live_map ReentrantShared := mk_live_map _ lv_reentrant (fun m l =>
  mk_live m (lv_rw_read l) (lv_rw_write l) (lv_permits l) (lv_fair l) (lv_multi l)).
Definition read_map : live_map RwShared := mk_live_map _ lv_rw_read (fun m l =>
  mk_live (lv_reentrant l) m (lv_rw_write l) (lv_permits l) (lv_fair l) (lv_multi l)).
Definition write_map : live_map RwShared := mk_live_map _ lv_rw_write (fun m l =>
  mk_live (lv_reentrant l) (lv_rw_read l) m (lv_permits l) (lv_fair l) (lv_multi l)).
Definition permit_map : live_map PermitShared := mk_live_map _ lv_permits (fun m l =>
  mk_live (lv_reentrant l) (lv_rw_read l) (lv_rw_write l) m (lv_fair l) (lv_multi l)).
Definition fair_map : live_map FairShared := mk_live_map _ lv_fair (fun m l =>
  mk_live (lv_reentrant l) (lv_rw_read l) (lv_rw_write l) (lv_permits l) m (lv_multi l)).
Definition multi_map : live_map (list HandleShared) := mk_live_map _ lv_multi (fun m l =>
  mk_live (lv_reentrant l) (lv_rw_read l) (lv_rw_write l) (lv_permits l) (lv_fair l) m).
End state.
Arguments lm_get {U H}. Arguments lm_set {U H}.

(** ** Requests and responses *)

Record AcquireRequest := mk_acquire_request {
  aq_key : string;
  aq_ttl_ms : option Z;
  aq_watchdog : option bool;
  aq_safety_policy : option string;
  aq_session_token : option string;
}.

Record PredicateSpec := mk_predicate_spec { pd_field : string; pd_op : string; pd_value : option string }.

Inductive api_request :=
| PostLock (req : AcquireRequest)
| PostUnlock (key token : string)
| PostExtend (key token : string) (ttl_ms : Z)
| PostForceUnlock (key : string)
| GetDescribe (key : string)
| GetLocks (prefix : option string)
| GetPressure
| GetWatch (key : string)
| PostReentrantAcquire (key : string) (ttl_ms : option Z) (owner_id : option string)
| PostReentrantRelease (key owner_id : string) (all : option bool)
| PostRwRead (key : string) (ttl_ms : option Z)
| PostRwWrite (key : string) (ttl_ms : option Z)
| PostRwRelease (key : string) (fence : Z) (mode : string)
| PostSemaphoreAcquire (key : string) (max_permits : Z) (ttl_ms : option Z)
| PostSemaphoreRelease (key : string) (fence : Z)
| PostFairLock (key : string) (ttl_ms : option Z)
| PostFairRelease (key : string) (fence : Z)
| PostMultiLock (keys : list string) (ttl_ms wait_ms : option Z)
| PostMultiRelease (multi_id : string)
| PostLatchCreate (key : string) (count : Z)
| PostLatchCountDown (key : string)
| GetLatchCount (key : string)
| PostLatchWait (key : string) (timeout_ms : option Z)
| PostSemanticAcquire (key : string) (ttl_ms : option Z) (predicates : list PredicateSpec)
| PostSemanticData (key field value : string)
| GetSemanticData (key : string)
| PostTestament (key token : string) (ttl_ms : option Z) (payload : string)
| GetTestament (key : string)
| PostSessionRegister (client_id : string) (ttl_ms : option Z)
| PostSessionHeartbeat (token : string)
| PostSessionClose (token : string).

Inductive api_response :=
| AGranted (key token : string) (fence ttl_ms : Z)
| AHeld (key : string)
| AReleased (released : bool)                 (* Released or Lost; released *)
| AExtended (extended : bool)                 (* Extended or Lost *)
| ADescribe (held : bool) (version ttl_ms : Z)
| AList (prefix : string) (locks : list (string * Z))
| APressure (spi : f64) (tier : string)
| ASocket (sub : nat)
| AOwner (owner_id : string) (fence : Z)
| AAcquired (fence : Z)
| ABusy                                       (* held, full, timeout *)
| AMulti (multi_id : string) (locks : list (string * Z))
| ACount (count : Z)
| AZero (zero : bool)
| ASemantic (token : string) (fence : Z)
| APredicatesFailed
| ADone
| AFields (fields : gmap string string)
| AStored
| APayload (payload : option string)
| ASession (session_token : string) (ttl_ms : Z)
| AHeartbeat (r : HbResult)
| AClosed (released_locks : Z).

(** [ApiError]: its status; the message is left out. *)
Inductive StatusCode := BAD_REQUEST | NOT_FOUND | INTERNAL_SERVER_ERROR | BAD_GATEWAY.
#[global] Instance status_code_eq_dec : EqDecision StatusCode.
Proof. solve_decision. Defined.

(** [impl From<Error> for ApiError]. *)
Definition api_error (e : error) : StatusCode :=
  match e with
  | InvalidConfig _ => BAD_REQUEST
  | Backend _ => BAD_GATEWAY
  | _ => INTERNAL_SERVER_ERROR
  end.

Definition parse_safety_policy (s : string) : res StatusCode SafetyPolicy :=
  let s := to_ascii_lowercase s in
  if String.eqb s "cowardly" then Ok Cowardly
  else if String.eqb s "balanced" then Ok Balanced
  else if String.eqb s "aggressive" then Ok Aggressive
  else Err BAD_REQUEST.

Definition clamp_ttl (ttl_ms : option Z) : duration :=
  let floor_ms := as_millis MIN_TTL in
  let requested := Z.min (default 4000 ttl_ms) (as_millis_u64 DEMO_MAX_TTL) in
  from_millis (Z.max requested floor_ms).

Definition tier_name (t : Tier) : string :=
  match t with Normal => "NORMAL" | Elevated => "ELEVATED" | Critical => "CRITICAL" | Siege => "SIEGE" end.

Definition rw_map_key (key : string) (fence : Z) : string := key +:+ "|" +:+ z_to_string fence.
(** [format!("{}|{owner_id}", req.key)]. *)
Definition reentrant_map_key (key owner_id : string) : string := key +:+ "|" +:+ owner_id.

(** [HGETALL] is only sent by the console. *)
Class RedisHash (R : Type) `{Redis R} := { r_hgetall : string -> cmd R (gmap string string) }.
Class RedisHashLaws (R : Type) `{RH : RedisHash R} := {
  hgetall_law k : meets (r_hgetall k) (doc_hgetall k);
}.

(** ** Handlers *)

Abbreviation DM R A := (SM demo R A).

Section handlers.
Context {U : UuidSource} {R : Type} `{RS : RedisScan R} `{RH : !RedisHash R}.
(** [uuid::Uuid::parse_str], the platform's logarithm, and Lua's comparison
    of a hash field with a number. *)
Variable parse_uuid : string -> option uuid.
Variable ln : f64 -> f64.
Variable exceeds : option string -> f64 -> bool.
Variable ds : DemoState.
Abbreviation mgr := (ds_manager ds).
Abbreviation mconn := (mgr_conn (ds_manager ds)).
Open Scope handler_scope.

Definition on_pressure {A} (f : StorePressureIndex -> A * StorePressureIndex) : DM R A :=
  hstate (fun d => let '(a, p) := f (d_pressure d) in (a, set_pressure p d)).
Definition on_book {A} (f : SessionBook -> M R (A * SessionBook)) : DM R A :=
  haccess (fun d => bind (f (d_sessions d)) (fun r => ret (r.1, set_book r.2 d))).

(** [HashMap::insert] gives back the handle that was there, which goes out
    of scope; [HashMap::remove] gives the handle to the caller. *)
Definition insert_live {H} (m : live_map H) (drop_ : H -> M R unit) (k : string) (h : H) : DM R unit :=
  let^ old := hstate (fun d => (lm_get m (d_live d) !! k,
    set_live (lm_set m (<[k := h]> (lm_get m (d_live d))) (d_live d)) d)) in
  match old with Some h => hrun (drop_ h) | None => hret tt end.
Definition remove_live {H} (m : live_map H) (k : string) : DM R (option H) :=
  hstate (fun d => (lm_get m (d_live d) !! k,
    set_live (lm_set m (delete k (lm_get m (d_live d))) (d_live d)) d)).

(** [Err(e) => Err(ApiError::from(e))], or [?]. *)
Definition api {A} (m : M R (res error A)) : DM R (res StatusCode A) :=
  let^ r := hrun m in hret (res_map_err api_error r).

(** A handle's last method takes it by value: it goes out of scope after. *)
Definition consume {A} (m : M R (res error A)) (drop_ : M R unit) : DM R (res StatusCode A) :=
  let^ r := hrun m in do^ hrun drop_ in hret (res_map_err api_error r).

(** [DemoState::observe]. *)
Definition observe_op (started : Z) (ok denied : bool) : DM R unit :=
  let^ now := hrun instant_now in
  on_pressure (fun p => (tt, observe (Z.max 0 (now - started)) ok denied p)).

Definition demo_options (ttl_ms : option Z) : LockOptions := with_ttl (clamp_ttl ttl_ms) default_options.

(** *** Mutex *)

Definition api_acquire (req : AcquireRequest) : DM R (res StatusCode api_response) :=
  let key := aq_key req in
  if String.eqb key "" then hret (Err BAD_REQUEST) else
  let t := clamp_ttl (aq_ttl_ms req) in
  try^ policy := hret (match aq_safety_policy req with
                       | Some p => parse_safety_policy p
                       | None => Ok default_policy
                       end) in
  let opts := with_safety_policy policy (with_watchdog (default false (aq_watchdog req)) (with_ttl t default_options)) in
  let^ started := hrun instant_now in
  let^ r := hrun (try_lock_with mgr key opts) in
  match r with
  | Ok h =>
      let token := owner_token (h_owner h) in
      let^ bound := match aq_session_token req with
                    | Some sess => on_book (fun b => bind_lock b sess key token)
                    | None => hret true
                    end in
      if negb bound then
        do^ hrun (release h) in do^ hrun (Single.drop true h) in
        hret (Err NOT_FOUND)
      else
        do^ observe_op started true false in
        do^ hrun (disarm h) in do^ hrun (Single.drop true h) in
        hret (Ok (AGranted key token (value (h_fence h)) (as_millis_u64 (ttl opts))))
  | Err (Held _) => do^ observe_op started true true in hret (Ok (AHeld key))
  | Err e => do^ observe_op started false false in hret (Err (api_error e))
  end.

Definition api_release (key token : string) : DM R (res StatusCode api_response) :=
  let^ started := hrun instant_now in
  try^ released := api (unlock_with_token mgr key token) in
  do^ observe_op started true false in
  hret (Ok (AReleased released)).

Definition api_describe (key : string) : DM R (res StatusCode api_response) :=
  try^ '(held, version, ttl_ms) := api (describe_key mgr key) in
  hret (Ok (ADescribe held version ttl_ms)).

Definition api_list_locks (fuel : nat) (prefix : option string) : DM R (res StatusCode api_response) :=
  let prefix := default "" prefix in
  try^ entries := api (scan_held fuel mgr prefix) in
  hret (Ok (AList prefix entries)).

Definition api_pressure : DM R (res StatusCode api_response) :=
  let^ now := hrun instant_now in
  let^ r := on_pressure (fun p => let p := tick ln now p in ((spi p, tier p), p)) in
  hret (Ok (APressure r.1 (tier_name r.2))).

Definition api_extend (key token : string) (ttl_ms : Z) : DM R (res StatusCode api_response) :=
  try^ ok := api (extend_with_token mgr key token (clamp_ttl (Some ttl_ms))) in
  hret (Ok (AExtended ok)).

Definition api_force_unlock (key : string) : DM R (res StatusCode api_response) :=
  try^ released := api (force_unlock mgr key) in
  hret (Ok (AReleased released)).

(** *** Reentrant locks *)

Definition api_reentrant_acquire (key : string) (ttl_ms : option Z) (owner_id : option string) :
    DM R (res StatusCode api_response) :=
  try^ owner := match owner_id with
                | Some id => hret (match parse_uuid id with Some u => Ok (from_uuid u) | None => Err BAD_REQUEST end)
                | None => let^ o := hrun fresh_owner in hret (Ok o)
                end in
  try^ h := api (try_lock_reentrant mconn key owner (demo_options ttl_ms)) in
  let owner_id := owner_token (rh_owner h) in
  do^ insert_live reentrant_map (Reentrant.drop true) (reentrant_map_key key owner_id) h in
  hret (Ok (AOwner owner_id (value (rh_fence h)))).

Definition api_reentrant_release (key owner_id : string) (all : option bool) : DM R (res StatusCode api_response) :=
  let^ handle := remove_live reentrant_map (reentrant_map_key key owner_id) in
  match handle with
  | None => hret (Ok (AReleased false))
  | Some h =>
      try^ _u := consume (if default false all then release_all h else release_one h) (Reentrant.drop true h) in
      hret (Ok (AReleased true))
  end.

(** *** Read-write locks *)

(** The branches of a handler that keeps the handle it is granted. *)
Definition keep {H} (m : live_map H) (drop_ : H -> M R unit) (k : H -> string) (fence : H -> Z)
    (r : res error H) : DM R (res StatusCode api_response) :=
  match r with
  | Ok h => do^ insert_live m drop_ (k h) h in hret (Ok (AAcquired (fence h)))
  | Err (Held _) => hret (Ok ABusy)
  | Err e => hret (Err (api_error e))
  end.

(** The branches of a handler that takes one out and releases it. *)
Definition let_go {H} (m : live_map H) (release_ : H -> M R (res error unit)) (drop_ : H -> M R unit) (k : string) :
    DM R (res StatusCode api_response) :=
  let^ handle := remove_live m k in
  match handle with
  | Some h => try^ _u := consume (release_ h) (drop_ h) in hret (Ok (AReleased true))
  | None => hret (Ok (AReleased false))
  end.

Definition api_rw_read (key : string) (ttl_ms : option Z) : DM R (res StatusCode api_response) :=
  let^ r := hrun (try_read mconn key (demo_options ttl_ms)) in
  keep read_map (rw_drop true) (fun h => rw_map_key key (value (wh_fence h))) (fun h => value (wh_fence h)) r.

Definition api_rw_write (key : string) (ttl_ms : option Z) : DM R (res StatusCode api_response) :=
  let^ r := hrun (try_write mconn key (demo_options ttl_ms)) in
  keep write_map (rw_drop true) (fun h => rw_map_key key (value (wh_fence h))) (fun h => value (wh_fence h)) r.

Definition api_rw_release (key : string) (fence : Z) (mode : string) : DM R (res StatusCode api_response) :=
  let map_key := rw_map_key key fence in
  if String.eqb mode "read" then let_go read_map read_release (rw_drop true) map_key
  else if String.eqb mode "write" then let_go write_map write_release (rw_drop true) map_key
  else hret (Err BAD_REQUEST).

(** *** Semaphores *)

Definition api_semaphore_acquire (key : string) (max_permits : Z) (ttl_ms : option Z) :
    DM R (res StatusCode api_response) :=
  try^ sem := hret (res_map_err api_error (semaphore_new mconn key max_permits)) in
  let^ r := hrun (try_acquire sem (demo_options ttl_ms)) in
  keep permit_map (permit_drop true) (fun p => rw_map_key key (value (pm_fence p))) (fun p => value (pm_fence p)) r.

Definition api_semaphore_release (key : string) (fence : Z) : DM R (res StatusCode api_response) :=
  let_go permit_map permit_release (permit_drop true) (rw_map_key key fence).

(** *** Fair locks *)

Definition api_fair_lock (key : string) (ttl_ms : option Z) : DM R (res StatusCode api_response) :=
  try^ h := api (try_lock_fair mconn key (demo_options ttl_ms)) in
  let fence := value (fh_fence h) in
  do^ insert_live fair_map (fair_drop true) (rw_map_key key fence) h in
  hret (Ok (AOwner (owner_token (fh_owner h)) fence)).

Definition api_fair_release (key : string) (fence : Z) : DM R (res StatusCode api_response) :=
  let_go fair_map fair_release (fair_drop true) (rw_map_key key fence).

(** *** Multi-key locks *)

Definition api_multi_lock (fuel : nat) (keys : list string) (ttl_ms wait_ms : option Z) :
    DM R (res StatusCode api_response) :=
  match keys with
  | [] => hret (Err BAD_REQUEST)
  | _ =>
      let wait := from_millis (Z.min (default 2000 wait_ms) 30000) in
      let^ r := hrun (try_lock_all fuel mgr keys (demo_options ttl_ms) wait) in
      match r with
      | Ok hs =>
          let^ id := hrun fresh_owner in
          let multi_id := owner_token id in
          let locks := zip (multi_keys hs) (map value (multi_fences hs)) in
          do^ insert_live multi_map drop_all multi_id hs in
          hret (Ok (AMulti multi_id locks))
      | Err (Timeout _) => hret (Ok ABusy)
      | Err e => hret (Err (api_error e))
      end
  end.

Definition api_multi_release (multi_id : string) : DM R (res StatusCode api_response) :=
  let_go multi_map multi_release_all drop_all multi_id.

(** *** Latches *)

Definition api_latch_create (key : string) (count_ : Z) : DM R (res StatusCode api_response) :=
  try^ latch := api (latch_create mconn key count_) in
  try^ n := api (count latch) in
  hret (Ok (ACount n)).

Definition api_latch_count_down (key : string) : DM R (res StatusCode api_response) :=
  try^ latch := api (latch_create mconn key 1) in
  try^ n := api (count_down latch) in
  hret (Ok (ACount n)).

Definition api_latch_count (key : string) : DM R (res StatusCode api_response) :=
  try^ latch := api (latch_create mconn key 1) in
  try^ n := api (count latch) in
  hret (Ok (ACount n)).

Definition api_latch_wait (fuel : nat) (key : string) (timeout_ms : option Z) : DM R (res StatusCode api_response) :=
  try^ latch := api (latch_create mconn key 1) in
  let timeout := from_millis (Z.min (default 5000 timeout_ms) 30000) in
  let^ r := hrun (wait_until_zero fuel latch timeout) in
  hret (Ok (AZero (is_ok r))).

(** *** Semantic locks and the simulated resource *)

(** The loop over the predicates of the request. *)
Fixpoint add_predicates (ps : list PredicateSpec) (guard : SemanticGuard) {struct ps} : res StatusCode SemanticGuard :=
  match ps with
  | [] => Ok guard
  | p :: ps =>
      if String.eqb (pd_op p) "eq" then add_predicates ps (field_equals (pd_field p) (default "" (pd_value p)) guard)
      else if String.eqb (pd_op p) "gt" then
        match pd_value p ≫= parse_f64 with
        | Some v => add_predicates ps (field_gt (pd_field p) v guard)
        | None => Err BAD_REQUEST
        end
      else if String.eqb (pd_op p) "absent" then add_predicates ps (field_absent (pd_field p) guard)
      else Err BAD_REQUEST
  end.

Definition api_semantic_acquire (key : string) (ttl_ms : option Z) (predicates : list PredicateSpec) :
    DM R (res StatusCode api_response) :=
  match predicates with
  | [] => hret (Err BAD_REQUEST)
  | _ =>
      let guard := guard_ttl (clamp_ttl ttl_ms) (acquire_where mgr key) in
      try^ guard := hret (add_predicates predicates guard) in
      let^ started := hrun instant_now in
      let^ r := hrun (semantic_acquire exceeds guard) in
      match r with
      | Ok h =>
          do^ observe_op started true false in
          do^ hrun (disarm h) in do^ hrun (Single.drop true h) in
          hret (Ok (ASemantic (owner_token (h_owner h)) (value (h_fence h))))
      | Err (Held _) =>
          do^ observe_op started true true in
          try^ '(held, _, _) := api (describe_key mgr key) in
          hret (Ok (if held : bool then AHeld key else APredicatesFailed))
      | Err e => do^ observe_op started false false in hret (Err (api_error e))
      end
  end.

Definition api_semantic_set_data (key field value : string) : DM R (res StatusCode api_response) :=
  try^ _n := api (backend "hset failed: {e}" (invoke (ds_data ds) (r_hset key [(field, value)]))) in
  hret (Ok ADone).

Definition api_semantic_get_data (key : string) : DM R (res StatusCode api_response) :=
  try^ fields := api (backend "hgetall failed: {e}" (invoke (ds_data ds) (r_hgetall key))) in
  hret (Ok (AFields fields)).

(** *** Testaments *)

Definition api_testament_set (key token : string) (ttl_ms : option Z) (payload : string) :
    DM R (res StatusCode api_response) :=
  try^ _u := api (set_testament mconn key token (clamp_ttl ttl_ms) payload) in
  hret (Ok AStored).

Definition api_testament_read (key : string) : DM R (res StatusCode api_response) :=
  try^ payload := api (read_testament mconn key) in
  hret (Ok (APayload (from_utf8_lossy <$> payload))).

(** *** Sessions *)

Definition api_session_register (client : string) (ttl_ms : option Z) : DM R (res StatusCode api_response) :=
  let t := from_millis (Z.min (default 10000 ttl_ms) 60000) in
  let^ token := on_book (fun b => register b client t) in
  hret (Ok (ASession token (as_millis_u64 t))).

Definition api_session_heartbeat (token : string) : DM R (res StatusCode api_response) :=
  let^ r := on_book (fun b => heartbeat b token) in
  hret (Ok (AHeartbeat r)).

(** [SessionBook::close]: the session leaves the book, then its locks are
    released. *)
Definition api_session_close (token : string) : DM R (res StatusCode api_response) :=
  let^ ls := on_book (fun b => ret (remove b token)) in
  let^ n := hrun (release_bound mgr ls) in
  hret (Ok (AClosed (n mod 2 ^ 32))).

(** *** The watch stream *)

(** [watch_upgrade], up to the subscription of [pump_events]. *)
Definition api_watch (key : string) : DM R (res StatusCode api_response) :=
  let^ sub := hstate (fun d => (length (hub_subs (d_hub d)), set_demo_hub (subscribe key (d_hub d)) d)) in
  hret (Ok (ASocket sub)).

(** [demo_router]. *)
Definition api_serve (fuel : nat) (r : api_request) : DM R (res StatusCode api_response) :=
  match r with
  | PostLock req => api_acquire req
  | PostUnlock key token => api_release key token
  | PostExtend key token ttl_ms => api_extend key token ttl_ms
  | PostForceUnlock key => api_force_unlock key
  | GetDescribe key => api_describe key
  | GetLocks prefix => api_list_locks fuel prefix
  | GetPressure => api_pressure
  | GetWatch key => api_watch key
  | PostReentrantAcquire key ttl_ms owner_id => api_reentrant_acquire key ttl_ms owner_id
  | PostReentrantRelease key owner_id all => api_reentrant_release key owner_id all
  | PostRwRead key ttl_ms => api_rw_read key ttl_ms
  | PostRwWrite key ttl_ms => api_rw_write key ttl_ms
  | PostRwRelease key fence mode => api_rw_release key fence mode
  | PostSemaphoreAcquire key max_permits ttl_ms => api_semaphore_acquire key max_permits ttl_ms
  | PostSemaphoreRelease key fence => api_semaphore_release key fence
  | PostFairLock key ttl_ms => api_fair_lock key ttl_ms
  | PostFairRelease key fence => api_fair_release key fence
  | PostMultiLock keys ttl_ms wait_ms => api_multi_lock fuel keys ttl_ms wait_ms
  | PostMultiRelease multi_id => api_multi_release multi_id
  | PostLatchCreate key count => api_latch_create key count
  | PostLatchCountDown key => api_latch_count_down key
  | GetLatchCount key => api_latch_count key
  | PostLatchWait key timeout_ms => api_latch_wait fuel key timeout_ms
  | PostSemanticAcquire key ttl_ms predicates => api_semantic_acquire key ttl_ms predicates
  | PostSemanticData key field value => api_semantic_set_data key field value
  | GetSemanticData key => api_semantic_get_data key
  | PostTestament key token ttl_ms payload => api_testament_set key token ttl_ms payload
  | GetTestament key => api_testament_read key
  | PostSessionRegister client ttl_ms => api_session_register client ttl_ms
  | PostSessionHeartbeat token => api_session_heartbeat token
  | PostSessionClose token => api_session_close token
  end.

(** A turn of the sweeper task [demo_router] spawns, [order] being the order
    in which the book is iterated. *)
Definition api_sweeper_round (order : SessionBook -> list string) : DM R unit :=
  do^ hrun (sleep (from_millis 500)) in
  on_book (fun b => bind (sweep_once mgr (order b) b) (fun b => ret (tt, b))).
End handlers.

(** ** The socket task *)

Definition quote (s : string) : string := String "034" (s +:+ String "034" EmptyString).

(** [render_event], as [serde_json] prints it. *)
Definition render_event (e : LockEvent) : string :=
  let '(name, version) := match e with Acquired v => ("acquired", v) | Freed v => ("freed", v) end in
  "{" +:+ quote "event" +:+ ":" +:+ quote name +:+ "," +:+ quote "version" +:+ ":" +:+ z_to_string version +:+ "}".

(** [pump_events]: the texts sent; [pm_live] until the task returns. *)
Record pump := mk_pump { pu_sub : nat; pu_sent : list string; pu_live : bool }.

(** What its [select!] sees: the next event of the subscription, which is
    sent (or not: the browser is gone), a message of the browser, or its
    departure. *)
Inductive pump_input := FromHub (delivered : bool) | FromBrowser | BrowserGone.

Definition pump_step (i : pump_input) (p : pump) (h : hub) : option (pump * hub) :=
  if negb (pu_live p) then None else
  match hub_subs h !! pu_sub p with
  | None => None
  | Some s =>
      let stop := (mk_pump (pu_sub p) (pu_sent p) false, set_sub (pu_sub p) (leave s) h) in
      match i with
      | FromHub delivered =>
          match su_queue s with
          | e :: _ =>
              if delivered : bool
              then Some (mk_pump (pu_sub p) (pu_sent p ++ [render_event e]) true, set_sub (pu_sub p) (recv s) h)
              else Some (mk_pump (pu_sub p) (pu_sent p) false, set_sub (pu_sub p) (leave (recv s)) h)
          | [] => if bool_decide (su_phase s = Gone) then Some stop else None
          end
      | FromBrowser => Some (p, h)
      | BrowserGone => Some stop
      end
  end.

(** The reference server. *)
#[global] Instance db_hash : RedisHash db := {| r_hgetall := doc_hgetall |}.
#[global] Instance db_hash_laws : RedisHashLaws db.
Proof. by constructor. Qed.
