(* ===== verification/DemoSafety.v ===== *)
(** * What the web console guarantees

    Theorems about the handlers of [Demo]: every lease it asks for is in
    range, its handles stay under the names their callers use, what a grant
    request leaves behind, and where the console departs from the locks it
    presents. *)

From Stdlib Require Import DecimalString.
From S2P Require Import Prelude Core Redis Scripts World Lease Single Scan Simulation Reentrant Rwlock Semaphore Fair Latch Testament F64 Text Lattice Multi Semantic Sessions WatchHub Handlers Demo.

(** ** Leases *)

Lemma clamp_ttl_range ttl_ms : from_millis 10 <= clamp_ttl ttl_ms <= from_millis 60000.
Proof.
  unfold clamp_ttl. change (as_millis MIN_TTL) with 10. change (as_millis_u64 DEMO_MAX_TTL) with 60000.
  unfold from_millis. lia.
Qed.

Lemma demo_options_ok ttl_ms : validate (demo_options ttl_ms) = Ok tt.
Proof. apply validate_ok. apply (clamp_ttl_range ttl_ms). Qed.

(** ** Names of handles *)

(** Texts without a bar. *)
Definition no_bar (s : string) : bool := forallb (fun c => negb (Ascii.eqb c "|")) (list_ascii_of_string s).

Lemma no_bar_number z : no_bar (z_to_string z) = true.
Proof.
  assert (forall d, no_bar (NilEmpty.string_of_uint d) = true) as Hd by by induction d.
  unfold z_to_string, NilZero.string_of_int, NilZero.string_of_uint. by destruct (Z.to_int z) as [[]|[]]; try apply Hd.
Qed.

Lemma no_bar_app (s t : string) : no_bar (s +:+ "|" +:+ t) = false.
Proof. induction s as [|c s IH]; [done|]. rewrite app_cons. cbn. fold (no_bar (s +:+ "|" +:+ t)). by rewrite IH, andb_false_r. Qed.

Lemma bar_inj (a b c d : string) : no_bar b = true -> no_bar d = true ->
  a +:+ "|" +:+ b = c +:+ "|" +:+ d -> a = c /\ b = d.
Proof.
  intros Hb Hd. revert c. induction a as [|x a IH]; intros [|y c] E.
  - by injection E.
  - exfalso. rewrite app_cons in E. injection E as _ E. change (b = c +:+ "|" +:+ d) in E.
    rewrite E, no_bar_app in Hb. done.
  - exfalso. rewrite app_cons in E. injection E as _ E. change (a +:+ "|" +:+ b = d) in E.
    rewrite <- E, no_bar_app in Hd. done.
  - rewrite !app_cons in E. injection E as -> E. destruct (IH c E) as [-> ->]. done.
Qed.

Lemma rw_map_key_inj k f k' f' : rw_map_key k f = rw_map_key k' f' -> k = k' /\ f = f'.
Proof.
  intros E. apply bar_inj in E as [-> E]; [|apply no_bar_number..]. split; [done|]. by apply (inj z_to_string).
Qed.

(** Every handle is filed under its own key and fence (a reentrant one under
    its key and owner). *)
Section filed.
Context {U : UuidSource}.

Definition all_filed {H} (name : string -> H -> Prop) (m : gmap string H) : Prop := map_Forall name m.

Definition reentrant_name (k : string) (h : ReentrantShared) : Prop :=
  k = reentrant_map_key (rh_key h) (rh_token h) /\ rh_token h = owner_token (rh_owner h).
Definition rw_name (write : bool) (k : string) (h : RwShared) : Prop :=
  k = rw_map_key (wh_key h) (value (wh_fence h)) /\ wh_write_mode h = write.
Definition permit_name (k : string) (p : PermitShared) : Prop := k = rw_map_key (pm_key p) (value (pm_fence p)).
Definition fair_name (k : string) (h : FairShared) : Prop :=
  k = rw_map_key (fh_key h) (value (fh_fence h)) /\ fh_queue_key h = queue_key_for (fh_key h) /\
  fh_hb_prefix h = hb_prefix_for (fh_key h) /\ fh_token h = owner_token (fh_owner h).

Record filed (l : LiveHandles) : Prop := mk_filed {
  filed_reentrant : all_filed reentrant_name (lv_reentrant l);
  filed_read : all_filed (rw_name false) (lv_rw_read l);
  filed_write : all_filed (rw_name true) (lv_rw_write l);
  filed_permits : all_filed permit_name (lv_permits l);
  filed_fair : all_filed fair_name (lv_fair l);
}.
Definition demo_filed (d : demo) : Prop := filed (d_live d).

(** What the grants yield. *)
Definition grants {A} (P : A -> Prop) (r : res error A) : Prop := match r with Ok a => P a | Err _ => True end.

Context {R : Type} `{Redis R}.

Lemma yields_try_lock_reentrant c key owner options : yields (R:=R) (try_lock_reentrant c key owner options)
  (grants (fun h => rh_key h = key /\ rh_owner h = owner /\ rh_token h = owner_token owner)).
Proof. unfold try_lock_reentrant. solve_yields. Qed.

Lemma yields_try_read c key options :
  yields (R:=R) (try_read c key options) (grants (fun h => wh_key h = key /\ wh_write_mode h = false)).
Proof. unfold try_read. solve_yields. Qed.

Lemma yields_try_write c key options :
  yields (R:=R) (try_write c key options) (grants (fun h => wh_key h = key /\ wh_write_mode h = true)).
Proof. unfold try_write. solve_yields. Qed.

Lemma yields_try_acquire sem options :
  yields (R:=R) (try_acquire sem options) (grants (fun p => pm_key p = se_key sem)).
Proof. unfold try_acquire. solve_yields. Qed.

Lemma yields_try_lock_fair c key options : yields (R:=R) (try_lock_fair c key options)
  (grants (fun h => fh_key h = key /\ fh_queue_key h = queue_key_for key /\ fh_hb_prefix h = hb_prefix_for key /\
     fh_token h = owner_token (fh_owner h))).
Proof. unfold try_lock_fair, try_lock_fair_as. solve_yields. Qed.

(** *** The maps *)

Lemma file_reentrant k h l : reentrant_name k h -> filed l ->
  filed (lm_set reentrant_map (<[k := h]> (lm_get reentrant_map l)) l).
Proof. intros Hn []. split; [by apply map_Forall_insert_2|done..]. Qed.
Lemma file_read k h l : rw_name false k h -> filed l -> filed (lm_set read_map (<[k := h]> (lm_get read_map l)) l).
Proof. intros Hn []. split; [done|by apply map_Forall_insert_2|done..]. Qed.
Lemma file_write k h l : rw_name true k h -> filed l -> filed (lm_set write_map (<[k := h]> (lm_get write_map l)) l).
Proof. intros Hn []. split; [done..|by apply map_Forall_insert_2|done|done]. Qed.
Lemma file_permit k h l : permit_name k h -> filed l -> filed (lm_set permit_map (<[k := h]> (lm_get permit_map l)) l).
Proof. intros Hn []. split; [done..|by apply map_Forall_insert_2|done]. Qed.
Lemma file_fair k h l : fair_name k h -> filed l -> filed (lm_set fair_map (<[k := h]> (lm_get fair_map l)) l).
Proof. intros Hn []. split; [done..|by apply map_Forall_insert_2]. Qed.
Lemma file_multi k hs l : filed l -> filed (lm_set multi_map (<[k := hs]> (lm_get multi_map l)) l).
Proof. by intros []. Qed.

(** A map of which entries may be taken out. *)
Definition removable {H} (m : live_map H) : Prop :=
  forall k l, filed l -> filed (lm_set m (delete k (lm_get m l)) l).

Lemma removable_maps : removable reentrant_map /\ removable read_map /\ removable write_map /\
  removable permit_map /\ removable fair_map /\ removable multi_map.
Proof.
  split_and!; intros k l []; split; try done; by apply map_Forall_delete.
Qed.

(** *** The handlers *)

Lemma upholds_insert {H'} (m : live_map H') drop_ k h :
  (forall l, filed l -> filed (lm_set m (<[k := h]> (lm_get m l)) l)) ->
  upholds demo_filed (insert_live (R:=R) m drop_ k h) (fun _ => True).
Proof.
  intros Hm. unfold insert_live. apply upholds_bind_any.
  - apply upholds_state. intros x Hx. split; [by apply Hm|done].
  - intros [a|]; [apply upholds_run_any|by apply upholds_ret].
Qed.

Lemma upholds_remove {H'} (m : live_map H') k : removable m ->
  upholds demo_filed (remove_live (R:=R) m k) (fun _ => True).
Proof. intros Hm. apply upholds_state. intros x Hx. split; [by apply Hm|done]. Qed.

Lemma upholds_api {A} (m : M R (res error A)) (P : A -> Prop) : yields m (grants P) ->
  upholds demo_filed (api m) (fun r => match r with Ok a => P a | Err _ => True end).
Proof.
  intros Hm. unfold api. eapply upholds_bind; [apply upholds_run, Hm|]. intros [a|e] Ha; by apply upholds_ret.
Qed.
Lemma upholds_api_any {A} (m : M R (res error A)) : upholds demo_filed (api m) (fun _ => True).
Proof. unfold api. apply upholds_bind_any; [apply upholds_run_any|]. intros a. by apply upholds_ret. Qed.

Lemma upholds_consume {A} (m : M R (res error A)) drop_ : upholds demo_filed (consume m drop_) (fun _ => True).
Proof.
  unfold consume. apply upholds_bind_any; [apply upholds_run_any|]. intros r.
  apply upholds_bind_any; [apply upholds_run_any|]. intros _. by apply upholds_ret.
Qed.

Lemma upholds_keep {H'} (m : live_map H') drop_ (k : H' -> string) fence r :
  grants (fun h => forall l, filed l -> filed (lm_set m (<[k h := h]> (lm_get m l)) l)) r ->
  upholds demo_filed (keep (R:=R) m drop_ k fence r) (fun _ => True).
Proof.
  intros Hr. unfold keep. destruct r as [h|[]]; try by apply upholds_ret.
  apply upholds_bind_any; [by apply upholds_insert|]. intros _. by apply upholds_ret.
Qed.

Lemma upholds_let_go {H'} (m : live_map H') release_ drop_ k : removable m ->
  upholds demo_filed (let_go (R:=R) m release_ drop_ k) (fun _ => True).
Proof.
  intros Hm. unfold let_go. apply upholds_bind_any; [by apply upholds_remove|]. intros [h|]; [|by apply upholds_ret].
  apply upholds_try_any; [apply upholds_consume|]. intros _. by apply upholds_ret.
Qed.

Lemma upholds_pressure {A} (f : StorePressureIndex -> A * StorePressureIndex) :
  upholds demo_filed (on_pressure (R:=R) f) (fun _ => True).
Proof. apply upholds_state. intros x Hx. by destruct (f (d_pressure x)). Qed.
Lemma upholds_book {A} (f : SessionBook -> M R (A * SessionBook)) :
  upholds demo_filed (on_book f) (fun _ => True).
Proof.
  apply upholds_access. intros x Hx. apply yields_bind_any. intros r. by apply yields_ret.
Qed.
End filed.

Ltac solve_upholds :=
  repeat lazymatch goal with
  | |- upholds _ (hret _) _ => by apply upholds_ret
  | |- upholds _ (hrun _) _ => apply upholds_run_any
  | |- upholds _ (api _) _ => apply upholds_api_any
  | |- upholds _ (consume _ _) _ => apply upholds_consume
  | |- upholds _ (on_pressure _) _ => apply upholds_pressure
  | |- upholds _ (on_book _) _ => apply upholds_book
  | |- upholds _ (remove_live _ _) _ => apply upholds_remove, removable_maps
  | |- upholds _ (let_go _ _ _ _) _ => apply upholds_let_go, removable_maps
  | |- upholds _ (observe_op _ _ _) _ => unfold observe_op
  | |- upholds _ (htry _ _) _ => apply upholds_try_any; [|intros ?]
  | |- upholds _ (hbind _ _) _ => apply upholds_bind_any; [|intros ?]
  | |- _ => case_match
  end.

Section handlers.
Context {U : UuidSource} {R : Type} `{RS : RedisScan R} `{RH : !RedisHash R}.
Variables (parse_uuid : string -> option uuid) (ln : f64 -> f64) (exceeds : option string -> f64 -> bool).
Variable ds : DemoState.

Lemma upholds_serve fuel r : upholds demo_filed (api_serve (R:=R) parse_uuid ln exceeds ds fuel r) (fun _ => True).
Proof.
  destruct r; cbn [api_serve].
  all: unfold api_acquire, observe_op, api_release, api_describe, api_list_locks, api_pressure, api_extend, api_force_unlock,
    api_reentrant_release, api_rw_release, api_semaphore_release, api_fair_release, api_multi_release, api_latch_create,
    api_latch_count_down, api_latch_count, api_latch_wait, api_semantic_acquire, api_semantic_set_data,
    api_semantic_get_data, api_testament_set, api_testament_read, api_session_register, api_session_heartbeat,
    api_session_close; try (solve_upholds; done).
  - apply upholds_bind_any; [by apply upholds_state|]. intros sub. by apply upholds_ret.
  - unfold api_reentrant_acquire. apply upholds_try_any; [solve_upholds|]. intros owner.
    eapply upholds_try; [apply upholds_api, yields_try_lock_reentrant| |done].
    intros h (Ek & Eo & Et). apply upholds_bind_any; [|intros _; by apply upholds_ret].
    apply upholds_insert. intros l. apply file_reentrant. split; [by rewrite Et, Ek, Eo|by rewrite Et, Eo].
  - unfold api_rw_read. eapply upholds_bind; [apply upholds_run, yields_try_read|].
    intros [h|e] Hr; apply upholds_keep; [|done]. intros l. apply file_read. destruct Hr as [<- ?]. by split.
  - unfold api_rw_write. eapply upholds_bind; [apply upholds_run, yields_try_write|].
    intros [h|e] Hr; apply upholds_keep; [|done]. intros l. apply file_write. destruct Hr as [<- ?]. by split.
  - unfold api_semaphore_acquire, semaphore_new. destruct (max_permits =? 0); [by apply upholds_ret|].
    eapply upholds_try; [by apply (upholds_ret _ _ (fun r => match r with Ok s => se_key s = key | Err _ => True end))| |done].
    intros sem Es. eapply upholds_bind; [apply upholds_run, yields_try_acquire|].
    intros [h|e] Hr; apply upholds_keep; [|done]. intros l. apply file_permit. cbn in Hr. unfold permit_name.
    by rewrite Hr, Es.
  - unfold api_fair_lock. eapply upholds_try; [apply upholds_api, yields_try_lock_fair| |done].
    intros h (Ek & Hh). apply upholds_bind_any; [|intros _; by apply upholds_ret].
    apply upholds_insert. intros l. apply file_fair. unfold fair_name. rewrite Ek. by split.
  - unfold api_multi_lock. case_match; [by apply upholds_ret|]. apply upholds_bind_any; [apply upholds_run_any|].
    intros [hs|[]]; try by apply upholds_ret. apply upholds_bind_any; [apply upholds_run_any|]. intros id.
    apply upholds_bind_any; [|intros _; by apply upholds_ret]. apply upholds_insert. intros lv. apply file_multi.
Qed.

End handlers.

(** ** Grants *)

Section grants.
Context {U : UuidSource} {R : Type} `{RS : RedisScan R} `{RH : !RedisHash R} `{!RedisLaws R}.
Variables (ds : DemoState) (keys : list string).
Hypothesis Hsep : separate keys.
Abbreviation mgr := (ds_manager ds).
Implicit Types (w : world R) (d : demo) (L : string -> lease).

(** The options of a grant request, unless it is refused outright. *)
Definition request_options (req : AcquireRequest) : res StatusCode LockOptions :=
  if String.eqb (aq_key req) "" then Err BAD_REQUEST else
  match match aq_safety_policy req with Some p => parse_safety_policy p | None => Ok default_policy end with
  | Ok policy => Ok (mk_options (clamp_ttl (aq_ttl_ms req)) (Some (default false (aq_watchdog req))) policy)
  | Err e => Err e
  end.

(** The book after a grant bound to a session. *)
Definition book_with (book : SessionBook) (session : option string) (key tok : string) (now : Z) : SessionBook :=
  match session with
  | Some s =>
      match book !! s with
      | Some e => <[s := mk_session (client_id e) (s_ttl e) now (hb_floor e) (locks e ++ [(key, tok)])]> book
      | None => book
      end
  | None => book
  end.
Definition session_known (book : SessionBook) (session : option string) : bool :=
  match session with Some s => bool_decide (is_Some (book !! s)) | None => true end.

Lemma observe_op_run d w started ok denied : exists dt, 0 <= dt /\
  observe_op (R:=R) started ok denied (alone d) w =
    (Done (tt, alone (set_pressure (observe dt ok denied (d_pressure d)) d)), w).
Proof. exists (Z.max 0 (w_clock w - started)). split; [lia|done]. Qed.

Lemma console_bind_run {A} d w session key tok (f : bool -> DM R A) :
  hbind (match session with Some s => on_book (fun b => bind_lock b s key tok) | None => hret true end) f (alone d) w =
  f (session_known (d_sessions d) session)
    (alone (set_book (book_with (d_sessions d) session key tok (w_clock w)) d)) w.
Proof.
  unfold session_known, book_with. destruct session as [s|].
  2: { unfold hbind, hret, bind, ret. cbn. unfold alone. do 3 f_equal. by destruct d. }
  unfold hbind, on_book, haccess, bind_lock, instant_now, gets, bind, ret. cbn.
  destruct (d_sessions d !! s) as [e|]; cbn; [done|]. unfold alone. by destruct d.
Qed.

Lemma acquire_refused d w req e : request_options req = Err e ->
  e = BAD_REQUEST /\ api_acquire (R:=R) ds req (alone d) w = (Done (Err e, alone d), w).
Proof.
  unfold request_options, api_acquire. destruct (String.eqb (aq_key req) ""); [by intros [= <-]|].
  destruct (aq_safety_policy req) as [p|]; [|done].
  destruct (parse_safety_policy p) as [policy|e'] eqn:Ep; [done|]. intros [= <-]. split; [|done].
  revert Ep. unfold parse_safety_policy. repeat case_match; congruence.
Qed.

(** What is left of the handler after the attempt. *)
Definition acquire_reply (req : AcquireRequest) (opts : LockOptions) (started : Z) (r : res error HandleShared) :
    DM R (res StatusCode api_response) :=
  (match r with
   | Ok h =>
       let token := owner_token (h_owner h) in
       let^ bound := match aq_session_token req with
                     | Some sess => on_book (fun b => bind_lock b sess (aq_key req) token)
                     | None => hret true
                     end in
       if negb bound then do^ hrun (release h) in do^ hrun (Single.drop true h) in hret (Err NOT_FOUND)
       else
         do^ observe_op started true false in
         do^ hrun (disarm h) in do^ hrun (Single.drop true h) in
         hret (Ok (AGranted (aq_key req) token (value (h_fence h)) (as_millis_u64 (ttl opts))))
   | Err (Held _) => do^ observe_op started true true in hret (Ok (AHeld (aq_key req)))
   | Err e => do^ observe_op started false false in hret (Err (api_error e))
   end)%handler.

Lemma acquire_admitted d w req opts : request_options req = Ok opts ->
  validate opts = Ok tt /\ 10 <= as_millis (ttl opts) <= 60000 /\ watchdog opts = Some (default false (aq_watchdog req)) /\
  api_acquire (R:=R) ds req (alone d) w =
    hbind (hrun (try_lock_with mgr (aq_key req) opts)) (acquire_reply req opts (w_clock w)) (alone d) w.
Proof.
  pose proof (clamp_ttl_range (aq_ttl_ms req)) as Hr. unfold request_options, api_acquire.
  destruct (String.eqb (aq_key req) ""); [done|].
  destruct (match aq_safety_policy req with Some p => _ | None => _ end) as [policy|]; [|done]. intros [= <-].
  split; [apply validate_ok, Hr|]. split; [|done]. unfold as_millis. cbn [ttl]. unfold from_millis in Hr.
  split; [apply Z.div_le_lower_bound; lia|apply Z.div_le_upper_bound; lia].
Qed.

(** What a grant request to the console leaves behind.  A request without
    key or with an unknown policy is answered 400 and nothing is sent.  On a
    quiet server, a key held by somebody is answered [AHeld] and the lock is
    untouched; a free key is granted when the session named (if any) is known:
    the token returned holds it for the lease asked for, brought into the
    range of 10 ms to 60 s, with the fence allocated, the session has it
    bound, and no release is pending that could take it away; for an unknown
    session the answer is 404 and the key is free again.  The pressure index
    is told of grants and refusals, not of unknown sessions. *)
Theorem demo_grant_outcome d w req L :
  match request_options req with
  | Err e => e = BAD_REQUEST /\ api_acquire (R:=R) ds req (alone d) w = (Done (Err BAD_REQUEST, alone d), w)
  | Ok opts =>
      let key := aq_key req in
      let t := as_millis (ttl opts) in
      let tok := owner_token (owner_generate (w_uuids w)) in
      calm w -> views mgr keys L w -> key ∈ keys ->
      l_now (L key) + 10 * t <= i64_max -> fence_count (L key) < i64_max ->
      (forall dl, l_holder (L key) <> Some (tok, dl)) ->
      10 <= t <= 60000 /\
      exists r d' w' l', api_acquire (R:=R) ds req (alone d) w = (Done (r, alone d'), w') /\
        calm w' /\ views mgr keys (<[key := l']> L) w' /\ d_live d' = d_live d /\ d_hub d' = d_hub d /\
        (forall task, task ∈ w_tasks w' -> task ∈ w_tasks w \/
           aq_watchdog req = Some true /\ exists cell, task = TWatchdog cell) /\
        match l_holder (L key) with
        | Some _ => r = Ok (AHeld key) /\ l' = L key /\ d_sessions d' = d_sessions d /\
            exists dt, 0 <= dt /\ d_pressure d' = observe dt true true (d_pressure d)
        | None =>
            (exists now, w_clock w <= now /\
               d_sessions d' = book_with (d_sessions d) (aq_session_token req) key tok now) /\
            if session_known (d_sessions d) (aq_session_token req) then
              r = Ok (AGranted key tok (fence_count l') t) /\ l_holder l' = Some (tok, l_now (L key) + t) /\
              l_now l' = l_now (L key) /\ exists dt, 0 <= dt /\ d_pressure d' = observe dt true false (d_pressure d)
            else r = Err NOT_FOUND /\ l_holder l' = None /\ d_pressure d' = d_pressure d
        end
  end.
Proof.
  destruct (request_options req) as [opts|e] eqn:Eo.
  2: { destruct (acquire_refused d w req e Eo) as [-> E]. by split. }
  destruct (acquire_admitted d w req opts Eo) as (Hv & Hr & Hw & ->).
  intros key t tok C V Hin Ft Fc Hnew. split; [done|].
  destruct (attempt_at mgr opts keys Hv Hsep L w key C V Hin Ft Fc Hnew) as (r & w1 & l1 & E1 & C1 & V1 & U1 & Hr1).
  rewrite (hbind_done _ _ _ _ _ _ _ (hrun_done _ _ _ _ _ E1)). unfold acquire_reply.
  destruct (l_holder (L key)) as [x|] eqn:Hh.
  { destruct Hr1 as (-> & -> & F1 & T1). destruct (observe_op_run d w1 (w_clock w) true true) as (dt & Hdt & E2).
    rewrite (hbind_done _ _ _ _ _ _ _ E2). do 4 eexists. split; [reflexivity|].
    split_and!; try done; [rewrite T1; tauto|by exists dt]. }
  destruct Hr1 as (h & -> & Ek & Ei & F1 & Hho & Hhc & El & Et & Eow & Ef & En & T1).
  assert (taken mgr keys (<[key := l1]> L) w1 h) as T.
  { unfold taken, flag_of. rewrite Ek, F1, Ei, fn_lookup_insert, lookup_app_r, Nat.sub_diag by lia. unfold holds.
    rewrite El, String.eqb_refl, length_app. cbn. split_and!; try done. lia. }
  assert (w_clock w <= w_clock w1) as Hclk.
  { pose proof (safe_try_lock_with mgr key opts w) as Hs2. rewrite E1 in Hs2. apply Hs2. }
  assert (forall task, task ∈ w_tasks w1 -> task ∈ w_tasks w \/
           aq_watchdog req = Some true /\ exists cell, task = TWatchdog cell) as HT.
  { intros task. rewrite T1, Hw. cbn [default from_option id]. destruct (aq_watchdog req) as [[]|]; cbn; [|tauto..].
    rewrite elem_of_cons. intros [->|]; [right; eauto|tauto]. }
  assert (owner_token (h_owner h) = tok) as Htok by by rewrite Eow.
  cbv zeta. rewrite console_bind_run. rewrite Htok.
  destruct (session_known (d_sessions d) (aq_session_token req)); cbn [negb].
  - destruct (observe_op_run (set_book (book_with (d_sessions d) (aq_session_token req) key tok (w_clock w1)) d)
      w1 (w_clock w) true false) as (dt & Hdt & E2).
    rewrite (hbind_done _ _ _ _ _ _ _ E2).
    destruct (disarm_drop_calm mgr keys _ w1 h C1 V1 T) as (w2 & w3 & E3 & E4 & C3 & U3 & V3 & T3).
    rewrite (hbind_done _ _ _ _ _ _ _ (hrun_done _ _ _ _ _ E3)), (hbind_done _ _ _ _ _ _ _ (hrun_done _ _ _ _ _ E4)).
    do 4 eexists. split; [reflexivity|]. rewrite T3. split_and!; try done; [by eexists|..].
    + rewrite Ef. do 2 f_equal. apply wrap64_small. fold t. unfold in_u64, u64_mod. lia.
    + by rewrite El, Et, Htok.
    + by exists dt.
  - destruct (release_drop_calm mgr keys Hsep _ w1 h C1 V1 T) as (w2 & w3 & E3 & E4 & C3 & U3 & V3 & T3).
    rewrite (hbind_done _ _ _ _ _ _ _ (hrun_done _ _ _ _ _ E3)), (hbind_done _ _ _ _ _ _ _ (hrun_done _ _ _ _ _ E4)).
    exists (Err NOT_FOUND). do 2 eexists. exists (lease_free l1). split; [reflexivity|]. rewrite T3.
    split_and!; try done; [|by eexists].
    eapply views_ext; [|exact V3]. intros k. rewrite Ek, fn_lookup_insert. destruct (decide (key = k)) as [<-|];
      by rewrite ?fn_lookup_insert, ?fn_lookup_insert_ne.
Qed.
End grants.

(** ** Reentrant locks *)

Section reentrant.
Context {U : UuidSource} {R : Type} `{RedisLaws R}.
Variables (parse_uuid : string -> option uuid) (ds : DemoState).
Abbreviation c := (mgr_conn (ds_manager ds)).
Implicit Types (w : world R) (d : demo).

(** The detached tasks run. *)
Fixpoint run_tasks (ts : list task) : M R unit :=
  match ts with [] => ret tt | t :: ts => bind (run_detached t) (fun _ => run_tasks ts) end.
Definition run_pending : M R unit := fun w => run_tasks (w_tasks w) (set_tasks [] w).

(** One exchange with a calm server that keeps an object. *)
Lemma calm_object {St Op : Type} `{ScriptObjectLaws St Op} w st op : calm w -> so_view (r_db (w_server w c)) st ->
  so_pre op (so_now st) -> exists s', so_view (r_db s') (so_op op st).2 /\
    invoke c (as_pair (so_script op)) w =
      (Done (match (so_op op st).1 with Ok (RPair a b) => Ok (a, b) | Ok _ => Err Io | Err e => Err e end), calm_after c s' w) /\
    invoke c (as_int (so_script op)) w =
      (Done (match (so_op op st).1 with Ok (RInt a) => Ok a | Ok _ => Err Io | Err e => Err e end), calm_after c s' w).
Proof.
  intros C V F. destruct (so_refines_any _ _ _ V F) as [E V']. exists (so_script op (w_server w c)).2.
  split; [done|]. rewrite !calm_invoke by done. by rewrite as_pair_run, as_int_run, E.
Qed.

Variables (key : string) (o : OwnerId) (ttl_ms : option Z).
Abbreviation tok := (owner_token o).
Abbreviation name := (reentrant_map_key key tok).
Abbreviation millis := (as_millis (clamp_ttl ttl_ms)).
Hypothesis Hparse : parse_uuid tok = Some (as_uuid o).

(** The owner is inside [n] times, until [dl]. *)
Definition inside (n : Z) (st : reentrant) : Prop := exists dl, re_hold st = Some (mk_hold tok n dl).

(** The handle the console has for the owner: live, and the only one. *)
Definition console_handle d w (h : ReentrantShared) : Prop :=
  lv_reentrant (d_live d) !! name = Some h /\ rh_conn h = c /\ rh_key h = key /\ rh_token h = tok /\
  rh_ttl h = clamp_ttl ttl_ms /\ released (default fresh_flags (w_flags w !! rh_cell h)) = false /\
  (rh_cell h < length (w_flags w))%nat.

Lemma millis_range : 10 <= millis <= 60000.
Proof.
  pose proof (clamp_ttl_range ttl_ms) as Hr. unfold as_millis, from_millis in *.
  split; [apply Z.div_le_lower_bound; lia|apply Z.div_le_upper_bound; lia].
Qed.

Lemma millis_u64 : as_millis_u64 (clamp_ttl ttl_ms) = millis.
Proof. pose proof millis_range. apply wrap64_small. unfold in_u64, u64_mod. lia. Qed.

(** A grant by the console: the script's, with a fresh cell. *)
Lemma reentrant_grant w st n dl : calm w -> reentrant_view key (r_db (w_server w c)) st ->
  re_now st + millis <= i64_max -> count_of (re_fence st) < i64_max -> 0 <= n < i64_max ->
  re_hold st = (if n =? 0 then None else Some (mk_hold tok n dl)) ->
  exists h s' st', try_lock_reentrant c key o (demo_options ttl_ms) w =
      (Done (Ok h), set_flags (w_flags w ++ [fresh_flags]) (calm_after c s' w)) /\
    rh_cell h = length (w_flags w) /\ rh_conn h = c /\ rh_key h = key /\ rh_token h = tok /\ rh_owner h = o /\
    rh_ttl h = clamp_ttl ttl_ms /\
    reentrant_view key (r_db s') st' /\ re_now st' = re_now st /\ inside (n + 1) st' /\
    count_of (re_fence st') = count_of (re_fence st) + 1.
Proof.
  intros C V Hnow Hf Hn Eh. pose proof millis_range as Hm.
  destruct (calm_object (H1:=reentrant_object key) w st (RAcquire tok millis) C V) as (s' & V' & E & _).
  { split; [|done]. lia. }
  cbn [so_op so_script reentrant_object] in *.
  assert (exists status f, (status = 1 \/ status = 2) /\
    (reentrant_spec (RAcquire tok millis) st).1 = Ok (RPair status f) /\
    inside (n + 1) (reentrant_spec (RAcquire tok millis) st).2 /\
    re_now (reentrant_spec (RAcquire tok millis) st).2 = re_now st /\
    count_of (re_fence (reentrant_spec (RAcquire tok millis) st).2) = count_of (re_fence st) + 1)
    as (status & f & Hs & Er & Hin & En & Ef).
  { destruct st as [now hold fc]. cbn [re_hold re_fence re_now] in *. subst hold.
    unfold inside, reentrant_spec, with_fence, counter_incr. rewrite (proj2 (Z.leb_le (count_of fc + 1) _)) by lia.
    destruct (Z.eqb_spec n 0) as [->|Hz].
    - exists 1, (count_of fc + 1). cbn. eauto 10.
    - cbn [hd_owner hd_count]. rewrite String.eqb_refl, (proj2 (Z.leb_le (n + 1) _)) by lia.
      exists 2, (count_of fc + 1). cbn. eauto 10. }
  rewrite Er in E. unfold try_lock_reentrant. rewrite demo_options_ok. unfold try_ at 1, bind at 1, ret at 1.
  change (ttl (demo_options ttl_ms)) with (clamp_ttl ttl_ms).
  rewrite millis_u64, u64_mul_small by (unfold u64_mod; lia). rewrite (Z.mul_comm _ 10).
  unfold try_, backend. unfold bind at 1 2. unfold invoke_pair.
  change (eval_script REENTRANT_ACQUIRE [key; fence_key_for key] [tok; z_to_string millis; z_to_string (10 * millis)])
    with (reentrant_script key (R:=R) (RAcquire tok millis)).
  rewrite E. cbn [ret res_map_err].
  assert ((status =? 1) || (status =? 2) = true) as -> by by destruct Hs as [-> | ->].
  eexists _, s', _. split; [reflexivity|]. by split_and!.
Qed.

(** A release of one hold. *)
Lemma reentrant_leave w st n t : calm w -> reentrant_view key (r_db (w_server w c)) st ->
  t = 0 \/ ttl_fits (re_now st) t -> 1 <= n -> inside n st ->
  exists s' st', invoke_int c REENTRANT_RELEASE [key] [tok; z_to_string t] w = (Done (Ok (n - 1)), calm_after c s' w) /\
    reentrant_view key (r_db s') st' /\ re_now st' = re_now st /\ re_fence st' = re_fence st /\
    if n =? 1 then re_hold st' = None else inside (n - 1) st'.
Proof.
  intros C V F Hn [dl Eh]. destruct (calm_object (H1:=reentrant_object key) w st (RRelease tok t) C V F) as (s' & V' & _ & E).
  cbn [so_op so_script reentrant_object] in *.
  exists s', (reentrant_spec (RRelease tok t) st).2. unfold invoke_int.
  change (eval_script REENTRANT_RELEASE [key] [tok; z_to_string t]) with (reentrant_script key (R:=R) (RRelease tok t)).
  rewrite E. destruct st as [now hold fc]. cbn [re_hold] in Eh. subst hold. unfold inside, reentrant_spec in *.
  cbn [hd_owner hd_count hd_deadline] in *. rewrite String.eqb_refl in *.
  destruct (Z.eqb_spec n 1) as [->|Hz]; [done|]. rewrite (proj2 (Z.leb_gt (n - 1) 0)) in * by lia. eauto 10.
Qed.

(** The owner enters through the console, and what was spawned runs. *)
Definition reenter : DM R bool :=
  (let^ r := api_reentrant_acquire parse_uuid ds key ttl_ms (Some tok) in
   do^ hrun run_pending in
   hret (is_ok r))%handler.

Definition console_inside d w (st : reentrant) : Prop :=
  calm w /\ w_tasks w = [] /\ reentrant_view key (r_db (w_server w c)) st /\
  match lv_reentrant (d_live d) !! name with
  | None => re_hold st = None
  | Some h => console_handle d w h /\ inside 1 st
  end.

Lemma console_acquire_run d w h w1 w2 :
  try_lock_reentrant c key o (demo_options ttl_ms) w = (Done (Ok h), w1) -> rh_owner h = o ->
  (match lv_reentrant (d_live d) !! name with Some h0 => Reentrant.drop true h0 | None => ret tt end) w1 = (Done tt, w2) ->
  api_reentrant_acquire parse_uuid ds key ttl_ms (Some tok) (alone d) w =
    (Done (Ok (AOwner tok (value (rh_fence h))),
           alone (set_live (lm_set reentrant_map (<[name := h]> (lv_reentrant (d_live d))) (d_live d)) d)), w2).
Proof.
  intros E1 Eo E2. unfold api_reentrant_acquire. rewrite Hparse.
  rewrite (htry_ok _ _ (alone d) w o (alone d) w) by by destruct o.
  rewrite (htry_ok _ _ (alone d) w h (alone d) w1).
  2: { unfold api. by rewrite (hbind_done _ _ _ _ _ _ _ (hrun_done _ _ _ _ _ E1)). }
  rewrite Eo. cbv zeta.
  rewrite (hbind_done _ _ _ _ tt (alone (set_live (lm_set reentrant_map (<[name := h]> (lv_reentrant (d_live d))) (d_live d)) d)) w2);
    [done|].
  unfold insert_live, hbind, hstate, haccess, bind, ret. cbn.
  destruct (lv_reentrant (d_live d) !! name) as [h0|]; [by apply hrun_done|]. by injection E2 as <-.
Qed.

(** A live handle that goes out of scope. *)
Lemma reentrant_drop_run w (h : ReentrantShared) :
  released (default fresh_flags (w_flags w !! rh_cell h)) = false ->
  Reentrant.drop true h w = (Done tt,
    set_tasks (TScript (rh_conn h) REENTRANT_RELEASE [rh_key h] [rh_token h; z_to_string 0] :: w_tasks w)
      (set_flags (alter set_released (rh_cell h) (alter set_dropped (rh_cell h) (w_flags w))) w)).
Proof.
  intros Hr. unfold Reentrant.drop, mark_released, update_cell, modify, cell, gets, spawn, modify, bind, ret. cbn.
  assert (released (default fresh_flags (alter set_dropped (rh_cell h) (w_flags w) !! rh_cell h)) = false) as ->; [|done].
  rewrite list_lookup_alter_eq. by destruct (w_flags w !! rh_cell h).
Qed.

(** The new handle, once the old one is gone. *)
Lemma console_handle_new d w (h : ReentrantShared) s : rh_cell h = length (w_flags w) -> rh_conn h = c -> rh_key h = key ->
  rh_token h = tok -> rh_ttl h = clamp_ttl ttl_ms -> forall w' m, w_flags w' = w_flags w ++ [fresh_flags] \/
    (exists f i, (i < length (w_flags w))%nat /\ w_flags w' = alter f i (w_flags w ++ [fresh_flags])) ->
  console_handle (set_live (lm_set reentrant_map (<[name := h]> m) s) d) w' h.
Proof.
  intros Hc Hcn Hk Ht Htt w' m F. unfold console_handle. cbn. rewrite lookup_insert_eq, Hc. split_and!; try done.
  - destruct F as [-> | (f & i & Hi & ->)]; rewrite ?list_lookup_alter_ne by lia;
      by rewrite lookup_app_r, Nat.sub_diag by lia.
  - destruct F as [-> | (f & i & Hi & ->)]; rewrite ?length_alter, length_app; cbn; lia.
Qed.

Lemma reenter_run d w st : console_inside d w st -> re_now st + millis <= i64_max ->
  count_of (re_fence st) < i64_max ->
  exists d' w' st', reenter (alone d) w = (Done (true, alone d'), w') /\ console_inside d' w' st' /\
    re_now st' = re_now st /\ count_of (re_fence st') = count_of (re_fence st) + 1 /\
    is_Some (lv_reentrant (d_live d') !! name).
Proof.
  intros (C & T & V & Hd) Hnow Hf. unfold reenter.
  destruct (lv_reentrant (d_live d) !! name) as [h0|] eqn:Eold.
  - destruct Hd as ((_ & Hc0 & Hk0 & Ht0 & Htt0 & Hr0 & Hl0) & dl & Eh).
    destruct (reentrant_grant w st 1 dl C V Hnow Hf) as (h & s1 & st1 & E1 & Hc & Hcn & Hk & Ht & Ho & Htt & V1 & N1 & I1 & F1);
      [done|done|].
    set (w1 := set_flags (w_flags w ++ [fresh_flags]) (calm_after c s1 w)) in *.
    assert (released (default fresh_flags (w_flags w1 !! rh_cell h0)) = false) as Hr1.
    { cbn. by rewrite lookup_app_l by done. }
    pose proof (reentrant_drop_run w1 h0 Hr1) as Ed. rewrite Hc0, Hk0, Ht0 in Ed. cbn [w_tasks w1] in Ed.
    change (w_tasks w1) with (w_tasks w) in Ed. rewrite T in Ed.
    set (w2 := set_tasks _ _) in Ed.
    rewrite (hbind_done _ _ _ _ _ _ _ (console_acquire_run d w h w1 w2 E1 Ho ltac:(by rewrite Eold))).
    destruct (reentrant_leave (set_tasks [] w2) st1 2 0) as (s3 & st3 & E3 & V3 & N3 & F3 & I3);
      [by destruct C|cbn; by rewrite fn_lookup_insert|by left|done|done|].
    do 2 eexists. exists st3. split.
    { unfold hbind at 1, hrun, bind at 1 2. unfold run_pending. change (w_tasks w2) with [TScript c REENTRANT_RELEASE [key] [tok; z_to_string 0]].
      cbn [run_tasks run_detached]. unfold bind at 1 2. rewrite E3. reflexivity. }
    split; [|split; [by rewrite N3|split; [by rewrite F3|cbn; rewrite lookup_insert_eq; eauto]]].
    split; [by destruct C|]. split; [done|]. split; [cbn; by rewrite fn_lookup_insert|].
    cbn [set_live d_live lm_set reentrant_map lv_reentrant]. rewrite lookup_insert_eq. split; [|done].
    eapply console_handle_new; try done. right. exists (set_released ∘ set_dropped), (rh_cell h0). split; [done|].
    cbn. by rewrite list_alter_alter_eq.
  - destruct (reentrant_grant w st 0 0 C V Hnow Hf) as (h & s1 & st1 & E1 & Hc & Hcn & Hk & Ht & Ho & Htt & V1 & N1 & I1 & F1);
      [done|done|].
    set (w1 := set_flags (w_flags w ++ [fresh_flags]) (calm_after c s1 w)) in *.
    rewrite (hbind_done _ _ _ _ _ _ _ (console_acquire_run d w h w1 w1 E1 Ho ltac:(by rewrite Eold))).
    do 2 eexists. exists st1. split.
    { unfold hbind, hrun, run_pending, bind. cbn. rewrite T. reflexivity. }
    split; [|split; [done|split; [done|cbn; rewrite lookup_insert_eq; eauto]]].
    split; [by destruct C|]. split; [done|]. split; [cbn; by rewrite fn_lookup_insert|].
    cbn [set_live d_live lm_set reentrant_map lv_reentrant]. rewrite lookup_insert_eq. split; [|done].
    eapply console_handle_new; try done. by left.
Qed.

(** [n] times; are all of them granted? *)
Fixpoint enter_times (n : nat) : DM R bool :=
  match n with
  | O => hret true
  | S n => (let^ ok := reenter in let^ oks := enter_times n in hret (ok && oks))%handler
  end.

Lemma enter_times_run n : forall d w st, console_inside d w st -> re_now st + millis <= i64_max ->
  count_of (re_fence st) + Z.of_nat n <= i64_max ->
  exists d' w' st', enter_times n (alone d) w = (Done (true, alone d'), w') /\ console_inside d' w' st' /\
    re_now st' = re_now st /\ ((0 < n)%nat -> is_Some (lv_reentrant (d_live d') !! name)).
Proof.
  induction n as [|n IH]; intros d w st I Hnow Hf.
  { exists d, w, st. split_and!; try done. lia. }
  destruct (reenter_run d w st I Hnow ltac:(lia)) as (d1 & w1 & st1 & E1 & I1 & N1 & F1 & S1).
  destruct (IH d1 w1 st1 I1) as (d2 & w2 & st2 & E2 & I2 & N2 & S2); [by rewrite N1|lia|].
  exists d2, w2, st2. cbn [enter_times]. rewrite (hbind_done _ _ _ _ _ _ _ E1), (hbind_done _ _ _ _ _ _ _ E2), N2, N1. split_and!; try done.
  destruct n; [|intros _; apply S2; lia]. cbn in E2. unfold hret, ret in E2. injection E2 as <- _. done.
Qed.

(** The owner leaves through the console. *)
Lemma console_leave_run d w st : console_inside d w st -> re_now st + millis <= i64_max ->
  is_Some (lv_reentrant (d_live d) !! name) ->
  exists d' w' st', api_reentrant_release key tok None (alone d) w = (Done (Ok (AReleased true), alone d'), w') /\
    calm w' /\ w_tasks w' = [] /\ reentrant_view key (r_db (w_server w' c)) st' /\ re_hold st' = None /\
    lv_reentrant (d_live d') !! name = None.
Proof.
  intros (C & T & V & Hd) Hnow [h Eh]. rewrite Eh in Hd.
  destruct Hd as ((_ & Hc & Hk & Ht & Htt & Hr & Hl) & I). pose proof millis_range as Hm.
  set (w1 := set_flags (alter set_released (rh_cell h) (w_flags w)) w).
  destruct (reentrant_leave w1 st 1 millis) as (s2 & st2 & E2 & V2 & N2 & F2 & I2);
    [by destruct C|done|right; split; lia|done|done|].
  assert (release_one h w = (Done (Ok tt), calm_after c s2 w1)) as E.
  { unfold release_one. rewrite (bind_done _ _ w true w1).
    2: { unfold mark_released, update_cell, modify, cell, gets, bind, ret. by rewrite Hr. }
    cbn [negb]. rewrite Hc, Hk, Ht, Htt, millis_u64. unfold try_, backend. unfold bind at 1 2. by rewrite E2. }
  assert (exists w3, Reentrant.drop true h (calm_after c s2 w1) = (Done tt, w3) /\ calm w3 /\ w_tasks w3 = [] /\
    w_server w3 = w_server (calm_after c s2 w1)) as (w3 & E3 & C3 & T3 & S3).
  { unfold Reentrant.drop, mark_released, update_cell, modify, cell, gets, bind, ret. cbn.
    rewrite !list_lookup_alter_eq. destruct (lookup_lt_is_Some_2 _ _ Hl) as [f ->]. cbn. eexists. split; [done|].
    by destruct C. }
  do 2 eexists. exists st2. split.
  - unfold api_reentrant_release, remove_live. unfold hbind at 1, hstate, haccess, bind at 1 2, ret at 1. cbn.
    rewrite Eh. cbn. etrans; [eapply (htry_ok _ _ _ _ tt); unfold consume|reflexivity].
    rewrite (hbind_done _ _ _ _ _ _ _ (hrun_done _ _ _ _ _ E)), (hbind_done _ _ _ _ _ _ _ (hrun_done _ _ _ _ _ E3)).
    reflexivity.
  - split; [done|]. split; [done|]. split; [by rewrite S3; cbn; rewrite fn_lookup_insert|].
    split; [done|]. cbn. by rewrite lookup_delete_eq.
Qed.

(** An owner is inside at most once.  However often the owner of a free
    reentrant lock acquires it through the console, each time answered with a
    grant, and once what the console spawned meanwhile has run, the lock
    counts one hold: filing the new handle drops the one before, and its
    release undoes the nesting.  So one release, which is answered
    [released], frees the lock, and the releases the owner still means to make
    find nothing. *)
Theorem demo_reentrant_counts_once n d w st : (0 < n)%nat ->
  calm w -> w_tasks w = [] -> reentrant_view key (r_db (w_server w c)) st -> re_hold st = None ->
  lv_reentrant (d_live d) !! name = None ->
  re_now st + millis <= i64_max -> count_of (re_fence st) + Z.of_nat n <= i64_max ->
  exists d1 w1 st1 d2 w2 st2,
    enter_times n (alone d) w = (Done (true, alone d1), w1) /\
    reentrant_view key (r_db (w_server w1 c)) st1 /\ inside 1 st1 /\
    api_reentrant_release key tok None (alone d1) w1 = (Done (Ok (AReleased true), alone d2), w2) /\
    reentrant_view key (r_db (w_server w2 c)) st2 /\ re_hold st2 = None /\ w_tasks w2 = [] /\
    exists d3 w3, api_reentrant_release (R:=R) key tok None (alone d2) w2 =
      (Done (Ok (AReleased false), alone d3), w3) /\ w3 = w2.
Proof.
  intros Hn C T V Eh Ed Hnow Hf.
  destruct (enter_times_run n d w st) as (d1 & w1 & st1 & E1 & I1 & N1 & S1); [|done|lia|].
  { split_and!; try done. by rewrite Ed. }
  specialize (S1 Hn). pose proof I1 as (C1 & T1 & V1 & H1). pose proof S1 as [h Eh1]. rewrite Eh1 in H1.
  destruct (console_leave_run d1 w1 st1 I1 ltac:(by rewrite N1) S1) as (d2 & w2 & st2 & E2 & C2 & T2 & V2 & Eh2 & Ed2).
  exists d1, w1, st1, d2, w2, st2. split_and!; try done; [apply H1|].
  do 2 eexists. split; [|reflexivity].
  unfold api_reentrant_release, remove_live. unfold hbind, hstate, haccess, bind, ret. cbn. rewrite Ed2. reflexivity.
Qed.
End reentrant.

(** ** The other handlers on a quiet server *)

Section quiet.
Context {U : UuidSource} {R : Type} `{RedisLaws R}.
Variables (exceeds : option string -> f64 -> bool) (ds : DemoState).
Abbreviation c := (mgr_conn (ds_manager ds)).
Implicit Types (w : world R) (d : demo).

Lemma api_done {A} (m : M R (res error A)) d w a w' : m w = (Done (Ok a), w') ->
  api m (alone d) w = (Done (Ok a, alone d), w').
Proof. intros E. unfold api. by rewrite (hbind_done _ _ _ _ _ _ _ (hrun_done _ _ _ _ _ E)). Qed.

Lemma api_failed {A} (m : M R (res error A)) d w e w' : m w = (Done (Err e), w') ->
  api m (alone d) w = (Done (Err (api_error e), alone d), w').
Proof. intros E. unfold api. by rewrite (hbind_done _ _ _ _ _ _ _ (hrun_done _ _ _ _ _ E)). Qed.

(** One call of a script that answers an integer. *)
Lemma calm_script w name KEYS ARGV z dd : calm w ->
  eval_script name KEYS ARGV (r_db (w_server w c)) = (Ok (RInt z), dd) ->
  exists s', invoke_int c name KEYS ARGV w = (Done (Ok z), calm_after c s' w) /\ r_db s' = dd /\
    s' = (eval_script name KEYS ARGV (w_server w c)).2.
Proof.
  intros C E. pose proof (meets_script name KEYS ARGV (w_server w c)) as Hm. rewrite E in Hm. injection Hm as E1 E2.
  eexists. split; [|by split]. unfold invoke_int. by rewrite calm_invoke, as_int_run, E1 by done.
Qed.

(** A testament comes back as it was left.  On a quiet server the console
    stores a testament for the token that holds the lock, and only for that
    one (another is answered 500 and the store is unchanged); read back, it is
    the payload, a well-formed text being returned byte for byte. *)
Theorem demo_testament_returned d w key token ttl_ms payload l :
  let t := as_millis_u64 (clamp_ttl ttl_ms) in
  calm w -> view key (r_db (w_server w c)) l -> l_now l + t <= i64_max ->
  exists r w', api_testament_set ds key token ttl_ms payload (alone d) w = (Done (r, alone d), w') /\
    if holds token l then
      r = Ok AStored /\ exists w'', api_testament_read ds key (alone d) w' =
        (Done (Ok (APayload (Some (from_utf8_lossy payload))), alone d), w'') /\
      (is_utf8 payload -> from_utf8_lossy payload = payload)
    else r = Err INTERNAL_SERVER_ERROR /\ r_db (w_server w' c) = r_db (w_server w c).
Proof.
  intros t C V Hnow.
  assert (0 < t) as Ht.
  { pose proof (clamp_ttl_range ttl_ms) as Hr. unfold t, as_millis_u64, from_millis in *.
    assert (10 <= as_millis (clamp_ttl ttl_ms) <= 60000).
    { unfold as_millis. split; [apply Z.div_le_lower_bound; lia|apply Z.div_le_upper_bound; lia]. }
    rewrite wrap64_small; [lia|unfold in_u64, u64_mod; lia]. }
  pose proof (testament_survives key (w_server w c) l token payload t [] V ltac:(by split) I Ht) as Hs.
  unfold api_testament_set, set_testament.
  destruct (eval_script WILL_SET [key; will_key key] [token; payload; z_to_string t] (w_server w c)) as [r0 s1] eqn:E.
  assert (exists z, r0 = Ok (RInt z) /\ z = if holds token l then 1 else 0) as (z & -> & Ez).
  { destruct (holds token l); destruct Hs as [-> _]; eauto. }
  assert (invoke_int c WILL_SET [key; will_key key] [token; payload; z_to_string t] w = (Done (Ok z), calm_after c s1 w)) as Ei.
  { unfold invoke_int. by rewrite calm_invoke, as_int_run, E by done. }
  unfold try_, backend. 
  destruct (holds token l); destruct Hs as [_ Hs]; subst z.
  - do 2 eexists. split.
    { etrans; [eapply htry_ok, api_done|reflexivity]. unfold bind at 1 2. fold t. rewrite Ei. reflexivity. }
    split; [done|]. eexists. split; [|apply from_utf8_lossy_id].
    unfold api_testament_read, read_testament, backend.
    etrans; [eapply (htry_ok _ _ _ _ (Some payload)), api_done|reflexivity].
    unfold bind. rewrite calm_invoke by done. cbn in Hs |- *. rewrite fn_lookup_insert. cbn [run_events snd] in Hs.
    rewrite Hs. reflexivity.
  - do 2 eexists. split.
    { etrans; [eapply htry_err, api_failed|reflexivity]. unfold bind at 1 2. fold t. rewrite Ei. reflexivity. }
    split; [done|]. cbn. by rewrite fn_lookup_insert.
Qed.

(** Asking a latch for its count makes one.  On a quiet server a latch
    that exists is read as it is; for a key without one, the request for its
    count, which only means to look, sets up a latch of one, without expiry,
    and answers 1. *)
Theorem demo_latch_count_creates d w key :
  calm w ->
  match db_live (r_db (w_server w c)) !! key with
  | None => exists w', api_latch_count ds key (alone d) w = (Done (Ok (ACount 1), alone d), w') /\
      db_live (r_db (w_server w' c)) !! key = Some (mk_entry (VStr "1") None)
  | Some _ => forall n, latch_at key (r_db (w_server w c)) n -> 0 <= n ->
      exists w', api_latch_count ds key (alone d) w = (Done (Ok (ACount n), alone d), w') /\
        r_db (w_server w' c) = r_db (w_server w c)
  end.
Proof.
  intros C.
  assert (forall z n (d1 d2 : db), eval_script LATCH_INIT [key] [z_to_string 1] (r_db (w_server w c)) = (Ok (RInt z), d1) ->
    eval_script LATCH_GET [key] [] d1 = (Ok (RInt n), d2) -> 0 <= n ->
    exists w', api_latch_count ds key (alone d) w = (Done (Ok (ACount n), alone d), w') /\ r_db (w_server w' c) = d2) as Hrun.
  { intros z n d1 d2 E1 E2 Hn. destruct (calm_script w _ _ _ _ _ C E1) as (s1 & I1 & D1 & _).
    destruct (calm_script (calm_after c s1 w) LATCH_GET [key] [] n d2) as (s2 & I2 & D2 & _);
      [by destruct C|cbn; by rewrite fn_lookup_insert, D1|].
    eexists. split.
    - unfold api_latch_count. etrans; [eapply (htry_ok _ _ _ _ (mk_latch c key)), api_done|].
      { unfold latch_create, try_, backend, initial_counts. unfold bind, ret. cbn [Z.eqb]. rewrite I1. reflexivity. }
      etrans; [eapply htry_ok, api_done|reflexivity].
      unfold count, eval_remaining, try_, backend, bind, ret. cbn [la_conn la_key]. rewrite I2. cbn [res_map_err].
      rewrite (proj2 (Z.ltb_ge _ 0)) by lia. reflexivity.
    - cbn. by rewrite fn_lookup_insert. }
  destruct (db_live (r_db (w_server w c)) !! key) as [e|] eqn:E.
  - intros n L Hn. destruct (Hrun 0 n _ _ (latch_init_present _ _ _ _ E) (latch_get_at _ _ _ L Hn) Hn) as (w' & Ew & Ed).
    by exists w'.
  - assert (latch_at key (put key (VStr (z_to_string 1)) None (r_db (w_server w c))) 1) as L
      by (exists None; cbn; by rewrite lookup_insert_eq).
    destruct (Hrun 1 1 _ _ (latch_init_absent _ _ _ E) (latch_get_at _ _ _ L ltac:(lia)) ltac:(lia)) as (w' & Ew & Ed).
    exists w'. split; [done|]. rewrite Ed. cbn. by rewrite lookup_insert_eq.
Qed.

(** The guard of a semantic request, before its predicates. *)
Definition semantic_guard (key : string) (ttl_ms : option Z) : SemanticGuard :=
  guard_ttl (clamp_ttl ttl_ms) (acquire_where (ds_manager ds) key).

Lemma add_predicates_keeps ps : forall g g', add_predicates ps g = Ok g' ->
  sg_mgr g' = sg_mgr g /\ sg_key g' = sg_key g /\ sg_ttl g' = sg_ttl g /\
  length (sg_preds g') = (length (sg_preds g) + length ps)%nat.
Proof.
  induction ps as [|p ps IH]; intros g g' E; cbn in E.
  { injection E as <-. cbn. by rewrite Nat.add_0_r. }
  repeat case_match; try done; destruct (IH _ _ E) as (? & ? & ? & Hl);
    (split_and!; [done..|rewrite Hl; cbn; rewrite length_app; cbn; lia]).
Qed.

Lemma add_predicates_refused ps : forall g e, add_predicates ps g = Err e -> e = BAD_REQUEST.
Proof. induction ps as [|p ps IH]; intros g e E; cbn in E; [done|]. repeat case_match; try done; [eauto..|congruence|eauto|congruence]. Qed.

(** What a semantic request is told.  Without predicates, or with one it
    cannot read, it is answered 400 and nothing is sent.  On a quiet store it
    is granted exactly when the key is free and the data hash is there and
    satisfies every predicate, in which case the token returned holds the
    lock and no release is pending; otherwise nothing changes, and the two
    reasons are told apart rightly: [AHeld] when somebody holds the key,
    [APredicatesFailed] when it is free. *)
Theorem demo_semantic_outcome d w key ttl_ms ps l hash :
  let db_of w := r_db (w_server w c) in
  let t := as_millis_u64 (clamp_ttl ttl_ms) in
  let tok := owner_token (owner_generate (w_uuids w)) in
  let serve := api_semantic_acquire (R:=R) exceeds ds key ttl_ms ps (alone d) w in
  match add_predicates ps (semantic_guard key ttl_ms) with
  | Err e => e = BAD_REQUEST /\ serve = (Done (Err BAD_REQUEST, alone d), w)
  | Ok g =>
      if bool_decide (ps = []) then serve = (Done (Err BAD_REQUEST, alone d), w) else
      calm w -> view key (db_of w) l ->
      db_live (db_of w) !! data_key_for key = (fun h => mk_entry (VHash h.1) h.2) <$> hash ->
      ttl_fits (l_now l) t -> fence_count l < i64_max ->
      exists r d' w', serve = (Done (r, alone d'), w') /\ d_live d' = d_live d /\ d_sessions d' = d_sessions d /\
        if semantic_grants exceeds (sg_preds g) hash l
        then r = Ok (ASemantic tok (fence_count l + 1)) /\ view key (db_of w') (semantic_lease tok t l) /\ w_tasks w' = w_tasks w
        else r = Ok (if bool_decide (is_Some (l_holder l)) then AHeld key else APredicatesFailed) /\ db_of w' = db_of w
  end.
Proof.
  intros db_of t tok serve. unfold serve, api_semantic_acquire. clear serve.
  destruct ps as [|p0 ps0] eqn:Eps; [done|]. rewrite <- Eps in *. fold (semantic_guard key ttl_ms).
  destruct (add_predicates ps (semantic_guard key ttl_ms)) as [g|e] eqn:Eg.
  2: { by rewrite (add_predicates_refused _ _ _ Eg). }
  destruct (add_predicates_keeps _ _ _ Eg) as (Em & Ek & Et & El). cbn in Em, Ek, Et, El.
  rewrite bool_decide_eq_false_2 by by subst ps. intros C V Ed F Hc.
  destruct (semantic_attempt exceeds g w l hash) as (r & w1 & E1 & C1 & T1 & Hr);
    rewrite ?Ek, ?Et, ?Em; try done; [by intros Hn; rewrite Hn, Eps in El|].
  rewrite (htry_ok _ _ (alone d) w g (alone d) w) by done.
  rewrite (hbind_done _ _ _ _ _ _ _ (hrun_done _ (alone d) _ _ _ (eq_refl : instant_now w = _))).
  rewrite (hbind_done _ _ _ _ _ _ _ (hrun_done _ _ _ _ _ E1)). rewrite Ek, Em, Et in Hr.
  destruct (semantic_grants exceeds (sg_preds g) hash l).
  - destruct Hr as (h & -> & _ & Eh & Eo & Ef & Efl & Hl & V1 & _).
    destruct (observe_op_run d w1 (w_clock w) true false) as (dt & Hdt & E2).
    rewrite (hbind_done _ _ _ _ _ _ _ E2).
    set (w2 := set_flags (alter set_released (h_cell h) (w_flags w1)) w1).
    assert (disarm h w1 = (Done tt, w2)) as E3 by done.
    destruct (drop_released w2 h) as (w3 & E4 & S4 & T4 & _); [by eapply flag_released|].
    rewrite (hbind_done _ _ _ _ _ _ _ (hrun_done _ _ _ _ _ E3)), (hbind_done _ _ _ _ _ _ _ (hrun_done _ _ _ _ _ E4)).
    do 3 eexists. split; [reflexivity|]. rewrite Eo, Ef, T4. split_and!; try done.
    unfold db_of. rewrite S4. exact V1.
  - destruct Hr as [-> Er]. destruct (observe_op_run d w1 (w_clock w) true true) as (dt & Hdt & E2).
    rewrite (hbind_done _ _ _ _ _ _ _ E2).
    destruct (describe_key_correct w1 (ds_manager ds) key l) as (w2 & E3 & D2).
    { apply C1. } { by rewrite calm_step. } { rewrite calm_servers by done. by rewrite Er. }
    do 3 eexists. split.
    { etrans; [eapply htry_ok, api_done, E3|]. cbv beta iota. reflexivity. }
    split_and!; try done. unfold db_of. rewrite D2, calm_servers by done. exact Er.
Qed.
End quiet.

(** ** The watch socket *)

Section socket.
Variable sub : nat.

(** The socket task and the rest of the hub, which does not read from the
    task's queue. *)
Inductive socket_step : pump * hub -> pump * hub -> Prop :=
| ss_pump i p h p' h' : pu_sub p = sub -> pump_step i p h = Some (p', h') -> socket_step (p, h) (p', h')
| ss_hub p h h' : hub_step h h' ->
    (forall s, hub_subs h !! sub = Some s -> exists s' l, hub_subs h' !! sub = Some s' /\
       su_sent s' = su_sent s ++ l /\ su_queue s' = su_queue s ++ l) ->
    socket_step (p, h) (p, h').

(** The texts sent are the rendered beginning of what the subscription was
    given; all of it but the queue while the task runs. *)
Definition socket_ok (ph : pump * hub) : Prop :=
  hub_ok ph.2 /\ pu_sub ph.1 = sub /\
  exists s evs rest, hub_subs ph.2 !! sub = Some s /\ su_sent s = evs ++ rest /\
    pu_sent ph.1 = map render_event evs /\ (pu_live ph.1 = true -> rest = su_queue s).

Lemma socket_ok_step x y : socket_ok x -> socket_step x y -> socket_ok y.
Proof.
  intros (Ok & Es & s & evs & rest & Hs & Hsent & Hp & Hr) St. destruct St as [i p h p' h' Ei E|p h h' Hh Hq]; cbn [fst snd] in *.
  - unfold pump_step in E. destruct (pu_live p); cbn [negb] in E; [|done]. rewrite Es, Hs in E.
    pose proof (Hr eq_refl) as ->. pose proof (lookup_lt_Some _ _ _ Hs) as Hlt.
    destruct i as [delivered| |].
    + destruct (su_queue s) as [|e q] eqn:Eq.
      * case_bool_decide; [|done]. injection E as <- <-. split; [by eapply hub_ok_step; [done|apply hs_leave]|].
        split; [done|]. exists (leave s), evs, []. cbn. by rewrite list_lookup_insert_eq.
      * destruct delivered; injection E as <- <-.
        -- split; [by eapply hub_ok_step; [done|apply hs_recv]|]. split; [done|].
           exists (recv s), (evs ++ [e]), q. cbn. rewrite list_lookup_insert_eq, Hsent, Hp, map_app by done.
           split_and!; try done; [by rewrite <- app_assoc|]. by rewrite Eq.
        -- split.
           { eapply hub_ok_step; [eapply hub_ok_step; [exact Ok|by apply hs_recv]|].
             replace (set_sub sub (leave (recv s)) h) with (set_sub sub (leave (recv s)) (set_sub sub (recv s) h)).
             - apply hs_leave. cbn. by apply list_lookup_insert_eq.
             - unfold set_sub. cbn. by rewrite list_insert_insert_eq. }
           split; [done|]. exists (leave (recv s)), evs, (e :: q). cbn. by rewrite list_lookup_insert_eq.
    + injection E as <- <-. split; [done|]. split; [done|]. by exists s, evs, (su_queue s).
    + injection E as <- <-. split; [by eapply hub_ok_step; [done|apply hs_leave]|]. split; [done|].
      exists (leave s), evs, (su_queue s). cbn. by rewrite list_lookup_insert_eq.
  - split; [by eapply hub_ok_step|]. split; [done|]. destruct (Hq s Hs) as (s' & l & Hs' & E1 & E2).
    exists s', evs, (rest ++ l). rewrite E1, E2, Hsent, app_assoc. split_and!; try done. intros Hl. by rewrite (Hr Hl).
Qed.
End socket.

(** The browser sees what was published.  From the moment a socket is
    subscribed, whatever the hub, the other subscribers and the browser do,
    the texts sent on it are, in order and rendered, a part of the sequence
    of states the key's poller published; and as long as the task runs and
    its queue is empty, they are everything its subscription was given. *)
Theorem demo_socket_faithful h key p h' : hub_reachable h ->
  let sub := length (hub_subs h) in
  rtc (socket_step sub) (mk_pump sub [] true, subscribe key h) (p, h') ->
  exists s ch evs, hub_subs h' !! sub = Some s /\ hub_channels h' !! su_chan s = Some ch /\
    pu_sent p = map render_event evs /\ sublist evs (map event_of (ch_log ch)) /\
    (pu_live p = true -> su_queue s = [] -> evs = su_sent s).
Proof.
  intros Hr sub Hrun.
  assert (socket_ok sub (mk_pump sub [] true, subscribe key h)) as H0.
  { split; [by apply hub_ok_subscribe, hub_ok_reachable|]. split; [done|].
    assert (exists c seen, hub_subs (subscribe key h) !! sub = Some (new_sub c seen)) as (c & seen & E).
    { unfold subscribe. destruct (hub_keys h !! key); cbn; do 2 eexists; by apply list_lookup_middle. }
    exists (new_sub c seen), [], []. cbn [fst snd]. by rewrite E. }
  assert (socket_ok sub (p, h')) as (Ok & _ & s & evs & rest & Hs & Hsent & Hp & Hq).
  { revert H0 Hrun. generalize (mk_pump sub [] true, subscribe key h). intros x Hx Hrun.
    induction Hrun; [done|]. eauto using socket_ok_step. }
  cbn [fst snd] in *. destruct (ho_subs _ Ok _ _ Hs) as (ch & Ec & _ & So).
  exists s, ch, evs. split_and!; try done.
  - etrans; [|etrans; [exact (so_order _ _ So)|]].
    + unfold seen_events. rewrite Hsent. by do 2 apply sublist_inserts_r.
    + apply fmap_sublist, sublist_take.
  - intros Hl Eq. rewrite Hsent, (Hq Hl), Eq. by rewrite app_nil_r.
Qed.

(** ** Witnesses *)

Definition console : DemoState := mk_demo_state demo_mgr 1.
Definition console_start : demo := (demo_new demo_mgr 1 0).2.
Definition demo_parse (s : string) : option (@uuid counting_uuids) := if String.eqb s "uuid-7" then Some (7%N : @uuid counting_uuids) else None.
Definition demo_request : AcquireRequest := mk_acquire_request "job" (Some 100) None (Some "Cowardly"%string) None.

Lemma demo_free_view : views (R:=db) demo_mgr ["job"%string] (fun _ => mk_lease 0 None None) (demo_world demo_db []).
Proof. intros k ->%list_elem_of_singleton. split; [reflexivity..|concrete|concrete]. Qed.


Lemma demo_grant_outcome_witness : exists r d' w',
  api_acquire (R:=db) console demo_request (alone console_start) (demo_world demo_db []) = (Done (r, alone d'), w') /\
  r = Ok (AGranted "job" "uuid-7" 1 100).
Proof.
  destruct (demo_grant_outcome (R:=db) console ["job"%string] demo_separate_job console_start (demo_world demo_db [])
    demo_request (fun _ => mk_lease 0 None None)) as (_ & r & d' & w' & l' & E & _).
  - by split.
  - exact demo_free_view.
  - by apply list_elem_of_singleton.
  - concrete.
  - concrete.
  - done.
  - exists r, d', w'. split; [exact E|]. revert E. vm_compute. by intros [= <- _ _].
Defined.

Lemma demo_reentrant_counts_once_witness : exists d1 w1 d2 w2 st2,
  enter_times (R:=db) demo_parse console "job" (mk_owner (7%N : @uuid counting_uuids)) (Some 100) 3 (alone console_start)
    (demo_world demo_db []) = (Done (true, alone d1), w1) /\
  api_reentrant_release (R:=db) "job" "uuid-7" None (alone d1) w1 = (Done (Ok (AReleased true), alone d2), w2) /\
  reentrant_view "job" (r_db (w_server w2 0%nat)) st2 /\ re_hold st2 = None.
Proof.
  destruct (demo_reentrant_counts_once (R:=db) demo_parse console "job" (mk_owner (7%N : @uuid counting_uuids)) (Some 100)
    eq_refl 3 console_start (demo_world demo_db []) (mk_reentrant 0 None None))
    as (d1 & w1 & st1 & d2 & w2 & st2 & E1 & _ & _ & E2 & V2 & Eh & _).
  - lia.
  - by split.
  - reflexivity.
  - split; [reflexivity..|by intros h|by split; [reflexivity|concrete]|done].
  - reflexivity.
  - reflexivity.
  - concrete.
  - concrete.
  - exists d1, w1, d2, w2, st2. split_and!; done.
Defined.

Lemma demo_testament_returned_witness : exists r w',
  api_testament_set (R:=db) console "job" "A" (Some 100) "step=3" (alone console_start) (demo_world demo_granted []) =
    (Done (r, alone console_start), w') /\ r = Ok AStored.
Proof.
  destruct (demo_testament_returned (R:=db) console console_start (demo_world demo_granted []) "job" "A" (Some 100)
    "step=3" demo_held) as (r & w' & E & Hr).
  - by split.
  - exact view_demo_held.
  - concrete.
  - exists r, w'. split; [exact E|]. exact (proj1 Hr).
Defined.
