(* ===== verification/DemoHttp.v ===== *)
(** * The HTTP surface of the web console ([crates/server/src/demo.rs])

    The declarations of the bodies it reads and writes, the routes of
    [demo_router], and the way a request takes: routing, extraction, the
    handler ([api_serve] of [Demo]), the answer.  [axum], [matchit] and the
    percent codec are a class ([Web]), [serde] is that of [Wire]. *)

From S2P Require Import Prelude Core Redis Scripts World Lease Single Scan Simulation Reentrant Rwlock Semaphore Fair Latch Testament F64 Text Lattice Multi Semantic Sessions WatchHub Handlers Demo DemoSafety Wire.

(** ** Bodies *)

(** *** Requests *)

Definition AcquireRequest_json : shape := SStruct
  ("key" ::= SString;; "ttl_ms" ::= SOption SU64;; "watchdog" ::= SOption SBool;;
   "safety_policy" ::= SOption SString;; "session_token" ::= SOption SString;; FNil).
Definition ReleaseRequest_json : shape := SStruct ("key" ::= SString;; "token" ::= SString;; FNil).
Definition ListQuery_json : shape := SStruct ("prefix" ::= SOption SString;; FNil).
Definition ExtendRequest_json : shape := SStruct ("key" ::= SString;; "token" ::= SString;; "ttl_ms" ::= SU64;; FNil).
Definition ForceUnlockRequest_json : shape := SStruct ("key" ::= SString;; FNil).
Definition ReentrantAcquireRequest_json : shape := SStruct
  ("key" ::= SString;; "ttl_ms" ::= SOption SU64;; "owner_id" ::= SOption SString;; FNil).
Definition ReentrantReleaseRequest_json : shape := SStruct
  ("key" ::= SString;; "owner_id" ::= SString;; "all" ::= SOption SBool;; FNil).
Definition RwAcquireRequest_json : shape := SStruct ("key" ::= SString;; "ttl_ms" ::= SOption SU64;; FNil).
Definition RwReleaseRequest_json : shape := SStruct
  ("key" ::= SString;; "fence" ::= SU64;; "mode" ::= SString;; FNil).
Definition SemaphoreAcquireRequest_json : shape := SStruct
  ("key" ::= SString;; "max_permits" ::= SU32;; "ttl_ms" ::= SOption SU64;; FNil).
Definition FenceReleaseRequest_json : shape := SStruct ("key" ::= SString;; "fence" ::= SU64;; FNil).
Definition MultiAcquireRequest_json : shape := SStruct
  ("keys" ::= SVec SString;; "ttl_ms" ::= SOption SU64;; "wait_ms" ::= SOption SU64;; FNil).
Definition MultiReleaseRequest_json : shape := SStruct ("multi_id" ::= SString;; FNil).
Definition LatchCreateRequest_json : shape := SStruct ("key" ::= SString;; "count" ::= SU32;; FNil).
Definition LatchKeyRequest_json : shape := SStruct ("key" ::= SString;; FNil).
Definition LatchWaitRequest_json : shape := SStruct ("key" ::= SString;; "timeout_ms" ::= SOption SU64;; FNil).
Definition PredicateSpec_json : shape := SStruct
  ("field" ::= SString;; "op" ::= SString;; "value" ::= SOption SString;; FNil).
Definition SemanticAcquireRequest_json : shape := SStruct
  ("key" ::= SString;; "ttl_ms" ::= SOption SU64;; "predicates" ::= SVec PredicateSpec_json;; FNil).
Definition SemanticDataRequest_json : shape := SStruct
  ("key" ::= SString;; "field" ::= SString;; "value" ::= SString;; FNil).
Definition TestamentSetRequest_json : shape := SStruct
  ("key" ::= SString;; "token" ::= SString;; "ttl_ms" ::= SOption SU64;; "payload" ::= SString;; FNil).
Definition SessionRegisterRequest_json : shape := SStruct
  ("client_id" ::= SString;; "ttl_ms" ::= SOption SU64;; FNil).

(** *** Answers *)

(** [#[serde(tag = "result")]]. *)
Definition STagResult : variants -> shape := STagged "result".

Definition LockOutcome_json : shape := STagResult
  (VCons "granted" ("key" ::= SString;; "token" ::= SString;; "fence" ::= SU64;; "ttl_ms" ::= SU64;; FNil)
  (VCons "held" ("key" ::= SString;; FNil) VNil)).
Definition UnlockOutcome_json : shape := STagResult (VCons "released" FNil (VCons "lost" FNil VNil)).
Definition DescribeResponse_json : shape := SStruct
  ("held" ::= SBool;; "version" ::= SU64;; "ttl_ms" ::= SU64;; FNil).
Definition KeyEntry_json : shape := SStruct ("key" ::= SString;; "ttl_ms" ::= SU64;; FNil).
Definition ListLocksResponse_json : shape := SStruct ("prefix" ::= SString;; "locks" ::= SVec KeyEntry_json;; FNil).
Definition PressureResponse_json : shape := SStruct ("spi" ::= SF64;; "tier" ::= SString;; FNil).
Definition ExtendOutcome_json : shape := STagResult (VCons "extended" FNil (VCons "lost" FNil VNil)).
Definition ForceUnlockResponse_json : shape := SStruct ("released" ::= SBool;; FNil).
Definition ReentrantAcquireResponse_json : shape := SStruct ("owner_id" ::= SString;; "fence" ::= SU64;; FNil).
Definition ReleasedResponse_json : shape := SStruct ("released" ::= SBool;; FNil).
Definition RwOutcome_json : shape := STagResult (VCons "acquired" ("fence" ::= SU64;; FNil) (VCons "held" FNil VNil)).
Definition SemaphoreOutcome_json : shape := STagResult
  (VCons "acquired" ("fence" ::= SU64;; FNil) (VCons "full" FNil VNil)).
Definition FairAcquireResponse_json : shape := SStruct ("owner" ::= SString;; "fence" ::= SU64;; FNil).
Definition MultiKeyFence_json : shape := SStruct ("key" ::= SString;; "fence" ::= SU64;; FNil).
Definition MultiOutcome_json : shape := STagResult
  (VCons "acquired" ("multi_id" ::= SString;; "locks" ::= SVec MultiKeyFence_json;; FNil) (VCons "timeout" FNil VNil)).
Definition LatchCountResponse_json : shape := SStruct ("count" ::= SU64;; FNil).
Definition LatchWaitResponse_json : shape := SStruct ("zero" ::= SBool;; FNil).
Definition SemanticOutcome_json : shape := STagResult
  (VCons "granted" ("token" ::= SString;; "fence" ::= SU64;; FNil)
  (VCons "held" FNil (VCons "predicates-failed" FNil VNil))).
(** [json!({ "ok": true })]. *)
Definition Done_json : shape := SStruct ("ok" ::= SBool;; FNil).
Definition SemanticDataResponse_json : shape := SStruct ("fields" ::= SStringMap;; FNil).
Definition TestamentSetResponse_json : shape := SStruct ("stored" ::= SBool;; FNil).
Definition TestamentReadResponse_json : shape := SStruct ("payload" ::= SOption SString;; FNil).
Definition SessionRegisterResponse_json : shape := SStruct ("session_token" ::= SString;; "ttl_ms" ::= SU64;; FNil).
Definition SessionHeartbeatOutcome_json : shape := STagResult
  (VCons "ok" FNil (VCons "rate_limited" FNil (VCons "unknown" FNil VNil))).
Definition SessionCloseResponse_json : shape := SStruct ("released_locks" ::= SU32;; FNil).

(** ** Answers as documents *)

(** The return type of a handler, and how its answers are written: [None] is
    an answer another handler gives. *)
Record output := mk_output { o_shape : shape; o_view : api_response -> option (den o_shape) }.

Definition released_view {A} (yes no : A) (a : api_response) : option A :=
  match a with AReleased b => Some (if b : bool then yes else no) | _ => None end.
Definition count_output : output := mk_output LatchCountResponse_json
  (fun a => match a with ACount n => Some (n, tt) | _ => None end).
Definition released_output : output := mk_output ReleasedResponse_json (released_view (true, tt) (false, tt)).
Definition rw_output : output := mk_output RwOutcome_json
  (fun a => match a with AAcquired f => Some (inl (f, tt)) | ABusy => Some (inr (inl tt)) | _ => None end).

(** [None] is the socket. *)
Definition output_of (r : api_request) : option output :=
  match r with
  | PostLock _ => Some (mk_output LockOutcome_json (fun a =>
      match a with
      | AGranted key token fence ttl_ms => Some (inl (key, (token, (fence, (ttl_ms, tt)))))
      | AHeld key => Some (inr (inl (key, tt)))
      | _ => None
      end))
  | PostUnlock _ _ => Some (mk_output UnlockOutcome_json (released_view (inl tt) (inr (inl tt))))
  | PostExtend _ _ _ => Some (mk_output ExtendOutcome_json (fun a =>
      match a with AExtended b => Some (if b : bool then inl tt else inr (inl tt)) | _ => None end))
  | PostForceUnlock _ => Some (mk_output ForceUnlockResponse_json (released_view (true, tt) (false, tt)))
  | GetDescribe _ => Some (mk_output DescribeResponse_json (fun a =>
      match a with ADescribe held version ttl_ms => Some (held, (version, (ttl_ms, tt))) | _ => None end))
  | GetLocks _ => Some (mk_output ListLocksResponse_json (fun a =>
      match a with AList prefix locks => Some (prefix, (map (fun e => (e.1, (e.2, tt))) locks, tt)) | _ => None end))
  | GetPressure => Some (mk_output PressureResponse_json (fun a =>
      match a with APressure spi tier => Some (spi, (tier, tt)) | _ => None end))
  | GetWatch _ => None
  | PostReentrantAcquire _ _ _ => Some (mk_output ReentrantAcquireResponse_json (fun a =>
      match a with AOwner owner_id fence => Some (owner_id, (fence, tt)) | _ => None end))
  | PostRwRead _ _ | PostRwWrite _ _ => Some rw_output
  | PostSemaphoreAcquire _ _ _ => Some (mk_output SemaphoreOutcome_json (fun a =>
      match a with AAcquired f => Some (inl (f, tt)) | ABusy => Some (inr (inl tt)) | _ => None end))
  | PostFairLock _ _ => Some (mk_output FairAcquireResponse_json (fun a =>
      match a with AOwner owner fence => Some (owner, (fence, tt)) | _ => None end))
  | PostReentrantRelease _ _ _ | PostRwRelease _ _ _ | PostSemaphoreRelease _ _ | PostFairRelease _ _
  | PostMultiRelease _ => Some released_output
  | PostMultiLock _ _ _ => Some (mk_output MultiOutcome_json (fun a =>
      match a with
      | AMulti multi_id locks => Some (inl (multi_id, (map (fun e => (e.1, (e.2, tt))) locks, tt)))
      | ABusy => Some (inr (inl tt))
      | _ => None
      end))
  | PostLatchCreate _ _ | PostLatchCountDown _ | GetLatchCount _ => Some count_output
  | PostLatchWait _ _ => Some (mk_output LatchWaitResponse_json (fun a =>
      match a with AZero b => Some (b, tt) | _ => None end))
  | PostSemanticAcquire _ _ _ => Some (mk_output SemanticOutcome_json (fun a =>
      match a with
      | ASemantic token fence => Some (inl (token, (fence, tt)))
      | AHeld _ => Some (inr (inl tt))
      | APredicatesFailed => Some (inr (inr (inl tt)))
      | _ => None
      end))
  | PostSemanticData _ _ _ => Some (mk_output Done_json (fun a => match a with ADone => Some (true, tt) | _ => None end))
  | GetSemanticData _ => Some (mk_output SemanticDataResponse_json (fun a =>
      match a with AFields m => Some (m, tt) | _ => None end))
  | PostTestament _ _ _ _ => Some (mk_output TestamentSetResponse_json (fun a =>
      match a with AStored => Some (true, tt) | _ => None end))
  | GetTestament _ => Some (mk_output TestamentReadResponse_json (fun a =>
      match a with APayload p => Some (p, tt) | _ => None end))
  | PostSessionRegister _ _ => Some (mk_output SessionRegisterResponse_json (fun a =>
      match a with ASession token ttl_ms => Some (token, (ttl_ms, tt)) | _ => None end))
  | PostSessionHeartbeat _ => Some (mk_output SessionHeartbeatOutcome_json (fun a =>
      match a with
      | AHeartbeat r => Some (match r with HbOk => inl tt | RateLimited => inr (inl tt) | Unknown => inr (inr (inl tt)) end)
      | _ => None
      end))
  | PostSessionClose _ => Some (mk_output SessionCloseResponse_json (fun a =>
      match a with AClosed n => Some (n, tt) | _ => None end))
  end.

(** ** Routing *)

(** A path of the router: literal, a prefix with one parameter segment (the
    [{key}] of [/api/describe/{key}]), or a nested service. *)
Inductive pattern := Lit (path : string) | Param (prefix : string) | Nest (prefix : string).
#[global] Instance pattern_eq_dec : EqDecision pattern.
Proof. solve_decision. Defined.

Definition no_slash (s : string) : bool := forallb (fun c => negb (Ascii.eqb c "/")) (list_ascii_of_string s).

Definition matches (p : pattern) (path : string) : Prop :=
  match p with
  | Lit l => path = l
  | Param pre => exists seg, path = pre +:+ seg /\ seg <> "" /\ no_slash seg = true
  | Nest pre => path = pre \/ exists rest, path = pre +:+ "/" +:+ rest
  end.

Inductive method := GET | HEAD | POST | OtherMethod.
#[global] Instance method_eq_dec : EqDecision method.
Proof. solve_decision. Defined.
(** What [get] and [post] take. *)
Definition allows (m : method) (q : method) : bool :=
  match m, q with GET, (GET | HEAD) | POST, POST => true | _, _ => false end.

(** The router finds the pattern a path matches, a literal one first; a
    parameter is percent-decoded, and must then be text. *)
Class Web := {
  find_route : list pattern -> string -> option nat;
  percent_decode : string -> option string;
  percent_encode : string -> string;
  de_query : forall s, option string -> res rejection (den s);
}.

Class WebLaws `{Web} := {
  find_sound ps path i : NoDup ps -> find_route ps path = Some i -> exists p, ps !! i = Some p /\ matches p path;
  find_literal ps path i : NoDup ps -> ps !! i = Some (Lit path) -> find_route ps path = Some i;
  find_only ps path i p : NoDup ps -> ps !! i = Some p -> matches p path ->
    (forall p', p' ∈ ps -> matches p' path -> p' = p) -> find_route ps path = Some i;
  percent_round k : percent_decode (percent_encode k) = Some k;
  percent_segment k : k <> "" -> percent_encode k <> "" /\ no_slash (percent_encode k) = true;
  percent_literal k : forallb (fun c => negb (Ascii.eqb c "%")) (list_ascii_of_string k) = true ->
    percent_decode k = Some k;
  query_fits s q v : well_formed s = true -> de_query s q = Ok v -> fits s v = true;
  query_none n : de_query (SStruct (n ::= SOption SString;; FNil)) None = Ok (None, tt);
  query_some n k : de_query (SStruct (n ::= SOption SString;; FNil)) (Some (n +:+ "=" +:+ percent_encode k)) =
    Ok (Some k, tt);
}.

(** How a handler's arguments are extracted: [Json], [Path], [Query],
    [WebSocketUpgrade] with [Path], or none. *)
Inductive extractor :=
| FromJson (s : shape) (f : den s -> api_request)
| FromPath (f : string -> api_request)
| FromQuery (s : shape) (f : den s -> api_request)
| FromUpgrade (f : string -> api_request)
| FromNothing (r : api_request).

Inductive endpoint := IndexPage | Assets | Api (ex : extractor).

Definition acquire_of (v : den AcquireRequest_json) : AcquireRequest :=
  let '(key, (ttl_ms, (watchdog, (policy, (session, tt))))) := v in mk_acquire_request key ttl_ms watchdog policy session.
Definition predicate_of (v : den PredicateSpec_json) : PredicateSpec :=
  let '(field, (op, (value, tt))) := v in mk_predicate_spec field op value.

(** The routes, as [demo_router] adds them. *)
Definition routes : list (pattern * method * endpoint) := [
  (Lit "/", GET, IndexPage);
  (Lit "/api/lock", POST, Api (FromJson AcquireRequest_json (fun v => PostLock (acquire_of v))));
  (Lit "/api/unlock", POST, Api (FromJson ReleaseRequest_json (fun '(key, (token, tt)) => PostUnlock key token)));
  (Lit "/api/extend", POST, Api (FromJson ExtendRequest_json (fun '(key, (token, (ttl_ms, tt))) => PostExtend key token ttl_ms)));
  (Lit "/api/force-unlock", POST, Api (FromJson ForceUnlockRequest_json (fun '(key, tt) => PostForceUnlock key)));
  (Param "/api/describe/", GET, Api (FromPath GetDescribe));
  (Lit "/api/locks", GET, Api (FromQuery ListQuery_json (fun '(prefix, tt) => GetLocks prefix)));
  (Lit "/api/pressure", GET, Api (FromNothing GetPressure));
  (Param "/api/watch/", GET, Api (FromUpgrade GetWatch));
  (Lit "/api/reentrant/acquire", POST, Api (FromJson ReentrantAcquireRequest_json
    (fun '(key, (ttl_ms, (owner_id, tt))) => PostReentrantAcquire key ttl_ms owner_id)));
  (Lit "/api/reentrant/release", POST, Api (FromJson ReentrantReleaseRequest_json
    (fun '(key, (owner_id, (all, tt))) => PostReentrantRelease key owner_id all)));
  (Lit "/api/rw/read", POST, Api (FromJson RwAcquireRequest_json (fun '(key, (ttl_ms, tt)) => PostRwRead key ttl_ms)));
  (Lit "/api/rw/write", POST, Api (FromJson RwAcquireRequest_json (fun '(key, (ttl_ms, tt)) => PostRwWrite key ttl_ms)));
  (Lit "/api/rw/release", POST, Api (FromJson RwReleaseRequest_json (fun '(key, (fence, (mode, tt))) => PostRwRelease key fence mode)));
  (Lit "/api/semaphore/acquire", POST, Api (FromJson SemaphoreAcquireRequest_json
    (fun '(key, (max_permits, (ttl_ms, tt))) => PostSemaphoreAcquire key max_permits ttl_ms)));
  (Lit "/api/semaphore/release", POST, Api (FromJson FenceReleaseRequest_json (fun '(key, (fence, tt)) => PostSemaphoreRelease key fence)));
  (Lit "/api/fair/lock", POST, Api (FromJson RwAcquireRequest_json (fun '(key, (ttl_ms, tt)) => PostFairLock key ttl_ms)));
  (Lit "/api/fair/release", POST, Api (FromJson FenceReleaseRequest_json (fun '(key, (fence, tt)) => PostFairRelease key fence)));
  (Lit "/api/multi/lock", POST, Api (FromJson MultiAcquireRequest_json
    (fun '(keys, (ttl_ms, (wait_ms, tt))) => PostMultiLock keys ttl_ms wait_ms)));
  (Lit "/api/multi/release", POST, Api (FromJson MultiReleaseRequest_json (fun '(multi_id, tt) => PostMultiRelease multi_id)));
  (Lit "/api/latch/create", POST, Api (FromJson LatchCreateRequest_json (fun '(key, (count, tt)) => PostLatchCreate key count)));
  (Lit "/api/latch/count-down", POST, Api (FromJson LatchKeyRequest_json (fun '(key, tt) => PostLatchCountDown key)));
  (Param "/api/latch/count/", GET, Api (FromPath GetLatchCount));
  (Lit "/api/latch/wait", POST, Api (FromJson LatchWaitRequest_json (fun '(key, (timeout_ms, tt)) => PostLatchWait key timeout_ms)));
  (Lit "/api/semantic/acquire", POST, Api (FromJson SemanticAcquireRequest_json
    (fun '(key, (ttl_ms, (predicates, tt))) => PostSemanticAcquire key ttl_ms (map predicate_of predicates))));
  (Lit "/api/semantic/data", POST, Api (FromJson SemanticDataRequest_json (fun '(key, (field, (value, tt))) => PostSemanticData key field value)));
  (Param "/api/semantic/data/", GET, Api (FromPath GetSemanticData));
  (Lit "/api/testament/set", POST, Api (FromJson TestamentSetRequest_json
    (fun '(key, (token, (ttl_ms, (payload, tt)))) => PostTestament key token ttl_ms payload)));
  (Param "/api/testament/", GET, Api (FromPath GetTestament));
  (Lit "/api/session/register", POST, Api (FromJson SessionRegisterRequest_json
    (fun '(client_id, (ttl_ms, tt)) => PostSessionRegister client_id ttl_ms)));
  (Lit "/api/session/heartbeat", POST, Api (FromJson LatchKeyRequest_json (fun '(key, tt) => PostSessionHeartbeat key)));
  (Lit "/api/session/close", POST, Api (FromJson LatchKeyRequest_json (fun '(key, tt) => PostSessionClose key)));
  (Nest "/images", GET, Assets)
].
Definition patterns : list pattern := map (fun e => e.1.1) routes.

(** ** Serving *)

Record http_request (D : Type) := mk_http_request {
  hq_method : method;
  hq_path : string;
  hq_query : option string;
  hq_json : bool;             (* the content type is JSON *)
  hq_upgrade : bool;          (* the headers ask for a web socket *)
  hq_body : D;
}.
Arguments mk_http_request {D}. Arguments hq_method {D}. Arguments hq_path {D}. Arguments hq_query {D}.
Arguments hq_json {D}. Arguments hq_upgrade {D}. Arguments hq_body {D}.

Inductive http_response :=
| HIndex                                   (* the embedded page *)
| HAsset (path : string)
| HRefused (status : Z)                    (* by the router or an extractor *)
| HError (status : StatusCode)             (* [ApiError] *)
| HSocket (sub : nat)
| HJson (o : output) (v : den (o_shape o))
| HUnanswered.                             (* see [api_answers_typed] *)

(** [DefaultBodyLimit::max]. *)
Definition BODY_LIMIT : Z := 64 * 1024.

(** What follows the prefix of a path. *)
Fixpoint string_skip (n : nat) (s : string) : string :=
  match n, s with S n, String _ s => string_skip n s | _, _ => s end.

Section serve.
Context {W : Web} {D : Type} `{Serde D}.

Definition refusal (r : rejection) : Z := match r with BadSyntax => 400 | BadData => 422 end.

Definition extract (ex : extractor) (prefix : string) (q : http_request D) : res Z api_request :=
  let segment :=
    match percent_decode (string_skip (String.length prefix) (hq_path q)) with Some k => Ok k | None => Err 400 end in
  match ex with
  | FromJson s f =>
      if negb (hq_json q) then Err 415
      else if BODY_LIMIT <? doc_len (hq_body q) then Err 413
      else match de s (hq_body q) with Ok v => Ok (f v) | Err e => Err (refusal e) end
  | FromPath f => k ← segment; Ok (f k)
  | FromQuery s f => match de_query s (hq_query q) with Ok v => Ok (f v) | Err _ => Err 400 end
  | FromUpgrade f => if negb (hq_upgrade q) then Err 400 else k ← segment; Ok (f k)
  | FromNothing r => Ok r
  end.

Definition prefix_of (p : pattern) : string := match p with Lit s | Param s | Nest s => s end.

(** What a request comes to before a handler is called. *)
Definition dispatch (q : http_request D) : http_response + api_request :=
  match find_route patterns (hq_path q) ≫= (fun i => routes !! i) with
  | None => inl (HRefused 404)
  | Some (p, m, ep) =>
      if negb (allows m (hq_method q)) then inl (HRefused 405)
      else match ep with
           | IndexPage => inl HIndex
           | Assets => inl (HAsset (hq_path q))
           | Api ex => match extract ex (prefix_of p) q with Ok r => inr r | Err status => inl (HRefused status) end
           end
  end.
End serve.

(** [IntoResponse] of what a handler returns. *)
Definition respond (r : api_request) (a : res StatusCode api_response) : http_response :=
  match a with
  | Err status => HError status
  | Ok a =>
      match output_of r, a with
      | Some o, _ => match o_view o a with Some v => HJson o v | None => HUnanswered end
      | None, ASocket sub => HSocket sub
      | None, _ => HUnanswered
      end
  end.

Section http.
Context {U : UuidSource} {R : Type} `{RS : RedisScan R} `{RH : !RedisHash R} {W : Web} {D : Type} `{Serde D}.
Variable parse_uuid : string -> option uuid.
Variable ln : f64 -> f64.
Variable exceeds : option string -> f64 -> bool.
Variable ds : DemoState.
Open Scope handler_scope.

(** The router of [demo_router]. *)
Definition http_serve (fuel : nat) (q : http_request D) : DM R http_response :=
  match dispatch q with
  | inl x => hret x
  | inr r => let^ a := api_serve parse_uuid ln exceeds ds fuel r in hret (respond r a)
  end.
End http.

(** ** Calls *)

(** A request as a caller writes it. *)
Inductive call :=
| CPost (path : string) (s : shape) (v : den s)
| CKey (prefix key : string)
| CSocket (prefix key : string)
| CQuery (path : string) (prefix : option string)
| CGet (path : string).

Definition acquire_value (a : AcquireRequest) : den AcquireRequest_json :=
  (aq_key a, (aq_ttl_ms a, (aq_watchdog a, (aq_safety_policy a, (aq_session_token a, tt))))).
Definition predicate_value (p : PredicateSpec) : den PredicateSpec_json := (pd_field p, (pd_op p, (pd_value p, tt))).

Definition call_of (r : api_request) : call :=
  match r with
  | PostLock req => CPost "/api/lock" AcquireRequest_json (acquire_value req)
  | PostUnlock key token => CPost "/api/unlock" ReleaseRequest_json (key, (token, tt))
  | PostExtend key token ttl_ms => CPost "/api/extend" ExtendRequest_json (key, (token, (ttl_ms, tt)))
  | PostForceUnlock key => CPost "/api/force-unlock" ForceUnlockRequest_json (key, tt)
  | GetDescribe key => CKey "/api/describe/" key
  | GetLocks prefix => CQuery "/api/locks" prefix
  | GetPressure => CGet "/api/pressure"
  | GetWatch key => CSocket "/api/watch/" key
  | PostReentrantAcquire key ttl_ms owner_id =>
      CPost "/api/reentrant/acquire" ReentrantAcquireRequest_json (key, (ttl_ms, (owner_id, tt)))
  | PostReentrantRelease key owner_id all => CPost "/api/reentrant/release" ReentrantReleaseRequest_json (key, (owner_id, (all, tt)))
  | PostRwRead key ttl_ms => CPost "/api/rw/read" RwAcquireRequest_json (key, (ttl_ms, tt))
  | PostRwWrite key ttl_ms => CPost "/api/rw/write" RwAcquireRequest_json (key, (ttl_ms, tt))
  | PostRwRelease key fence mode => CPost "/api/rw/release" RwReleaseRequest_json (key, (fence, (mode, tt)))
  | PostSemaphoreAcquire key max_permits ttl_ms =>
      CPost "/api/semaphore/acquire" SemaphoreAcquireRequest_json (key, (max_permits, (ttl_ms, tt)))
  | PostSemaphoreRelease key fence => CPost "/api/semaphore/release" FenceReleaseRequest_json (key, (fence, tt))
  | PostFairLock key ttl_ms => CPost "/api/fair/lock" RwAcquireRequest_json (key, (ttl_ms, tt))
  | PostFairRelease key fence => CPost "/api/fair/release" FenceReleaseRequest_json (key, (fence, tt))
  | PostMultiLock keys ttl_ms wait_ms => CPost "/api/multi/lock" MultiAcquireRequest_json (keys, (ttl_ms, (wait_ms, tt)))
  | PostMultiRelease multi_id => CPost "/api/multi/release" MultiReleaseRequest_json (multi_id, tt)
  | PostLatchCreate key count => CPost "/api/latch/create" LatchCreateRequest_json (key, (count, tt))
  | PostLatchCountDown key => CPost "/api/latch/count-down" LatchKeyRequest_json (key, tt)
  | GetLatchCount key => CKey "/api/latch/count/" key
  | PostLatchWait key timeout_ms => CPost "/api/latch/wait" LatchWaitRequest_json (key, (timeout_ms, tt))
  | PostSemanticAcquire key ttl_ms predicates =>
      CPost "/api/semantic/acquire" SemanticAcquireRequest_json (key, (ttl_ms, (map predicate_value predicates, tt)))
  | PostSemanticData key field value => CPost "/api/semantic/data" SemanticDataRequest_json (key, (field, (value, tt)))
  | GetSemanticData key => CKey "/api/semantic/data/" key
  | PostTestament key token ttl_ms payload =>
      CPost "/api/testament/set" TestamentSetRequest_json (key, (token, (ttl_ms, (payload, tt))))
  | GetTestament key => CKey "/api/testament/" key
  | PostSessionRegister client_id ttl_ms => CPost "/api/session/register" SessionRegisterRequest_json (client_id, (ttl_ms, tt))
  | PostSessionHeartbeat token => CPost "/api/session/heartbeat" LatchKeyRequest_json (token, tt)
  | PostSessionClose token => CPost "/api/session/close" LatchKeyRequest_json (token, tt)
  end.

(** Requests whose numbers have the width of their field. *)
Definition request_fits (r : api_request) : Prop :=
  match call_of r with CPost _ s v => fits s v = true | _ => True end.

(** Requests that can be made: a key in a path is not empty, and that of a
    testament not the name of the route that stores one. *)
Definition callable (r : api_request) : Prop :=
  request_fits r /\
  match r with
  | GetTestament key => key <> "" /\ key <> "set"
  | GetDescribe key | GetWatch key | GetLatchCount key | GetSemanticData key => key <> ""
  | _ => True
  end.

Section calls.
Context {W : Web} `{!WebLaws} {D : Type} `{SD : SerdeLaws D}.

Definition sent (c : call) (q : http_request D) : Prop :=
  match c with
  | CPost path s v => hq_method q = POST /\ hq_path q = path /\ hq_json q = true /\
      doc_len (hq_body q) <= BODY_LIMIT /\ se s v (hq_body q)
  | CKey prefix key => hq_method q = GET /\ hq_path q = prefix +:+ percent_encode key
  | CSocket prefix key => hq_method q = GET /\ hq_path q = prefix +:+ percent_encode key /\ hq_upgrade q = true
  | CQuery path prefix => hq_method q = GET /\ hq_path q = path /\
      hq_query q = (fun k => "prefix=" +:+ percent_encode k) <$> prefix
  | CGet path => hq_method q = GET /\ hq_path q = path
  end.

Lemma patterns_nodup : NoDup patterns.
Proof. apply (bool_decide_unpack _). by vm_compute. Qed.

Lemma string_skip_app pre s : string_skip (String.length pre) (pre +:+ s) = s.
Proof. by induction pre. Qed.

(** The route found is one of the table. *)
Lemma route_found path e : find_route patterns path ≫= (fun i => routes !! i) = Some e -> e ∈ routes.
Proof. destruct (find_route patterns path) as [i|]; [|done]. cbn. apply list_elem_of_lookup_2. Qed.

Lemma route_literal path m ep : (Lit path, m, ep) ∈ routes ->
  find_route patterns path ≫= (fun i => routes !! i) = Some (Lit path, m, ep).
Proof.
  intros [i Hi]%list_elem_of_lookup_1. rewrite (find_literal _ _ i); [done|apply patterns_nodup|].
  unfold patterns. by rewrite list_lookup_fmap, Hi.
Qed.

Lemma route_param pre seg m ep : (Param pre, m, ep) ∈ routes -> seg <> "" -> no_slash seg = true ->
  (forall p, p ∈ patterns -> matches p (pre +:+ seg) -> p = Param pre) ->
  find_route patterns (pre +:+ seg) ≫= (fun i => routes !! i) = Some (Param pre, m, ep).
Proof.
  intros [i Hi]%list_elem_of_lookup_1 Hs Hn Hp.
  rewrite (find_only _ _ i (Param pre)); [done|apply patterns_nodup| | |done].
  - unfold patterns. by rewrite list_lookup_fmap, Hi.
  - by exists seg.
Qed.

(** Decides a membership in [routes], and that no other pattern matches. *)
Ltac in_routes := by repeat first [apply list_elem_of_here | apply list_elem_of_further].
Ltac clash M := exfalso; cbn [matches] in M;
  match type of M with
  | _ = _ => idtac
  | _ \/ _ => destruct M as [M|[? M]]
  | exists _, _ => destruct M as (? & M & _)
  end; first [discriminate M | cbn in M; injection M as M;
    match goal with Hs : _ -> _ <> _ |- _ => exact (Hs eq_refl M) end].
Ltac no_clash := let H := fresh in let M := fresh in
  intros ? H M; unfold patterns, routes in H; cbn [map fst snd] in H;
  repeat (apply elem_of_cons in H as [->|H]; [first [reflexivity | clash M] |]);
  by apply elem_of_nil in H.

Lemma key_route pre key m ep : (Param pre, m, ep) ∈ routes -> key <> "" ->
  pre ∈ ["/api/describe/"; "/api/watch/"; "/api/latch/count/"; "/api/semantic/data/"; "/api/testament/"]%string ->
  (pre = "/api/testament/"%string -> key <> "set") ->
  find_route patterns (pre +:+ percent_encode key) ≫= (fun i => routes !! i) = Some (Param pre, m, ep).
Proof.
  intros Hr Hk Hpre Hset. destruct (percent_segment key Hk) as [He Hn]. apply route_param; [done..|].
  assert (pre = "/api/testament/"%string -> percent_encode key <> "set") as Hset'.
  { intros E Ek. apply (Hset E). pose proof (percent_round key) as Hd. rewrite Ek in Hd.
    rewrite percent_literal in Hd by done. congruence. }
  clear Hr Hk Hset Hn He. generalize dependent (percent_encode key). intros seg Hset.
  repeat (apply elem_of_cons in Hpre as [->|Hpre]); [..|by apply elem_of_nil in Hpre]; no_clash.
Qed.

Lemma dispatch_post path s v f q r : (Lit path, POST, Api (FromJson s f)) ∈ routes ->
  well_formed s = true -> plain s = true -> fits s v = true -> f v = r -> sent (CPost path s v) q -> dispatch q = inr r.
Proof.
  intros Hr Hw Hp Hv <- (Hm & Hpath & Hj & Hl & Hs). unfold dispatch. rewrite Hpath, (route_literal _ _ _ Hr), Hm. cbn.
  rewrite Hj. cbn. rewrite (proj2 (Z.ltb_ge _ _) Hl). by rewrite (de_se _ _ _ Hw Hp Hv Hs).
Qed.

Lemma dispatch_key pre key q f : (Param pre, GET, Api (FromPath f)) ∈ routes -> key <> "" ->
  pre ∈ ["/api/describe/"; "/api/watch/"; "/api/latch/count/"; "/api/semantic/data/"; "/api/testament/"]%string ->
  (pre = "/api/testament/"%string -> key <> "set") -> sent (CKey pre key) q -> dispatch q = inr (f key).
Proof.
  intros Hr Hk Hpre Hset (Hm & Hpath). unfold dispatch. rewrite Hpath, (key_route pre key GET _ Hr Hk Hpre Hset), Hm.
  cbn [allows negb extract prefix_of]. rewrite Hpath, string_skip_app, percent_round. done.
Qed.

(** A call reaches the handler it is meant for, with its arguments. *)
Lemma dispatch_call r q : callable r -> sent (call_of r) q -> dispatch q = inr r.
Proof.
  assert (forall req, acquire_of (acquire_value req) = req) as Ha by by intros [].
  assert (forall ps, map predicate_of (map predicate_value ps) = ps) as Hp.
  { intros ps. rewrite map_map. rewrite <- (map_id ps) at 2. apply map_ext. by intros []. }
  intros [Hfit Hc] Hs. destruct r; cbn [call_of] in Hs; unfold request_fits in Hfit; cbn [call_of] in Hfit;
    first
    [ eapply dispatch_post with (6 := Hs); [in_routes|done|done|exact Hfit|]; cbv beta iota; by rewrite ?Ha, ?Hp
    | eapply eq_trans; [eapply dispatch_key with (5 := Hs); [in_routes|by apply Hc|in_routes|done + (intros _; apply Hc)]|reflexivity]
    | idtac ].
  - destruct Hs as (Hm & Hpath & Hq). unfold dispatch. rewrite Hpath.
    rewrite (route_literal "/api/locks" GET (Api (FromQuery ListQuery_json (fun '(prefix, tt) => GetLocks prefix))) ltac:(in_routes)), Hm.
    cbn [allows negb extract]. rewrite Hq. unfold ListQuery_json. destruct prefix0 as [k|]; cbn [fmap option_fmap option_map].
    + by rewrite (query_some "prefix" k : de_query _ (Some ("prefix=" +:+ percent_encode k)) = _).
    + by rewrite query_none.
  - destruct Hs as (Hm & Hpath). unfold dispatch. rewrite Hpath.
    by rewrite (route_literal "/api/pressure" GET (Api (FromNothing GetPressure)) ltac:(in_routes)), Hm.
  - destruct Hs as (Hm & Hpath & Hu). unfold dispatch. rewrite Hpath.
    rewrite (key_route "/api/watch/" key GET (Api (FromUpgrade GetWatch))), Hm; [|in_routes|done|in_routes|done].
    cbn [allows negb extract prefix_of]. by rewrite Hu, Hpath, string_skip_app, percent_round.
Qed.

Lemma extract_json s f pre q r : well_formed s = true -> extract (FromJson s f) pre q = Ok r ->
  exists v, fits s v = true /\ r = f v.
Proof.
  intros Hw. cbn [extract]. destruct (negb _); [done|]. destruct (BODY_LIMIT <? _); [done|].
  destruct (de s (hq_body q)) as [v|e] eqn:Ed; intros [= <-]. exists v. split; [|done]. by apply (de_fits _ _ _ Hw Ed).
Qed.

(** Whatever a request says, the numbers its handler gets have their width. *)
Lemma dispatch_fits q r : dispatch q = inr r -> request_fits r.
Proof.
  assert (forall ps, map predicate_value (map predicate_of ps) = ps) as Hp.
  { intros ps. rewrite map_map. rewrite <- (map_id ps) at 2. apply map_ext. by intros (? & ? & ? & []). }
  unfold dispatch. destruct (find_route _ _ ≫= _) as [[[p m] ep]|] eqn:Ef; [|done]. apply route_found in Ef.
  destruct (negb _); [done|]. destruct ep as [| |ex]; try done.
  destruct (extract ex _ q) as [r'|] eqn:Ee; [|done]. intros [= <-]. unfold routes in Ef.
  repeat (apply elem_of_cons in Ef as [Ef|Ef];
    [injection Ef as -> -> -> || discriminate Ef;
     first
     [ apply extract_json in Ee as (v & Hv & ->); [|done]; cbv in v; unfold request_fits;
       repeat match goal with v : _ * _ |- _ => destruct v | v : unit |- _ => destruct v end;
       cbn; rewrite ?Hp; exact Hv
     | cbn in Ee; repeat (case_match; try done); by injection Ee as <-]|]).
  by apply elem_of_nil in Ef.
Qed.
End calls.

(** ** Answers *)

(** The answers the handler of a request gives. *)
Definition answers (r : api_request) (a : api_response) : Prop :=
  match r, a with
  | (PostLock {| aq_key := key |} | PostSemanticAcquire key _ _), AHeld k => k = key
  | GetWatch _, ASocket _ => True
  | _, _ => match output_of r with Some o => is_Some (o_view o a) | None => False end
  end.

Section typed.
Context {U : UuidSource} {R : Type} `{RS : RedisScan R} `{RH : !RedisHash R}.
Variable parse_uuid : string -> option uuid.
Variable ln : f64 -> f64.
Variable exceeds : option string -> f64 -> bool.
Variable ds : DemoState.

Abbreviation ends m P := (upholds (R:=R) (fun _ : demo => True) m (fun x : res StatusCode api_response => match x with Ok a => P a | Err _ => True end)).

Lemma ends_bind {A} (m : DM R A) f P : (forall a, ends (f a) P) -> ends (hbind m f) P.
Proof.
  intros Hf. apply upholds_bind_any; [|exact Hf]. intros s w a s' w' _ _. split; [|done]. split; [done|].
  apply Forall_forall. intros. done.
Qed.
Lemma ends_try {A} (m : DM R (res StatusCode A)) f P : (forall a, ends (f a) P) -> ends (htry m f) P.
Proof. intros Hf. apply ends_bind. intros [a|e]; [apply Hf|]. by apply upholds_ret. Qed.

Lemma ends_keep {T} (m : live_map T) drop_ k fence r (P : api_response -> Prop) :
  (forall f, P (AAcquired f)) -> P ABusy -> ends (keep m drop_ k fence r) P.
Proof.
  intros Ha Hb. unfold keep. destruct r as [h|[]]; try by apply upholds_ret.
  apply ends_bind. intros _. by apply upholds_ret.
Qed.
Lemma ends_let_go {T} (m : live_map T) release_ drop_ k (P : api_response -> Prop) :
  (forall b, P (AReleased b)) -> ends (let_go m release_ drop_ k) P.
Proof.
  intros Hb. unfold let_go. apply ends_bind. intros [h|]; [|by apply upholds_ret].
  apply ends_try. intros _. by apply upholds_ret.
Qed.

Ltac solve_ends := repeat first
  [ apply ends_try; intros ?
  | apply ends_bind; intros ?
  | apply ends_keep; [intros ?; by eexists|by eexists]
  | apply ends_let_go; intros ?; by eexists
  | case_match; try done
  | by (apply upholds_ret; cbn; first [done|by eexists]) ].

Lemma api_answers_typed fuel r : ends (api_serve parse_uuid ln exceeds ds fuel r) (answers r).
Proof.
  destruct r as [[]| | | | | | | | | | | | | | | | | | | | | | | | | | | | | |]; cbn [api_serve].
  all: unfold api_acquire, api_release, api_describe, api_list_locks, api_pressure, api_extend, api_force_unlock,
    api_watch, api_reentrant_acquire, api_reentrant_release, api_rw_read, api_rw_write, api_rw_release,
    api_semaphore_acquire, api_semaphore_release, api_fair_lock, api_fair_release, api_multi_lock, api_multi_release,
    api_latch_create, api_latch_count_down, api_latch_count, api_latch_wait, api_semantic_acquire, api_semantic_set_data,
    api_semantic_get_data, api_testament_set, api_testament_read, api_session_register, api_session_heartbeat,
    api_session_close.
  all: solve_ends.
Qed.
End typed.

Section claims.
Context {W : Web} `{!WebLaws} {D : Type} `{SD : SerdeLaws D}.

Lemma output_well_formed r o : output_of r = Some o -> well_formed (o_shape o) = true.
Proof. destruct r; cbn [output_of]; intros [= <-]; by vm_compute. Qed.

Lemma pairs_inj {A} (l l' : list (A * Z)) : map (fun e => (e.1, (e.2, tt))) l = map (fun e => (e.1, (e.2, tt))) l' -> l = l'.
Proof.
  revert l'. induction l as [|[a x] l IH]; intros [|[b y] l'] E; try done. cbn in E. injection E as -> -> E.
  by rewrite (IH l').
Qed.

(** [d] is a body that carries the answer [a]. *)
Definition prints (r : api_request) (a : api_response) (d : D) : Prop :=
  exists o v, output_of r = Some o /\ o_view o a = Some v /\ fits (o_shape o) v = true /\ se (o_shape o) v d.

Lemma view_inj r o a b v : answers r a -> answers r b -> output_of r = Some o ->
  o_view o a = Some v -> o_view o b = Some v -> a = b.
Proof.
  intros Ha Hb Ho. destruct r as [[]| | | | | | | | | | | | | | | | | | | | | | | | | | | | | |]; cbn in Ho;
    try done; injection Ho as <-; cbn; destruct a; try done; destruct b; try done; cbn in Ha, Hb; intros Ea Eb;
    repeat match goal with x : bool |- _ => destruct x | x : HbResult |- _ => destruct x end;
    cbn in Ea, Eb; try congruence.
  all: rewrite <- Ea in Eb; injection Eb as -> E; apply pairs_inj in E; by rewrite E.
Qed.

Lemma answers_answered r a : answers r a -> respond r (Ok a) <> HUnanswered.
Proof.
  unfold respond. destruct r as [[]| | | | | | | | | | | | | | | | | | | | | | | | | | | | | |], a; cbn; try done;
    by (intros [v E]).
Qed.

Lemma prints_functional r a b d : answers r a -> answers r b -> prints r a d -> prints r b d -> a = b.
Proof.
  intros Ha Hb (o & v & Ho & Ev & Fv & Sv) (o' & v' & Ho' & Ev' & Fv' & Sv').
  rewrite Ho in Ho'. injection Ho' as <-. pose proof (se_inj _ _ _ _ (output_well_formed _ _ Ho) Fv Fv' Sv Sv') as <-.
  by eapply view_inj.
Qed.
End claims.

(** ** A reference front *)

Definition matchesb (p : pattern) (path : string) : bool :=
  match p with
  | Lit l => String.eqb path l
  | Param pre => String.prefix pre path && let seg := string_skip (String.length pre) path in negb (String.eqb seg "") && no_slash seg
  | Nest pre => String.eqb path pre || String.prefix (pre +:+ "/") path
  end.

Lemma prefix_split pre s : String.prefix pre s = true -> s = pre +:+ string_skip (String.length pre) s.
Proof.
  revert s. induction pre as [|c pre IH]; intros s E; [done|]. destruct s as [|d s]; [done|]. cbn in E.
  destruct (ascii_dec c d) as [->|]; [|done]. cbn [String.length string_skip]. rewrite app_cons, <- IH by done. done.
Qed.
Lemma string_prefix_app pre s : String.prefix pre (pre +:+ s) = true.
Proof. induction pre as [|c pre IH]; [by destruct s|]. rewrite app_cons. cbn. destruct (ascii_dec c c); [exact IH|congruence]. Qed.

Lemma matchesb_spec p path : matchesb p path = true <-> matches p path.
Proof.
  destruct p as [l|pre|pre]; cbn [matchesb matches].
  - by rewrite String.eqb_eq.
  - split.
    + intros [Hp [Hs Hn]%andb_prop]%andb_prop. apply prefix_split in Hp. exists (string_skip (String.length pre) path).
      split; [done|]. split; [|done]. intros E. by rewrite E in Hs.
    + intros (seg & -> & Hs & Hn). rewrite string_prefix_app, string_skip_app, Hn. cbn. by destruct (String.eqb_spec seg "").
  - rewrite orb_true_iff, String.eqb_eq. split; (intros [E|E]; [by left|right]).
    + apply prefix_split in E. eexists. by rewrite <- string_app_assoc.
    + destruct E as [rest ->]. rewrite <- string_app_assoc. apply string_prefix_app.
Qed.

Definition ref_find_route (ps : list pattern) (path : string) : option nat :=
  match list_find (fun p => p = Lit path) ps with
  | Some (i, _) => Some i
  | None => fst <$> list_find (fun p => matchesb p path = true) ps
  end.

(** The percent codec, for the two bytes that matter to the router. *)
Fixpoint ref_encode (s : string) : string :=
  match s with
  | EmptyString => EmptyString
  | String c s =>
      if Ascii.eqb c "%" then String "%" (String "2" (String "5" (ref_encode s)))
      else if Ascii.eqb c "/" then String "%" (String "2" (String "F" (ref_encode s)))
      else String c (ref_encode s)
  end.
Definition hex_value (c : ascii) : nat :=
  let n := nat_of_ascii c in if (n <? 65)%nat then (n - 48)%nat else (n - 55)%nat.
Fixpoint ref_decode (s : string) : string :=
  match s with
  | EmptyString => EmptyString
  | String c s =>
      match s with
      | String a (String b r) =>
          if Ascii.eqb c "%" then String (ascii_of_nat (16 * hex_value a + hex_value b)) (ref_decode r) else String c (ref_decode s)
      | _ => String c (ref_decode s)
      end
  end.

Definition ref_query (s : shape) : option string -> res rejection (den s) :=
  match s with
  | SStruct (FCons n (SOption SString) FNil) => fun q =>
      match q with
      | Some text => if String.prefix (n +:+ "=") text
                     then Ok (Some (ref_decode (string_skip (String.length (n +:+ "=")) text)), tt) else Ok (None, tt)
      | None => Ok (None, tt)
      end
  | _ => fun _ => Err BadData
  end.

#[global] Instance ref_web : Web := {|
  find_route := ref_find_route;
  percent_decode s := Some (ref_decode s);
  percent_encode := ref_encode;
  de_query := ref_query;
|}.

Lemma ref_decode_plain c s : Ascii.eqb c "%" = false -> ref_decode (String c s) = String c (ref_decode s).
Proof. intros E. cbn [ref_decode]. rewrite E. by destruct s as [|a [|b r]]. Qed.

Lemma ref_round k : ref_decode (ref_encode k) = k.
Proof.
  induction k as [|c k IH]; [done|]. cbn [ref_encode]. destruct (Ascii.eqb_spec c "%") as [->|Hp]; [cbn; by rewrite IH|].
  destruct (Ascii.eqb_spec c "/") as [->|Hs]; [cbn; by rewrite IH|].
  rewrite ref_decode_plain by by apply Ascii.eqb_neq. by rewrite IH.
Qed.

#[global] Instance ref_web_laws : WebLaws.
Proof.
  split; cbn [find_route percent_decode percent_encode de_query ref_web].
  - intros ps path i _ E. unfold ref_find_route in E. destruct (list_find _ ps) as [[j p]|] eqn:Ej.
    + injection E as <-. apply list_find_Some in Ej as (Hj & -> & _). by exists (Lit path).
    + destruct (list_find _ ps) as [[j p]|] eqn:Ej' in E; [|done]. injection E as <-.
      apply list_find_Some in Ej' as (Hj & Hm & _). exists p. split; [done|]. by apply matchesb_spec.
  - intros ps path i Hnd Hi. unfold ref_find_route.
    destruct (list_find_elem_of (fun p => p = Lit path) ps (Lit path)) as [[j p] Ej]; [by eapply list_elem_of_lookup_2|done|].
    rewrite Ej. apply list_find_Some in Ej as (Hj & -> & _). f_equal. by eapply NoDup_lookup.
  - intros ps path i p Hnd Hi Hm Honly. unfold ref_find_route. destruct (list_find _ ps) as [[j p']|] eqn:Ej.
    + apply list_find_Some in Ej as (Hj & -> & _). f_equal. eapply NoDup_lookup; [done| |exact Hi].
      rewrite <- (Honly (Lit path)); [done| |done]. by eapply list_elem_of_lookup_2.
    + destruct (list_find_elem_of (fun p => matchesb p path = true) ps p) as [[j p'] Ej'];
        [by eapply list_elem_of_lookup_2|by apply matchesb_spec|].
      rewrite Ej'. cbn. apply list_find_Some in Ej' as (Hj & Hm' & _). f_equal. eapply NoDup_lookup; [done| |exact Hi].
      rewrite <- (Honly p'); [done| |by apply matchesb_spec]. by eapply list_elem_of_lookup_2.
  - intros k. by rewrite ref_round.
  - intros k Hk. split; [destruct k as [|c k]; [done|]; cbn; by repeat case_match|]. clear Hk.
    induction k as [|c k IH]; [done|]. cbn [ref_encode]. destruct (Ascii.eqb c "%"); [exact IH|].
    destruct (Ascii.eqb c "/") eqn:Es; [exact IH|]. unfold no_slash. cbn. by rewrite Es.
  - intros k Hk. f_equal. induction k as [|c k IH]; [done|]. cbn in Hk. apply andb_prop in Hk as [Hc Hk].
    rewrite ref_decode_plain by by destruct (Ascii.eqb c "%"). by rewrite IH.
  - intros s q v _ E. unfold ref_query in E. by repeat case_match; simplify_eq.
  - done.
  - intros n k. cbn. rewrite <- string_app_assoc. rewrite string_prefix_app, string_skip_app, ref_round. done.
Qed.

(** ** What the surface guarantees *)

Section guarantees.
Context {U : UuidSource} {R : Type} `{RS : RedisScan R} `{RH : !RedisHash R}.
Context {W : Web} `{!WebLaws} {D : Type} `{SD : SerdeLaws D}.
Variable parse_uuid : string -> option uuid.
Variable ln : f64 -> f64.
Variable exceeds : option string -> f64 -> bool.
Variable ds : DemoState.
Abbreviation serve := (http_serve parse_uuid ln exceeds ds).
Abbreviation handler := (api_serve parse_uuid ln exceeds ds).

Lemma upheld_trivially (s : shared_state demo) : upheld (fun _ => True) s.
Proof. split; [done|]. apply Forall_forall. by intros. Qed.


(** C21: A request of the API that is written as its route declares it is
    served as that request: routing and extraction lose and confuse nothing;
    and the body of its answer tells the caller which answer it was. *)
Theorem http_call_served fuel r (q : http_request D) s w : callable r -> sent (call_of r) q ->
  serve fuel q s w = hbind (handler fuel r) (fun a => hret (respond r a)) s w /\
  forall a b s' w' d, handler fuel r s w = (Done (Ok a, s'), w') -> prints r a d -> answers r b -> prints r b d -> b = a.
Proof.
  intros Hc Hs. unfold http_serve. rewrite (dispatch_call r q Hc Hs). split; [done|].
  intros a b s' w' d E Pa Hb Pb. eapply prints_functional; [done| |done..].
  apply (api_answers_typed parse_uuid ln exceeds ds fuel r s w (Ok a) s' w' (upheld_trivially s) E).
Qed.

(** The route that stores testaments hides the testament of the key
    "set": the request for it is refused as a method error, whatever its body
    and whatever is stored. *)
Theorem testament_set_hidden fuel (q : http_request D) s w :
  hq_method q = GET -> hq_path q = "/api/testament/set" -> serve fuel q s w = (Done (HRefused 405, s), w).
Proof.
  intros Hm Hp. unfold http_serve, dispatch. rewrite Hp, (route_literal "/api/testament/set" POST
    (Api (FromJson TestamentSetRequest_json (fun '(key, (token, (ttl_ms, (payload, tt)))) => PostTestament key token ttl_ms payload))))
    by (repeat first [apply list_elem_of_here | apply list_elem_of_further]).
  by rewrite Hm.
Qed.
End guarantees.

Definition demo_call : api_request := PostRwRead "job" (Some 100).
Definition demo_http : http_request json :=
  mk_http_request POST "/api/rw/read" None true false (to_json RwAcquireRequest_json ("job"%string, (Some 100, tt))).

Lemma http_call_served_witness : exists s' w',
  http_serve (R:=db) demo_parse id demo_exceeds console 0 demo_http (alone console_start) (demo_world demo_db []) =
    (Done (HJson rw_output (inl (1, tt)), s'), w') /\
  (forall b, answers demo_call b -> prints (D:=json) demo_call b (to_json RwOutcome_json (inl (1, tt))) -> b = AAcquired 1).
Proof.
  destruct (http_call_served (R:=db) (D:=json) demo_parse id demo_exceeds console 0 demo_call demo_http
    (alone console_start) (demo_world demo_db [])) as [E Hd].
  - done.
  - by repeat split; vm_compute.
  - do 2 eexists. split; [rewrite E; vm_compute; reflexivity|]. intros b Hb Pb.
    eapply (Hd (AAcquired 1)); [vm_compute; reflexivity| |exact Hb|exact Pb].
    exists rw_output, (inl (1, tt)). by repeat split.
Defined.

Lemma testament_set_hidden_witness : exists x,
  http_serve (R:=db) demo_parse id demo_exceeds console 0 (mk_http_request GET "/api/testament/set" None false false JNull)
    (alone console_start) (demo_world demo_db []) = (Done (x, alone console_start), demo_world demo_db []) /\ x = HRefused 405.
Proof.
  exists (HRefused 405). split; [|reflexivity].
  apply (testament_set_hidden (R:=db) (D:=json) demo_parse id demo_exceeds console 0); reflexivity.
Defined.

Definition wide_http : http_request json :=
  mk_http_request POST "/api/semaphore/acquire" None true false
    (JObj [("key", JStr "job"); ("max_permits", JInt (2 ^ 32)); ("ttl_ms", JNull)]%string).

