(* ===== verification/Checker.v ===== *)
(** * The history checker ([crates/testing/src/checker.rs], [history.rs], [realtime.rs])

    Events of a simulated or recorded run, the invariant checker over them,
    and the conversion of recorded client traffic.  The main theorem says
    exactly which histories the checker accepts, in terms of which worker
    validly holds the lock at each event. *)

From stdpp Require Import sorting.
From S2P Require Import Prelude.

(** ** Events ([sim.rs]) *)

Inductive EventKind := Grant | Deny | ReleaseOk | ReleaseLost | WriteAccepted | WriteRejected.
#[global] Instance EventKind_eq_dec : EqDecision EventKind.
Proof. solve_decision. Defined.

Record Event := mk_event { t_ms : Z; worker : Z; kind : EventKind; fence : Z }.

(** ** The checker *)

Record Violation := mk_violation { at_ms : Z; description : string }.

(** The locals of [check]: the active holds with their expiry, the last fence
    accepted, and the holds that ended. *)
Record check_state := mk_check {
  active : list (Z * Z);
  last_accepted_fence : Z;
  released_seen : list (Z * Z);
}.

Definition check_init : check_state := mk_check [] 0 [].

(** [active.retain(..)] at the time of an event. *)
Definition still_valid (t : Z) (h : Z * Z) : bool := negb (h.2 <=? t).
Definition retain (t : Z) (st : check_state) : check_state :=
  mk_check (List.filter (still_valid t) (active st)) (last_accepted_fence st)
    (released_seen st ++ map (fun h => (h.1, t)) (List.filter (fun h => negb (still_valid t h)) (active st))).

(** The first active hold of [w], and the others. *)
Definition find_hold (w : Z) (hs : list (Z * Z)) : option (Z * Z) := find (fun h => h.1 =? w) hs.
Fixpoint remove_hold (w : Z) (hs : list (Z * Z)) {struct hs} : list (Z * Z) :=
  match hs with
  | [] => []
  | h :: hs => if h.1 =? w then hs else h :: remove_hold w hs
  end.

(** The [match] on one event, after the expiry. *)
Definition check_event (ttl_ms : Z) (e : Event) (st : check_state) : res Violation check_state :=
  let violation d := Err (mk_violation (t_ms e) d) in
  match kind e with
  | Grant =>
      match active st with
      | _ :: _ => violation "worker {} granted while worker {} still validly holds"
      | [] =>
          if fence e =? 0 then violation "grant without fencing token" else
          Ok (mk_check [(worker e, u64_add (t_ms e) ttl_ms)] (last_accepted_fence st) (released_seen st))
      end
  | ReleaseOk =>
      match find_hold (worker e) (active st) with
      | Some _ => Ok (mk_check (remove_hold (worker e) (active st)) (last_accepted_fence st)
                        (released_seen st ++ [(worker e, t_ms e)]))
      | None => violation "worker {} released a lock it does not validly hold"
      end
  | ReleaseLost =>
      match find_hold (worker e) (active st) with
      | Some h => if t_ms e <? h.2 then violation "worker {} told lease lost while still inside validity window" else Ok st
      | None => Ok st
      end
  | WriteAccepted =>
      match find_hold (worker e) (active st) with
      | None => violation "stale write ACCEPTED from worker {} who holds nothing"
      | Some _ =>
          if fence e <=? last_accepted_fence st
          then violation "fence {} accepted but not newer than last accepted {}"
          else Ok (mk_check (active st) (fence e) (released_seen st))
      end
  | WriteRejected | Deny => Ok st
  end.

Fixpoint check_from (ttl_ms : Z) (history : list Event) (st : check_state) {struct history} :
    res Violation check_state :=
  match history with
  | [] => Ok st
  | e :: history =>
      match check_event ttl_ms e (retain (t_ms e) st) with
      | Ok st => check_from ttl_ms history st
      | Err v => Err v
      end
  end.

(** [check]. *)
Definition check_history (history : list Event) (ttl_ms : Z) : res Violation unit :=
  res_map (fun _ => tt) (check_from ttl_ms history check_init).

(** ** Recorded traffic *)

Inductive OpKind := TryAcquire | Release | Extend.

Record HistoryEntry := mk_entry {
  he_key : string; he_op : OpKind; he_ok : bool; he_fence : Z; start_us : Z; end_us : Z }.

(** [HistoryRecorder::record]; instants in nanoseconds. *)
Definition record (origin now : Z) (key : string) (op : OpKind) (ok : bool) (f started_at : Z)
    (entries : list HistoryEntry) : list HistoryEntry :=
  entries ++ [mk_entry key op ok f (wrap64 (Z.max 0 (started_at - origin) / 1000))
                (wrap64 (Z.max 0 (now - origin) / 1000))].

(** The event of an entry; [None] is [continue]. *)
Definition event_of_entry (e : HistoryEntry) : option Event :=
  let at_ k := Some (mk_event (end_us e / 1000) (he_fence e) k (he_fence e)) in
  match he_op e, he_ok e with
  | TryAcquire, true => at_ Grant
  | TryAcquire, false => at_ Deny
  | Release, true => at_ ReleaseOk
  | Release, false => at_ ReleaseLost
  | Extend, _ => None
  end.

(** [sort_by_key(|ev| ev.t_ms)], which is stable. *)
Fixpoint insert_event (e : Event) (l : list Event) {struct l} : list Event :=
  match l with
  | [] => [e]
  | x :: l' => if t_ms e <=? t_ms x then e :: l else x :: insert_event e l'
  end.
Definition sort_events (l : list Event) : list Event := foldr insert_event [] l.

(** [check_client_history]. *)
Definition check_client_history (key : string) (entries : list HistoryEntry) (ttl_ms : Z) : res Violation unit :=
  check_history (sort_events (omap event_of_entry (List.filter (fun e => String.eqb (he_key e) key) entries))) ttl_ms.

(** ** Who holds *)

(** After [pre], worker [w] validly holds at time [t]: some grant to it has
    not expired and it has not released since. *)
Definition valid_hold (ttl : Z) (pre : list Event) (w t : Z) : Prop :=
  exists before g after, pre = before ++ g :: after /\ kind g = Grant /\ worker g = w /\ t < t_ms g + ttl /\
    Forall (fun e => ~ (kind e = ReleaseOk /\ worker e = w)) after.

(** What an event must satisfy after the history [pre]. *)
Definition event_ok (ttl : Z) (pre : list Event) (e : Event) : Prop :=
  match kind e with
  | Grant => (forall w, ~ valid_hold ttl pre w (t_ms e)) /\ fence e <> 0
  | ReleaseOk => valid_hold ttl pre (worker e) (t_ms e)
  | ReleaseLost => ~ valid_hold ttl pre (worker e) (t_ms e)
  | WriteAccepted => valid_hold ttl pre (worker e) (t_ms e) /\ 0 < fence e /\
      forall e', e' ∈ pre -> kind e' = WriteAccepted -> fence e' < fence e
  | WriteRejected | Deny => True
  end.

Definition history_ok (ttl : Z) (h : list Event) : Prop :=
  forall pre e post, h = pre ++ e :: post -> event_ok ttl pre e.

(** Times do not go back, and expiries are in range. *)
Definition timely (ttl : Z) (h : list Event) : Prop :=
  StronglySorted (fun e e' => t_ms e <= t_ms e') h /\
  Forall (fun e => 0 <= t_ms e /\ t_ms e + ttl < u64_mod /\ 0 <= fence e) h.

Lemma valid_hold_snoc ttl pre e w t : valid_hold ttl (pre ++ [e]) w t <->
  (kind e = Grant /\ worker e = w /\ t < t_ms e + ttl) \/
  (valid_hold ttl pre w t /\ ~ (kind e = ReleaseOk /\ worker e = w)).
Proof.
  split.
  - intros (b & g & a & E & Hk & Hw & Ht & Ha). destruct a as [|x a] using rev_ind.
    + apply app_inj_tail in E. destruct E as [-> ->]. by left.
    + clear IHa. rewrite Forall_app, Forall_singleton in Ha. destruct Ha as [Ha Hx].
      rewrite app_comm_cons, app_assoc in E. apply app_inj_tail in E. destruct E as [-> ->]. right. split; [|done].
      exists b, g, a. done.
  - intros [(Hk & Hw & Ht)|[(b & g & a & -> & Hk & Hw & Ht & Ha) Hn]].
    + exists pre, e, []. done.
    + exists b, g, (a ++ [e]). rewrite <- app_assoc. split_and!; try done.
      by rewrite Forall_app, Forall_singleton.
Qed.

Lemma valid_hold_earlier ttl pre w t t' : valid_hold ttl pre w t -> t' <= t -> valid_hold ttl pre w t'.
Proof. intros (b & g & a & E & Hk & Hw & Ht & Ha) Hl. exists b, g, a. split_and!; try done. lia. Qed.

Lemma valid_hold_keep ttl pre e w t : kind e <> Grant -> kind e <> ReleaseOk ->
  valid_hold ttl (pre ++ [e]) w t <-> valid_hold ttl pre w t.
Proof. rewrite valid_hold_snoc. intros N1 N2. split; [by intros [[? _]|[? _]]|]. right. split; [done|]. by intros [? _]. Qed.

(** ** The checker's state and the history so far *)

(** The last accepted fence is the greatest accepted. *)
Definition fences_ok (pre : list Event) (last : Z) : Prop :=
  (forall e, e ∈ pre -> kind e = WriteAccepted -> fence e <= last) /\
  (last = 0 \/ exists e, e ∈ pre /\ kind e = WriteAccepted /\ fence e = last) /\ 0 <= last.

Lemma fences_keep pre e last : fences_ok pre last -> kind e <> WriteAccepted -> fences_ok (pre ++ [e]) last.
Proof.
  intros (M & S & P) N. split_and!; [|destruct S as [|(e' & ? & ? & ?)]; [by left|right; exists e'; by rewrite elem_of_app; eauto]|done].
  intros e' Hin Hk. apply elem_of_app in Hin. destruct Hin as [Hin|Hin%list_elem_of_singleton]; [by apply M|congruence].
Qed.

Lemma fences_accept pre e last : fences_ok pre last -> kind e = WriteAccepted -> last < fence e ->
  fences_ok (pre ++ [e]) (fence e).
Proof.
  intros (M & S & P) K Hl. split_and!; [|right; exists e; rewrite elem_of_app, list_elem_of_singleton; by eauto|lia].
  intros e' Hin Hk. apply elem_of_app in Hin.
  destruct Hin as [Hin|Hin%list_elem_of_singleton]; [specialize (M e' Hin Hk); lia|subst e'; lia].
Qed.

Record check_inv (ttl : Z) (pre : list Event) (st : check_state) (T : Z) : Prop := mk_inv {
  ci_one : (length (active st) <= 1)%nat;
  ci_active : forall w t, T <= t -> (exists x, (w, x) ∈ active st /\ t < x) <-> valid_hold ttl pre w t;
  ci_fences : fences_ok pre (last_accepted_fence st);
}.

Lemma check_inv_init ttl T : check_inv ttl [] check_init T.
Proof.
  split; cbn; [lia| |split_and!; [set_solver|by left|lia]]. intros w t _. split.
  - intros (x & Hx & _). set_solver.
  - intros (b & g & a & E & _). by destruct b.
Qed.

Lemma active_cases (st : check_state) : (length (active st) <= 1)%nat ->
  active st = [] \/ exists w x, active st = [(w, x)].
Proof. destruct (active st) as [|[w x] [|h' hs]]; cbn; [by left|eauto|lia]. Qed.

Lemma filter_length_le {A} (f : A -> bool) l : (length (List.filter f l) <= length l)%nat.
Proof. induction l as [|x l IH]; cbn; [lia|]. destruct (f x); cbn; lia. Qed.

(** The expiry at an event keeps the invariant, and leaves live holds only. *)
Lemma retain_inv ttl pre st T t : check_inv ttl pre st T -> T <= t ->
  check_inv ttl pre (retain t st) t /\ Forall (fun h => t < h.2) (active (retain t st)).
Proof.
  intros [O A F] Ht. split; [split; cbn; [|..|done]|].
  - pose proof (filter_length_le (still_valid t) (active st)). lia.
  - intros w t' Ht'. rewrite <- A by lia. split; intros (x & Hx & Hlt); exists x; (split; [|done]).
    + apply list_elem_of_In, filter_In in Hx. apply list_elem_of_In. tauto.
    + apply list_elem_of_In, filter_In. split; [by apply list_elem_of_In|]. unfold still_valid. cbn.
      apply negb_true_iff, Z.leb_gt. lia.
  - cbn. apply Forall_forall. intros h Hh. apply list_elem_of_In, filter_In in Hh. destruct Hh as [_ Hh].
    unfold still_valid in Hh. apply negb_true_iff, Z.leb_gt in Hh. done.
Qed.

Section one_event.
Variables (ttl : Z) (pre : list Event) (e : Event) (st : check_state).
Hypothesis I : check_inv ttl pre st (t_ms e).
Hypothesis Hlive : Forall (fun h => t_ms e < h.2) (active st).
Abbreviation t := (t_ms e).

(** The hold the checker finds is the valid hold. *)
Lemma find_hold_valid : 
  (exists x, active st = [(worker e, x)] /\ t < x /\ find_hold (worker e) (active st) = Some (worker e, x) /\
             valid_hold ttl pre (worker e) t) \/
  (find_hold (worker e) (active st) = None /\ ~ valid_hold ttl pre (worker e) t).
Proof.
  destruct I as [O A _]. pose proof (A (worker e) t (Z.le_refl _)) as Aw.
  destruct (active_cases st O) as [E|(w & x & E)]; rewrite E in *.
  - right. split; [done|]. intros Hv. apply Aw in Hv. destruct Hv as (x & Hx & _). by apply not_elem_of_nil in Hx.
  - rewrite Forall_singleton in Hlive. cbn in *. destruct (Z.eqb_spec w (worker e)) as [->|Hne].
    + left. exists x. split_and!; try done. apply Aw. exists x. split; [by apply list_elem_of_singleton|done].
    + right. split; [done|]. intros Hv. apply Aw in Hv. destruct Hv as (y & Hy & _).
      apply list_elem_of_singleton in Hy. congruence.
Qed.

Lemma inv_keep : kind e <> Grant -> kind e <> ReleaseOk -> kind e <> WriteAccepted -> check_inv ttl (pre ++ [e]) st t.
Proof.
  intros N1 N2 N3. destruct I as [O A F]. split; [done| |by apply fences_keep].
  intros w t' Ht'. by rewrite valid_hold_keep, A.
Qed.

Lemma inv_grant rs : kind e = Grant -> active st = [] ->
  check_inv ttl (pre ++ [e]) (mk_check [(worker e, t + ttl)] (last_accepted_fence st) rs) t /\
  forall w, ~ valid_hold ttl pre w t.
Proof.
  intros K E. destruct I as [O A F].
  assert (forall w, ~ valid_hold ttl pre w t) as Hn.
  { intros w Hv. apply A in Hv; [|lia]. rewrite E in Hv. destruct Hv as (x & Hx & _). by apply not_elem_of_nil in Hx. }
  split; [|done]. split; cbn; [lia| |apply fences_keep; [done|congruence]]. intros w t' Ht'. rewrite valid_hold_snoc. split.
  - intros (x & Hx%list_elem_of_singleton & Hlt). left. split_and!; congruence || (injection Hx; intros; subst; done).
  - intros [(_ & <- & Hlt)|[Hv _]].
    + exists (t + ttl). split; [by apply list_elem_of_singleton|done].
    + destruct (Hn w). by eapply valid_hold_earlier.
Qed.

Lemma inv_release x rs : kind e = ReleaseOk -> active st = [(worker e, x)] ->
  check_inv ttl (pre ++ [e]) (mk_check [] (last_accepted_fence st) rs) t.
Proof.
  intros K E. destruct I as [O A F]. split; cbn; [lia| |apply fences_keep; [done|congruence]].
  intros w t' Ht'. rewrite valid_hold_snoc. split.
  - intros (y & Hy & _). by apply not_elem_of_nil in Hy.
  - intros [[? _]|[Hv Hne]]; [congruence|]. exfalso. apply Hne. split; [done|]. apply A in Hv; [|done].
    destruct Hv as (y & Hy & _). rewrite E in Hy. apply list_elem_of_singleton in Hy. congruence.
Qed.

Lemma inv_write rs : kind e = WriteAccepted -> last_accepted_fence st < fence e ->
  check_inv ttl (pre ++ [e]) (mk_check (active st) (fence e) rs) t.
Proof.
  intros K Hl. destruct I as [O A F]. split; cbn; [done| |by eapply fences_accept].
  intros w t' Ht'. rewrite valid_hold_keep, A by (done || congruence). done.
Qed.

(** One event: accepted exactly when it should be. *)
Lemma check_event_inv : 0 <= t -> 0 <= ttl -> t + ttl < u64_mod -> 0 <= fence e ->
  match check_event ttl e st with
  | Ok st' => event_ok ttl pre e /\ check_inv ttl (pre ++ [e]) st' t
  | Err v => ~ event_ok ttl pre e /\ at_ms v = t
  end.
Proof.
  intros H0 Hl Hr Hf. pose proof I as [O A F]. unfold check_event, event_ok.
  destruct (kind e) eqn:K; try (split; [done|apply inv_keep; congruence]).
  - destruct (active st) as [|[w x] hs] eqn:Ea.
    + destruct (inv_grant (released_seen st) K Ea) as [I' Hn].
      destruct (Z.eqb_spec (fence e) 0) as [Hz|Hz]; [split; [tauto|done]|]. by rewrite u64_add_small by lia.
    + split; [|done]. intros [Hn _]. apply (Hn w), A; [lia|]. exists x.
      rewrite Forall_cons in Hlive. split; [apply elem_of_cons; by left|apply Hlive].
  - destruct find_hold_valid as [(x & Ea & Hx & -> & Hv)|[-> Hv]]; [|by split].
    split; [done|]. rewrite Ea. cbn [remove_hold fst]. rewrite Z.eqb_refl. by eapply inv_release.
  - destruct find_hold_valid as [(x & Ea & Hx & -> & Hv)|[-> Hv]].
    + cbn [snd]. rewrite (proj2 (Z.ltb_lt _ _) Hx). split; [tauto|done].
    + split; [done|]. apply inv_keep; congruence.
  - destruct find_hold_valid as [(x & Ea & Hx & -> & Hv)|[-> Hv]]; [|split; [tauto|done]].
    destruct F as (M & S & P). destruct (fence e <=? last_accepted_fence st) eqn:Hc; zbool.
    + split; [|done]. intros (_ & Hp & Hm). destruct S as [|(e' & He' & Hk & Hq)]; [lia|].
      specialize (Hm e' He' Hk). lia.
    + split; [|by apply inv_write]. split_and!; [done|lia|]. intros e' He' Hk. specialize (M e' He' Hk). lia.
Qed.
End one_event.

(** The whole history. *)
Lemma check_from_ok ttl h : forall pre st T, check_inv ttl pre st T -> 0 <= ttl ->
  timely ttl h -> Forall (fun e => T <= t_ms e) h ->
  is_ok (check_from ttl h st) = true <-> forall mid e post, h = mid ++ e :: post -> event_ok ttl (pre ++ mid) e.
Proof.
  induction h as [|e h IH]; intros pre st T I Hl [Hs Hr] HT.
  { split; [|done]. intros _ mid e post E. by destruct mid. }
  rewrite Forall_cons in Hr, HT. destruct Hr as [(H0 & H1 & H2) Hr]. destruct HT as [HT _].
  apply StronglySorted_inv in Hs. destruct Hs as [Hs He].
  destruct (retain_inv ttl pre st T (t_ms e) I HT) as [I1 Hlive].
  pose proof (check_event_inv ttl pre e _ I1 Hlive H0 Hl H1 H2) as Hc. cbn [check_from].
  destruct (check_event ttl e (retain (t_ms e) st)) as [st'|v].
  - destruct Hc as [Hok I2]. rewrite (IH (pre ++ [e]) st' (t_ms e) I2 Hl (conj Hs Hr) He). split.
    + intros Hall mid e' post E. destruct mid as [|m mid]; injection E as <- E; [by rewrite app_nil_r|].
      specialize (Hall mid e' post E). by rewrite <- app_assoc in Hall.
    + intros Hall mid e' post E. rewrite <- app_assoc. apply (Hall (e :: mid) e' post). by rewrite E.
  - destruct Hc as [Hn _]. split; [done|]. intros Hall. destruct Hn. specialize (Hall [] e h eq_refl). by rewrite app_nil_r in Hall.
Qed.

Lemma insert_event_sorted e l : StronglySorted (fun a b => t_ms a <= t_ms b) l ->
  StronglySorted (fun a b => t_ms a <= t_ms b) (insert_event e l).
Proof.
  assert (forall x l, insert_event x l ≡ₚ x :: l) as Hp.
  { intros x l'. induction l' as [|y l' IH]; [done|]. cbn. destruct (_ <=? _); [done|]. rewrite IH. apply perm_swap. }
  induction 1 as [|x l Hl IH Hx]; cbn; [repeat constructor|]. destruct (t_ms e <=? t_ms x) eqn:E; zbool.
  - constructor; [by constructor|]. constructor; [done|]. eapply Forall_impl; [exact Hx|]. cbn. lia.
  - constructor; [done|]. rewrite Hp. constructor; [lia|done].
Qed.

Lemma sort_events_sorted l : StronglySorted (fun a b => t_ms a <= t_ms b) (sort_events l).
Proof. induction l; [constructor|]. by apply insert_event_sorted. Qed.

Lemma sort_events_perm l : sort_events l ≡ₚ l.
Proof.
  assert (forall x l, insert_event x l ≡ₚ x :: l) as Hp.
  { intros x l'. induction l' as [|y l' IH]; [done|]. cbn. destruct (_ <=? _); [done|]. rewrite IH. apply perm_swap. }
  induction l as [|x l IH]; [done|]. cbn. by rewrite Hp, IH.
Qed.

(** Sorting leaves sorted events as they are. *)
Lemma sort_events_id l : StronglySorted (fun a b => t_ms a <= t_ms b) l -> sort_events l = l.
Proof.
  induction 1 as [|x l Hl IH Hx]; [done|]. change (sort_events (x :: l)) with (insert_event x (sort_events l)).
  rewrite IH. destruct l as [|y l]; [done|]. cbn. rewrite Forall_cons in Hx. by rewrite (proj2 (Z.leb_le _ _)) by tauto.
Qed.

Lemma is_ok_unit {E} (r : res E unit) : is_ok r = true <-> r = Ok tt.
Proof. destruct r as [[]|]; split; done. Qed.

Lemma check_history_ok ttl h : 0 <= ttl -> timely ttl h -> check_history h ttl = Ok tt <-> history_ok ttl h.
Proof.
  intros Hl Ht. rewrite <- is_ok_unit. unfold check_history.
  assert (is_ok (res_map (fun _ => tt) (check_from ttl h check_init)) = is_ok (check_from ttl h check_init)) as ->
    by by destruct (check_from _ _ _).
  rewrite (check_from_ok ttl h [] check_init 0 (check_inv_init ttl 0) Hl Ht); [done|].
  destruct Ht as [_ Hr]. eapply Forall_impl; [exact Hr|]. cbn. tauto.
Qed.

(** ** Properties *)

(** C20: The checker accepts exactly the histories of a correct lease: on events
    in time order (times and expiries within 64 bits), [check] succeeds if
    and only if no worker is granted while another validly holds, every
    grant has a fence, releases succeed exactly under a valid hold, leases
    are reported lost only when they are, and accepted writes come from
    valid holders with strictly increasing fences. *)
Theorem checker_exact ttl h : 0 <= ttl -> timely ttl h ->
  check_history h ttl = Ok tt <-> history_ok ttl h.
Proof. apply check_history_ok. Qed.

(** Recorded traffic is checked by the same rule: for one key's entries
    (times and fences in range) the verdict is that of the specification
    on their events, each entry but the extends once, in completion order. *)
Theorem client_history_exact key entries ttl : 0 <= ttl ->
  Forall (fun e => 0 <= end_us e /\ end_us e / 1000 + ttl < u64_mod /\ 0 <= he_fence e) entries ->
  exists events, events ≡ₚ omap event_of_entry (List.filter (fun e => String.eqb (he_key e) key) entries) /\
    StronglySorted (fun a b => t_ms a <= t_ms b) events /\
    (check_client_history key entries ttl = Ok tt <-> history_ok ttl events).
Proof.
  intros Hl Hr. set (es := omap _ _). exists (sort_events es). split; [apply sort_events_perm|].
  split; [apply sort_events_sorted|]. unfold check_client_history. fold es. apply check_history_ok; [done|].
  split; [apply sort_events_sorted|]. rewrite sort_events_perm. apply Forall_forall. intros ev Hev.
  apply list_elem_of_omap in Hev. destruct Hev as (e & Hin & He). apply list_elem_of_In, filter_In in Hin.
  destruct Hin as [Hin _]. rewrite Forall_forall in Hr. destruct (Hr e) as (H1 & H2 & H3); [by apply list_elem_of_In|].
  assert (t_ms ev = end_us e / 1000 /\ fence ev = he_fence e) as [-> ->].
  { unfold event_of_entry in He. destruct (he_op e), (he_ok e); by simplify_eq/=. }
  split_and!; [apply Z.div_pos; lia|done|done].
Qed.

(** ** Witnesses *)

Definition demo_history : list Event :=
  [mk_event 0 1 Grant 1; mk_event 5 2 Deny 0; mk_event 10 1 WriteAccepted 1; mk_event 12 1 ReleaseOk 1;
   mk_event 12 2 Grant 2; mk_event 120 2 ReleaseLost 2].

Lemma demo_timely : timely 100 demo_history.
Proof. split; [repeat (constructor; [|repeat (constructor; [cbn; lia|]); constructor]); constructor|]. repeat constructor; cbn; try lia; reflexivity. Qed.

Lemma checker_exact_witness : history_ok 100 demo_history.
Proof. apply (checker_exact 100 demo_history); [lia|exact demo_timely|reflexivity]. Defined.

Definition demo_entries : list HistoryEntry :=
  [Checker.mk_entry "job" TryAcquire true 1 0 2000; Checker.mk_entry "job" TryAcquire true 2 1000 1500].

Lemma client_history_exact_witness : exists events,
  StronglySorted (fun a b => t_ms a <= t_ms b) events /\ ~ history_ok 100 events.
Proof.
  destruct (client_history_exact "job" demo_entries 100) as (events & _ & Hs & [_ H]);
    [lia|repeat constructor; cbn; try lia; reflexivity|]. exists events. split; [exact Hs|].
  intros Hok. specialize (H Hok). vm_compute in H. discriminate H.
Defined.
