(* ===== verification/Client.v ===== *)
(** * The client SDK ([crates/client/src/lib.rs])

    Remote locks over the RPCs of a lock server: the wire requests, the
    remote handle with its watchdog and detached release, the session and its
    heartbeat task.  The server is a class; [Remote] puts the service in its
    place.  What a [HistoryRecorder] is told is returned with the result. *)

From S2P Require Import Prelude Core Redis Scripts World Lease Single Scan Multi Registry Auth Sessions WatchHub Handlers Service Checker.

Open Scope world_scope.

(** ** The server, seen from the wire *)

(** One unary call, with the [authorization] header; a listing's items. *)
Class LockServer (S : Type) := {
  rpc : option string -> request -> cmd S (res Status response);
  rpc_items : string -> cmd S (list (res Status (string * bool * Z)));
}.

(** ** The client *)

Definition client_RENEWAL_DIVISOR : Z := 3.
Definition client_MAX_CONSECUTIVE_RENEW_FAILURES : Z := 2.

(** The channel, the bearer token, and the instant a recorder counts from.
    The session in the shared mutex is an argument of the methods. *)
Record ClientInner := mk_client {
  ci_grpc : conn;
  ci_bearer : option string;
  ci_history : option Z;
}.

Definition with_history (origin : Z) (cl : ClientInner) : ClientInner :=
  mk_client (ci_grpc cl) (ci_bearer cl) (Some origin).
Definition with_token (token : string) (cl : ClientInner) : ClientInner :=
  mk_client (ci_grpc cl) (Some token) (ci_history cl).

Inductive WatchEventKind := KAcquired | KFreed.
Inductive WatchEvent := WAcquired (version : Z) | WFreed (version : Z).
Definition event_kind (e : WatchEvent) : WatchEventKind :=
  match e with WAcquired _ => KAcquired | WFreed _ => KFreed end.
Definition event_version (e : WatchEvent) : Z := match e with WAcquired v | WFreed v => v end.

Definition status_to_error {A} (r : res Status A) : res error A := res_map_err (fun _ => Backend "rpc failed: {status}") r.

(** A transport failure is a [Status] too. *)
Definition transport {A} (r : res rerr (res Status A)) : res Status A :=
  match r with Ok r => r | Err _ => Err Unavailable end.

Definition options_pb (o : LockOptions) : LockOptionsPb := mk_options_pb (as_millis_u64 (ttl o)) (watchdog o).

Section remote.
Context {U : UuidSource}.

(** The state of [RemoteShared]; its flags are in the cell. *)
Record RemoteShared := mk_remote {
  rs_grpc : conn;
  rs_header : option string;
  rs_history : option Z;
  rs_key : string;
  rs_token : string;
  rs_owner : OwnerId;
  rs_fence : FencingToken;
  rs_ttl : duration;
  rs_cell : nat;
}.
Definition remote_lost (s : RemoteShared) : error := Lost (rs_key s) (value (rs_fence s)).
End remote.

Section client.
Context {U : UuidSource} {S : Type} `{LockServer S}.
(** Which texts [tonic] takes as the value of a header. *)
Variable ascii_metadata : string -> bool.

(** [request_with_auth]: a token that is no header value is left out. *)
Definition auth_header (token : option string) : option string :=
  token ≫= fun t => if ascii_metadata ("Bearer " +:+ t) then Some ("Bearer " +:+ t) else None.

Definition call (c : conn) (header : option string) (r : request) : M S (res error response) :=
  let* a := invoke c (rpc header r) in
  ret (status_to_error (transport a)).

(** [rec.record(..)], if there is a recorder. *)
Definition note (history : option Z) (key : string) (op : OpKind) (ok : bool) (fence started : Z) :
    M S (list HistoryEntry) :=
  match history with
  | Some origin => let* now := instant_now in ret (record origin now key op ok fence started [])
  | None => ret []
  end.

(** The generated client types every answer: this one cannot occur. *)
Definition malformed : error := Backend "malformed response".

(** [describe_key], [unlock_force], [list_locks]. *)
Definition client_describe_key (cl : ClientInner) (key : string) : M S (res error (bool * Z * Z)) :=
  let? a := call (ci_grpc cl) (auth_header (ci_bearer cl)) (DescribeKey key) in
  ret (match a with RKey held version ttl_ms => Ok (held, version, ttl_ms) | _ => Err malformed end).

Definition client_unlock_force (cl : ClientInner) (key : string) : M S (res error bool) :=
  let? a := call (ci_grpc cl) (auth_header (ci_bearer cl)) (UnlockForce key) in
  ret (match a with RForced released => Ok released | _ => Err malformed end).

Fixpoint collect {A} (items : list (res Status A)) : res error (list A) :=
  match items with
  | [] => Ok []
  | Ok a :: items => res_map (cons a) (collect items)
  | Err _ :: _ => Err (Backend "rpc failed: {status}")
  end.
Definition client_list_locks (cl : ClientInner) (prefix : string) : M S (res error (list (string * bool * Z))) :=
  let? a := call (ci_grpc cl) (auth_header (ci_bearer cl)) (ListLocks prefix) in
  match a with
  | RList prefix =>
      let* items := invoke (ci_grpc cl) (rpc_items prefix) in
      ret (match items with Ok l => collect l | Err _ => Err (Backend "rpc failed: {status}") end)
  | _ => ret (Err malformed)
  end.

(** [watch]: the events passed on, until the stream ends or fails. *)
Fixpoint watch_events (items : list (res Status (option LockEvent))) : list WatchEvent :=
  match items with
  | Ok (Some (Acquired v)) :: items => WAcquired v :: watch_events items
  | Ok (Some (Freed v)) :: items => WFreed v :: watch_events items
  | Ok None :: items => watch_events items
  | Err _ :: _ | [] => []
  end.

(** ** Sessions *)

Definition session_token (session : option string) : string := default "" session.

Definition heartbeat_cadence (t : duration) : duration := Z.max (t / 3) (from_millis 500).

(** [attach_session]: the token now in the mutex. *)
Definition attach_session (cl : ClientInner) (client : string) (t : duration) : M S (res error string) :=
  let? a := call (ci_grpc cl) (auth_header (ci_bearer cl)) (RegisterSession client (as_millis_u64 t)) in
  ret (match a with RSession token _ => Ok token | _ => Err malformed end).

(** One turn of the heartbeat task it spawns, for the session it found in the
    mutex ([None]: the client is gone); whether it goes on. *)
Definition heartbeat_round (cl : ClientInner) (token : string) (t : duration) (current : option (option string)) :
    M S bool :=
  do* sleep (heartbeat_cadence t) in
  match current with
  | None => ret false
  | Some current =>
      if bool_decide (current = Some token)
      then do* call (ci_grpc cl) (auth_header (ci_bearer cl)) (Heartbeat token) in ret true
      else ret false
  end.

(** [close_session]: how many locks, and the mutex is left empty. *)
Definition client_close_session (cl : ClientInner) (session : option string) : M S (res error Z) :=
  match session with
  | None => ret (Ok 0)
  | Some token =>
      let? a := call (ci_grpc cl) (auth_header (ci_bearer cl)) (CloseSession token) in
      ret (match a with RClosed n => Ok n | _ => Err malformed end)
  end.

(** ** Locks *)

(** [make_handle]. *)
Definition remote_handle (cl : ClientInner) (key token : string) (fence : Z) (options : LockOptions) : M S RemoteShared :=
  let* owner := fresh_owner in
  let* cell := new_cell in
  do* (if default true (watchdog options) then spawn (TWatchdog cell) else ret tt) in
  ret (mk_remote (ci_grpc cl) (auth_header (ci_bearer cl)) (ci_history cl) key token owner (fence_new fence)
         (ttl options) cell).

Definition remote_granted (cl : ClientInner) (key : string) (options : LockOptions) (started : Z) (token : string) (fence : Z) :
    M S (res error RemoteShared * list HistoryEntry) :=
  let* es := note (ci_history cl) key TryAcquire true fence started in
  let* h := remote_handle cl key token fence options in
  ret (Ok h, es).
Definition remote_not_granted (cl : ClientInner) (key : string) (started : Z) (e : error) :
    M S (res error RemoteShared * list HistoryEntry) :=
  let* es := note (ci_history cl) key TryAcquire false 0 started in
  ret (Err e, es).

(** [PalisadeClient::try_lock]. *)
Definition client_try_lock (cl : ClientInner) (session : option string) (key : string) (options : LockOptions) :
    M S (res error RemoteShared * list HistoryEntry) :=
  let* started := instant_now in
  let* a := call (ci_grpc cl) (auth_header (ci_bearer cl))
              (TryLock key (Some (options_pb options)) (session_token session)) in
  match a with
  | Ok (RLock (OGranted token fence _)) => remote_granted cl key options started token fence
  | Ok (RLock (OHeld _)) => remote_not_granted cl key started (Held key)
  | Ok _ => ret (Err (Backend "malformed LockOutcome"), [])
  | Err e => ret (Err e, [])
  end.

(** [PalisadeClient::try_lock_for]. *)
Definition client_try_lock_for (cl : ClientInner) (session : option string) (key : string) (options : LockOptions)
    (wait : duration) : M S (res error RemoteShared * list HistoryEntry) :=
  let* started := instant_now in
  let* a := call (ci_grpc cl) (auth_header (ci_bearer cl))
              (TryLockFor key (Some (options_pb options)) (as_millis_u64 wait) (session_token session)) in
  match a with
  | Ok (RLock (OGranted token fence _)) => remote_granted cl key options started token fence
  | Ok (RLock (OHeld _)) => remote_not_granted cl key started (Held key)
  | Ok (RLock (OTimedOut _)) => remote_not_granted cl key started (Timeout key)
  | Ok _ => ret (Err (Backend "malformed LockOutcome"), [])
  | Err e => ret (Err e, [])
  end.

(** [RemoteShared::fire_extend]. *)
Definition remote_fire_extend (s : RemoteShared) (t : duration) : M S (res error bool * list HistoryEntry) :=
  let* started := instant_now in
  let* a := call (rs_grpc s) (rs_header s) (Service.Extend (rs_key s) (rs_token s) (as_millis_u64 t)) in
  match a with
  | Err e => ret (Err e, [])
  | Ok a =>
      let ok := match a with RExtended b => b | _ => false end in
      let* es := note (rs_history s) (rs_key s) Checker.Extend ok (value (rs_fence s)) started in
      ret (Ok ok, es)
  end.

(** [RemoteShared::run_unlock]. *)
Definition run_unlock (s : RemoteShared) : M S (res error unit * list HistoryEntry) :=
  let* started := instant_now in
  let* a := call (rs_grpc s) (rs_header s) (Unlock (rs_key s) (rs_token s)) in
  match a with
  | Err e => ret (Err e, [])
  | Ok a =>
      let released := match a with RUnlocked b => b | _ => false end in
      let* es := note (rs_history s) (rs_key s) Release released (value (rs_fence s)) started in
      ret (if released then Ok tt else Err (remote_lost s), es)
  end.

(** [RemoteLockHandle::release] and [extend]. *)
Definition remote_release (s : RemoteShared) : M S (res error unit * list HistoryEntry) :=
  let* first := mark_released (rs_cell s) in
  if negb first then ret (Ok tt, []) else run_unlock s.

Definition remote_extend (s : RemoteShared) (t : duration) : M S (res error unit * list HistoryEntry) :=
  if t <? MIN_TTL then ret (Err extend_floor, []) else
  let* f := cell (rs_cell s) in
  if released f then ret (Err (remote_lost s), []) else
  let* p := remote_fire_extend s t in
  match p.1 with
  | Ok true => ret (Ok tt, p.2)
  | Ok false => do* mark_lost (rs_cell s) in ret (Err (remote_lost s), p.2)
  | Err e => ret (Err e, p.2)
  end.

(** [Drop for RemoteShared], and the task it spawns (without a recorder). *)
Definition remote_drop (runtime : bool) (s : RemoteShared) : M S unit :=
  do* update_cell (rs_cell s) set_dropped in
  let* first := mark_released (rs_cell s) in
  if negb first then ret tt else
  if runtime then spawn (TRemoteUnlock (rs_grpc s) (rs_header s) (rs_key s) (rs_token s)) else ret tt.
Definition remote_run_detached (t : task) : M S unit :=
  match t with
  | TRemoteUnlock c header key token => do* call c header (Unlock key token) in ret tt
  | _ => ret tt
  end.

(** One turn of the loop of [spawn_watchdog]: the failures in a row, or
    [None] when the task returns; and what it recorded. *)
Definition remote_watchdog_round (s : RemoteShared) (transient_failures : Z) : M S (option Z * list HistoryEntry) :=
  do* sleep (rs_ttl s / client_RENEWAL_DIVISOR) in
  let* f := cell (rs_cell s) in
  if dropped f then ret (None, []) else
  if released f then ret (None, []) else
  let* p := remote_fire_extend s (rs_ttl s) in
  match p.1 with
  | Ok true => ret (Some 0, p.2)
  | Ok false => do* mark_lost (rs_cell s) in ret (None, p.2)
  | Err _ =>
      let transient_failures := transient_failures + 1 in
      if client_MAX_CONSECUTIVE_RENEW_FAILURES <=? transient_failures
      then do* mark_lost (rs_cell s) in ret (None, p.2)
      else ret (Some transient_failures, p.2)
  end.

Fixpoint remote_watchdog_rounds (n : nat) (s : RemoteShared) (transient_failures : Z) : M S (option Z) :=
  match n with
  | O => ret (Some transient_failures)
  | Datatypes.S n =>
      let* p := remote_watchdog_round s transient_failures in
      match p.1 with Some f => remote_watchdog_rounds n s f | None => ret None end
  end.

Definition remote_is_lost (s : RemoteShared) : M S bool := let* f := cell (rs_cell s) in ret (poisoned f).
End client.

(** ** The watchdog through an outage *)

Section watchdog.
Context {U : UuidSource} {S : Type} `{LockServer S}.
Implicit Types w : world S.

(** A round whose exchange gets no reply. *)
Lemma remote_round_failed s k w f st1 st2 rest : w_budget w = None -> w_flags w !! rs_cell s = Some f ->
  released f = false -> dropped f = false -> w_steps w = st1 :: st2 :: rest -> st_fate st2 <> Replied ->
  let last := client_MAX_CONSECUTIVE_RENEW_FAILURES <=? k + 1 in
  exists w', remote_watchdog_round s k w = (Done (if last then None else Some (k + 1), []), w') /\
    w_budget w' = None /\ w_steps w' = rest /\ w_flags w' !! rs_cell s = Some (if last then set_lost f else f).
Proof.
  intros B Hf Hr Hd Es Hst last. unfold remote_watchdog_round.
  rewrite (bind_done _ _ _ _ _ (sleep_eq _ w B)). set (w1 := after_sleep _ w).
  unfold bind at 1, cell, gets. change (w_flags w1) with (w_flags w). rewrite Hf.
  change (default fresh_flags (Some f)) with f. rewrite Hd, Hr.
  set (r := Service.Extend (rs_key s) (rs_token s) (as_millis_u64 (rs_ttl s))).
  set (w2 := after_invoke (rs_grpc s) (rpc (rs_header s) r) w1).
  assert (call (rs_grpc s) (rs_header s) r w1 = (Done (Err (Backend "rpc failed: {status}")), w2)) as Ec.
  { unfold call. rewrite (bind_done _ _ _ _ _ (invoke_eq _ _ w1 eq_refl)). fold w2.
    unfold reply_of, step_of, w1. cbn [after_sleep w_steps]. rewrite Es. cbn [tail]. by destruct (st_fate st2). }
  assert (remote_fire_extend s (rs_ttl s) w1 = (Done (Err (Backend "rpc failed: {status}"), []), w2)) as Ef.
  { unfold remote_fire_extend. unfold bind at 1, instant_now, gets. fold r. by rewrite (bind_done _ _ _ _ _ Ec). }
  rewrite (bind_done _ _ _ _ _ Ef). cbn [fst snd]. fold last.
  assert (w_steps w2 = rest) as E2 by (unfold w2, w1; cbn; by rewrite Es).
  destruct last.
  - eexists. split; [reflexivity|]. cbn. by rewrite list_lookup_alter_eq, Hf.
  - by exists w2.
Qed.

(** The SDK watchdog's tolerance.  Through a run of rounds whose exchange
    gets no reply (the request or the answer is lost), whatever happens on
    the server meanwhile, the watchdog survives one such round and poisons
    the handle at the second, where the task ends. *)
Theorem remote_watchdog_tolerance s turns rest w f : w_budget w = None -> w_flags w !! rs_cell s = Some f ->
  released f = false -> dropped f = false -> w_steps w = (turns ≫= fun p => [p.1; p.2]) ++ rest ->
  Forall (fun p => st_fate p.2 <> Replied) turns ->
  exists w', remote_watchdog_rounds (length turns) s 0 w =
      (Done (if (2 <=? length turns)%nat then None else Some (Z.of_nat (length turns))), w') /\
    w_flags w' !! rs_cell s = Some (if (2 <=? length turns)%nat then set_lost f else f).
Proof.
  intros B Hf Hr Hd Es F. destruct turns as [|[a b] turns]; [by exists w|].
  inversion F as [|? ? F1 F']; subst.
  destruct (remote_round_failed s 0 w f a b _ B Hf Hr Hd Es F1) as (w1 & E1 & B1 & S1 & Hf1).
  cbn [length remote_watchdog_rounds]. rewrite (bind_done _ _ _ _ _ E1).
  change (client_MAX_CONSECUTIVE_RENEW_FAILURES <=? 0 + 1) with false in *. cbn [fst]. change (0 + 1) with 1.
  destruct turns as [|[a' b'] turns]; [by exists w1|]. inversion F' as [|? ? F2 _]; subst.
  destruct (remote_round_failed s 1 w1 f a' b' _ B1 Hf1 Hr Hd S1 F2) as (w2 & E2 & _ & _ & Hf2).
  cbn [length remote_watchdog_rounds]. rewrite (bind_done _ _ _ _ _ E2).
  exists w2. split; [done|exact Hf2].
Qed.
End watchdog.

(** A server that always refuses. *)
#[local] Instance demo_refusing : LockServer unit :=
  {| rpc := fun _ _ s => (Ok (Err Unavailable), s); rpc_items := fun _ s => (Ok [], s) |}.
Definition demo_remote : RemoteShared :=
  mk_remote 0 None None "job" "A" (owner_generate 3) (mk_fence 1) (from_secs 30) 0.
Definition demo_outage : list (env_step unit * env_step unit) :=
  [(quiet, mk_step id NotDelivered 0); (quiet, mk_step id ReplyLost 0)].

Lemma remote_watchdog_tolerance_witness : exists w',
  remote_watchdog_rounds 2 demo_remote 0
    (mk_world (fun _ => tt) 7 0 [fresh_flags] [] (demo_outage ≫= fun p => [p.1; p.2]) None) = (Done None, w').
Proof.
  destruct (remote_watchdog_tolerance demo_remote demo_outage []
    (mk_world (fun _ => tt) 7 0 [fresh_flags] [] (demo_outage ≫= fun p => [p.1; p.2]) None) fresh_flags) as (w' & E & _);
    [reflexivity|reflexivity|reflexivity|reflexivity|reflexivity|by repeat constructor|].
  exists w'. exact E.
Defined.
