(* ===== verification/Connect.v ===== *)
(** * Connecting: the SDK's channel and the console's binary

    [PalisadeClient::connect] and [connect_mtls] ([crates/client/src/lib.rs]),
    and the start of [palisade-demo] ([run] of [crates/server/src/demo.rs]):
    what each error is, what is connected to what. *)

From S2P Require Import Prelude Core Redis Scripts World Lease Single Scan Simulation F64 Text Lattice Multi Semantic Sessions WatchHub Registry Auth Service Handlers Server Demo DemoSafety Client.

(** ** The channel *)

(** What [tonic] makes of a URL and of TLS material, and whether the server
    behind an endpoint is reached. *)
Class Tonic := {
  endpoint_type : Type;
  tls_type : Type;
  from_shared : string -> option endpoint_type;
  tls_of : string -> string -> string -> tls_type;      (* CA, certificate, key *)
  tls_config : tls_type -> endpoint_type -> option endpoint_type;
  dial : endpoint_type -> option conn;
}.

Section connect.
Context `{Tonic}.

(** [PalisadeClient::channel]. *)
Definition channel (endpoint : string) (tls : option tls_type) : res error conn :=
  match from_shared endpoint with
  | None => Err (InvalidConfig "bad endpoint `{endpoint}`: {e}")
  | Some ep =>
      match match tls with Some tls => tls_config tls ep | None => Some ep end with
      | None => Err (InvalidConfig "tls config rejected: {e}")
      | Some ep => match dial ep with Some c => Ok c | None => Err (Backend "connect failed: {e}") end
      end
  end.

(** A new client, with the session in its mutex. *)
Definition client_new (c : conn) : ClientInner * option string := (mk_client c None None, None).

Definition client_connect (endpoint : string) : res error (ClientInner * option string) :=
  res_map client_new (channel endpoint None).
Definition client_connect_mtls (endpoint ca_pem cert_pem key_pem : string) : res error (ClientInner * option string) :=
  res_map client_new (channel endpoint (Some (tls_of ca_pem cert_pem key_pem))).

(** Connecting fails as a configuration error exactly when the URL or the
    TLS material is not accepted, and as a backend error exactly when the
    server is not reached; a client that was given a certificate only ever
    uses a channel configured with it, and a new client sends no credentials
    and belongs to no session. *)
Theorem connect_outcome ascii_metadata url ca cert key :
  match client_connect_mtls url ca cert key with
  | Ok (cl, session) =>
      (exists ep ep', from_shared url = Some ep /\ tls_config (tls_of ca cert key) ep = Some ep' /\ dial ep' = Some (ci_grpc cl)) /\
      auth_header ascii_metadata (ci_bearer cl) = None /\ session_token session = ""%string
  | Err (InvalidConfig _) => from_shared url ≫= tls_config (tls_of ca cert key) = None
  | Err (Backend _) => exists ep, from_shared url ≫= tls_config (tls_of ca cert key) = Some ep /\ dial ep = None
  | Err _ => False
  end.
Proof.
  unfold client_connect_mtls, channel. destruct (from_shared url) as [ep|] eqn:Ef; cbn; [|done].
  destruct (tls_config _ ep) as [ep'|] eqn:Et; cbn; [|done].
  destruct (dial ep') as [c|] eqn:Ed; cbn; [|by exists ep']. split; [by exists ep, ep'|done].
Qed.
End connect.

(** ** The console's binary *)

(** [std::env::var("PALISADE_REDIS_URL")], and the connection a URL stands
    for ([redis::Client::open] only parses it). *)
Class ConsoleEnv := { env_redis_url : option string; data_client : string -> option conn }.

Inductive console_start_result :=
| Serving (ds : DemoState) (d : demo)
| StartFailed (e : startup_error)
| StartPanicked.

Section console.
Context {U : UuidSource} `{Host} `{ConsoleEnv}.

(** The URL of the simulated resource in [DemoState::new]. *)
Definition data_url : string := default "redis://127.0.0.1:6379" env_redis_url.

(** [run], up to serving. *)
Definition console_run (addr redis_url : string) (now : Z) : console_start_result :=
  match connect_redis redis_url with
  | Err e => StartFailed e
  | Ok manager =>
      match data_client data_url with
      | None => StartPanicked
      | Some data =>
          let '(ds, d) := demo_new manager data now in
          if bind_address addr then Serving ds d else StartFailed BindFailed
      end
  end.

Context {R : Type} `{RedisScan R} `{!RedisHash R}.

(** The data a semantic request is judged by is not the data the console
    writes.  The console's resource is on the server of the environment,
    whatever [--redis-url] says; when that names another server, writing the
    resource leaves the server the guards are evaluated on as it was. *)
Theorem console_data_elsewhere addr redis_url now ds d :
  console_run addr redis_url now = Serving ds d ->
  data_client data_url = Some (ds_data ds) /\
  forall key field value s (w : world R), calm w -> ds_data ds <> mgr_conn (ds_manager ds) ->
    exists r w', api_semantic_set_data ds key field value s w = (Done (r, s), w') /\
      w_server w' (mgr_conn (ds_manager ds)) = w_server w (mgr_conn (ds_manager ds)).
Proof.
  unfold console_run. intros E. destruct (connect_redis redis_url) as [m|]; [|done].
  destruct (data_client data_url) as [c|] eqn:Ec; [|done]. cbn in E. destruct (bind_address addr); [|done].
  injection E as <- <-. split; [done|]. intros key field value s w C Hne. cbn [ds_data ds_manager] in *.
  unfold api_semantic_set_data, htry, hbind, api, hbind, hrun, backend, bind, ret. cbn [ds_data].
  rewrite calm_invoke by done. destruct (r_hset key [(field, value)] (w_server w c)) as [[n|e] sv]; cbn [fst snd res_map_err];
    do 2 eexists; (split; [reflexivity|]); cbn; by rewrite fn_lookup_insert_ne.
Qed.
End console.

(** ** Witnesses *)

#[local] Instance two_redis : Host := {|
  open_redis url := Ok (if String.eqb url "redis://store:6379" then 0 else 1)%nat;
  read_file _ := None;
  parse_principals _ := None;
  tls_accepted _ _ _ := true;
  bind_address _ := true;
  install_recorder := true;
|}.
#[local] Instance bare_env : ConsoleEnv := {|
  env_redis_url := None;
  data_client url := if String.eqb url "redis://127.0.0.1:6379" then Some 1%nat else None;
|}.

Lemma console_data_elsewhere_witness : exists ds d r w',
  console_run "0.0.0.0:8080" "redis://store:6379" 0 = Serving ds d /\
  api_semantic_set_data (R:=db) ds "job" "stock" "5" (alone d) (demo_world demo_db []) = (Done (r, alone d), w') /\
  w_server w' 0%nat = w_server (demo_world demo_db []) 0%nat.
Proof.
  destruct (console_run "0.0.0.0:8080" "redis://store:6379" 0) as [ds d| |] eqn:E; [|revert E; by vm_compute..].
  destruct (console_data_elsewhere (R:=db) "0.0.0.0:8080" "redis://store:6379" 0 ds d E) as [Ed Hset].
  destruct (Hset "job"%string "stock"%string "5"%string (alone d) (demo_world demo_db [])) as (r & w' & Er & Ew).
  - by split.
  - revert E. vm_compute. by intros [= <- _].
  - exists ds, d, r, w'. split; [reflexivity|]. split; [exact Er|]. revert E Ew. vm_compute. intros [= <- _]. exact id.
Defined.
