(* ===== verification/LockApi.v ===== *)
(** * The backend interface ([crates/core/src/lock.rs])

    The traits [LockHandle] and [LockManager] as classes of operations, the
    contract their doc comments state as classes of laws, and what a program
    that only knows the traits can rely on.  The backends are instances:
    Redis ([single.rs]), Redlock ([redlock.rs]), etcd ([etcd/src/lib.rs]) and,
    for handles, the client SDK ([client/src/lib.rs]).  [until_lost] is in
    [LostSignal]: it waits for what other tasks do to the handle. *)

From S2P Require Import Prelude Core Redis Scripts World Lease Single Redlock EtcdStore Etcd Checker Service Client.

(** ** Flags only rise

    The booleans in a handle's cell are set and never cleared, and cells are
    never reused. *)

Record flag_le (f g : flags) : Prop := mk_flag_le {
  fl_released : released f = true -> released g = true;
  fl_poisoned : poisoned f = true -> poisoned g = true;
  fl_lost : lost f = true -> lost g = true;
  fl_dropped : dropped f = true -> dropped g = true;
}.
#[export] Instance flag_le_preorder : PreOrder flag_le.
Proof. split; [by split|]. intros f g h [] []. split; auto. Qed.

Definition flags_le (l k : list flags) : Prop :=
  forall i f, l !! i = Some f -> exists g, k !! i = Some g /\ flag_le f g.
#[export] Instance flags_le_preorder : PreOrder flags_le.
Proof.
  split; [by intros l i f E; exists f|]. intros l k m A B i f E.
  destruct (A i f E) as (g & Eg & L). destruct (B i g Eg) as (h & Eh & L'). exists h. by split; [|etrans].
Qed.

(** Whatever becomes of [m], the flags only rise; they change in one cell
    only; they are the same. *)
Definition rising {R A} (m : M R A) : Prop := forall w, flags_le (w_flags w) (w_flags (m w).2).
Definition within {R A} (i : nat) (m : M R A) : Prop :=
  forall w j, j <> i -> w_flags (m w).2 !! j = w_flags w !! j.
Definition steady {R A} (m : M R A) : Prop := forall w, w_flags (m w).2 = w_flags w.

Lemma steady_rising {R A} (m : M R A) : steady m -> rising m.
Proof. intros S w. by rewrite S. Qed.

Lemma steady_within {R A} i (m : M R A) : steady m -> within i m.
Proof. intros S w j _. by rewrite S. Qed.

Section rising.
Context {R : Type}.

Lemma within_bind {A B} i (m : M R A) (f : A -> M R B) : within i m -> (forall a, within i (f a)) -> within i (bind m f).
Proof.
  intros Hm Hf w j Hj. unfold bind. specialize (Hm w j Hj). destruct (m w) as [[a| | |] w1]; [|done..].
  by rewrite Hf.
Qed.
Lemma within_try {E A B} i (m : M R (res E A)) (f : A -> M R (res E B)) :
  within i m -> (forall a, within i (f a)) -> within i (try_ m f).
Proof. intros Hm Hf. apply within_bind; [done|]. by intros [a|e]. Qed.
Lemma within_update_cell i g : within (R:=R) i (update_cell i g).
Proof. intros w j Hj. cbn. by rewrite list_lookup_alter_ne. Qed.
Lemma within_mark_lost i : within (R:=R) i (mark_lost i).
Proof. apply within_update_cell. Qed.
Lemma within_mark_released i : within (R:=R) i (mark_released i).
Proof. apply within_bind; [done|]. intros f. apply within_bind; [apply within_update_cell|done]. Qed.

Lemma steady_bind {A B} (m : M R A) (f : A -> M R B) : steady m -> (forall a, steady (f a)) -> steady (bind m f).
Proof. intros Hm Hf w. unfold bind. specialize (Hm w). destruct (m w) as [[a| | |] w1]; [|done..]. by rewrite Hf. Qed.
Lemma steady_try {E A B} (m : M R (res E A)) (f : A -> M R (res E B)) :
  steady m -> (forall a, steady (f a)) -> steady (try_ m f).
Proof. intros Hm Hf. apply steady_bind; [done|]. by intros [a|e]. Qed.
Lemma rising_bind {A B} (m : M R A) (f : A -> M R B) : rising m -> (forall a, rising (f a)) -> rising (bind m f).
Proof.
  intros Hm Hf w. unfold bind. specialize (Hm w). destruct (m w) as [[a| | |] w1]; [|done..].
  etrans; [exact Hm|apply Hf].
Qed.
Lemma rising_try {E A B} (m : M R (res E A)) (f : A -> M R (res E B)) :
  rising m -> (forall a, rising (f a)) -> rising (try_ m f).
Proof. intros Hm Hf. apply rising_bind; [done|]. intros [a|e]; [done|by apply steady_rising]. Qed.

Lemma steady_ret {A} (a : A) : steady (ret (R:=R) a).
Proof. done. Qed.
Lemma steady_panic {A} : steady (R:=R) (A:=A) panic.
Proof. done. Qed.
Lemma steady_fuel {A} : steady (R:=R) (A:=A) out_of_fuel.
Proof. done. Qed.
Lemma steady_gets {A} (f : world R -> A) : steady (gets f).
Proof. done. Qed.
Lemma steady_spawn t : steady (R:=R) (spawn t).
Proof. done. Qed.
Lemma steady_owner {U : UuidSource} : steady (R:=R) fresh_owner.
Proof. done. Qed.
Lemma steady_modify (f : world R -> world R) : (forall w, w_flags (f w) = w_flags w) -> steady (modify f).
Proof. intros E w. apply E. Qed.
Lemma steady_next_step : steady (R:=R) next_step.
Proof. intros w. unfold next_step. by destruct (w_steps w). Qed.
Lemma steady_pass dt : steady (R:=R) (pass dt).
Proof. intros w. unfold pass. by destruct (w_budget w) as [b|]; [destruct (_ <? _)|]. Qed.
Lemma steady_on_server c {A} (m : cmd R A) : steady (on_server c m).
Proof. intros w. unfold on_server. by destruct (m _). Qed.
Lemma steady_sleep d : steady (R:=R) (sleep d).
Proof. apply steady_bind; [apply steady_next_step|]. intros. apply steady_bind; [done|]. intros. apply steady_pass. Qed.
Lemma steady_invoke c {A} (m : cmd R A) : steady (invoke c m).
Proof.
  apply steady_bind; [apply steady_next_step|]. intros st. apply steady_bind; [done|]. intros _.
  destruct (st_fate st); repeat (apply steady_bind; [first [apply steady_on_server|apply steady_pass]|intros]); done.
Qed.
Lemma steady_backend {A} msg (m : M R (res rerr A)) : steady m -> steady (backend msg m).
Proof. intros. by apply steady_bind. Qed.
Lemma rising_timeout {A} d (m : M R A) : rising m -> rising (timeout d m).
Proof.
  intros Hm w. unfold timeout. set (w0 := set_budget _ w). specialize (Hm w0).
  destruct (m w0) as [[a| | |] w1]; cbn in *; try done. by repeat case_match.
Qed.

Lemma rising_new_cell : rising (R:=R) new_cell.
Proof. intros w i f E. exists f. cbn. split; [by apply lookup_app_l_Some|done]. Qed.
Lemma rising_update_cell i g : (forall f, flag_le f (g f)) -> rising (R:=R) (update_cell i g).
Proof.
  intros G w j f E. cbn. destruct (decide (i = j)) as [->|Hne].
  - exists (g f). split; [|done]. by rewrite list_lookup_alter_eq, E.
  - exists f. split; [|done]. by rewrite list_lookup_alter_ne.
Qed.
Lemma rising_mark_lost i : rising (R:=R) (mark_lost i).
Proof. apply rising_update_cell. by split. Qed.
Lemma rising_mark_released i : rising (R:=R) (mark_released i).
Proof.
  apply rising_bind; [apply steady_rising, steady_gets|]. intros f. apply rising_bind; [|intros; apply steady_rising, steady_ret].
  apply rising_update_cell. by split.
Qed.
End rising.

Create HintDb flags discriminated.
#[export] Hint Resolve steady_ret steady_panic steady_fuel steady_gets steady_spawn steady_owner steady_sleep
  steady_invoke steady_backend : flags.

(** Code that sets no flag; code that clears none. *)
Ltac solve_steady :=
  repeat first
    [ solve [eauto with flags] | apply steady_try; [|intro] | apply steady_bind; [|intro]
    | match goal with
      | |- steady (match ?x with _ => _ end) => destruct x
      | |- steady (if ?x then _ else _) => destruct x
      end ].
Ltac solve_rising :=
  repeat first
    [ apply rising_mark_lost | apply rising_mark_released | apply rising_new_cell
    | solve [apply steady_rising; solve_steady]
    | apply rising_try; [|intro] | apply rising_bind; [|intro]
    | match goal with
      | |- rising (match ?x with _ => _ end) => destruct x
      | |- rising (if ?x then _ else _) => destruct x
      end ].

Ltac solve_within :=
  repeat first
    [ apply within_mark_lost | apply within_mark_released
    | solve [apply steady_within; solve_steady]
    | apply within_try; [|intro] | apply within_bind; [|intro]
    | match goal with
      | |- within _ (match ?x with _ => _ end) => destruct x
      | |- within _ (if ?x then _ else _) => destruct x
      end ].

(** ** The traits *)

(** [LockHandle].  [lh_cell] is the allocation its clones share. *)
Class LockHandle {U : UuidSource} (R H : Type) := {
  lh_cell : H -> nat;
  lh_key : H -> string;
  lh_owner : H -> OwnerId;
  lh_fence : H -> FencingToken;
  lh_is_lost : H -> M R bool;
  lh_extend : H -> duration -> M R (res error unit);
  lh_release : H -> M R (res error unit);
}.

(** [LockManager]; a loop's bound is the first argument. *)
Class LockManager (R G H : Type) := {
  lm_try_lock : G -> string -> LockOptions -> M R (res error H);
  lm_try_lock_for : nat -> G -> string -> LockOptions -> duration -> M R (res error H);
}.

(** [LockManager::lock], the default body. *)
Definition lm_lock {R G H} `{LockManager R G H} (fuel : nat) (g : G) (key : string) (options : LockOptions) :
    M R (res error H) :=
  lm_try_lock_for fuel g key options duration_max.

Section traits.
Context {U : UuidSource} {R G H : Type} {LH : LockHandle R H} {LM : LockManager R G H}.
Definition lh_flags (h : H) (w : world R) : flags := default fresh_flags (w_flags w !! lh_cell h).
(** The [Arc] exists. *)
Definition lh_alive (h : H) (w : world R) : Prop := (lh_cell h < length (w_flags w))%nat.
(** What the handle answers for a lease it no longer has. *)
Definition lh_gone (h : H) : error := Lost (lh_key h) (value (lh_fence h)).

(** A grant is a handle on the key asked for, in a cell of its own. *)
Definition grants (key : string) (w : world R) (r : res error H) (w' : world R) : Prop :=
  match r with
  | Ok h => lh_key h = key /\ w_flags w !! lh_cell h = None /\ w_flags w' !! lh_cell h = Some fresh_flags
  | Err _ => True
  end.
End traits.

(** An error a manager may answer, [busy] being what it says when the lock is taken. *)
Definition refusal (busy e : error) : Prop :=
  e = busy \/ (exists m, e = Backend m) \/ (exists m, e = InvalidConfig m).

(** The contract of a handle: it runs to an answer, clears no flag and sets
    none of another handle, its [is_lost] is the flag; the first [release] settles it whatever comes of
    the call, and a settled handle answers without a message. *)
Class LockHandleLaws {U : UuidSource} (R H : Type) {LH : LockHandle R H} := {
  lh_is_lost_flag h w : lh_is_lost h w = (Done (poisoned (lh_flags h w)), w);
  lh_extend_safe h t : safe (lh_extend h t);
  lh_release_safe h : safe (lh_release h);
  lh_extend_rising h t : rising (lh_extend h t);
  lh_release_rising h : rising (lh_release h);
  lh_extend_within h t : within (lh_cell h) (lh_extend h t);
  lh_release_within h : within (lh_cell h) (lh_release h);
  lh_release_settles h w : lh_alive h w -> released (lh_flags h (lh_release h w).2) = true;
  lh_release_settled h w : released (lh_flags h w) = true -> lh_release h w = (Done (Ok tt), w);
  lh_extend_settled h t w : released (lh_flags h w) = true ->
    exists e, lh_extend h t w = (Done (Err e), w) /\ (MIN_TTL <= t -> e = lh_gone h);
  lh_extend_lost h t w w' : lh_alive h w -> released (lh_flags h w) = false ->
    lh_extend h t w = (Done (Err (lh_gone h)), w') -> poisoned (lh_flags h w') = true;
}.

(** The contract of a manager: an attempt never waits and never answers
    [Timeout]; a bounded wait answers [Timeout] and never [Held]; both name
    the key; a grant is a fresh handle on it. *)
Class LockManagerLaws {U : UuidSource} (R G H : Type) {LH : LockHandle R H} {LM : LockManager R G H} := {
  lm_try_safe g key o : safe (lm_try_lock g key o);
  lm_try_rising g key o : rising (lm_try_lock g key o);
  lm_for_rising fuel g key o t : rising (lm_try_lock_for fuel g key o t);
  lm_try_grants g key o w r w' : lm_try_lock g key o w = (Done r, w') -> grants key w r w';
  lm_for_grants fuel g key o t w r w' : lm_try_lock_for fuel g key o t w = (Done r, w') -> grants key w r w';
  lm_try_errors g key o w e w' : lm_try_lock g key o w = (Done (Err e), w') ->
    refusal (Held key) e;
  lm_for_errors fuel g key o t w e w' : lm_try_lock_for fuel g key o t w = (Done (Err e), w') ->
    refusal (Timeout key) e;
}.

(** ** Settled handles, against the interface *)

Section settled.
Context {U : UuidSource} {R H : Type} {LH : LockHandle R H} {HL : LockHandleLaws R H}.

(** What clones of a handle, in any order, ask of it. *)
Inductive ask := CRelease | CExtend (t : duration) | CIsLost.
Inductive answer := AResult (r : res error unit) | ALost (b : bool).

Definition perform (h : H) (c : ask) : M R answer :=
  match c with
  | CRelease => bind (lh_release h) (fun r => ret (AResult r))
  | CExtend t => bind (lh_extend h t) (fun r => ret (AResult r))
  | CIsLost => bind (lh_is_lost h) (fun b => ret (ALost b))
  end.
Fixpoint perform_all (h : H) (cs : list ask) : M R (list answer) :=
  match cs with
  | [] => ret []
  | c :: cs => bind (perform h c) (fun a => bind (perform_all h cs) (fun l => ret (a :: l)))
  end.

(** The answers of a settled handle. *)
Definition settled_answer (h : H) (lost : bool) (c : ask) (a : answer) : Prop :=
  match c, a with
  | CRelease, AResult r => r = Ok tt
  | CExtend t, AResult r => exists e, r = Err e /\ (MIN_TTL <= t -> e = lh_gone h)
  | CIsLost, ALost b => b = lost
  | _, _ => False
  end.

Lemma perform_settled h c w : released (lh_flags h w) = true ->
  exists a, perform h c w = (Done a, w) /\ settled_answer h (poisoned (lh_flags h w)) c a.
Proof.
  intros Hr. destruct c as [|t|]; cbn [perform].
  - rewrite (bind_done _ _ _ _ _ (lh_release_settled h w Hr)). by eexists.
  - destruct (lh_extend_settled h t w Hr) as (e & E & He). rewrite (bind_done _ _ _ _ _ E).
    eexists. split; [reflexivity|]. by exists e.
  - rewrite (bind_done _ _ _ _ _ (lh_is_lost_flag h w)). by eexists.
Qed.

Lemma perform_all_settled h cs w : released (lh_flags h w) = true ->
  exists l, perform_all h cs w = (Done l, w) /\ Forall2 (settled_answer h (poisoned (lh_flags h w))) cs l.
Proof.
  intros Hr. induction cs as [|c cs IH]; [by exists []|]. cbn [perform_all].
  destruct (perform_settled h c w Hr) as (a & E & Ha). destruct IH as (l & El & Hl).
  exists (a :: l). rewrite (bind_done _ _ _ _ _ E), (bind_done _ _ _ _ _ El). by repeat constructor.
Qed.

Lemma perform_rising h c : rising (perform h c).
Proof.
  destruct c as [|t|]; cbn [perform]; (apply rising_bind; [|intros; apply steady_rising, steady_ret]).
  - apply lh_release_rising. - apply lh_extend_rising. - intros w. by rewrite lh_is_lost_flag.
Qed.
Lemma perform_all_rising h cs : rising (perform_all h cs).
Proof.
  induction cs as [|c cs IH]; cbn [perform_all]; [apply steady_rising, steady_ret|].
  apply rising_bind; [apply perform_rising|]. intros a. apply rising_bind; [done|]. intros. apply steady_rising, steady_ret.
Qed.

Lemma perform_within h c : within (lh_cell h) (perform h c).
Proof.
  destruct c as [|t|]; cbn [perform]; (apply within_bind; [|intros; apply steady_within, steady_ret]).
  - apply lh_release_within. - apply lh_extend_within. - intros w j _. by rewrite lh_is_lost_flag.
Qed.
Lemma perform_all_within h cs : within (lh_cell h) (perform_all h cs).
Proof.
  induction cs as [|c cs IH]; cbn [perform_all]; [apply steady_within, steady_ret|].
  apply within_bind; [apply perform_within|]. intros a. apply within_bind; [done|]. intros. apply steady_within, steady_ret.
Qed.

Lemma flags_rise h w w' : flags_le (w_flags w) (w_flags w') -> flag_le (lh_flags h w) (lh_flags h w').
Proof.
  intros L. unfold lh_flags. destruct (w_flags w !! lh_cell h) as [f|] eqn:E; [|by split].
  destruct (L _ _ E) as (g & -> & Hg). done.
Qed.
End settled.

(** ** The backends *)

Section running.
Context {R : Type}.
Lemma bind_inv {A B} (m : M R A) (f : A -> M R B) w b w' : bind m f w = (Done b, w') ->
  exists a w1, m w = (Done a, w1) /\ f a w1 = (Done b, w').
Proof. unfold bind. destruct (m w) as [[a| | |] w1]; try done. by exists a, w1. Qed.
Lemma try_inv {E A B} (m : M R (res E A)) (f : A -> M R (res E B)) w b w' : try_ m f w = (Done b, w') ->
  (exists a w1, m w = (Done (Ok a), w1) /\ f a w1 = (Done b, w')) \/ (exists e, m w = (Done (Err e), w') /\ b = Err e).
Proof. intros E1. apply bind_inv in E1 as ([a|e] & w1 & E1 & E2); [by eauto|]. injection E2 as <- <-. by eauto. Qed.

Lemma bind_bind {A B C} (m : M R A) (f : A -> M R B) (g : B -> M R C) w :
  bind (bind m f) g w = bind m (fun a => bind (f a) g) w.
Proof. unfold bind. by destruct (m w) as [[a| | |] w1]. Qed.

Lemma alter_fixed {A} (f : A -> A) (l : list A) : forall i : nat, (forall x, l !! i = Some x -> f x = x) -> alter f i l = l.
Proof.
  induction l as [|y l IH]; [done|]. intros [|i] Hf; cbn.
  - by rewrite (Hf y eq_refl).
  - f_equal. by apply (IH i).
Qed.

(** The flag is already set: nothing changes. *)
Lemma mark_released_again i (w : world R) : released (default fresh_flags (w_flags w !! i)) = true ->
  mark_released i w = (Done false, w).
Proof.
  intros Hr. unfold mark_released, bind, cell, gets, update_cell, modify, ret. cbn. rewrite Hr.
  rewrite alter_fixed; [by destruct w|]. intros f E. rewrite E in Hr. destruct f; cbn in *. by subst.
Qed.

(** The first call sets it, whatever follows. *)
Lemma settles_first i {A} (f : bool -> M R A) w : (i < length (w_flags w))%nat -> (forall b, rising (f b)) ->
  released (default fresh_flags (w_flags (bind (mark_released i) f w).2 !! i)) = true.
Proof.
  intros Hi Hf. destruct (lookup_lt_is_Some_2 _ _ Hi) as [g Eg].
  unfold bind at 1. unfold mark_released, bind, cell, gets, update_cell, modify, ret. cbn.
  set (w1 := set_flags _ w). set (b := negb _).
  assert (E1 : w_flags w1 !! i = Some (set_released g)) by (subst w1; cbn; by rewrite list_lookup_alter_eq, Eg).
  destruct (Hf b w1 i _ E1) as (k & -> & [Hk _ _ _]). by apply Hk.
Qed.

Lemma marks_after i (w : world R) o w' : mark_lost i w = (o, w') -> (i < length (w_flags w))%nat ->
  poisoned (default fresh_flags (w_flags w' !! i)) = true.
Proof.
  intros [= _ <-] Hi. destruct (lookup_lt_is_Some_2 _ _ Hi) as [g Eg]. cbn. by rewrite list_lookup_alter_eq, Eg.
Qed.
Lemma steady_run {A} (m : M R A) w o w' : m w = (o, w') -> steady m -> w_flags w' = w_flags w.
Proof. intros E S. specialize (S w). by rewrite E in S. Qed.
Lemma backend_inv {A} msg (m : M R (res rerr A)) w e w' : backend msg m w = (Done (Err e), w') -> e = Backend msg.
Proof. intros E. apply bind_inv in E as ([a|x] & w1 & _ & E); injection E; congruence. Qed.

(** A cell allocated after code that touches no flag, and nothing but such
    code after it. *)
Lemma new_cell_grants (w : world R) i w' : new_cell w = (Done i, w') ->
  w_flags w !! i = None /\ w_flags w' !! i = Some fresh_flags.
Proof. unfold new_cell. intros [= <- <-]. cbn. split; [by apply lookup_ge_None|]. by apply list_lookup_middle. Qed.
End running.

(** Take a finished run apart. *)
Ltac run_inv :=
  repeat match goal with
    | E : Ok _ = Err _ |- _ => discriminate E
    | E : Err _ = Ok _ |- _ => discriminate E
    | E : Err _ = Err _ |- _ => injection E; clear E; intros; subst
    | E : Ok _ = Ok _ |- _ => injection E; clear E; intros; subst
    | E : (Done _, _) = (Done _, _) |- _ => injection E; clear E; intros; subst
    | E : ret _ _ = (Done _, _) |- _ => unfold ret in E
    | E : bind _ _ _ = (Done _, _) |- _ => apply bind_inv in E as (? & ? & ? & E); cbv beta in E
    | E : try_ _ _ _ = (Done _, _) |- _ => apply try_inv in E as [(? & ? & ? & E)|(? & E & ?)]; cbv beta in E; subst
    end.

(** *** Attempts and waits *)

(** Read off which flags a finished run left alone. *)
Ltac flags_back :=
  repeat match goal with
    | E : ?m ?a = (_, ?b) |- _ =>
        let F := fresh "F" in
        assert (F : w_flags b = w_flags a) by (apply (steady_run m _ _ _ E); solve_steady); clear E
    end.

Section waiting.
Context {U : UuidSource} {R H : Type} {LH : LockHandle R H}.
Implicit Types w : world R.

Lemma grants_earlier key w w1 (r : res error H) w' : flags_le (w_flags w) (w_flags w1) ->
  grants key w1 r w' -> grants key w r w'.
Proof.
  intros L. destruct r as [h|e]; [|done]. intros (K & N & S). split; [done|]. split; [|done].
  destruct (w_flags w !! lh_cell h) as [f|] eqn:E; [|done]. destruct (L _ _ E) as (g & Eg & _). congruence.
Qed.

Lemma timeout_inv {A} d (m : M R A) w a w' : timeout d m w = (Done (Some a), w') ->
  exists w0 w1, m w0 = (Done a, w1) /\ w_flags w0 = w_flags w /\ w_flags w' = w_flags w1.
Proof.
  unfold timeout. set (w0 := set_budget _ w). destruct (m w0) as [[b| | |] w1] eqn:E; intros E1;
    repeat case_match; try discriminate E1. injection E1 as <- <-. by exists w0, w1.
Qed.

Section polling.
Context (key : string) (attempt : M R (res error H)).
Hypothesis grows : rising attempt.
Hypothesis gives : forall w r w', attempt w = (Done r, w') -> grants key w r w'.
Hypothesis refuses : forall w e w', attempt w = (Done (Err e), w') -> refusal (Held key) e.

Lemma poll_until_rising fuel d : rising (poll_until fuel key d attempt).
Proof.
  induction fuel as [|fuel IH]; cbn [poll_until]; [apply steady_rising, steady_fuel|].
  apply rising_bind; [done|]. intros [h|[]]; try by apply steady_rising.
  unfold instant_now. apply rising_bind; [by apply steady_rising|]. intros now.
  destruct (d <=? now); [by apply steady_rising|]. apply rising_bind; [apply steady_rising, steady_sleep|]. by intros _.
Qed.
Lemma poll_for_rising fuel t : rising (poll_for fuel key t attempt).
Proof.
  unfold poll_for, instant_now, instant_add. apply rising_bind; [by apply steady_rising|]. intros now.
  apply rising_bind; [destruct (instant_checked_add now t); by apply steady_rising|]. intros d. apply poll_until_rising.
Qed.

Lemma poll_until_answers fuel d : forall w r w', poll_until fuel key d attempt w = (Done r, w') ->
  grants key w r w' /\ (forall e, r = Err e -> refusal (Timeout key) e).
Proof.
  induction fuel as [|fuel IH]; intros w r w' E; cbn [poll_until] in E; [done|].
  apply bind_inv in E as (a & w1 & Ea & E). pose proof (grows w) as L. rewrite Ea in L.
  destruct a as [h|e].
  { run_inv. split; [by apply gives|done]. }
  pose proof (refuses _ _ _ Ea) as [->|[[m ->]|[m ->]]].
  - run_inv. unfold instant_now, gets in *. run_inv. destruct (_ <=? _) in E; run_inv.
    + split; [done|]. intros e [= <-]. by left.
    + flags_back. destruct (IH _ _ _ E) as [Hg He]. split; [|done]. eapply grants_earlier; [|exact Hg].
      etrans; [exact L|]. cbn in *. by rewrite F.
  - run_inv. split; [done|]. intros e [= <-]. right. left. by eexists.
  - run_inv. split; [done|]. intros e [= <-]. right. right. by eexists.
Qed.
Lemma poll_for_answers fuel t w r w' : poll_for fuel key t attempt w = (Done r, w') ->
  grants key w r w' /\ (forall e, r = Err e -> refusal (Timeout key) e).
Proof.
  intros E. unfold poll_for, instant_now, gets, instant_add in E. run_inv.
  destruct (instant_checked_add _ t) in *; [|done]. run_inv. by eapply poll_until_answers.
Qed.
End polling.
End waiting.

(** *** Redis *)

Section redis.
Context {U : UuidSource} {R : Type} `{Redis R}.

#[global] Instance redis_handle : LockHandle R HandleShared := {
  lh_cell := h_cell; lh_key := h_key; lh_owner := h_owner; lh_fence := h_fence;
  lh_is_lost := is_lost; lh_extend := extend; lh_release := release;
}.
#[global] Instance redis_manager : LockManager R RedisLockManager HandleShared := {
  lm_try_lock := try_lock_with; lm_try_lock_for := try_lock_for;
}.

#[global] Instance redis_handle_laws : LockHandleLaws R HandleShared.
Proof.
  split; cbv [lh_is_lost lh_extend lh_release redis_handle].
  - done.
  - intros h t. unfold extend, fire_extend, mark_lost. unfold cell. solve_safe.
  - intros h. unfold release, run_release. solve_safe.
  - intros h t. unfold extend, fire_extend, invoke_int, cell. solve_rising.
  - intros h. unfold release, run_release, invoke_int. solve_rising.
  - intros h t. unfold extend, fire_extend, invoke_int, cell. solve_within.
  - intros h. unfold release, run_release, invoke_int. solve_within.
  - intros h w Hi. refine (settles_first (h_cell h) _ w Hi _). intros b.
    unfold run_release, invoke_int. solve_rising.
  - intros h w Hr. unfold release. by rewrite (bind_done _ _ _ _ _ (mark_released_again _ _ Hr)).
  - intros h t w Hr. unfold extend. destruct (t <? MIN_TTL) eqn:Ht; zbool.
    + eexists. split; [reflexivity|]. lia.
    + unfold bind, cell, gets. unfold lh_flags in Hr; cbn in Hr. rewrite Hr. eexists. by split.
  - intros h t w w' Ha Hr E. unfold extend in E. destruct (t <? MIN_TTL); [done|].
    unfold bind at 1, cell, gets in E. unfold lh_flags in *; cbn in *. rewrite Hr in E.
    assert (Hs : steady (fire_extend h t)) by (unfold fire_extend, invoke_int; solve_steady).
    apply try_inv in E as [(ok & w1 & E1 & E)|(e & E1 & [= <-])].
    + destruct ok; run_inv. eapply marks_after; [eassumption|]. by rewrite (steady_run _ _ _ _ E1 Hs).
    + unfold fire_extend in E1. run_inv.
      match goal with E : backend _ _ _ = _ |- _ => by apply backend_inv in E end.
Qed.
End redis.

Section redis_manager.
Context {U : UuidSource} {R : Type} `{Redis R}.
Implicit Types w : world R.

Lemma rising_try_lock_with g key o : rising (R:=R) (try_lock_with g key o).
Proof. unfold try_lock_with, invoke_pair. solve_rising. Qed.

Lemma try_lock_with_answers g key o w r w' : try_lock_with g key o w = (Done r, w') ->
  grants key w r w' /\ (forall e, r = Err e -> refusal (Held key) e).
Proof.
  intros E. unfold try_lock_with, invoke_pair in E. run_inv.
  - destruct x3 as [st f]. destruct (granted st); run_inv.
    + split; [|done]. apply new_cell_grants in H3 as [N S]. flags_back. cbn. rewrite F, S.
      by rewrite <- F1, <- F0.
    + split; [done|]. intros e [= <-]. by left.
  - split; [done|]. intros e [= <-]. right. left. eexists. by eapply backend_inv.
  - split; [done|]. intros e [= <-]. right. right. unfold validate in *. destruct (_ <? _); run_inv. by eexists.
Qed.

Lemma rising_try_lock_loop fuel g key o d : rising (R:=R) (try_lock_loop fuel g key o d).
Proof.
  induction fuel as [|fuel IH]; cbn [try_lock_loop]; [apply steady_rising, steady_fuel|].
  unfold instant_now. apply rising_bind; [by apply steady_rising|]. intros now.
  apply rising_bind; [apply rising_timeout, rising_try_lock_with|]. intros [[h|[]]|]; try by apply steady_rising.
  destruct d as [d|].
  - apply rising_bind; [by apply steady_rising|]. intros now'. destruct (_ =? 0); [by apply steady_rising|].
    apply rising_bind; [apply steady_rising, steady_sleep|]. by intros _.
  - apply rising_bind; [apply steady_rising, steady_sleep|]. by intros _.
Qed.

Lemma try_lock_loop_answers fuel g key o d : forall w r w', try_lock_loop fuel g key o d w = (Done r, w') ->
  grants key w r w' /\ (forall e, r = Err e -> refusal (Timeout key) e).
Proof.
  induction fuel as [|fuel IH]; intros w r w' E; cbn [try_lock_loop] in E; [done|].
  unfold instant_now, gets in E. apply bind_inv in E as (now & w0 & [= <- <-] & E).
  apply bind_inv in E as (a & w1 & Ea & E).
  pose proof (rising_timeout (Z.min (default (from_secs 5) (d ≫= fun d0 => checked_duration_since d0 (w_clock w))) (from_secs 2))
    _ (rising_try_lock_with g key o) w) as L. rewrite Ea in L.
  destruct a as [a|]; [|run_inv; split; [done|]; intros e [= <-]; by left].
  apply timeout_inv in Ea as (v & v' & Ev & F0 & F1). apply try_lock_with_answers in Ev as [Hg He].
  destruct a as [h|e].
  { run_inv. split; [|done]. cbn in *. by rewrite <- F0, F1. }
  assert (Hsleep : forall t, bind (sleep t) (fun _ => try_lock_loop fuel g key o d) w1 = (Done r, w') ->
    grants key w r w' /\ (forall e, r = Err e -> refusal (Timeout key) e)).
  { intros t Et. run_inv. flags_back. destruct (IH _ _ _ Et) as [Hg' He']. split; [|done].
    eapply grants_earlier; [|exact Hg']. etrans; [exact L|]. cbn in *. by rewrite F. }
  destruct (He e eq_refl) as [->|[[m ->]|[m ->]]].
  - destruct d as [d|]; [|by eapply Hsleep].
    apply bind_inv in E as (now & w2 & [= <- <-] & E). destruct (_ =? 0) in E; [|by eapply Hsleep].
    run_inv. split; [done|]. intros e [= <-]. by left.
  - run_inv. split; [done|]. intros e [= <-]. right. left. by eexists.
  - run_inv. split; [done|]. intros e [= <-]. right. right. by eexists.
Qed.

#[global] Instance redis_manager_laws : LockManagerLaws R RedisLockManager HandleShared.
Proof.
  split; cbv [lm_try_lock lm_try_lock_for redis_manager].
  - apply safe_try_lock_with.
  - apply rising_try_lock_with.
  - intros. apply rising_bind; [by apply steady_rising|]. intros. apply rising_try_lock_loop.
  - intros. by eapply try_lock_with_answers.
  - intros fuel g key o t w r w' E. apply bind_inv in E as (? & ? & [= <- <-] & E).
    by eapply try_lock_loop_answers.
  - intros. by eapply try_lock_with_answers.
  - intros fuel g key o t w e w' E. apply bind_inv in E as (? & ? & [= <- <-] & E).
    by eapply try_lock_loop_answers.
Qed.
End redis_manager.

(** *** Redlock *)

Section redlock.
Context {U : UuidSource} {R : Type} `{Redis R}.
Implicit Types w : world R.

#[global] Instance redlock_handle : LockHandle R RedlockShared := {
  lh_cell := ql_cell; lh_key := ql_key; lh_owner := ql_owner; lh_fence := ql_fence;
  lh_is_lost s := bind (cell (ql_cell s)) (fun f => ret (poisoned f));
  lh_extend := redlock_extend; lh_release := redlock_release;
}.
#[global] Instance redlock_manager : LockManager R RedlockManager RedlockShared := {
  lm_try_lock := redlock_try_lock; lm_try_lock_for := redlock_try_lock_for;
}.

Lemma safe_extend_nodes nodes s ttl : forall ok saw, safe (R:=R) (extend_nodes nodes s ttl ok saw).
Proof. induction nodes as [|n nodes IH]; intros; cbn [extend_nodes]; solve_safe; apply IH. Qed.
Lemma steady_extend_nodes nodes s ttl : forall ok saw, steady (R:=R) (extend_nodes nodes s ttl ok saw).
Proof. induction nodes as [|n nodes IH]; intros; cbn [extend_nodes]; unfold invoke_int; solve_steady; apply IH. Qed.
Lemma steady_release_nodes nodes key token : steady (R:=R) (release_nodes nodes key token).
Proof.
  induction nodes as [|n nodes IH]; cbn [release_nodes]; unfold release_node, invoke_int; [apply steady_ret|].
  apply steady_bind; [solve_steady|]. intros. apply steady_bind; [apply IH|]. intros. apply steady_ret.
Qed.
Lemma steady_redlock_fire_extend s t : steady (R:=R) (redlock_fire_extend s t).
Proof. apply steady_bind; [apply steady_extend_nodes|]. intros [ok saw]. apply steady_ret. Qed.
Lemma steady_redlock_run_release s : steady (R:=R) (redlock_run_release s).
Proof. apply steady_bind; [apply steady_release_nodes|]. intros rs. apply steady_ret. Qed.

#[global] Instance redlock_handle_laws : LockHandleLaws R RedlockShared.
Proof.
  split; cbv [lh_is_lost lh_extend lh_release redlock_handle].
  - done.
  - intros h t. unfold redlock_extend, redlock_fire_extend, mark_lost, cell. solve_safe; apply safe_extend_nodes.
  - intros h. unfold redlock_release, redlock_run_release. solve_safe; apply safe_release_nodes.
  - intros h t. unfold redlock_extend, cell. pose proof (steady_redlock_fire_extend h t) as S. solve_rising.
  - intros h. unfold redlock_release. pose proof (steady_redlock_run_release h) as S. solve_rising.
  - intros h t. unfold redlock_extend, cell. pose proof (steady_redlock_fire_extend h t) as S. solve_within.
  - intros h. unfold redlock_release. pose proof (steady_redlock_run_release h) as S. solve_within.
  - intros h w Hi. refine (settles_first (ql_cell h) _ w Hi _). intros b.
    pose proof (steady_redlock_run_release h) as S. solve_rising.
  - intros h w Hr. unfold redlock_release. by rewrite (bind_done _ _ _ _ _ (mark_released_again _ _ Hr)).
  - intros h t w Hr. unfold redlock_extend. destruct (t <? MIN_TTL) eqn:Ht; zbool.
    + eexists. split; [reflexivity|]. lia.
    + unfold bind, cell, gets. unfold lh_flags in Hr; cbn in Hr. rewrite Hr. eexists. by split.
  - intros h t w w' Ha Hr E. unfold redlock_extend in E. destruct (t <? MIN_TTL); [done|].
    unfold bind at 1, cell, gets in E. unfold lh_flags in *; cbn in *. rewrite Hr in E.
    apply bind_inv in E as (r & w1 & E1 & E). pose proof (steady_run _ _ _ _ E1 (steady_redlock_fire_extend h t)) as F.
    destruct r as [[]|e]; run_inv.
    + eapply marks_after; [eassumption|]. by rewrite F.
    + unfold redlock_fire_extend in E1. apply bind_inv in E1 as ([ok saw] & w2 & _ & E1).
      destruct (_ <=? _)%nat in E1; [done|]. destruct saw; done.
Qed.

Lemma acquire_nodes_refuses nodes key token ttl : forall acq w e w',
  acquire_nodes nodes key token ttl acq w = (Done (Err e), w') -> exists m, e = Backend m.
Proof.
  induction nodes as [|n nodes IH]; intros acq w e w' E; cbn [acquire_nodes] in E; [done|].
  apply bind_inv in E as (r & w1 & _ & E). destruct r as [[[st f]|x]|]; [destruct (_ || _)| |]; [by eapply IH..| |by eapply IH].
  run_inv. by eexists.
Qed.
Lemma steady_acquire_nodes nodes key token ttl : forall acq, steady (R:=R) (acquire_nodes nodes key token ttl acq).
Proof.
  induction nodes as [|n nodes IH]; intros acq; cbn [acquire_nodes]; [apply steady_ret|].
  apply steady_bind; [|intros [[[st f]|x]|]; [destruct (_ || _)| |]; first [apply IH|apply steady_ret]].
  intros w. unfold timeout. match goal with |- w_flags (match ?m ?v with _ => _ end).2 = _ =>
    pose proof (steady_invoke n _ v : w_flags (m v).2 = w_flags v) as F; destruct (m v) as [[a| | |] w1] end;
    cbn in *; by repeat case_match.
Qed.
End redlock.

Section redlock_manager.
Context {U : UuidSource} {R : Type} `{Redis R}.
Implicit Types w : world R.

Lemma rising_redlock_try_lock g key o : rising (R:=R) (redlock_try_lock g key o).
Proof.
  unfold redlock_try_lock, allocate_fence, make_handle, instant_now.
  pose proof (steady_acquire_nodes (R:=R)) as S1. pose proof (steady_release_nodes (R:=R)) as S2.
  solve_rising.
Qed.

Lemma redlock_try_lock_answers g key o w r w' : redlock_try_lock g key o w = (Done r, w') ->
  grants key w r w' /\ (forall e, r = Err e -> refusal (Held key) e).
Proof.
  intros E. unfold redlock_try_lock, instant_now, gets in E.
  apply try_inv in E as [(u & w0 & [= _ <-] & E)|(e & [= E <-] & ->)].
  2:{ split; [done|]. intros x [= <-]. right. right. unfold validate in E. destruct (_ <? _); run_inv. by eexists. }
  apply bind_inv in E as (st & ? & [= <- <-] & E). apply bind_inv in E as (ow & w1 & Eo & E).
  apply try_inv in E as [(acq & w2 & Ea & E)|(e & Ea & ->)].
  2:{ split; [done|]. intros x [= <-]. right. left. by eapply acquire_nodes_refuses. }
  pose proof (steady_run _ _ _ _ Ea (steady_acquire_nodes _ _ _ _ _)) as Fa. clear Ea.
  apply bind_inv in E as (now & ? & [= <- <-] & E). destruct (_ && _) in E.
  - apply try_inv in E as [(fence & w3 & Ef & E)|(e & Ef & ->)].
    + unfold allocate_fence, make_handle in *. run_inv. split; [|done].
      match goal with N : new_cell _ = _ |- _ => apply new_cell_grants in N as [N S] end.
      flags_back. cbn in *. split; [done|]. split; congruence.
    + split; [done|]. intros ? [= <-]. right. left. unfold allocate_fence in Ef. run_inv. eexists. by eapply backend_inv.
  - run_inv. split; [done|]. intros y [= <-]. by left.
Qed.

#[global] Instance redlock_manager_laws : LockManagerLaws R RedlockManager RedlockShared.
Proof.
  split; cbv [lm_try_lock lm_try_lock_for redlock_manager].
  - apply safe_redlock_try_lock.
  - apply rising_redlock_try_lock.
  - intros. apply poll_for_rising, rising_redlock_try_lock.
  - intros. by eapply redlock_try_lock_answers.
  - intros fuel g key o t w r w' E. eapply poll_for_answers; [..|exact E].
    + apply rising_redlock_try_lock. + intros. by eapply redlock_try_lock_answers.
    + intros. by eapply redlock_try_lock_answers.
  - intros. by eapply redlock_try_lock_answers.
  - intros fuel g key o t w e w' E. eapply poll_for_answers; [..|exact E|done].
    + apply rising_redlock_try_lock. + intros. by eapply redlock_try_lock_answers.
    + intros. by eapply redlock_try_lock_answers.
Qed.
End redlock_manager.

(** *** etcd *)

Section etcd.
Context {U : UuidSource} {E : Type} `{Etcd E}.
Implicit Types w : world E.

#[global] Instance etcd_handle : LockHandle E EtcdShared := {
  lh_cell := es_cell; lh_key := es_key; lh_owner := es_owner; lh_fence := es_fence;
  lh_is_lost := etcd_is_lost; lh_extend := etcd_extend; lh_release := etcd_release;
}.
#[global] Instance etcd_manager : LockManager E EtcdLockManager EtcdShared := {
  lm_try_lock := etcd_try_lock_with; lm_try_lock_for := etcd_try_lock_for;
}.

#[global] Instance etcd_handle_laws : LockHandleLaws E EtcdShared.
Proof.
  split; cbv [lh_is_lost lh_extend lh_release etcd_handle].
  - done.
  - intros h t. unfold etcd_extend, keeper_send, stream_message, mark_lost, cell. solve_safe.
  - intros h. unfold etcd_release, release_inner, mark_lost. solve_safe.
  - intros h t. unfold etcd_extend, keeper_send, stream_message, cell. solve_rising.
  - intros h. unfold etcd_release, release_inner. solve_rising.
  - intros h t. unfold etcd_extend, keeper_send, stream_message, cell. solve_within.
  - intros h. unfold etcd_release, release_inner. solve_within.
  - intros h w Hi. refine (settles_first (es_cell h) _ w Hi _). intros b. unfold release_inner. solve_rising.
  - intros h w Hr. unfold etcd_release. by rewrite (bind_done _ _ _ _ _ (mark_released_again _ _ Hr)).
  - intros h t w Hr. unfold etcd_extend, bind, cell, gets. unfold lh_flags in Hr; cbn in Hr. rewrite Hr. cbn.
    eexists. by split.
  - intros h t w w' Ha Hr X. unfold etcd_extend in X.
    unfold bind at 1, cell, gets in X. unfold lh_flags in *; cbn in *. rewrite Hr in X. cbn in X.
    destruct (poisoned (default fresh_flags (w_flags w !! es_cell h))) eqn:P.
    { run_inv. done. }
    unfold keeper_send, stream_message in X. run_inv. destruct x as [[]|]; run_inv; [|done].
    destruct x as [[]|]; cbn in X; run_inv; [|done].
    assert (F : w_flags x2 = w_flags w) by (flags_back; congruence).
    destruct x as [tl|]; [destruct (0 <? tl)|]; run_inv; (eapply marks_after; [eassumption|by rewrite F]).
Qed.
End etcd.

Section etcd_manager.
Context {U : UuidSource} {E : Type} `{Etcd E}.
Implicit Types w : world E.

Lemma rising_etcd_try_lock g key o : rising (R:=E) (etcd_try_lock_with g key o).
Proof. unfold etcd_try_lock_with, etcd_make_handle. solve_rising. Qed.

Lemma etcd_try_lock_answers g key o w r w' : etcd_try_lock_with g key o w = (Done r, w') ->
  grants key w r w' /\ (forall e, r = Err e -> refusal (Held key) e).
Proof.
  intros X. unfold etcd_try_lock_with in X.
  apply try_inv in X as [(u & w0 & [= _ <-] & X)|(e & [= V <-] & ->)].
  2:{ split; [done|]. intros y [= <-]. right. right. unfold validate in V. destruct (_ <? _); run_inv. by eexists. }
  apply try_inv in X as [(lease & w1 & Eg & X)|(e & Eg & ->)].
  2:{ split; [done|]. intros y [= <-]. right. left. eexists. by eapply backend_inv. }
  apply bind_inv in X as (ow & w2 & Eo & X). apply bind_inv in X as (t & w3 & Et & X).
  destruct t as [[[] rev]|]; cbn [negb] in X.
  - unfold etcd_make_handle in X. run_inv. split; [|done].
    match goal with N : new_cell _ = _ |- _ => apply new_cell_grants in N as [N S] end.
    flags_back. cbn in *. split; [done|]. split; congruence.
  - run_inv. split; [done|]. intros y [= <-]. by left.
  - run_inv. split; [done|]. intros y [= <-]. right. left. by eexists.
Qed.

#[global] Instance etcd_manager_laws : LockManagerLaws E EtcdLockManager EtcdShared.
Proof.
  split; cbv [lm_try_lock lm_try_lock_for etcd_manager].
  - apply safe_etcd_try_lock_with.
  - apply rising_etcd_try_lock.
  - intros. apply poll_for_rising, rising_etcd_try_lock.
  - intros. by eapply etcd_try_lock_answers.
  - intros fuel g key o t w r w' X. eapply poll_for_answers; [..|exact X].
    + apply rising_etcd_try_lock. + intros. by eapply etcd_try_lock_answers.
    + intros. by eapply etcd_try_lock_answers.
  - intros. by eapply etcd_try_lock_answers.
  - intros fuel g key o t w e w' X. eapply poll_for_answers; [..|exact X|done].
    + apply rising_etcd_try_lock. + intros. by eapply etcd_try_lock_answers.
    + intros. by eapply etcd_try_lock_answers.
Qed.
End etcd_manager.

(** *** The client SDK

    What a recorder is told is no part of the trait. *)

Section remote.
Context {U : UuidSource} {S : Type} `{LockServer S}.
Implicit Types w : world S.

#[global] Instance remote_lock_handle : LockHandle S RemoteShared := {
  lh_cell := rs_cell; lh_key := rs_key; lh_owner := rs_owner; lh_fence := rs_fence;
  lh_is_lost := remote_is_lost;
  lh_extend s t := bind (remote_extend s t) (fun p => ret p.1);
  lh_release s := bind (remote_release s) (fun p => ret p.1);
}.

Lemma steady_note history key op ok fence started : steady (R:=S) (note history key op ok fence started).
Proof. unfold note, instant_now. solve_steady. Qed.
Lemma safe_note history key op ok fence started : safe (R:=S) (note history key op ok fence started).
Proof. unfold note, instant_now. solve_safe. Qed.
Lemma steady_call c header r : steady (R:=S) (call c header r).
Proof. unfold call. solve_steady. Qed.
Lemma safe_call c header r : safe (R:=S) (call c header r).
Proof. unfold call. solve_safe. Qed.
#[local] Hint Resolve steady_note steady_call : flags.
#[local] Hint Resolve safe_note safe_call : safe.

Lemma steady_remote_fire_extend s t : steady (R:=S) (remote_fire_extend s t).
Proof. unfold remote_fire_extend, instant_now. solve_steady. Qed.
Lemma steady_run_unlock s : steady (R:=S) (run_unlock s).
Proof. unfold run_unlock, instant_now. solve_steady. Qed.
#[local] Hint Resolve steady_remote_fire_extend steady_run_unlock : flags.

#[global] Instance remote_handle_laws : LockHandleLaws S RemoteShared.
Proof.
  split; cbv [lh_is_lost lh_extend lh_release remote_lock_handle].
  - done.
  - intros h t. unfold remote_extend, remote_fire_extend, mark_lost, cell, instant_now. solve_safe.
  - intros h. unfold remote_release, run_unlock, instant_now. solve_safe.
  - intros h t. unfold remote_extend, cell. solve_rising.
  - intros h. unfold remote_release. solve_rising.
  - intros h t. unfold remote_extend, cell. solve_within.
  - intros h. unfold remote_release. solve_within.
  - intros h w Hi. unfold remote_release. rewrite bind_bind.
    refine (settles_first (rs_cell h) _ w Hi _). intros b. solve_rising.
  - intros h w Hr. unfold remote_release, bind at 1. by rewrite (bind_done _ _ _ _ _ (mark_released_again _ _ Hr)).
  - intros h t w Hr. unfold remote_extend. destruct (t <? MIN_TTL) eqn:Ht; zbool.
    + eexists. split; [reflexivity|]. lia.
    + unfold bind, cell, gets. unfold lh_flags in Hr; cbn in Hr. rewrite Hr. eexists. by split.
  - intros h t w w' Ha Hr X. unfold remote_extend in X. apply bind_inv in X as (p & v & X & [= Ep <-]).
    destruct (t <? MIN_TTL); [by injection X as <- <-|].
    unfold bind at 1, cell, gets in X. unfold lh_flags in *; cbn in *. rewrite Hr in X.
    apply bind_inv in X as (q & w1 & E1 & X). pose proof (steady_run _ _ _ _ E1 (steady_remote_fire_extend h t)) as F.
    destruct q as [[[]|e] es]; cbn in X; run_inv; cbn in Ep; try done.
    + eapply (marks_after (rs_cell h) w1); [reflexivity|]. by rewrite F.
    + unfold remote_fire_extend, instant_now, gets in E1. run_inv.
      match goal with A : call _ _ _ _ = _ |- _ => unfold call, status_to_error in A; run_inv end.
      by destruct (transport _); cbn in E1; run_inv.
Qed.
End remote.

(** ** Properties *)

Section properties.
Context {U : UuidSource} {R H : Type} {LH : LockHandle R H} {HL : LockHandleLaws R H}.


(** A lost lease stays lost: when [extend] finds that the lease is gone,
    [is_lost] answers [true] after any further calls on the handle and its
    clones, whatever the network, the servers and other clients do meanwhile. *)
Theorem loss_is_final (h : H) t (w w1 : world R) (cs : list ask) answers w2 :
  lh_alive h w -> released (lh_flags h w) = false ->
  lh_extend h t w = (Done (Err (lh_gone h)), w1) -> perform_all h cs w1 = (Done answers, w2) ->
  lh_is_lost h w2 = (Done true, w2).
Proof.
  intros Ha Hr Ex Ep. rewrite lh_is_lost_flag. do 2 f_equal.
  pose proof (perform_all_rising h cs w1) as L. rewrite Ep in L. cbn in L.
  apply (flags_rise h) in L. eapply fl_poisoned; [exact L|]. by eapply lh_extend_lost.
Qed.
End properties.

(** "Loss is only detected when a release/extend attempt fails" (lock.rs:119):
    not by [release].  On Redis, whatever it answers -- [Lost] too --
    [is_lost] answers what it did before, and a waiter is not woken. *)
Theorem release_hides_loss {U : UuidSource} {R} `{Redis R} (h : HandleShared) (w : world R) : lh_alive h w ->
  poisoned (lh_flags h (release h w).2) = poisoned (lh_flags h w) /\ lost (lh_flags h (release h w).2) = lost (lh_flags h w).
Proof.
  intros Ha. destruct (lookup_lt_is_Some_2 _ _ Ha) as [g Eg]. unfold lh_flags.
  change (lh_cell h) with (h_cell h) in Eg |- *. unfold release, mark_released, bind, cell, gets, update_cell, modify, ret.
  cbn -[run_release].
  assert (S : steady (R:=R) (run_release h)) by (unfold run_release, invoke_int; solve_steady).
  set (w1 := set_flags _ w). assert (E1 : w_flags w1 !! h_cell h = Some (set_released g)).
  { subst w1. cbn. by rewrite list_lookup_alter_eq, Eg. }
  rewrite Eg. match goal with |- context [(?m w1).2] =>
    assert (Sm : w_flags (m w1).2 = w_flags w1) end.
  { destruct (negb _); [done|]. unfold try_, bind. specialize (S w1).
    destruct (run_release h w1) as [[[z|e]| | |] w2]; cbn in S |- *; [destruct (z =? 1)|..]; exact S. }
  by rewrite Sm, E1.
Qed.

Section managers.
Context {U : UuidSource} {R G H : Type} {LH : LockHandle R H} {HL : LockHandleLaws R H}
  {LM : LockManager R G H} {ML : LockManagerLaws R G H}.

(** Grants are independent, for every implementation of the traits: of
    two locks a program obtained, one after the other and on any keys (the
    second by waiting), with any calls on the first before, between and after,
    the second handle is as fresh as when it was granted: its [release] is
    still its first, and it is not lost. *)
Theorem grants_independent g1 g2 k1 k2 o1 o2 fuel t (w : world R) h1 w1 cs answers w2 h2 w3 cs' :
  lm_try_lock g1 k1 o1 w = (Done (Ok h1), w1) -> perform_all h1 cs w1 = (Done answers, w2) ->
  lm_try_lock_for fuel g2 k2 o2 t w2 = (Done (Ok h2), w3) ->
  lh_key h1 = k1 /\ lh_key h2 = k2 /\ lh_flags h2 (perform_all h1 cs' w3).2 = fresh_flags.
Proof.
  intros E1 Ep E2. apply lm_try_grants in E1 as (K1 & N1 & S1). apply lm_for_grants in E2 as (K2 & N2 & S2).
  split; [done|]. split; [done|]. unfold lh_flags. rewrite perform_all_within; [by rewrite S2|]. intros Ec.
  pose proof (perform_all_rising h1 cs w1) as L. rewrite Ep in L. cbn in L.
  destruct (L _ _ S1) as (f & Ef & _). rewrite <- Ec in Ef. congruence.
Qed.
End managers.

(** ** Witnesses *)

Lemma done_run {R A} (m : M R A) w a : (m w).1 = Done a -> m w = (Done a, (m w).2).
Proof. destruct (m w) as [o w']. cbn. by intros ->. Qed.

(** A release whose message is lost on the way. *)
Definition demo_lossy : world db := demo_world demo_granted [mk_step id NotDelivered 0].
Definition demo_asks : list ask := [CRelease; CExtend (from_secs 1); CIsLost; CRelease].


(** The lease of [demo_handle] is gone: the server does not have the key. *)
Definition demo_expired : world db := demo_world demo_db [].
Lemma loss_is_final_witness : let r := lh_extend (R:=db) demo_handle (from_secs 1) demo_expired in
  r.1 = Done (Err (Lost "job" 1)) /\
  lh_is_lost demo_handle (perform_all demo_handle demo_asks r.2).2 =
    (Done true, (perform_all demo_handle demo_asks r.2).2).
Proof.
  split; [vm_compute; reflexivity|].
  eapply (loss_is_final demo_handle (from_secs 1) demo_expired _ demo_asks).
  - apply Nat.lt_0_succ.
  - reflexivity.
  - apply done_run. vm_compute. reflexivity.
  - apply done_run. vm_compute. reflexivity.
Defined.

(** Two locks on one server: [job], and then [other]. *)
Abbreviation demo_grab := (lm_try_lock (R:=db) demo_mgr "job" single_demo_options demo_expired).
Definition demo_on (key : string) (n : N) (i : nat) : HandleShared :=
  mk_handle 0 key (fence_key_for key) (owner_token (owner_generate n)) (owner_generate n) (fence_new 1) i (from_millis 100) Balanced.
Abbreviation demo_between := (perform_all (R:=db) (demo_on "job" 7 1) [CExtend (from_secs 1)] demo_grab.2).
Abbreviation demo_grab_for := (lm_try_lock_for (R:=db) 3 demo_mgr "other" single_demo_options (from_millis 30) demo_between.2).

Lemma grants_independent_witness :
  lh_flags (R:=db) (demo_on "other" 8 2) (perform_all (R:=db) (demo_on "job" 7 1) demo_asks demo_grab_for.2).2 = fresh_flags.
Proof.
  apply (grants_independent (R:=db) demo_mgr demo_mgr "job" "other" single_demo_options single_demo_options 3 (from_millis 30)
    demo_expired (demo_on "job" 7 1) demo_grab.2 [CExtend (from_secs 1)] [AResult (Ok tt)] demo_between.2
    (demo_on "other" 8 2) demo_grab_for.2 demo_asks); apply done_run; vm_compute; reflexivity.
Defined.
