(* ===== verification/WatchStream.v ===== *)
(** * Watching a key from the client SDK

    The whole path of [PalisadeClient::watch] ([crates/client/src/lib.rs]):
    the hub's poller and subscription, the service's forwarder and its
    channel, the gRPC stream, the SDK's task and its channel, the
    application.  The theorem: what the application reads is, in order, a
    part of what the poller published, and the current state once it has
    caught up. *)

From S2P Require Import Prelude Core Redis Scripts World Lease Single Scan Multi Registry Auth Sessions WatchHub Handlers Service ServiceState Checker Client.

(** ** The SDK's task *)

Definition SDK_DEPTH : nat := 16.

Definition watch_event (e : LockEvent) : WatchEvent :=
  match e with Acquired v => WAcquired v | Freed v => WFreed v end.

(** Awaiting the next item, in [tx.send(ev).await], or returned. *)
Inductive reader := Reading | Passing (ev : WatchEvent) | Ended.

(** One watch call: the server's state; the items on the wire, and whether
    more may follow; the task, its channel and the stream the application
    holds; [ws_got] is what the application has read. *)
Record watching := mk_watching {
  ws_server : svc;
  ws_wire : list (res Status (option LockEvent));
  ws_up : bool;
  ws_task : reader;
  ws_queue : list WatchEvent;
  ws_open : bool;
  ws_got : list WatchEvent;
}.

Definition set_task (t : reader) (w : watching) : watching :=
  mk_watching (ws_server w) (ws_wire w) (ws_up w) t (ws_queue w) (ws_open w) (ws_got w).

(** The task: [while let Some(Ok(event)) = stream.next().await], the match on
    the event, and the send; [None] while it is suspended. *)
Definition watch_task (w : watching) : option watching :=
  let next wire t := Some (mk_watching (ws_server w) wire (ws_up w) t (ws_queue w) (ws_open w) (ws_got w)) in
  match ws_task w with
  | Reading =>
      match ws_wire w with
      | Ok (Some e) :: wire => next wire (Passing (watch_event e))
      | Ok None :: wire => next wire Reading
      | Err _ :: wire => next wire Ended
      | [] => if ws_up w then None else Some (set_task Ended w)
      end
  | Passing ev =>
      if ws_open w then
        if (length (ws_queue w) <? SDK_DEPTH)%nat
        then Some (mk_watching (ws_server w) (ws_wire w) (ws_up w) Reading (ws_queue w ++ [ev]) (ws_open w) (ws_got w))
        else None
      else Some (set_task Ended w)
  | Ended => None
  end.

(** ** The rest of the path *)

(** [tonic] takes an event from the forwarder's channel and sends it. *)
Definition transmit (i : nat) (w : watching) : option watching :=
  if ws_up w then
    match sv_streams (ws_server w) !! i with
    | Some (mk_forwarder g sub (e :: q) live) =>
        Some (mk_watching (set_stream i (mk_forwarder g sub q live) (ws_server w)) (ws_wire w ++ [Ok (Some e)]) (ws_up w)
                (ws_task w) (ws_queue w) (ws_open w) (ws_got w))
    | _ => None
    end
  else None.

(** The stream breaks: of the items on their way the first [k] arrive, then a
    status or the end. *)
Definition break_stream (k : nat) (last : option Status) (w : watching) : option watching :=
  if ws_up w then
    Some (mk_watching (ws_server w) (take k (ws_wire w) ++ match last with Some e => [Err e] | None => [] end) false
            (ws_task w) (ws_queue w) (ws_open w) (ws_got w))
  else None.

(** The application reads, or drops the stream. *)
Definition app_next (w : watching) : option watching :=
  match ws_queue w with
  | [] => None
  | ev :: q => Some (mk_watching (ws_server w) (ws_wire w) (ws_up w) (ws_task w) q (ws_open w) (ws_got w ++ [ev]))
  end.
Definition app_drop (w : watching) : watching :=
  mk_watching (ws_server w) (ws_wire w) (ws_up w) (ws_task w) (ws_queue w) false (ws_got w).

Definition set_server (s : svc) (w : watching) : watching :=
  mk_watching s (ws_wire w) (ws_up w) (ws_task w) (ws_queue w) (ws_open w) (ws_got w).

Section stream.
Variable i : nat.                (* the forwarder *)
Variable sub : nat.              (* its subscription *)

(** The rest of the server, as this stream sees it: the hub and its pollers
    go on, other handlers run; the forwarder is not touched and nobody else
    reads from its subscription. *)
Definition server_step (s s' : svc) : Prop :=
  (sv_hub s' = sv_hub s \/ hub_step (sv_hub s) (sv_hub s')) /\ sv_streams s' !! i = sv_streams s !! i /\
  forall hs, hub_subs (sv_hub s) !! sub = Some hs -> exists hs' l, hub_subs (sv_hub s') !! sub = Some hs' /\
    su_sent hs' = su_sent hs ++ l /\ su_queue hs' = su_queue hs ++ l.

Inductive watch_step (w : watching) : watching -> Prop :=
| wss_server s' : server_step (ws_server w) s' -> watch_step w (set_server s' w)
| wss_forward s' : forward i (ws_server w) = Some s' -> watch_step w (set_server s' w)
| wss_transmit w' : transmit i w = Some w' -> watch_step w w'
| wss_break k last w' : break_stream k last w = Some w' -> watch_step w w'
| wss_disconnect : ws_up w = false -> watch_step w (set_server (disconnect i (ws_server w)) w)
| wss_task w' : watch_task w = Some w' -> watch_step w w'
| wss_next w' : app_next w = Some w' -> watch_step w w'
| wss_drop : watch_step w (app_drop w).

(** A stream just opened. *)
Definition opened (w : watching) : Prop :=
  (exists g, sv_streams (ws_server w) !! i = Some (mk_forwarder g sub [] true)) /\
  (exists c seen, hub_subs (sv_hub (ws_server w)) !! sub = Some (new_sub c seen)) /\
  hub_ok (sv_hub (ws_server w)) /\
  ws_wire w = [] /\ ws_up w = true /\ ws_task w = Reading /\ ws_queue w = [] /\ ws_open w = true /\ ws_got w = [].

(** ** Invariant *)

Definition in_task (t : reader) : list WatchEvent := match t with Passing ev => [ev] | _ => [] end.
(** What has left the wire. *)
Definition taken (w : watching) : list WatchEvent := ws_got w ++ ws_queue w ++ in_task (ws_task w).

(** The events given to the subscription are those that have left the wire
    in order (all but one it may have lost, once it ended), those on the wire,
    and the rest; which is in the two channels of the server while the stream is up. *)
Record watch_ok (w : watching) : Prop := mk_watch_ok {
  wo_hub : hub_ok (sv_hub (ws_server w));
  wo_depth : (length (ws_queue w) <= SDK_DEPTH)%nat;
  wo_wire : ws_up w = true -> Forall (fun x => is_ok x = true) (ws_wire w);
  wo_events : exists hs, hub_subs (sv_hub (ws_server w)) !! sub = Some hs /\
    match ws_task w with
    | Ended => exists rest, map watch_event (su_sent hs) = taken w ++ rest
    | _ => exists rest, map watch_event (su_sent hs) = taken w ++ watch_events (ws_wire w) ++ rest /\
        (ws_up w = true -> exists g q, sv_streams (ws_server w) !! i = Some (mk_forwarder g sub q true) /\
           rest = map watch_event (q ++ su_queue hs))
    end;
}.

Lemma watch_events_app l l' : Forall (fun x => is_ok x = true) l -> watch_events (l ++ l') = watch_events l ++ watch_events l'.
Proof.
  induction l as [|[[[v|v]|]|e] l IH]; intros Hl; [done|..]; apply Forall_cons in Hl as [H1 H2]; cbn; by rewrite ?IH.
Qed.
Lemma watch_events_break l k last : Forall (fun x => is_ok x = true) l -> exists rest,
  watch_events l = watch_events (take k l ++ match last with Some e => [Err e] | None => [] end) ++ rest.
Proof.
  intros Hl. pose proof (Forall_take _ k l Hl) as Ht.
  replace (watch_events l) with (watch_events (take k l ++ skipn k l)) by by rewrite take_drop.
  rewrite !watch_events_app by done. exists (watch_events (skipn k l)). f_equal. destruct last; cbn; by rewrite app_nil_r.
Qed.

Lemma opened_ok w : opened w -> watch_ok w.
Proof.
  intros ((g & Ef) & (c & seen & Es) & Ok & Ew & Eu & Et & Eq & Eo & Eg). split; [done|..].
  - rewrite Eq. cbn. lia.
  - by rewrite Ew.
  - exists (new_sub c seen). split; [done|]. rewrite Et, Ew. exists []. unfold taken. rewrite Eg, Eq, Et. split; [done|].
    intros _. by exists g, [].
Qed.

(** The subscription is given more, or one of its events is read. *)
Lemma server_more w s' : watch_ok w -> server_step (ws_server w) s' -> watch_ok (set_server s' w).
Proof.
  intros [Hh Hd Hw (hs & Es & He)] (Hst & Hf & Hsub). destruct (Hsub hs Es) as (hs' & l & Es' & E1 & E2).
  split; cbn [set_server ws_server ws_queue ws_up ws_wire ws_task]; [|done|done|].
  - destruct Hst as [->|Hst]; [done|]. by eapply hub_ok_step.
  - exists hs'. split; [done|]. rewrite E1, map_app. unfold taken in *. cbn [set_server ws_got ws_queue ws_task].
    destruct (ws_task w); [destruct He as (rest & -> & Hr)|destruct He as (rest & -> & Hr)|destruct He as (rest & ->)];
      exists (rest ++ map watch_event l); rewrite <- !app_assoc; first [split; [done|]|done];
      intros Hu; destruct (Hr Hu) as (g & q & Eq & ->); exists g, q; rewrite Hf; (split; [done|]);
      rewrite E2, app_assoc; by rewrite !map_app.
Qed.

Lemma forward_more w s' : watch_ok w -> forward i (ws_server w) = Some s' -> watch_ok (set_server s' w).
Proof.
  intros [Hh Hd Hw (hs & Es & He)] E. unfold forward in E.
  destruct (sv_streams (ws_server w) !! i) as [[g sub' q []]|] eqn:Ef; [|done..].
  destruct (hub_subs (sv_hub (ws_server w)) !! sub') as [hs'|] eqn:Es'; [|done].
  destruct (su_queue hs') as [|e qs] eqn:Eq; [done|]. destruct (_ <? _)%nat; [|done]. injection E as <-.
  split; cbn [set_server ws_server ws_queue ws_up ws_wire ws_task]; [|done|done|].
  - eapply hub_ok_step; [exact Hh|]. by apply (hs_recv _ sub' hs').
  - pose proof (lookup_lt_Some _ _ _ Es') as Hlt. pose proof (lookup_lt_Some _ _ _ Ef) as Hlf.
    cbn [sv_hub set_stream set_streams set_hub sv_streams set_sub hub_subs].
    assert (exists hs2, <[sub':=recv hs']> (hub_subs (sv_hub (ws_server w))) !! sub = Some hs2 /\ su_sent hs2 = su_sent hs /\
      (sub' = sub -> hs = hs' /\ su_queue hs2 = qs)) as (hs2 & E2 & Esent & Hsame).
    { destruct (decide (sub' = sub)) as [->|Hne].
      - rewrite list_lookup_insert_eq by done. eexists. split; [reflexivity|]. assert (hs' = hs) as -> by congruence. cbn. by rewrite Eq.
      - rewrite list_lookup_insert_ne by done. by exists hs. }
    exists hs2. split; [done|]. rewrite Esent. unfold taken in *. cbn [set_server ws_got ws_queue ws_task].
    destruct (ws_task w); [destruct He as (rest & -> & Hr)|destruct He as (rest & -> & Hr)|done];
      exists rest; (split; [done|]); intros Hu; destruct (Hr Hu) as (g' & q' & Eq' & ->);
      (assert (sub' = sub /\ q' = q /\ g' = g) as (-> & -> & ->) by (by simplify_eq)); destruct (Hsame eq_refl) as [-> E3];
      exists g, (q ++ [e]); rewrite list_lookup_insert_eq by done; (split; [done|]); by rewrite E3, Eq, <- app_assoc.
Qed.

Lemma transmit_more w w' : watch_ok w -> transmit i w = Some w' -> watch_ok w'.
Proof.
  intros [Hh Hd Hw (hs & Es & He)] E. unfold transmit in E. destruct (ws_up w) eqn:Eu; [|done].
  destruct (sv_streams (ws_server w) !! i) as [[g sub' [|e q] live]|] eqn:Ef; [done| |done]. injection E as <-.
  specialize (Hw eq_refl). pose proof (lookup_lt_Some _ _ _ Ef) as Hlf.
  split; cbn [ws_server ws_queue ws_up ws_wire ws_task]; [done|done| |].
  - intros _. apply Forall_app. by split; [|repeat constructor].
  - exists hs. split; [done|]. unfold taken in *. cbn [ws_got ws_queue ws_task].
    destruct (ws_task w); [destruct He as (rest & -> & Hr)|destruct He as (rest & -> & Hr)|done];
      destruct (Hr eq_refl) as (g' & q' & Eq' & ->); injection Eq' as -> -> <- ->;
      exists (map watch_event (q ++ su_queue hs)); (split; [rewrite watch_events_app by done; by destruct e; rewrite <- !app_assoc|]);
      intros _; exists g', q; cbn [sv_streams set_stream set_streams]; by rewrite list_lookup_insert_eq.
Qed.

Lemma break_more w k last w' : watch_ok w -> break_stream k last w = Some w' -> watch_ok w'.
Proof.
  intros [Hh Hd Hw (hs & Es & He)] E. unfold break_stream in E. destruct (ws_up w) eqn:Eu; [|done]. injection E as <-.
  destruct (watch_events_break _ k last (Hw eq_refl)) as [lost Elost].
  split; cbn [ws_server ws_queue ws_up ws_wire ws_task]; [done..|].
  exists hs. split; [done|]. unfold taken in *. cbn [ws_got ws_queue ws_task].
  destruct (ws_task w); [destruct He as (rest & -> & _)|destruct He as (rest & -> & _)|done];
    exists (lost ++ rest); (split; [|done]); rewrite Elost; by rewrite <- !app_assoc.
Qed.

Lemma disconnect_more w : watch_ok w -> ws_up w = false -> watch_ok (set_server (disconnect i (ws_server w)) w).
Proof.
  intros [Hh Hd Hw (hs & Es & He)] Eu.
  assert (Hx : hub_ok (sv_hub (disconnect i (ws_server w))) /\
    exists hs', hub_subs (sv_hub (disconnect i (ws_server w))) !! sub = Some hs' /\ su_sent hs' = su_sent hs).
  { unfold disconnect. destruct (sv_streams (ws_server w) !! i) as [[g sub' q []]|]; [|by split; [|exists hs]..].
    cbn [sv_hub set_counters set_stream set_streams]. destruct (hub_subs (sv_hub (ws_server w)) !! sub') as [hs'|] eqn:E';
      [|by split; [|exists hs]]. cbn [sv_hub set_hub]. split; [eapply hub_ok_step; [done|by apply hs_leave]|].
    cbn [set_sub hub_subs]. pose proof (lookup_lt_Some _ _ _ E') as Hlt. destruct (decide (sub' = sub)) as [->|Hne].
    - rewrite list_lookup_insert_eq by done. eexists. split; [reflexivity|]. assert (hs' = hs) as -> by congruence. done.
    - rewrite list_lookup_insert_ne by done. by exists hs. }
  destruct Hx as (Hh' & hs' & Es' & Esent).
  split; cbn [set_server ws_server ws_queue ws_up ws_wire ws_task]; [done..|].
  exists hs'. split; [done|]. rewrite Esent. unfold taken in *. cbn [set_server ws_got ws_queue ws_task].
  destruct (ws_task w); [destruct He as (rest & -> & _)|destruct He as (rest & -> & _)|done]; exists rest; split; try done; congruence.
Qed.

Lemma task_more w w' : watch_ok w -> watch_task w = Some w' -> watch_ok w'.
Proof.
  intros [Hh Hd Hw (hs & Es & He)] E. unfold watch_task, set_task in E. unfold taken in He.
  destruct (ws_task w) as [|ev|] eqn:Et; [| |done].
  - destruct He as (rest & Esent & Hr). cbn [in_task] in Esent. rewrite app_nil_r in Esent.
    destruct (ws_wire w) as [|[[e|]|st] wire] eqn:Ew.
    + destruct (ws_up w) eqn:Eu; [done|]. injection E as <-. split; cbn; rewrite ?Ew, ?Eu; [done..|].
      exists hs. split; [done|]. exists rest. unfold taken. cbn. rewrite app_nil_r. by rewrite Esent.
    + injection E as <-. split; cbn; [done|done| |].
      { intros Hu. specialize (Hw Hu). by apply Forall_cons in Hw as [_ Hw]. }
      exists hs. split; [done|]. exists rest. split; [|done]. unfold taken. cbn. rewrite Esent.
      destruct e; cbn; by rewrite <- !app_assoc.
    + injection E as <-. split; cbn; [done|done| |].
      { intros Hu. specialize (Hw Hu). by apply Forall_cons in Hw as [_ Hw]. }
      exists hs. split; [done|]. exists rest. split; [|done]. unfold taken. cbn. by rewrite app_nil_r, Esent.
    + injection E as <-. split; cbn; [done|done| |].
      { intros Hu. specialize (Hw Hu). by apply Forall_cons in Hw as [? _]. }
      exists hs. split; [done|]. exists rest. unfold taken. cbn. by rewrite app_nil_r, Esent.
  - destruct He as (rest & Esent & Hr). cbn [in_task] in Esent. destruct (ws_open w) eqn:Eo.
    + destruct (_ <? _)%nat eqn:El; [|done]. apply Nat.ltb_lt in El. injection E as <-. split; cbn; [done| |done|].
      { rewrite length_app. cbn. lia. }
      exists hs. split; [done|]. exists rest. split; [|done]. unfold taken. cbn. rewrite Esent. by rewrite <- !app_assoc.
    + injection E as <-. split; cbn; [done|done|done|]. exists hs. split; [done|].
      exists (ev :: watch_events (ws_wire w) ++ rest). unfold taken. cbn. rewrite Esent, app_nil_r. by rewrite <- !app_assoc.
Qed.

Lemma app_more w w' : watch_ok w -> app_next w = Some w' -> watch_ok w'.
Proof.
  intros [Hh Hd Hw (hs & Es & He)] E. unfold app_next in E. destruct (ws_queue w) as [|ev q] eqn:Eq; [done|]. injection E as <-.
  split; cbn; [done|cbn in Hd; lia|done|]. exists hs. split; [done|]. unfold taken in *. rewrite Eq in He. cbn in *.
  destruct (ws_task w); [destruct He as (rest & -> & Hr)|destruct He as (rest & -> & Hr)|destruct He as (rest & ->)];
    exists rest; cbn [app]; rewrite <- ?app_assoc; cbn [app]; rewrite <- ?app_assoc; first [by split|done].
Qed.

Lemma watch_ok_step w w' : watch_ok w -> watch_step w w' -> watch_ok w'.
Proof.
  intros Ok [s' Hs|s' E|w1 E|k last w1 E|Eu|w1 E|w1 E|].
  - by apply server_more. - by apply forward_more. - by eapply transmit_more. - by eapply break_more.
  - by apply disconnect_more. - by eapply task_more. - by eapply app_more.
  - by destruct Ok.
Qed.
Lemma watch_ok_steps w w' : rtc watch_step w w' -> watch_ok w -> watch_ok w'.
Proof. induction 1; eauto using watch_ok_step. Qed.
End stream.

(** ** From the call *)

(** [PalisadeClient::watch] up to its [spawn]: the number of the server's
    forwarder stands for the stream. *)
Definition client_watch {U : UuidSource} {S : Type} `{LockServer S} (ascii_metadata : string -> bool) (cl : ClientInner)
    (key : string) : M S (res error nat) :=
  try_ (call (ci_grpc cl) (auth_header ascii_metadata (ci_bearer cl)) (Watch key))
    (fun a => ret (match a with RStream i => Ok i | _ => Err malformed end)).
(** What the spawned task and the stream returned start as. *)
Definition watching_new (s : svc) : watching := mk_watching s [] true Reading [] true [].

Lemma watch_opens {R} `{RedisScan R} values ps bearer key v (w : world R) n s' w' : hub_ok (sv_hub v) ->
  service_watch values ps bearer key (alone v) w = (Done (Ok n, s'), w') ->
  opened n (length (hub_subs (sv_hub v))) (watching_new (sh_state s')).
Proof.
  intros Hh E.
  unfold service_watch, principal, watch_slot, on_counters, hstate, haccess, htry, hbind, hret, bind, ret, interfere, alone in E.
  cbn in E. destruct (resolve values (ps_acl ps) bearer (sv_counters v)) as [[p|] c] eqn:Er; cbn in E; [|done].
  destruct (may p key _); cbn in E; [|done]. destruct (over _ _); cbn in E; [done|]. injection E as <- <- _.
  unfold opened, watching_new. cbn.
  assert (exists c0 seen, hub_subs (subscribe key (sv_hub v)) !! length (hub_subs (sv_hub v)) = Some (new_sub c0 seen)) as (c0 & seen & Es).
  { unfold subscribe. destruct (hub_keys (sv_hub v) !! key); cbn; do 2 eexists; by apply list_lookup_middle. }
  split; [|split; [|split; [by apply hub_ok_subscribe|done]]].
  - eexists. by apply list_lookup_middle.
  - by exists c0, seen.
Qed.

(** With nothing on its way, the last event read is the current state. *)
Lemma latest_got i sub w hs ch : watch_ok i sub w -> hub_subs (sv_hub (ws_server w)) !! sub = Some hs ->
  hub_channels (sv_hub (ws_server w)) !! su_chan hs = Some ch ->
  ws_up w = true -> ws_wire w = [] -> ws_task w = Reading -> ws_queue w = [] ->
  (fw_queue <$> sv_streams (ws_server w) !! i) = Some [] -> su_queue hs = [] ->
  su_phase hs = Waiting -> su_seen hs = ch_version ch ->
  last (ws_got w) = (fun st => watch_event (event_of st)) <$> ch_value ch.
Proof.
  intros [Hh Hd _ (hs' & Es' & He)] Es Ec Eu Ew Et Eq Ef Esq Ep Ev. rewrite Es in Es'. injection Es' as <-.
  destruct (ho_subs _ Hh _ _ Es) as (ch' & Ec' & _ & So). rewrite Ec in Ec'. injection Ec' as <-.
  rewrite Et in He. destruct He as (rest & E & Hrest).
  destruct (Hrest Eu) as (g & q & Efw & ->). rewrite Efw in Ef. injection Ef as ->.
  unfold taken in E. rewrite Et, Eq, Ew, Esq in E. cbn in E. rewrite !app_nil_r in E. rewrite <- E.
  pose proof (so_latest _ _ So (or_introl Ep)) as Hl. unfold seen_events in Hl. rewrite Ep, app_nil_r in Hl.
  rewrite fmap_last, Hl, Ev. unfold ch_version, ch_value. rewrite take_ge by done. by destruct (last (ch_log ch)).
Qed.

(** C26: An application that watches a key sees its history.  From the moment
    the server has answered [Watch], whatever the pollers, the other handlers
    and subscribers, the network (which may break at any item) and the
    application do, what the application has read is, in order, a part of the
    sequence of states the key's poller published -- nothing invented, nothing
    reordered -- with never more than the channel's depth waiting for it; and
    if the stream is up and has been drained while the hub has nothing new,
    the last event it read is the key's current state. *)
Theorem watch_stream_faithful {R} `{RedisScan R} values ps bearer key v (wr : world R) n s' wr' w :
  hub_reachable (sv_hub v) -> service_watch values ps bearer key (alone v) wr = (Done (Ok n, s'), wr') ->
  rtc (watch_step n (length (hub_subs (sv_hub v)))) (watching_new (sh_state s')) w ->
  exists hs ch, hub_subs (sv_hub (ws_server w)) !! length (hub_subs (sv_hub v)) = Some hs /\
    hub_channels (sv_hub (ws_server w)) !! su_chan hs = Some ch /\ (length (ws_queue w) <= SDK_DEPTH)%nat /\
    sublist (ws_got w) (map (fun st => watch_event (event_of st)) (ch_log ch)) /\
    (ws_up w = true -> ws_wire w = [] -> ws_task w = Reading -> ws_queue w = [] ->
     (fw_queue <$> sv_streams (ws_server w) !! n) = Some [] -> su_queue hs = [] ->
     su_phase hs = Waiting -> su_seen hs = ch_version ch ->
     last (ws_got w) = (fun st => watch_event (event_of st)) <$> ch_value ch).
Proof.
  intros Hr Hw Hrun. pose proof (watch_opens _ _ _ _ _ _ _ _ _ (hub_ok_reachable _ Hr) Hw) as Ho.
  destruct (watch_ok_steps _ _ _ _ Hrun (opened_ok _ _ _ Ho)) as [Hh Hd _ (hs & Es & He)].
  destruct (ho_subs _ Hh _ _ Es) as (ch & Ec & _ & So). exists hs, ch. split_and!; try done.
  - assert (exists rest, map watch_event (su_sent hs) = ws_got w ++ rest) as [rest E].
    { unfold taken in He. destruct (ws_task w); [destruct He as (rest & -> & _)|destruct He as (rest & -> & _)|destruct He as (rest & ->)];
        rewrite <- !app_assoc; by eexists. }
    transitivity (map watch_event (map event_of (ch_log ch))); [|by rewrite map_map].
    transitivity (map watch_event (su_sent hs)); [rewrite E; by apply sublist_inserts_r|]. apply fmap_sublist.
    transitivity (seen_events hs); [by apply sublist_inserts_r|]. etrans; [exact (so_order _ _ So)|].
    apply fmap_sublist, sublist_take.
  - intros. eapply latest_got; [by exact (watch_ok_steps _ _ _ _ Hrun (opened_ok _ _ _ Ho))|..]; done.
Qed.

(** ** Witnesses *)

(** The key is taken: the poller publishes it and the event goes all the way. *)
Definition demo_watched : svc :=
  match service_watch demo_values demo_service demo_bearer "job" (alone demo_svc) (demo_world demo_granted []) with
  | (Done (_, s), _) => sh_state s
  | _ => demo_svc
  end.
Definition demo_w0 : watching := watching_new demo_watched.
Definition demo_then (h : hub) (w : watching) : watching := set_server (set_hub h (ws_server w)) w.
Definition demo_hub (w : watching) : hub := sv_hub (ws_server w).
Definition demo_move (f : watching -> option watching) (w : watching) : watching := default w (f w).
Definition demo_w1 : watching := demo_then (set_channel 0 demo_ch1 (demo_hub demo_w0)) demo_w0.
Definition demo_w2 : watching := demo_then (set_sub 0 demo_sub2 (demo_hub demo_w1)) demo_w1.
Definition demo_w3 : watching := demo_then (set_sub 0 demo_sub3 (demo_hub demo_w2)) demo_w2.
Definition demo_w4 : watching := set_server (default demo_svc (forward 0 (ws_server demo_w3))) demo_w3.
Definition demo_w5 : watching := demo_move (transmit 0) demo_w4.
Definition demo_w6 : watching := demo_move watch_task demo_w5.
Definition demo_w7 : watching := demo_move watch_task demo_w6.
Definition demo_w8 : watching := demo_move app_next demo_w7.

Lemma demo_watch_rest : rtc (watch_step 0 0) demo_w1 demo_w8.
Proof.
  eapply rtc_l; [apply (wss_server 0 0 demo_w1 (ws_server demo_w2))|].
  { split; [right; exact (hs_look (demo_hub demo_w1) 0 demo_sub demo_ch1 eq_refl eq_refl eq_refl)|]. split; [done|].
    intros hs [= <-]. by exists demo_sub2, []. }
  eapply rtc_l; [apply (wss_server 0 0 demo_w2 (ws_server demo_w3))|].
  { split; [right; exact (hs_send (demo_hub demo_w2) 0 demo_sub2 (Acquired 1) demo_sub3 eq_refl eq_refl eq_refl)|]. split; [done|].
    intros hs [= <-]. by exists demo_sub3, [Acquired 1]. }
  eapply rtc_l; [by apply (wss_forward 0 0 demo_w3 (ws_server demo_w4))|].
  eapply rtc_l; [by apply (wss_transmit 0 0 demo_w4 demo_w5)|].
  eapply rtc_l; [by apply (wss_task 0 0 demo_w5 demo_w6)|].
  eapply rtc_l; [by apply (wss_task 0 0 demo_w6 demo_w7)|].
  eapply rtc_l; [by apply (wss_next 0 0 demo_w7 demo_w8)|]. apply rtc_refl.
Qed.

Lemma demo_watch_run : rtc (watch_step 0 0) demo_w0 demo_w8.
Proof.
  eapply rtc_l; [apply (wss_server 0 0 demo_w0 (ws_server demo_w1))|].
  { split; [right; exact (hs_publish (demo_hub demo_w0) 0 demo_ch (true, 1) eq_refl eq_refl)|]. split; [done|].
    intros hs [= <-]. by exists (new_sub 0 0), []. }
  exact demo_watch_rest.
Qed.

Lemma watch_stream_faithful_witness : ws_got demo_w8 = [WAcquired 1] /\ exists ch,
  sublist (ws_got demo_w8) (map (fun st => watch_event (event_of st)) (ch_log ch)).
Proof.
  split; [vm_compute; reflexivity|].
  destruct (watch_stream_faithful demo_values demo_service demo_bearer "job" demo_svc (demo_world demo_granted []) 0
    (alone demo_watched) (demo_world demo_granted []) demo_w8 (rtc_refl _ _)) as (hs & ch & _ & _ & _ & S & _).
  - vm_compute. reflexivity.
  - exact demo_watch_run.
  - exists ch. exact S.
Defined.
