(* ===== verification/Poller.v ===== *)
(** * The poller of a watched key ([spawn_poller] of [crates/server/src/watch_hub.rs])

    The task behind a channel of [WatchHub], against the store: each of its
    turns is a run of the hub's steps, what it publishes is the state of the
    key, and neither that nor [describe_key] depends on the tokens of the
    holders. *)

From S2P Require Import Prelude Core Redis Scripts World Lease Single Scan Registry Auth Sessions WatchHub Handlers Service ServiceSafety ServiceState Client WatchStream.

(** [POLL_INTERVAL] of the hub. *)
Definition hub_POLL_INTERVAL : duration := from_millis 100.

Section poller.
Context {R : Type} `{Redis R}.
Variable mgr : RedisLockManager.
Open Scope handler_scope.

(** The state of the hub, and its other users. *)
Abbreviation HubM A := (SM hub R A).

(** The check at the top of the loop, under the lock of the map. *)
Definition poller_check (c : nat) : HubM bool :=
  hstate (fun h =>
    match hub_channels h !! c with
    | Some ch => if may_retire h c ch then (true, retire c ch h) else (false, h)
    | None => (false, h)
    end).

(** [tx.send_if_modified]. *)
Definition poller_publish (c : nat) (state : bool * Z) : HubM unit :=
  hstate (fun h =>
    (tt, match hub_channels h !! c with Some ch => set_channel c (publish state ch) h | None => h end)).

(** One turn of the loop; whether the task goes on. *)
Definition poller_round (c : nat) (key : string) : HubM bool :=
  let^ retired := poller_check c in
  if retired : bool then hret false else
  let^ r := hrun (probe_state mgr key) in
  do^ (match r with Ok state => poller_publish c state | Err _ => hret tt end) in
  do^ hrun (sleep hub_POLL_INTERVAL) in
  hret true.

(** [n] turns at most; the number that were not taken. *)
Fixpoint poller_rounds (n : nat) (c : nat) (key : string) {struct n} : HubM nat :=
  match n with
  | O => hret O
  | S n =>
      let^ goes_on := poller_round c key in
      if goes_on : bool then poller_rounds n c key else hret (S n)
  end.

(** ** The task takes the hub's steps *)

(** What the others do: steps of the hub that leave the channel [c] to its
    poller. *)
Definition bystander (c : nat) (f : hub -> hub) : Prop :=
  forall h, rtc hub_step h (f h) /\ forall ch, hub_channels h !! c = Some ch -> hub_channels (f h) !! c = Some ch.

(** The poller of [key] is at work on [c]. *)
Definition polls (c : nat) (key : string) (h : hub) : Prop :=
  exists ch, hub_channels h !! c = Some ch /\ ch_key ch = key /\ ch_poller ch = true.

(** The code [m] takes the hub from one state to another by its steps. *)
Definition steps {A} (c : nat) (P : hub -> Prop) (m : HubM A) (Q : A -> hub -> Prop) : Prop :=
  forall s w a s' w', P (sh_state s) -> Forall (bystander c) (sh_others s) -> m s w = (Done (a, s'), w') ->
    rtc hub_step (sh_state s) (sh_state s') /\ Forall (bystander c) (sh_others s') /\ Q a (sh_state s').

Lemma steps_bind {A B} c P (m : HubM A) (f : A -> HubM B) Q T :
  steps c P m Q -> (forall a, steps c (Q a) (f a) T) -> steps c P (hbind m f) T.
Proof.
  intros Hm Hf s w b s' w' HP Ho E. unfold hbind, bind in E. destruct (m s w) as [[[a s1]| | |] w1] eqn:Em; try done.
  destruct (Hm _ _ _ _ _ HP Ho Em) as (R1 & O1 & Q1). destruct (Hf a _ _ _ _ _ Q1 O1 E) as (R2 & O2 & T2).
  split; [by etrans|done].
Qed.
Lemma steps_ret {A} c (P : hub -> Prop) (a : A) (Q : A -> hub -> Prop) : (forall h, P h -> Q a h) -> steps c P (hret a) Q.
Proof. intros HQ s w b s' w' HP Ho E. injection E as <- <- _. split; [done|]. split; [done|by apply HQ]. Qed.
Lemma steps_run {A} c P (m : M R A) : steps c P (hrun m) (fun _ => P).
Proof.
  intros s w a s' w' HP Ho E. unfold hrun, bind in E. destruct (m w) as [[b| | |] w1]; try done.
  by injection E as _ <- _.
Qed.

Lemma polls_others c key f h : bystander c f -> polls c key h -> polls c key (f h).
Proof. intros Hf (ch & E & Hc). exists ch. split; [by apply Hf|done]. Qed.

Lemma steps_state {A} c key (f : hub -> A * hub) (Q : A -> hub -> Prop) :
  (forall h, polls c key h -> rtc hub_step h (f h).2 /\ Q (f h).1 (f h).2) -> steps c (polls c key) (hstate f) Q.
Proof.
  intros Hf s w a s' w' HP Ho E. unfold hstate, haccess, bind, ret in E. injection E as <- <- _. cbn.
  assert (rtc hub_step (sh_state s) (sh_state (interfere s)) /\ polls c key (sh_state (interfere s)) /\
    Forall (bystander c) (sh_others (interfere s))) as (Hi & Pi & Oi).
  { unfold interfere. destruct (sh_others s) as [|g gs] eqn:Eo; cbn; [by rewrite Eo|].
    apply Forall_cons in Ho as [Hg Hgs]. split; [apply Hg|]. split; [by apply polls_others|done]. }
  destruct (Hf _ Pi) as [Hr HQ]. split; [by etrans|done].
Qed.

(** After a turn: still polling, or retired with nobody listening. *)
Definition after_round (c : nat) (key : string) (goes_on : bool) (h : hub) : Prop :=
  if goes_on then polls c key h else hub_keys h !! key = None /\ receiver_count h c = 0%nat.

Lemma steps_round c key : steps c (polls c key) (poller_round c key) (after_round c key).
Proof.
  apply (steps_bind _ _ _ _ (fun retired h => after_round c key (negb retired) h)).
  - apply steps_state. intros h (ch & Ec & Ek & Ep). rewrite Ec. destruct (may_retire h c ch) eqn:Em; cbn.
    + split; [by eapply rtc_once, hs_retire|]. unfold may_retire in Em. apply andb_prop in Em as [Er Eh].
      apply Nat.eqb_eq in Er. split; [cbn; by rewrite Ek, lookup_delete_eq|exact Er].
    + split; [done|]. by exists ch.
  - intros [|]; cbn [negb]; [by apply steps_ret|]. cbn [after_round].
    apply (steps_bind _ _ _ _ (fun _ => polls c key)); [apply steps_run|]. intros r.
    apply (steps_bind _ _ _ _ (fun _ => polls c key)).
    + destruct r as [state|e]; [|by apply steps_ret]. apply steps_state. intros h (ch & Ec & Ek & Ep). rewrite Ec. cbn.
      split; [by eapply rtc_once, hs_publish|]. exists (publish state ch). cbn.
      rewrite list_lookup_insert_eq by (by eapply lookup_lt_Some). unfold publish. by case_bool_decide.
    + intros []. apply (steps_bind _ _ _ _ (fun _ => polls c key)); [apply steps_run|]. intros _. by apply steps_ret.
Qed.

Lemma steps_rounds c key n : steps c (polls c key) (poller_rounds n c key)
  (fun left h => left = 0%nat /\ polls c key h \/ (0 < left)%nat /\ after_round c key false h).
Proof.
  induction n as [|n IH]; cbn [poller_rounds]; [apply steps_ret; by left|].
  eapply steps_bind; [apply steps_round|]. intros [|]; cbn beta iota; [exact IH|]. apply steps_ret.
  intros h Hh. right. split; [lia|exact Hh].
Qed.
End poller.

(** ** What it publishes *)

Section truth.
Context {R : Type} `{RedisLaws R}.
Variable mgr : RedisLockManager.

(** The state of a key as its watchers are told of it. *)
Definition watched_state (l : lease) : bool * Z := (bool_decide (is_Some (l_holder l)), fence_count l).

Lemma probe_state_run w key l : calm w -> view key (r_db (w_server w (mgr_conn mgr))) l ->
  exists w', probe_state mgr key w = (Done (Ok (watched_state l)), w') /\ calm w' /\
    r_db (w_server w' (mgr_conn mgr)) = r_db (w_server w (mgr_conn mgr)).
Proof.
  intros C V. unfold probe_state, try_, backend. set (m := cbind _ _).
  assert (meets m (let! held := doc_exists key in let! version := doc_get (fence_key_for key) in cret (held, version))%script)
    as Hm by (unfold m; solve_meets).
  specialize (Hm (w_server w (mgr_conn mgr))).
  unfold cbind at 1 2, doc_exists, doc_get, doc_read, cret in Hm.
  rewrite (view_holder _ _ _ V), (view_fence _ _ _ V) in Hm.
  assert (((m (w_server w (mgr_conn mgr))).1, r_db (m (w_server w (mgr_conn mgr))).2) =
    (Ok (if l_holder l is Some _ then 1 else 0, (fun p => z_to_string p.1) <$> l_fence l), r_db (w_server w (mgr_conn mgr)))) as Hm'.
  { rewrite Hm. destruct (l_holder l) as [[t dl]|]; destruct (l_fence l) as [[v fd]|]; reflexivity. }
  injection Hm' as H1 H2. unfold bind at 1 2. rewrite (calm_invoke _ m w C), H1. eexists. split; [|split].
  - unfold ret. cbn [res_map_err]. pose proof (view_count _ _ _ V) as Hc. unfold watched_state, fence_count, version_of in *.
    assert (forall z, 0 <= z <= i64_max -> in_u64 z) as Hu by (unfold i64_max, in_u64, u64_mod; lia).
    destruct (l_fence l) as [[v fd]|]; cbn; rewrite ?parse_u64_to_string by auto; by destruct (l_holder l) as [[t dl]|].
  - by apply calm_calm_after.
  - cbn. by rewrite fn_lookup_insert.
Qed.

Lemma sleep_calm (w : world R) d : calm w -> exists w', sleep d w = (Done tt, w') /\ calm w' /\
  forall c, w_server w' c = w_server w c.
Proof.
  intros [B E]. unfold sleep, bind, next_step, modify, pass. rewrite E. cbn. rewrite B.
  eexists. split; [reflexivity|]. by split.
Qed.

(** A turn on a quiet server, with somebody listening. *)
Lemma round_publishes c key h ch (w : world R) l : hub_channels h !! c = Some ch -> (0 < receiver_count h c)%nat ->
  calm w -> view key (r_db (w_server w (mgr_conn mgr))) l ->
  exists w', poller_round mgr c key (alone h) w = (Done (true, alone (set_channel c (publish (watched_state l) ch) h)), w') /\
    calm w' /\ view key (r_db (w_server w' (mgr_conn mgr))) l.
Proof.
  intros Ec Hr C V. destruct (probe_state_run w key l C V) as (w1 & E1 & C1 & D1).
  destruct (sleep_calm w1 hub_POLL_INTERVAL C1) as (w2 & E2 & C2 & D2). exists w2.
  assert (poller_check (R:=R) c (alone h) w = (Done (false, alone h), w)) as E0.
  { unfold poller_check. apply (hstate_done _ (alone h)). cbn. rewrite Ec. unfold may_retire.
    by rewrite (proj2 (Nat.eqb_neq _ _)) by lia. }
  unfold poller_round. rewrite (hbind_done _ _ _ _ _ _ _ E0).
  rewrite (hbind_done _ _ _ _ _ _ _ (hrun_done _ _ _ _ _ E1)).
  rewrite (hbind_done _ _ _ w1 tt (alone (set_channel c (publish (watched_state l) ch) h)) w1)
    by (unfold poller_publish; apply (hstate_done _ (alone h)); cbn; by rewrite Ec).
  rewrite (hbind_done _ _ _ _ _ _ _ (hrun_done _ _ _ _ _ E2)). split; [done|]. split; [done|]. by rewrite D2, D1.
Qed.

Lemma publish_value state ch : ch_value (publish state ch) = Some state.
Proof. unfold publish, ch_value. case_bool_decide; [done|]. cbn. apply last_snoc. Qed.
End truth.

(** ** What it tells of the holders *)

Section secrets.
Context {R : Type} `{RedisLaws R}.
Variable c0 : conn.          (* the manager's server *)
Variable key : string.

(** Two states of the server that differ in what is stored under [key] at
    most, not in whether and how long there is something. *)
Definition blurred (d d' : db) : Prop :=
  db_now d = db_now d' /\ e_deadline <$> db_live d !! key = e_deadline <$> db_live d' !! key /\
  db_live d !! fence_key_for key = db_live d' !! fence_key_for key.
#[local] Instance blurred_equiv : Equivalence blurred.
Proof.
  split.
  - by intros d.
  - intros d d' (? & ? & ?). by repeat split.
  - intros d d' d'' (? & ? & ?) (? & ? & ?). repeat split; by etrans.
Qed.

(** The same of two servers, and of what others do to them. *)
Definition blurred_at (f f' : conn -> R) : Prop := blurred (r_db (f c0)) (r_db (f' c0)).
Definition blurred_step (a b : env_step R) : Prop :=
  st_fate a = st_fate b /\ st_latency a = st_latency b /\
  forall f f', blurred_at f f' -> blurred_at (st_others a f) (st_others b f').
Definition alike (w w' : world R) : Prop :=
  blurred_at (w_server w) (w_server w') /\ w_clock w = w_clock w' /\ w_budget w = w_budget w' /\
  Forall2 blurred_step (w_steps w) (w_steps w').

(** Code that gives the same result in both, and keeps them so. *)
Definition agree {A} (m m' : M R A) : Prop := forall w w', alike w w' -> (m w).1 = (m' w').1 /\ alike (m w).2 (m' w').2.
(** A command that does not look. *)
Definition discreet {A} (m : cmd R A) : Prop := forall s s', blurred (r_db s) (r_db s') ->
  (m s).1 = (m s').1 /\ blurred (r_db (m s).2) (r_db (m s').2).

Lemma agree_ret {A} (a : A) : agree (ret a) (ret a).
Proof. by intros w w' Hw. Qed.
Lemma agree_bind {A B} (m m' : M R A) (f f' : A -> M R B) : agree m m' -> (forall a, agree (f a) (f' a)) ->
  agree (bind m f) (bind m' f').
Proof.
  intros Hm Hf w w' Hw. destruct (Hm w w' Hw) as [E Hw']. unfold bind.
  destruct (m w) as [[a| | |] w1], (m' w') as [[b| | |] w1']; cbn in E; try done. injection E as <-. by apply Hf.
Qed.
Lemma agree_try {X A B} (m m' : M R (res X A)) (f f' : A -> M R (res X B)) : agree m m' ->
  (forall a, agree (f a) (f' a)) -> agree (try_ m f) (try_ m' f').
Proof. intros Hm Hf. apply agree_bind; [done|]. intros [a|e]; [apply Hf|apply agree_ret]. Qed.

Lemma agree_wait {A} (F F' : env_step R -> M R A) : (forall a b, blurred_step a b -> agree (F a) (F' b)) ->
  agree (bind next_step F) (bind next_step F').
Proof.
  intros HF w w' (Hs & Hc & Hb & Hst). unfold bind, next_step.
  destruct (w_steps w) as [|a l] eqn:E, (w_steps w') as [|b l'] eqn:E'; inversion Hst; subst.
  - apply HF; [by split; [|split]|]. split; [done|]. split; [done|]. split; [done|]. by rewrite E, E'.
  - apply HF; [done|]. by split; [|split; [|split]].
Qed.
Lemma agree_others a b : blurred_step a b -> agree (modify (fun w => World.set_server (st_others a (w_server w)) w))
  (modify (fun w => World.set_server (st_others b (w_server w)) w)).
Proof. intros (_ & _ & Ho) w w' (Hs & Hr). split; [done|]. split; [by apply Ho|done]. Qed.
Lemma agree_pass dt : agree (pass dt) (pass dt).
Proof.
  intros w w' (Hs & Hc & Hb & Hst). unfold pass. rewrite Hc, Hb. destruct (w_budget w') as [b|] eqn:Eb; [destruct (_ <? _)|];
    (split; [done|]); (split; [done|]); cbn; rewrite ?Hc, ?Hb, ?Eb; by split.
Qed.
Lemma agree_on_server {A} (m : cmd R A) : discreet m -> agree (on_server c0 m) (on_server c0 m).
Proof.
  intros Hm w w' (Hs & Hr). unfold on_server. destruct (Hm _ _ Hs) as [E1 E2].
  destruct (m (w_server w c0)) as [r s], (m (w_server w' c0)) as [r' s']; cbn in *. subst r'. split; [done|].
  split; [|done]. unfold blurred_at. cbn. by rewrite !fn_lookup_insert.
Qed.

Lemma agree_invoke {A} (m : cmd R A) : discreet m -> agree (invoke c0 m) (invoke c0 m).
Proof.
  intros Hm. apply agree_wait. intros a b Hab. apply agree_bind; [by apply agree_others|]. intros _.
  destruct Hab as (-> & -> & _). destruct (st_fate b).
  - apply agree_bind; [by apply agree_on_server|]. intros r. apply agree_bind; [apply agree_pass|]. intros _. apply agree_ret.
  - apply agree_bind; [by apply agree_on_server|]. intros _. apply agree_bind; [apply agree_pass|]. intros _. apply agree_ret.
  - apply agree_bind; [apply agree_pass|]. intros _. apply agree_ret.
Qed.
Lemma agree_sleep d : agree (sleep d) (sleep d).
Proof.
  apply agree_wait. intros a b Hab. apply agree_bind; [by apply agree_others|]. intros _.
  destruct Hab as (_ & -> & _). apply agree_pass.
Qed.

(** *** Commands that do not look *)

Lemma discreet_cret {A} (a : A) : discreet (cret a).
Proof. by intros s s' Hs. Qed.
Lemma discreet_cbind {A B} (m : cmd R A) (f : A -> cmd R B) : discreet m -> (forall a, discreet (f a)) -> discreet (cbind m f).
Proof.
  intros Hm Hf s s' Hs. destruct (Hm s s' Hs) as [E Hs']. unfold cbind.
  destruct (m s) as [[a|e] s1], (m s') as [[b|e'] s1']; cbn in E; try done; injection E as <-; [by apply Hf|by split].
Qed.
Lemma discreet_meets {A} (m : cmd R A) doc : meets m doc -> (forall d, (doc d).2 = d) ->
  (forall d d', blurred d d' -> (doc d).1 = (doc d').1) -> discreet m.
Proof.
  intros Hm Hr Hd s s' Hs. pose proof (Hm s) as E. pose proof (Hm s') as E'.
  split; [apply (f_equal fst) in E, E'; cbn in E, E'; rewrite E, E'; by apply Hd|].
  apply (f_equal snd) in E, E'. cbn in E, E'. by rewrite E, E', !Hr.
Qed.
Lemma discreet_exists : discreet (r_exists key).
Proof.
  apply (discreet_meets _ _ (exists_law key)); [done|]. intros d d' (_ & E & _). unfold doc_exists. cbn.
  by destruct (db_live d !! key), (db_live d' !! key).
Qed.
Lemma discreet_pttl : discreet (r_pttl key).
Proof.
  apply (discreet_meets _ _ (pttl_law key)); [done|]. intros d d' (En & E & _). unfold doc_pttl. cbn.
  destruct (db_live d !! key), (db_live d' !! key); cbn in E; try done. injection E as ->. by rewrite En.
Qed.
Lemma discreet_fence : discreet (r_get (fence_key_for key)).
Proof.
  apply (discreet_meets _ _ (get_law (fence_key_for key))); [done|]. intros d d' (_ & _ & E).
  unfold doc_get, doc_read. cbn. by rewrite E.
Qed.
End secrets.

(** *** Tasks and handlers *)

Section handlers.
Context {U : UuidSource} {R : Type} `{RedisScan R} `{!RedisLaws R}.
Variables (values : gmap string Principal -> list Principal) (ps : PalisadeService) (key : string).
Abbreviation mgr := (ps_manager ps).
Abbreviation c0 := (mgr_conn (ps_manager ps)).
Abbreviation agrees m := (forall s, agree c0 key (m s) (m s)).

Lemma agrees_bind {St A B} (m : SM St R A) (f : A -> SM St R B) : agrees m -> (forall a, agrees (f a)) -> agrees (hbind m f).
Proof. intros Hm Hf s. apply agree_bind; [apply Hm|]. intros [a s']. apply Hf. Qed.
Lemma agrees_ret {St A} (a : A) : agrees (hret (S:=St) (R:=R) a).
Proof. intros s. apply agree_ret. Qed.
Lemma agrees_try {St X A B} (m : SM St R (res X A)) (f : A -> SM St R (res X B)) :
  agrees m -> (forall a, agrees (f a)) -> agrees (htry m f).
Proof. intros Hm Hf. apply agrees_bind; [done|]. intros [a|e]; [apply Hf|apply agrees_ret]. Qed.
Lemma agrees_run {St A} (m : M R A) : agree c0 key m m -> agrees (hrun (S:=St) m).
Proof. intros Hm s. apply agree_bind; [done|]. intros a. apply agree_ret. Qed.
Lemma agrees_state {St A} (f : St -> A * St) : agrees (hstate (R:=R) f).
Proof. intros s. apply agree_bind; [apply agree_ret|]. intros a. apply agree_ret. Qed.

Lemma agree_probe : agree c0 key (probe_state mgr key) (probe_state mgr key).
Proof.
  apply agree_try; [|intros [held version]; apply agree_ret]. apply agree_bind; [|intros r; apply agree_ret].
  apply agree_invoke. apply discreet_cbind; [apply discreet_exists|]. intros held.
  apply discreet_cbind; [apply discreet_fence|]. intros version. apply discreet_cret.
Qed.
Lemma agree_describe : agree c0 key (describe_key mgr key) (describe_key mgr key).
Proof.
  apply agree_try; [|intros [[held version] pttl]; apply agree_ret]. apply agree_bind; [|intros r; apply agree_ret].
  apply agree_invoke. apply discreet_cbind; [apply discreet_exists|]. intros held.
  apply discreet_cbind; [apply discreet_fence|]. intros version. apply discreet_cbind; [apply discreet_pttl|].
  intros pttl. apply discreet_cret.
Qed.

Lemma agrees_round c : agrees (poller_round mgr c key).
Proof.
  apply agrees_bind; [apply agrees_state|]. intros [|]; [apply agrees_ret|].
  apply agrees_bind; [apply agrees_run, agree_probe|]. intros r.
  apply agrees_bind; [destruct r; [apply agrees_state|apply agrees_ret]|]. intros [].
  apply agrees_bind; [apply agrees_run, agree_sleep|]. intros _. apply agrees_ret.
Qed.
Lemma agrees_rounds c n : agrees (poller_rounds mgr n c key).
Proof.
  induction n as [|n IH]; cbn [poller_rounds]; [apply agrees_ret|].
  apply agrees_bind; [apply agrees_round|]. intros [|]; [exact IH|apply agrees_ret].
Qed.

Lemma agrees_serve fuel bearer r : r = Watch key \/ r = DescribeKey key -> agrees (serve values ps fuel bearer r).
Proof.
  assert (forall p, agrees (watch_slot (R:=R) p key)) as Hslot.
  { intros p. unfold watch_slot. repeat first [apply agrees_state|apply agrees_ret|apply agrees_try; [|intros ?]|
      apply agrees_bind; [|intros ?]|case_match]. }
  intros [-> | ->]; cbn [serve]; apply agrees_try; try (intros; apply agrees_ret).
  - unfold service_watch. apply agrees_try; [apply agrees_state|]. intros p. apply agrees_try; [apply Hslot|]. intros g.
    apply agrees_bind; [apply agrees_state|]. intros sub. apply agrees_state.
  - unfold service_describe_key. apply agrees_try; [apply agrees_state|]. intros p.
    apply agrees_try; [apply Hslot|]. intros g. apply agrees_bind; [unfold return_slot; apply agrees_state|]. intros _.
    unfold internal. apply agrees_bind; [apply agrees_run, agree_describe|]. intros r. apply agrees_ret.
Qed.
End handlers.

(** ** Properties *)

(** Nothing is on its way to the application of the stream [n], whose
    subscription [sub] is to the channel [c]. *)
Definition caught_up (n sub c : nat) (w : watching) : Prop :=
  ws_up w = true /\ ws_wire w = [] /\ ws_task w = Reading /\ ws_queue w = [] /\
  (fw_queue <$> sv_streams (ws_server w) !! n) = Some [] /\
  exists hs ch, hub_subs (sv_hub (ws_server w)) !! sub = Some hs /\ hub_channels (sv_hub (ws_server w)) !! c = Some ch /\
    su_chan hs = c /\ su_queue hs = [] /\ su_phase hs = Waiting /\ su_seen hs = ch_version ch.

Section properties.
Context {U : UuidSource} {R : Type} `{RedisScan R} `{!RedisLaws R}.

(** C25: The poller implements the hub.  Whatever the store answers, while
    other handlers and tasks take steps of the hub in between, any number of
    turns of the poller of [key] is a run of the hub's steps -- so every
    invariant of the hub holds throughout -- and ends either with the poller
    at work or, before, with it retired: then nobody listens to its channel
    and the key is free for a new one. *)
Theorem poller_implements_hub mgr c key n (s : shared_state hub) (w : world R) left s' w' :
  hub_reachable (sh_state s) -> polls c key (sh_state s) -> Forall (bystander c) (sh_others s) ->
  poller_rounds mgr n c key s w = (Done (left, s'), w') ->
  rtc hub_step (sh_state s) (sh_state s') /\ hub_reachable (sh_state s') /\ hub_ok (sh_state s') /\
  if (left =? 0)%nat then polls c key (sh_state s')
  else hub_keys (sh_state s') !! key = None /\ receiver_count (sh_state s') c = 0%nat.
Proof.
  intros Hr Hp Ho E. destruct (steps_rounds mgr c key n s w left s' w' Hp Ho E) as (Hs & _ & Hl).
  assert (hub_reachable (sh_state s')) as Hr' by (unfold hub_reachable in *; transitivity (sh_state s); done).
  split; [done|]. split; [done|]. split; [by apply hub_ok_reachable|].
  destruct Hl as [[-> Hl]|[Hl Ha]]; [done|]. by destruct left; [lia|].
Qed.

(** C23: The state of a lock reaches those who watch it.  An application
    watches [key]; on a quiet store in which the lock is in the state [l], the
    next turn of the key's poller publishes whether [l] is held and its fence
    counter; from then on, whatever happens on the server, on the wire and in
    the application, as long as nothing newer is published, once the stream is
    drained the last event the application has read is exactly that state. *)
Theorem watched_state_arrives values ps bearer key v (wr : world R) n s' wr' w c (wp : world R) l :
  let sub := length (hub_subs (sv_hub v)) in
  hub_reachable (sv_hub v) -> service_watch values ps bearer key (alone v) wr = (Done (Ok n, s'), wr') ->
  rtc (watch_step n sub) (watching_new (sh_state s')) w ->
  polls c key (sv_hub (ws_server w)) -> (0 < receiver_count (sv_hub (ws_server w)) c)%nat ->
  calm wp -> view key (r_db (w_server wp (mgr_conn (ps_manager ps)))) l ->
  exists h wp', poller_round (ps_manager ps) c key (alone (sv_hub (ws_server w))) wp = (Done (true, alone h), wp') /\
    view key (r_db (w_server wp' (mgr_conn (ps_manager ps)))) l /\
    forall w2, rtc (watch_step n sub) (set_server (set_hub h (ws_server w)) w) w2 ->
      hub_channels (sv_hub (ws_server w2)) !! c = hub_channels h !! c -> caught_up n sub c w2 ->
      last (ws_got w2) = Some (watch_event (transition_event (bool_decide (is_Some (l_holder l))) (fence_count l))).
Proof.
  intros sub Hr Hw Hrun (ch & Ec & Ek & Epoll) Hrc C V.
  destruct (round_publishes (ps_manager ps) c key _ ch wp l Ec Hrc C V) as (wp' & E & C' & V').
  set (h := set_channel c (publish (watched_state l) ch) (sv_hub (ws_server w))) in *.
  exists h, wp'. split; [exact E|]. split; [exact V'|]. intros w2 Hrun2 Ech Hc.
  pose proof (watch_ok_steps _ _ _ _ Hrun (opened_ok _ _ _ (watch_opens _ _ _ _ _ _ _ _ _ (hub_ok_reachable _ Hr) Hw))) as Ho.
  assert (watch_ok n sub (set_server (set_hub h (ws_server w)) w)) as Ho'.
  { apply server_more; [exact Ho|]. split; [right; by apply hs_publish|]. split; [done|].
    intros hs Es. exists hs, []. rewrite !app_nil_r. done. }
  pose proof (watch_ok_steps _ _ _ _ Hrun2 Ho') as Ho2.
  destruct Hc as (Eu & Ewire & Et & Eq & Ef & hs & ch2 & Es & Ec2 & Ecn & Esq & Ep & Ev).
  rewrite Ec2 in Ech. unfold h in Ech. cbn in Ech.
  rewrite list_lookup_insert_eq in Ech by (by eapply lookup_lt_Some). injection Ech as ->.
  rewrite (latest_got _ _ _ hs (publish (watched_state l) ch) Ho2 Es); [|by rewrite Ecn|done..].
  by rewrite publish_value.
Qed.

(** C24: Watching is anonymous.  Take two stores that differ only in what is
    stored under [key] -- in who holds it, that is in the token that would
    release it -- and that others keep so while they work.  Any number of turns
    of the key's poller leave the same hub behind in both, hence the same
    events for every watcher; a request to watch the key or to describe it is
    answered alike; and the same messages take the same time: nothing of the
    tokens can be told from them. *)
Theorem watching_is_anonymous values ps key fuel bearer r n c (w w' : world R) :
  alike (mgr_conn (ps_manager ps)) key w w' ->
  (forall s, (poller_rounds (ps_manager ps) n c key s w).1 = (poller_rounds (ps_manager ps) n c key s w').1 /\
     alike (mgr_conn (ps_manager ps)) key (poller_rounds (ps_manager ps) n c key s w).2
       (poller_rounds (ps_manager ps) n c key s w').2) /\
  (r = Watch key \/ r = DescribeKey key -> forall s,
     (serve values ps fuel bearer r s w).1 = (serve values ps fuel bearer r s w').1 /\
     alike (mgr_conn (ps_manager ps)) key (serve values ps fuel bearer r s w).2 (serve values ps fuel bearer r s w').2).
Proof.
  intros Hw. split.
  - intros s. by apply agrees_rounds.
  - intros Hr s. by apply agrees_serve.
Qed.
End properties.

(** ** Witnesses *)

Definition demo_other : db := (lop_script "job" (LAcquire "B" 100 1000) demo_db).2.

Lemma watching_is_anonymous_witness :
  db_live demo_granted !! "job"%string <> db_live demo_other !! "job"%string /\
  (serve (R:=db) demo_values demo_service 0 demo_bearer (DescribeKey "job") (alone demo_svc) (demo_world demo_granted [])).1 =
  (serve (R:=db) demo_values demo_service 0 demo_bearer (DescribeKey "job") (alone demo_svc) (demo_world demo_other [])).1.
Proof.
  split; [by vm_compute|].
  destruct (watching_is_anonymous (R:=db) demo_values demo_service "job" 0 demo_bearer (DescribeKey "job") 1 0
    (demo_world demo_granted []) (demo_world demo_other [])) as [_ Hd].
  - split; [by split; [|split]; vm_compute|]. split; [done|]. split; [done|constructor].
  - apply (Hd (or_intror eq_refl)).
Defined.

Lemma poller_implements_hub_witness : exists s' w',
  poller_rounds (R:=db) (ps_manager demo_service) 2 0 "job" (alone (demo_hub demo_w0)) (demo_world demo_granted []) =
    (Done (0%nat, s'), w') /\ polls 0 "job" (sh_state s').
Proof.
  destruct (poller_rounds (R:=db) (ps_manager demo_service) 2 0 "job" (alone (demo_hub demo_w0)) (demo_world demo_granted []))
    as [[[left s']| | |] w'] eqn:E; [|exfalso; revert E; by vm_compute..].
  destruct (poller_implements_hub (R:=db) (ps_manager demo_service) 0 "job" 2 (alone (demo_hub demo_w0))
    (demo_world demo_granted []) left s' w') as (_ & _ & _ & Hl).
  - eapply rtc_l; [apply (hs_subscribe hub_new "job")|]. apply rtc_refl.
  - by eexists.
  - constructor.
  - exact E.
  - assert (left = 0%nat) as -> by (revert E; vm_compute; by intros [= <- _ _]). exists s', w'. by split.
Defined.

Lemma watched_state_arrives_witness : caught_up 0 0 0 demo_w8 /\ last (ws_got demo_w8) = Some (WAcquired 1).
Proof.
  assert (caught_up 0 0 0 demo_w8) as Hc.
  { do 5 (split; [vm_compute; reflexivity|]). do 2 eexists. by repeat split; vm_compute. }
  split; [exact Hc|].
  destruct (watched_state_arrives (R:=db) demo_values demo_service demo_bearer "job" demo_svc (demo_world demo_granted []) 0
    (alone demo_watched) (demo_world demo_granted []) demo_w0 0 (demo_world demo_granted []) demo_held)
    as (h & wp' & E & _ & Hl).
  - apply rtc_refl.
  - vm_compute. reflexivity.
  - apply rtc_refl.
  - by eexists.
  - vm_compute. lia.
  - by split.
  - exact view_demo_held.
  - assert (h = demo_hub demo_w1) as -> by (revert E; vm_compute; by intros [= <- _]).
    exact (Hl demo_w8 demo_watch_rest eq_refl Hc).
Defined.
