(* ===== verification/Remote.v ===== *)
(** * The client against the service

    [Service.serve] as the server of [Client], and what a remote caller gets
    end to end: from the SDK over the wire, through authorization, sessions
    and registry, down to the lock in the store. *)

From S2P Require Import Prelude Core Redis Scripts World Lease Single Scan Multi Registry Auth Sessions WatchHub Handlers Service ServiceSafety ServiceState Checker Client.

Section server.
Context {U : UuidSource} {R : Type} `{RedisScan R}.
Variables (values : gmap string Principal -> list Principal) (ps : PalisadeService) (fuel : nat).

(** Requests one at a time; a handler that dies answers nothing. *)
Definition answer {A} (m : HM R A) : cmd (svc * world R) A := fun s =>
  match m (alone s.1) s.2 with
  | (Done (a, s'), w') => (Ok a, (sh_state s', w'))
  | (_, w') => (Err Io, (s.1, w'))
  end.

#[local] Instance service_server : LockServer (svc * world R) := {
  rpc header r := answer (serve values ps fuel header r);
  rpc_items prefix := answer (hrun (list_task ps fuel prefix));
}.
End server.

Section remote.
Context {U : UuidSource} {R : Type} `{RS : RedisScan R} `{!RedisLaws R}.
Variables (values : gmap string Principal -> list Principal) (ps : PalisadeService) (fuel : nat).
Variables (ascii_metadata : string -> bool) (keys : list string).
Hypothesis Hsep : separate keys.
Abbreviation mgr := (ps_manager ps).
Abbreviation server := (service_server values ps fuel).
Abbreviation RW := (world (svc * world R)).

Lemma answer_done {A} (m : HM R A) v ws a v' ws' :
  m (alone v) ws = (Done (a, alone v'), ws') -> answer m (v, ws) = (Ok a, (v', ws')).
Proof. intros E. unfold answer. cbn [fst snd]. by rewrite E. Qed.

(** A call of a quiet client to the service. *)
Lemma call_served (w : RW) c header r v ws a v' ws' : calm w -> w_server w c = (v, ws) ->
  serve values ps fuel header r (alone v) ws = (Done (a, alone v'), ws') ->
  @call _ server c header r w = (Done (status_to_error a), calm_after c (v', ws') w).
Proof.
  intros C Es E. unfold call. rewrite (bind_done _ _ _ _ _ (calm_invoke c _ w C)). rewrite Es.
  unfold rpc, service_server. by rewrite (answer_done _ _ _ _ _ _ E).
Qed.

(** The caller, when nobody else is at work. *)
Lemma principal_alone bearer v ws c : caller values (ps_acl ps) bearer = Ok c ->
  exists p st, p_cfg p = c /\ forall A (k : Principal -> HM R (res Status A)),
    htry (principal values ps bearer) k (alone v) ws = k p (alone (set_counters st v)) ws.
Proof.
  intros Hc. pose proof (resolve_counters values (ps_acl ps) bearer (sv_counters v)) as Hres.
  destruct (resolve values (ps_acl ps) bearer (sv_counters v)) as [[p|e] st] eqn:E; destruct Hres as [Hres _];
    rewrite Hres in Hc; [|done]. injection Hc as Hc. exists p, st. split; [done|]. intros A k. apply htry_ok.
  unfold principal, on_counters. apply (hstate_done _ (alone v)). cbn. by rewrite E.
Qed.

(** [unlock] on a quiet server, for a caller with permission. *)
Lemma unlock_served bearer v ws c key tok L : caller values (ps_acl ps) bearer = Ok c ->
  permitted c (Unlock key tok) = true -> calm ws -> views mgr keys L ws -> key ∈ keys ->
  exists v' ws', serve values ps fuel bearer (Unlock key tok) (alone v) ws =
      (Done (Ok (RUnlocked (holds tok (L key))), alone v'), ws') /\
    calm ws' /\ views mgr keys (<[key := (lease_release tok (L key)).2]> L) ws' /\
    holders (sv_registry v') = (if holds tok (L key) then delete key (holders (sv_registry v)) else holders (sv_registry v)).
Proof.
  intros Hc Hp C V Hin. destruct (principal_alone bearer v ws c Hc) as (p & st & <- & Hk).
  destruct (unlock_calm mgr keys Hsep L ws key tok C V Hin) as (w1 & E1 & C1 & V1 & _).
  set (v1 := set_counters st v).
  destruct (free_holder_run v1 w1 key) as (o & v2 & E2 & H2).
  assert (may p key (can_unlock (p_cfg p)) = Ok tt) as Hm.
  { unfold may. cbn [permitted] in Hp. apply andb_prop in Hp. by destruct Hp as [-> ->]. }
  assert (exists v', service_unlock (R:=R) values ps bearer key tok (alone v) ws =
      (Done (Ok (holds tok (L key)), alone v'), w1) /\
    holders (sv_registry v') = (if holds tok (L key) then delete key (holders (sv_registry v)) else holders (sv_registry v)))
    as (v' & E & Hh).
  { unfold service_unlock. rewrite Hk. fold v1.
    rewrite (htry_ok _ _ (alone v1) ws tt (alone v1) ws) by (unfold check_unlock; by rewrite Hm).
    rewrite (htry_ok _ _ (alone v1) ws (holds tok (L key)) (alone v1) w1);
      [|unfold internal; by rewrite (hbind_done _ _ _ _ _ _ _ (hrun_done _ _ _ _ _ E1))].
    destruct (holds tok (L key)).
    - rewrite (hbind_done _ _ _ _ _ _ _ E2). by exists v2.
    - by exists v1. }
  exists v', w1. split; [|by split_and!]. cbn [serve]. by rewrite (htry_ok _ _ _ _ _ _ _ E).
Qed.

(** What a recorder is told, on a quiet network. *)
Definition told (history : option Z) (key : string) (op : OpKind) (ok : bool) (fence now : Z) : list HistoryEntry :=
  match history with Some origin => record origin now key op ok fence now [] | None => [] end.

Lemma note_run history key op ok fence started (w : RW) :
  note (S:=svc * world R) history key op ok fence started w =
  (Done (match history with Some origin => record origin (w_clock w) key op ok fence started [] | None => [] end), w).
Proof. by destruct history. Qed.

Lemma remote_handle_run cl key token fence options (w : RW) : calm w -> exists h w',
  remote_handle (S:=svc * world R) ascii_metadata cl key token fence options w = (Done h, w') /\ calm w' /\
  w_server w' = w_server w /\ rs_key h = key /\ rs_token h = token /\ rs_fence h = fence_new fence /\
  rs_ttl h = ttl options /\ rs_grpc h = ci_grpc cl /\ w_flags w' !! rs_cell h = Some fresh_flags.
Proof.
  intros C. unfold remote_handle, fresh_owner, new_cell, spawn, modify. unfold bind at 1. unfold bind at 1. unfold bind at 1.
  destruct (default true (watchdog options)); (eexists _, _; split; [reflexivity|]; cbn; split_and!; try done;
    by rewrite lookup_app_r, Nat.sub_diag by lia).
Qed.


(** A remote release, end to end.  With nobody else at work, for a caller
    with permission: while the handle's token holds the key in the store,
    [release] answers [Ok], the key is free and nobody is charged for it;
    otherwise it answers [Lost] and changes no lock and no account.  Either
    way releasing the handle again is a success that sends nothing. *)
Theorem remote_release_correct (s : RemoteShared) (w : RW) v ws c L f :
  let key := rs_key s in
  let held := holds (rs_token s) (L key) in
  calm w -> w_server w (rs_grpc s) = (v, ws) -> calm ws -> views mgr keys L ws -> key ∈ keys ->
  caller values (ps_acl ps) (rs_header s) = Ok c -> permitted c (Unlock key (rs_token s)) = true ->
  w_flags w !! rs_cell s = Some f -> released f = false ->
  exists es w' v' ws',
    @remote_release _ _ server s w = (Done (if held then Ok tt else Err (remote_lost s), es), w') /\
    w_server w' (rs_grpc s) = (v', ws') /\
    views mgr keys (<[key := if held then lease_free (L key) else L key]> L) ws' /\
    holders (sv_registry v') = (if held then delete key (holders (sv_registry v)) else holders (sv_registry v)) /\
    exists w'', @remote_release _ _ server s w' = (Done (Ok tt, []), w'') /\ w_server w'' = w_server w'.
Proof.
  intros key held C Es Cs V Hin Hc Hp Hf Hr.
  destruct (unlock_served (rs_header s) v ws c key (rs_token s) L Hc Hp Cs V Hin) as (v' & ws' & E & _ & V' & Hh).
  assert (mark_released (R:=svc * world R) (rs_cell s) w =
    (Done true, set_flags (alter set_released (rs_cell s) (w_flags w)) w)) as Em.
  { unfold mark_released, cell, bind, gets, update_cell, modify, ret. rewrite Hf.
    change (default fresh_flags (Some f)) with f. by rewrite Hr. }
  unfold remote_release at 1. rewrite (bind_done _ _ _ _ _ Em). cbn [negb]. set (w1 := set_flags _ w).
  assert (calm w1) as C1 by done.
  pose proof (call_served w1 (rs_grpc s) (rs_header s) _ v ws _ v' ws' C1 Es E) as Ec.
  set (w2 := calm_after (rs_grpc s) (v', ws') w1) in *.
  unfold run_unlock. unfold bind at 1, instant_now, gets. rewrite (bind_done _ _ _ _ _ Ec).
  cbn [status_to_error res_map_err]. unfold bind at 1. rewrite note_run. fold held in Hh |- *.
  eexists _, w2, v', ws'. split; [reflexivity|]. split; [cbn; by rewrite fn_lookup_insert|].
  split; [|split; [done|]].
  - revert V'. unfold lease_release. fold held. by destruct held.
  - unfold remote_release, mark_released, cell, bind, gets, update_cell, modify, ret.
    assert (default fresh_flags (w_flags w2 !! rs_cell s) = set_released f) as ->.
    { cbn. by rewrite list_lookup_alter_eq, Hf. }
    by eexists.
Qed.

(** Sessions shorter than half a second die although their client is
    well.  [attach_session] with a ttl under 500 ms registers it on the
    server, but the first heartbeat is not sent before 500 ms: from the
    instant the ttl has run out until then, every sweep finds the session
    silent and releases its locks. *)
Theorem short_session_dies cl (w : RW) v ws client t :
  let header := auth_header ascii_metadata (ci_bearer cl) in
  calm w -> w_server w (ci_grpc cl) = (v, ws) -> from_millis 1 <= t < from_millis 500 -> t <= max_ttl (ps_config ps) ->
  exists token w' v' ws', @attach_session _ server ascii_metadata cl client t w = (Done (Ok token), w') /\
    w_server w' (ci_grpc cl) = (v', ws') /\
    (forall now, w_clock ws + t < now -> silent (sv_sessions v') now token = true) /\
    (forall current w1 b w2, @heartbeat_round _ server ascii_metadata cl token t current w1 = (Done b, w2) ->
       w_budget w1 = None -> w_clock w1 + from_millis 500 <= w_clock w2).
Proof.
  intros header C Es Ht Hmax. set (tm := as_millis_u64 t).
  assert (tm = t / 1000000 /\ 0 < tm) as [Em Hpos].
  { unfold tm, from_millis in *. rewrite as_millis_u64_exact by (unfold u64_mod; lia). split; [done|].
    apply Z.div_str_pos. lia. }
  assert (from_millis tm <= t) as Hle.
  { rewrite Em. unfold from_millis. pose proof (Z.mul_div_le t 1000000). lia. }
  set (token := owner_token (owner_generate (w_uuids ws))).
  set (v' := set_sessions (<[token := mk_session client (from_millis tm) (w_clock ws) (w_clock ws) []]> (sv_sessions v)) v).
  assert (serve values ps fuel header (RegisterSession client tm) (alone v) ws =
    (Done (Ok (RSession token (as_millis_u64 (from_millis tm))), alone v'), set_uuids (N.succ (w_uuids ws)) ws)) as E.
  { cbn [serve]. unfold service_register_session. rewrite (proj2 (Z.eqb_neq tm 0)) by lia.
    rewrite (Z.min_l (from_millis tm)) by lia. reflexivity. }
  pose proof (call_served w (ci_grpc cl) header _ v ws _ _ _ C Es E) as Ec.
  exists token, (calm_after (ci_grpc cl) (v', set_uuids (N.succ (w_uuids ws)) ws) w), v', (set_uuids (N.succ (w_uuids ws)) ws).
  split_and!.
  - unfold attach_session, try_. fold header tm. by rewrite (bind_done _ _ _ _ _ Ec).
  - cbn. by rewrite fn_lookup_insert.
  - intros now Hn. unfold silent, v'. cbn [sv_sessions set_sessions]. rewrite lookup_insert_eq.
    unfold expired. cbn [s_ttl last_seen]. apply Z.ltb_lt. lia.
  - intros current w1 b w2 Er B. unfold heartbeat_round in Er. unfold bind at 1 in Er. rewrite sleep_eq in Er by done.
    set (w3 := after_sleep _ w1) in Er.
    assert (w_clock w1 + from_millis 500 <= w_clock w3) as H3.
    { unfold w3, heartbeat_cadence. cbn [after_sleep w_clock]. lia. }
    enough (w_clock w3 <= w_clock w2) by lia.
    destruct current as [cur|]; [|by injection Er as _ <-]. destruct (bool_decide _); [|by injection Er as _ <-].
    unfold bind at 1, call in Er. rewrite (bind_done _ _ _ _ _ (invoke_eq _ _ w3 eq_refl)) in Er.
    injection Er as _ <-. cbn. lia.
Qed.
End remote.

(** A ttl below a millisecond is sent as 0, which the service takes for its
    default: the caller gets a lease of 30 s it did not ask for. *)
Theorem short_ttl_becomes_default o : 0 <= ttl o < from_millis 1 ->
  exists opts, options_from_pb (Some (options_pb o)) default_service_config = Ok opts /\ ttl opts = from_secs 30.
Proof.
  intros Ht. assert (as_millis_u64 (ttl o) = 0) as E0.
  { unfold as_millis_u64, as_millis. unfold from_millis in Ht. by rewrite Z.div_small by lia. }
  unfold options_from_pb, options_pb. cbn [mbind option_bind pb_ttl_ms pb_watchdog]. rewrite E0.
  destruct (watchdog o); eexists; (split; [reflexivity|done]).
Qed.

(** ** Witnesses *)

Definition demo_client : ClientInner := mk_client 0 (Some "s3cret"%string) (Some 0).
Definition demo_ascii (_ : string) : bool := true.
Definition demo_net (v : svc) (ws : world db) (fl : list flags) : world (svc * world db) :=
  mk_world (fun _ => (v, ws)) 7 0 fl [] [] None.
Definition demo_idle : world (svc * world db) := demo_net demo_svc (demo_world demo_db []) [].
Definition demo_remote_handle : RemoteShared :=
  mk_remote 0 (Some "Bearer s3cret"%string) None "job" "A" (owner_generate 3) (mk_fence 1) (from_millis 100) 0.


Lemma remote_release_correct_witness : exists es w',
  @remote_release _ _ (service_server demo_values demo_service 1) demo_remote_handle
    (demo_net demo_svc (demo_world demo_granted []) [fresh_flags]) = (Done (Ok tt, es), w').
Proof.
  destruct (remote_release_correct demo_values demo_service 1 ["job"%string] demo_separate_job demo_remote_handle
    (demo_net demo_svc (demo_world demo_granted []) [fresh_flags]) demo_svc (demo_world demo_granted []) demo_ci
    (fun _ => demo_held) fresh_flags) as (es & w' & v' & ws' & E & _).
  - by split.
  - reflexivity.
  - by split.
  - intros k ->%list_elem_of_singleton. apply view_demo_held.
  - by apply list_elem_of_singleton.
  - vm_compute. reflexivity.
  - reflexivity.
  - reflexivity.
  - reflexivity.
  - exists es, w'. exact E.
Defined.

Lemma short_session_dies_witness : exists token w',
  @attach_session _ (service_server demo_values demo_service 1) demo_ascii demo_client "c" (from_millis 300) demo_idle =
    (Done (Ok token), w').
Proof.
  destruct (short_session_dies demo_values demo_service 1 demo_ascii demo_client demo_idle demo_svc
    (demo_world demo_db []) "c" (from_millis 300)) as (token & w' & _ & _ & E & _).
  - by split.
  - reflexivity.
  - split; [vm_compute; discriminate|vm_compute; reflexivity].
  - vm_compute. discriminate.
  - exists token, w'. exact E.
Defined.

Lemma short_ttl_becomes_default_witness : exists opts,
  options_from_pb (Some (options_pb (with_ttl 500000 default_options))) default_service_config = Ok opts /\
  ttl opts = from_secs 30.
Proof. apply (short_ttl_becomes_default (with_ttl 500000 default_options)). by split. Defined.
