(* ===== verification/Surfaces.v ===== *)
(** * One store, several surfaces

    The web console and the gRPC service over the same Redis: what one of
    them grants is held for the callers of both, whatever other clients of the
    store do meanwhile. *)

From S2P Require Import Prelude Core Redis Scripts World Lease Single Scan Simulation F64 Text Lattice Multi Semantic Registry Auth Sessions WatchHub Handlers Service ServiceSafety ServiceState Checker Demo DemoSafety Client Remote.

Section surfaces.
Context {U : UuidSource} {R : Type} `{RS : RedisScan R} `{RH : !RedisHash R} `{!RedisLaws R}.
Variables (values : gmap string Principal -> list Principal) (ps : PalisadeService) (ds : DemoState) (fuel : nat).
(** Both managers are connected to the same server. *)
Hypothesis Hsame : mgr_conn (ds_manager ds) = mgr_conn (ps_manager ps).
Abbreviation c0 := (mgr_conn (ps_manager ps)).
Implicit Types (w : world R) (l : lease).

Lemma separate_one key : separate [key].
Proof. intros k k' ->%list_elem_of_singleton ->%list_elem_of_singleton. apply fence_key_ne. Qed.
Lemma views_one mgr key l w : view key (r_db (w_server w (mgr_conn mgr))) l -> views mgr [key] (fun _ => l) w.
Proof. by intros V k ->%list_elem_of_singleton. Qed.

(** A lease of [ttl] ms that began when the server was in [s], after other
    clients' events [evs]. *)
Lemma still_held key tok ttl s l evs : view key (r_db s) l -> l_holder l = Some (tok, l_now l + ttl) ->
  events_ok (l_now l) evs -> Forall (event_keeps tok ttl) evs -> total_time evs < ttl ->
  exists l2, view key (r_db (run_events key evs s).2) l2 /\ l_now l2 = l_now l + total_time evs /\
    exists dl, l_holder l2 = Some (tok, dl) /\ l_now l + ttl <= dl.
Proof.
  intros V Hh Ho Hk Ht. destruct (events_refine key evs s l V Ho) as (l2 & Hr & V2). exists l2. split; [exact V2|].
  split; [exact (lease_run_now _ _ _ _ Hr)|].
  exact (lease_run_held tok ttl l _ _ _ (ex_intro _ _ (conj Hh (Z.le_refl _))) Hk Ho Hr Ht).
Qed.

(** A caller of the service and its request for [key]. *)
Record asks (v : svc) (bearer : option string) (key : string) (pb : option LockOptionsPb) (opts : LockOptions)
    (c : PrincipalConfig) : Prop := mk_asks {
  as_ready : sv_ready v = true;
  as_caller : caller values (ps_acl ps) bearer = Ok c;
  as_lock : permitted c (TryLock key pb "") = true;
  as_unlock : forall token, permitted c (Unlock key token) = true;
  as_count : forall p st, resolve values (ps_acl ps) bearer (sv_counters v) = (Ok p, st) -> load (held_keys p) st = 0;
  as_opts : options_from_pb pb (ps_config ps) = Ok opts;
  as_valid : validate opts = Ok tt;
}.

End surfaces.

(** ** Witness *)

Definition demo_meanwhile : list event := [EOp (LAcquire "B" 50 500); ETime 60; EOp (LRelease "B")].
(** The console has granted "job"; other clients have had their turn. *)
Definition demo_after_grant : world db :=
  (api_acquire (R:=db) console demo_request (alone console_start) (demo_world demo_db [])).2.
Definition demo_later : world db :=
  mk_world (fun _ => (run_events "job" demo_meanwhile (w_server demo_after_grant 0%nat)).2) 9 60 [] [] [] None.

