(* ===== verification/Sim.v ===== *)
(** * The deterministic simulator ([crates/testing/src/sim.rs])

    Worker state machines scheduled in virtual time against a single-key
    store with compare-and-set grants, expiry and fences.  The theorem: for
    every seed and every scenario without an injected bug the simulation
    ends, its debug assertion holds, and the checker accepts its history. *)

From stdpp Require Import sorting.
From S2P Require Import Prelude Core Checker.

Record Scenario := mk_scenario {
  seed : Z;
  workers : nat;
  steps_per_worker : nat;
  ttl_ms : Z;
  pause_probability_pct : Z;
  broken_cas : bool;
  broken_fencing : bool;
}.

(** [Scenario::clean]. *)
Definition clean (seed : Z) : Scenario := mk_scenario seed 6 40 100 35 false false.

(** ** The generator *)

Definition rng_new (seed : Z) : Z := Z.lxor seed 11400714819323198485.

(** [Rng::next_u64]: the value is also the new state. *)
Definition next_u64 (x : Z) : Z :=
  let x := Z.lxor x (wrap64 (Z.shiftl x 13)) in
  let x := Z.lxor x (Z.shiftr x 7) in
  Z.lxor x (wrap64 (Z.shiftl x 17)).

(** [Rng::below]: a value and the new state. *)
Definition below (n x : Z) : Z * Z := if n =? 0 then (0, x) else let x := next_u64 x in (x mod n, x).
Definition pct (percent x : Z) : bool * Z := let '(v, x) := below 100 x in (v <? percent, x).

(** ** The store *)

Record Entry := mk_sim_entry { holder : Z; expires_ms : Z; e_fence : Z }.

Record SimStore := mk_store {
  now_ms : Z;
  entry : option Entry;
  fence_counter : Z;
  last_accepted : Z;
  st_broken_cas : bool;
  st_broken_fencing : bool;
}.

Definition set_now (t : Z) (s : SimStore) : SimStore :=
  mk_store t (entry s) (fence_counter s) (last_accepted s) (st_broken_cas s) (st_broken_fencing s).

(** [SimStore::cas_grant]. *)
Definition cas_grant (w ttl : Z) (s : SimStore) : option Z * SimStore :=
  let blocked := match entry s with Some e => (now_ms s <? expires_ms e) && negb (st_broken_cas s) | None => false end in
  if blocked then (None, s) else
  let f := u64_add (fence_counter s) 1 in
  (Some f, mk_store (now_ms s) (Some (mk_sim_entry w (u64_add (now_ms s) ttl) f)) f (last_accepted s)
             (st_broken_cas s) (st_broken_fencing s)).

(** [SimStore::holds_validly], also the guard of [release]. *)
Definition holds_validly (w f : Z) (s : SimStore) : bool :=
  match entry s with
  | Some e => (holder e =? w) && (e_fence e =? f) && (now_ms s <? expires_ms e)
  | None => false
  end.

(** [SimStore::release]. *)
Definition sim_release (w f : Z) (s : SimStore) : bool * SimStore :=
  if holds_validly w f s
  then (true, mk_store (now_ms s) None (fence_counter s) (last_accepted s) (st_broken_cas s) (st_broken_fencing s))
  else (false, s).

(** [SimStore::fenced_write]. *)
Definition fenced_write (w f : Z) (s : SimStore) : bool * SimStore :=
  if st_broken_fencing s then (true, s) else
  if negb (holds_validly w f s) then (false, s) else
  if supersedes (fence_new f) (fence_new (last_accepted s))
  then (true, mk_store (now_ms s) (entry s) (fence_counter s) f (st_broken_cas s) (st_broken_fencing s))
  else (false, s).

(** ** Workers *)

Inductive State :=
| Idle (steps_left : nat)
| Holding (f release_at : Z) (will_pause : bool) (budget : nat)
| Paused (f : Z) (budget : nat)
| SimDone.

Definition is_done (s : State) : bool := match s with SimDone => true | _ => false end.

(** The locals of [run]. *)
Record sim := mk_sim {
  rng : Z;
  store : SimStore;
  states : list State;
  wake_at : list Z;
  events : list Event;
}.

Definition sim_init (sc : Scenario) : sim :=
  mk_sim (rng_new (seed sc)) (mk_store 0 None 0 0 (broken_cas sc) (broken_fencing sc))
    (replicate (workers sc) (Idle (steps_per_worker sc))) (replicate (workers sc) 0) [].

(** [(0..workers).filter(not done).min_by_key(|w| (wake_at\[w\], w))]. *)
Fixpoint pick (i : nat) (sts : list State) (wakes : list Z) {struct sts} : option (nat * Z) :=
  match sts, wakes with
  | s :: sts, t :: wakes =>
      let rest := pick (S i) sts wakes in
      if is_done s then rest else
      match rest with
      | Some (j, t') => if t' <? t then Some (j, t') else Some (i, t)
      | None => Some (i, t)
      end
  | _, _ => None
  end.

(** What one decision of worker [w] leaves: its next state and wake-up, the
    generator, the store, and the events in order. *)
Record decision := mk_decision { d_state : State; d_wake : Z; d_rng : Z; d_store : SimStore; d_events : list Event }.

(** [State::Idle] with the key to be tried. *)
Definition decide_grant (sc : Scenario) (w wake x : Z) (s : SimStore) (steps_left : nat) : decision :=
  let now := now_ms s in
  match cas_grant w (ttl_ms sc) s with
  | (Some f, s) =>
      let '(will_pause, x) := pct (pause_probability_pct sc) x in
      let '(h, x) := below (ttl_ms sc / 2) x in
      let hold := u64_add 5 h in
      let release_at := u64_add now hold in
      mk_decision (Holding f release_at will_pause (steps_left - 1))
        (if will_pause then u64_add now (hold / 2) else release_at) x s [mk_event now w Grant f]
  | (None, s) =>
      let '(d, x) := below 3 x in
      mk_decision (Idle (steps_left - 1)) (u64_add wake (u64_add 1 d)) x s [mk_event now w Deny 0]
  end.

Definition decide_idle (sc : Scenario) (w wake x : Z) (s : SimStore) (steps_left : nat) : decision :=
  if (steps_left =? 0)%nat then mk_decision SimDone u64_max x s []
  else
    let '(v, x) := below 100 x in
    if v <? 70 then decide_grant sc w wake x s steps_left
    else mk_decision (Idle (steps_left - 1)) (u64_add wake 1) x s [].

Definition write_event (now w f : Z) (ok : bool) : Event := mk_event now w (if ok then WriteAccepted else WriteRejected) f.

Definition decide_holding (sc : Scenario) (w x : Z) (s : SimStore) (f release_at : Z) (will_pause : bool)
    (budget : nat) : decision :=
  let now := now_ms s in
  if will_pause && (now <? release_at)
  then mk_decision (Paused f budget) (u64_add (u64_add release_at (ttl_ms sc)) 10) x s []
  else if release_at <=? now then
    let '(write_ok, s) := fenced_write w f s in
    let '(released, s) := sim_release w f s in
    let '(d, x) := below 4 x in
    mk_decision (Idle budget) (u64_add now d) x s
      [write_event now w f write_ok; mk_event now w (if released then ReleaseOk else ReleaseLost) f]
  else mk_decision (Holding f release_at will_pause budget) release_at x s [].

(** [None]: the [debug_assert!] fails. *)
Definition decide_paused (w x : Z) (s : SimStore) (f : Z) (budget : nat) : option decision :=
  let now := now_ms s in
  let '(write_ok, s) := fenced_write w f s in
  let '(released, s) := sim_release w f s in
  if released then None else
  Some (mk_decision (Idle budget) (u64_add now 1) x s [write_event now w f write_ok; mk_event now w ReleaseLost f]).

(** One turn of the loop for worker [i]. *)
Definition sim_step (sc : Scenario) (i : nat) (wake : Z) (m : sim) : option sim :=
  let s := set_now (Z.max (now_ms (store m)) wake) (store m) in
  let w := Z.of_nat i in
  let apply d := mk_sim (d_rng d) (d_store d) (<[i := d_state d]> (states m)) (<[i := d_wake d]> (wake_at m))
                   (events m ++ d_events d) in
  match states m !! i with
  | Some (Idle n) => Some (apply (decide_idle sc w wake (rng m) s n))
  | Some (Holding f r p b) => Some (apply (decide_holding sc w (rng m) s f r p b))
  | Some (Paused f b) => apply <$> decide_paused w (rng m) s f b
  | _ => None
  end.

Inductive outcome := Finished (h : list Event) | Panicked | OutOfFuel.

Fixpoint sim_loop (fuel : nat) (sc : Scenario) (m : sim) {struct fuel} : outcome :=
  match fuel with
  | O => OutOfFuel
  | S fuel =>
      match pick 0 (states m) (wake_at m) with
      | None => Finished (sort_events (events m))
      | Some (i, wake) =>
          match sim_step sc i wake m with
          | Some m => sim_loop fuel sc m
          | None => Panicked
          end
      end
  end.

(** [simulate]; [run] asserts that there is contention. *)
Definition simulate (fuel : nat) (sc : Scenario) : outcome :=
  if (workers sc <? 2)%nat then Panicked else sim_loop fuel sc (sim_init sc).

Definition sim_fuel (sc : Scenario) : nat := S (workers sc * (3 * steps_per_worker sc + 1)).

(** The checker finds the violations of a store that grants a held key. *)
Example broken_cas_is_caught :
  match simulate 2000 (mk_scenario 7 3 10 100 35 true false) with
  | Finished h => is_ok (check_history h 100) = false
  | _ => False
  end.
Proof. vm_compute. reflexivity. Qed.

Example clean_run : match simulate (sim_fuel (clean 42)) (clean 42) with
  | Finished h => (100 <? Z.of_nat (length h)) && is_ok (check_history h 100) = true
  | _ => False
  end.
Proof. vm_compute. reflexivity. Qed.

(** ** The store and the checker in step *)

Section simulation.
Variable ttl : Z.
Hypothesis Httl : 0 <= ttl.

(** The hold the store would honour at [t]. *)
Definition live (s : SimStore) (t : Z) : list (Z * Z) :=
  match entry s with
  | Some e => if t <? expires_ms e then [(holder e, expires_ms e)] else []
  | None => []
  end.

Definition sync (s : SimStore) (st : check_state) : Prop :=
  last_accepted_fence st = last_accepted s /\
  forall t, now_ms s <= t -> List.filter (still_valid t) (active st) = live s t.

(** The checker accepts [evs] and stays in step. *)
Definition accepts (st : check_state) (evs : list Event) (s : SimStore) : Prop :=
  exists st', check_from ttl evs st = Ok st' /\ sync s st'.

Lemma filter_later (l : list (Z * Z)) t t' : t <= t' ->
  List.filter (still_valid t') (List.filter (still_valid t) l) = List.filter (still_valid t') l.
Proof.
  intros Ht. induction l as [|h l IH]; [done|]. cbn. unfold still_valid in *.
  destruct (h.2 <=? t) eqn:E; cbn; rewrite IH; [|done]. zbool.
  by rewrite (proj2 (Z.leb_le _ _)) by lia.
Qed.

Lemma sync_retain s st : sync s st ->
  active (retain (now_ms s) st) = live s (now_ms s) /\ last_accepted_fence (retain (now_ms s) st) = last_accepted s.
Proof. intros [H1 H2]. cbn. split; [apply H2; lia|done]. Qed.

(** A state whose holds are those the store honours now. *)
Lemma sync_intro s st : last_accepted_fence st = last_accepted s -> active st = live s (now_ms s) -> sync s st.
Proof.
  intros H1 H2. split; [done|]. intros t Ht. rewrite H2. unfold live. destruct (entry s) as [e|]; [|done].
  destruct (now_ms s <? expires_ms e) eqn:E; zbool; cbn; unfold still_valid; cbn.
  - destruct (t <? expires_ms e) eqn:E'; zbool.
    + by rewrite (proj2 (Z.leb_gt _ _)) by lia.
    + by rewrite (proj2 (Z.leb_le _ _)) by lia.
  - by rewrite (proj2 (Z.ltb_ge _ _)) by lia.
Qed.

Lemma sync_later s st t : sync s st -> now_ms s <= t -> sync (set_now t s) st.
Proof. intros [H1 H2] Ht. split; [done|]. intros t' Ht'. cbn in Ht'. by apply H2; lia. Qed.

Lemma check_from_app h h' st : check_from ttl (h ++ h') st =
  match check_from ttl h st with Ok st' => check_from ttl h' st' | Err v => Err v end.
Proof. revert st. induction h as [|e h IH]; intros st; [done|]. cbn. by destruct (check_event _ _ _). Qed.

Lemma accepts_app st evs s evs' s' :
  accepts st evs s -> (forall st, sync s st -> accepts st evs' s') -> accepts st (evs ++ evs') s'.
Proof. intros (st1 & E1 & S1) H2. destruct (H2 st1 S1) as (st2 & E2 & S2). exists st2. by rewrite check_from_app, E1. Qed.

Lemma accepts_nil st s : sync s st -> accepts st [] s.
Proof. intros S. by exists st. Qed.

(** One event at the present. *)
Lemma accepts_one st s e s' st' : t_ms e = now_ms s ->
  check_event ttl e (retain (now_ms s) st) = Ok st' -> sync s' st' -> accepts st [e] s'.
Proof. intros Ht E S. exists st'. cbn. by rewrite Ht, E. Qed.

Lemma accepts_ignored st s w f k : sync s st -> k = Deny \/ k = WriteRejected ->
  accepts st [mk_event (now_ms s) w k f] s.
Proof.
  intros S K. destruct (sync_retain s st S) as [A L].
  eapply (accepts_one _ s); [done|destruct K as [-> | ->]; reflexivity|by apply sync_intro].
Qed.

Lemma live_find s w : find_hold w (live s (now_ms s)) =
  match entry s with
  | Some e => if (holder e =? w) && (now_ms s <? expires_ms e) then Some (holder e, expires_ms e) else None
  | None => None
  end.
Proof.
  unfold live. destruct (entry s) as [e|]; [|done]. destruct (now_ms s <? expires_ms e); [|by rewrite andb_false_r].
  rewrite andb_true_r. cbn. by destruct (holder e =? w).
Qed.

Lemma holds_find s w f : holds_validly w f s = true -> exists x,
  live s (now_ms s) = [(w, x)] /\ find_hold w (live s (now_ms s)) = Some (w, x).
Proof.
  rewrite live_find. unfold holds_validly, live. destruct (entry s) as [e|]; [|done]. intros H. zbool. subst w.
  rewrite Z.eqb_refl. rewrite (proj2 (Z.ltb_lt _ _)) by done. by eexists.
Qed.

(** *** The operations of the store, checked *)

Lemma accepts_grant s st w f s' : sync s st -> st_broken_cas s = false -> 0 <= fence_counter s < u64_max ->
  cas_grant w ttl s = (Some f, s') ->
  accepts st [mk_event (now_ms s) w Grant f] s' /\ f = fence_counter s + 1 /\ now_ms s' = now_ms s /\
  entry s' = Some (mk_sim_entry w (u64_add (now_ms s) ttl) f) /\ fence_counter s' = f /\
  st_broken_cas s' = st_broken_cas s /\ st_broken_fencing s' = st_broken_fencing s.
Proof.
  intros S Hb Hc. unfold cas_grant. rewrite Hb. destruct (match entry s with Some _ => _ | None => _ end) eqn:E; [done|].
  intros [= <- <-]. destruct (sync_retain s st S) as [A L]. unfold u64_max in Hc.
  rewrite u64_add_small by lia. split_and!; try done.
  assert (live s (now_ms s) = []) as Hl.
  { unfold live. destruct (entry s) as [e|]; [|done]. by rewrite andb_true_r in E; rewrite E. }
  assert ((fence_counter s + 1 =? 0) = false) as Hz by (apply Z.eqb_neq; lia).
  destruct (now_ms s <? u64_add (now_ms s) ttl) eqn:Hlt.
  - eapply (accepts_one _ s); [done|unfold check_event; cbn [kind fence worker t_ms]; rewrite A, Hl, Hz; reflexivity|].
    apply sync_intro; [done|]. unfold live. cbn. by rewrite Hlt.
  - eapply (accepts_one _ s); [done|unfold check_event; cbn [kind fence worker t_ms]; rewrite A, Hl, Hz; reflexivity|].
    split; [done|]. intros t Ht. unfold live. cbn in *. zbool. unfold still_valid. cbn.
    rewrite (proj2 (Z.leb_le _ _)), (proj2 (Z.ltb_ge _ _)) by lia. done.
Qed.

Lemma accepts_write s st w f ok s' : sync s st -> st_broken_fencing s = false -> fenced_write w f s = (ok, s') ->
  accepts st [write_event (now_ms s) w f ok] s' /\ now_ms s' = now_ms s /\ entry s' = entry s /\
  fence_counter s' = fence_counter s /\ st_broken_cas s' = st_broken_cas s /\ st_broken_fencing s' = st_broken_fencing s.
Proof.
  intros S Hb. unfold fenced_write. rewrite Hb. destruct (holds_validly w f s) eqn:Hh; cbn [negb].
  2: { intros [= <- <-]. split_and!; try done. apply accepts_ignored; [done|by right]. }
  destruct (supersedes _ _) eqn:Hs.
  2: { intros [= <- <-]. split_and!; try done. apply accepts_ignored; [done|by right]. }
  intros [= <- <-]. split_and!; try done. destruct (sync_retain s st S) as [A L].
  destruct (holds_find s w f Hh) as (x & El & Ef). unfold supersedes in Hs. cbn in Hs. zbool.
  eapply (accepts_one _ s); [done| |].
  - unfold check_event, write_event. cbn [kind fence worker t_ms]. rewrite A, Ef, L.
    rewrite (proj2 (Z.leb_gt _ _)) by lia. reflexivity.
  - apply sync_intro; [done|]. cbn [active now_ms]. by rewrite El in *; unfold live in *.
Qed.

Lemma accepts_release s st w f ok s' : sync s st ->
  (forall e, entry s = Some e -> holder e = w -> e_fence e = f) -> sim_release w f s = (ok, s') ->
  accepts st [mk_event (now_ms s) w (if ok then ReleaseOk else ReleaseLost) f] s' /\ now_ms s' = now_ms s /\
  (entry s' = entry s \/ entry s' = None) /\
  (forall e, entry s' = Some e -> holder e = w -> expires_ms e <= now_ms s) /\
  fence_counter s' = fence_counter s /\ st_broken_cas s' = st_broken_cas s /\ st_broken_fencing s' = st_broken_fencing s.
Proof.
  intros S Hf. unfold sim_release. destruct (sync_retain s st S) as [A L].
  destruct (holds_validly w f s) eqn:Hh; intros [= <- <-].
  - split_and!; try done; [|by right]. destruct (holds_find s w f Hh) as (x & El & Ef).
    eapply (accepts_one _ s); [done| |].
    + unfold check_event. cbn [kind fence worker t_ms]. rewrite A, Ef. reflexivity.
    + apply sync_intro; [done|]. cbn [active now_ms]. rewrite El. cbn. by rewrite Z.eqb_refl.
  - assert (forall e, entry s = Some e -> holder e = w -> expires_ms e <= now_ms s) as Hx.
    { intros e Ee Hw. specialize (Hf e Ee Hw). unfold holds_validly in Hh. rewrite Ee, Hw, Hf, !Z.eqb_refl in Hh.
      cbn in Hh. by zbool. }
    split_and!; try done; [|by left]. eapply (accepts_one _ s); [done| |by apply sync_intro].
    unfold check_event. cbn [kind fence worker t_ms]. rewrite A, live_find. destruct (entry s) as [e|] eqn:Ee; [|done].
    destruct (Z.eqb_spec (holder e) w) as [Hw|]; [|done]. specialize (Hx e eq_refl Hw). cbn.
    by rewrite (proj2 (Z.ltb_ge _ _)) by lia.
Qed.

(** ** The invariant of a worker *)

(** A hold of [w] in the store expires by [T]. *)
Definition owner_upto (s : SimStore) (w T : Z) : Prop :=
  forall e, entry s = Some e -> holder e = w -> expires_ms e <= T.

(** Everything scheduled is within [B]. *)
Definition worker_inv (B : Z) (s : SimStore) (w : Z) (stt : State) (wake : Z) : Prop :=
  match stt with
  | Idle _ => 0 <= wake <= B /\ owner_upto s w (now_ms s)
  | Holding f r p _ => 0 <= wake <= B /\ 0 <= r <= B /\ (p = false -> r <= wake) /\ owner_upto s w (r + ttl) /\
      (forall e, entry s = Some e -> holder e = w -> e_fence e = f)
  | Paused f _ => 0 <= wake <= B /\ owner_upto s w wake
  | SimDone => True
  end.

Definition store_ok (B : Z) (s : SimStore) : Prop :=
  0 <= now_ms s <= B /\ 0 <= fence_counter s <= B /\ st_broken_cas s = false /\ st_broken_fencing s = false.

(** Only [w]'s entry appears in the store. *)
Definition touches (w : Z) (s s' : SimStore) : Prop :=
  entry s' = entry s \/ forall e, entry s' = Some e -> holder e = w.

Definition measure (stt : State) : nat :=
  match stt with Idle n => 3 * n + 1 | Holding _ _ _ b => 3 * b + 3 | Paused _ b => 3 * b + 2 | SimDone => 0 end.

(** How far one decision may schedule. *)
Definition reach : Z := 2 * ttl + 20.

(** A decision of [w] made at the store's time. *)
Record decision_ok (B : Z) (w : Z) (before : State) (s : SimStore) (st : check_state) (d : decision) : Prop := mk_decision_ok {
  do_accepts : accepts st (d_events d) (d_store d);
  do_now : now_ms (d_store d) = now_ms s;
  do_times : Forall (fun e => t_ms e = now_ms s) (d_events d);
  do_store : store_ok (B + reach) (d_store d);
  do_worker : worker_inv (B + reach) (d_store d) w (d_state d) (d_wake d);
  do_touches : touches w s (d_store d);
  do_measure : (measure (d_state d) < measure before)%nat;
}.

Lemma below_range n x : 0 <= n -> 0 <= (below n x).1 <= Z.max 0 (n - 1).
Proof.
  intros Hn. unfold below. destruct (Z.eqb_spec n 0) as [->|Hne]; cbn [fst]; [lia|].
  pose proof (Z.mod_pos_bound (next_u64 x) n). lia.
Qed.

Lemma store_ok_later B s : store_ok B s -> store_ok (B + reach) s.
Proof. unfold store_ok, reach. intuition lia. Qed.

Section decisions.
Variables (sc : Scenario) (B : Z).
Hypothesis Hsc : ttl_ms sc = ttl.
Hypothesis HB : B + reach < u64_mod.

Lemma decide_idle_ok w wake x s st n : sync s st -> store_ok B s -> worker_inv B s w (Idle n) wake ->
  decision_ok B w (Idle n) s st (decide_idle sc w wake x s n).
Proof.
  intros S Ok [Hw Ho]. pose proof Ok as (Hn & Hc & Hb & Hf). unfold reach in *. unfold decide_idle.
  destruct (Nat.eqb_spec n 0) as [->|Hne].
  { split; cbn; try done; [by apply accepts_nil|by apply store_ok_later|by left|lia]. }
  destruct (below 100 x) as [v x1]. destruct (v <? 70).
  2: { split; cbn [d_state d_wake d_rng d_store d_events]; try done;
       [by apply accepts_nil|by apply store_ok_later| |by left|cbn; lia].
       cbn. rewrite u64_add_small by lia. unfold reach. split; [lia|done]. }
  unfold decide_grant. rewrite Hsc. destruct (cas_grant w ttl s) as [[f|] s'] eqn:E.
  - destruct (accepts_grant s st w f s' S Hb ltac:(unfold u64_max, u64_mod in *; lia) E)
      as (A & -> & En & Ee & Ec & Eb & Ef).
    unfold pct. destruct (below 100 x1) as [v2 x2].
    pose proof (below_range (ttl / 2) x2 ltac:(apply Z.div_pos; lia)) as Hh.
    destruct (below (ttl / 2) x2) as [h x3]. cbn [fst] in Hh.
    assert (ttl / 2 <= ttl) by (apply Z.div_le_upper_bound; lia).
    set (p := v2 <? _). rewrite (u64_add_small 5 h) by lia. rewrite (u64_add_small (now_ms s)) by lia.
    assert (0 <= (5 + h) / 2 <= 5 + h) by (split; [apply Z.div_pos|apply Z.div_le_upper_bound]; lia).
    rewrite (u64_add_small (now_ms s)) by lia.
    split; cbn [d_state d_wake d_rng d_store d_events]; try done.
    + by repeat constructor.
    + unfold store_ok, reach. rewrite En, Ec, Eb, Ef. repeat split; lia || done.
    + unfold worker_inv, reach. split; [destruct p; lia|]. split; [lia|]. split; [intros ->; lia|].
      unfold owner_upto. rewrite Ee. split.
      * intros e [= <-] _. cbn. rewrite u64_add_small by lia. lia.
      * by intros e [= <-] _.
    + right. rewrite Ee. by intros e [= <-].
    + cbn. lia.
  - assert (s' = s) as ->.
    { unfold cas_grant in E. by destruct (match entry s with Some _ => _ | None => _ end); simplify_eq. }
    pose proof (below_range 3 x1 ltac:(lia)) as Hd. destruct (below 3 x1) as [d x2]. cbn [fst] in Hd.
    rewrite (u64_add_small 1 d) by lia. rewrite u64_add_small by lia.
    split; cbn [d_state d_wake d_rng d_store d_events]; try done.
    + apply accepts_ignored; [done|by left].
    + by repeat constructor.
    + by apply store_ok_later.
    + unfold worker_inv, reach. split; [lia|done].
    + by left.
    + cbn. lia.
Qed.

(** The write and the release that end a hold. *)
Lemma write_release_ok w f s st ok s1 ok2 s2 : sync s st -> store_ok B s ->
  (forall e, entry s = Some e -> holder e = w -> e_fence e = f) ->
  fenced_write w f s = (ok, s1) -> sim_release w f s1 = (ok2, s2) ->
  accepts st [write_event (now_ms s) w f ok; mk_event (now_ms s) w (if ok2 then ReleaseOk else ReleaseLost) f] s2 /\
  now_ms s2 = now_ms s /\ store_ok (B + reach) s2 /\ touches w s s2 /\ owner_upto s2 w (now_ms s2).
Proof.
  intros S Ok Hf E1 E2. pose proof Ok as (Hn & Hc & Hb & Hbf).
  destruct (accepts_write s st w f ok s1 S Hbf E1) as ((st1 & C1 & S1) & N1 & En1 & Ec1 & Eb1 & Ef1).
  rewrite <- En1 in Hf. destruct (accepts_release s1 st1 w f ok2 s2 S1 Hf E2) as ((st2 & C2 & S2) & N2 & En2 & Hx & Ec2 & Eb2 & Ef2).
  split_and!.
  - exists st2. split; [|done]. change [?a; ?b] with ([a] ++ [b]). rewrite check_from_app, C1, <- N1. done.
  - congruence.
  - unfold store_ok, reach. rewrite N2, N1, Ec2, Ec1, Eb2, Eb1, Ef2, Ef1. repeat split; lia || done.
  - destruct En2 as [En2|En2]; [left; congruence|right; by rewrite En2].
  - intros e Ee Hw. rewrite N2. by apply Hx.
Qed.

Lemma decide_holding_ok w wake x s st f r p b : sync s st -> store_ok B s -> wake <= now_ms s ->
  worker_inv B s w (Holding f r p b) wake ->
  decision_ok B w (Holding f r p b) s st (decide_holding sc w x s f r p b).
Proof.
  intros S Ok Hwn (Hw & Hr & Hp & Ho & Hf). pose proof Ok as (Hn & Hc & Hb & Hbf). unfold reach in *.
  unfold decide_holding. rewrite Hsc. destruct (p && (now_ms s <? r)) eqn:Ep.
  { zbool. rewrite (u64_add_small r) by lia. rewrite u64_add_small by lia.
    split; cbn [d_state d_wake d_rng d_store d_events]; try done;
      [by apply accepts_nil|by apply store_ok_later| |by left|cbn; lia].
    unfold worker_inv, reach. split; [lia|]. intros e Ee Hh. specialize (Ho e Ee Hh). lia. }
  assert (r <= now_ms s) as Hrn.
  { destruct p; cbn in Ep; [by zbool|]. specialize (Hp eq_refl). lia. }
  rewrite (proj2 (Z.leb_le _ _) Hrn). destruct (fenced_write w f s) as [ok s1] eqn:E1.
  destruct (sim_release w f s1) as [ok2 s2] eqn:E2.
  destruct (write_release_ok w f s st ok s1 ok2 s2 S Ok Hf E1 E2) as (A & N & Sok & Tc & Hu).
  pose proof (below_range 4 x ltac:(lia)) as Hd. destruct (below 4 x) as [d x2]. cbn [fst] in Hd.
  rewrite u64_add_small by lia.
  split; cbn [d_state d_wake d_rng d_store d_events]; try done.
  - by repeat constructor.
  - unfold worker_inv, reach. split; [lia|done].
  - cbn. lia.
Qed.

Lemma decide_paused_ok w wake x s st f b : sync s st -> store_ok B s -> wake <= now_ms s ->
  worker_inv B s w (Paused f b) wake ->
  exists d, decide_paused w x s f b = Some d /\ decision_ok B w (Paused f b) s st d.
Proof.
  intros S Ok Hwn (Hw & Ho). pose proof Ok as (Hn & Hc & Hb & Hbf). unfold reach in *. unfold decide_paused.
  assert (holds_validly w f s = false) as Hh.
  { unfold holds_validly. destruct (entry s) as [e|] eqn:Ee; [|done]. destruct (Z.eqb_spec (holder e) w) as [Hq|]; [|done].
    specialize (Ho e Ee Hq). rewrite (proj2 (Z.ltb_ge _ _)) by lia. by rewrite andb_false_r. }
  unfold fenced_write. rewrite Hbf, Hh. cbn [negb]. unfold sim_release. rewrite Hh.
  eexists. split; [reflexivity|]. rewrite u64_add_small by lia.
  split; cbn [d_state d_wake d_rng d_store d_events]; try done.
  - apply (accepts_app st [_] s [_] s); [by apply accepts_ignored; [|right]|]. intros st' S'.
    destruct (sync_retain s st' S') as [A L]. eapply (accepts_one _ s); [done| |by apply sync_intro].
    unfold check_event. cbn [kind fence worker t_ms]. rewrite A, live_find.
    destruct (entry s) as [e|] eqn:Ee; [|done]. destruct (Z.eqb_spec (holder e) w) as [Hq|]; [|done].
    specialize (Ho e Ee Hq). cbn. by rewrite (proj2 (Z.ltb_ge _ _)) by lia.
  - by repeat constructor.
  - by apply store_ok_later.
  - unfold worker_inv, reach. split; [lia|]. intros e Ee Hq. specialize (Ho e Ee Hq). lia.
  - by left.
  - cbn. lia.
Qed.
End decisions.

(** ** The whole run *)

Record sim_inv (B : Z) (m : sim) : Prop := mk_sim_inv {
  si_store : store_ok B (store m);
  si_length : length (wake_at m) = length (states m);
  si_workers : forall i stt wake, states m !! i = Some stt -> wake_at m !! i = Some wake ->
    worker_inv B (store m) (Z.of_nat i) stt wake;
  si_sorted : StronglySorted (fun a b => t_ms a <= t_ms b) (events m);
  si_past : Forall (fun e => t_ms e <= now_ms (store m)) (events m);
  si_check : accepts check_init (events m) (store m);
}.

Definition total (sts : list State) : nat := sum_list_with measure sts.

Lemma total_insert i sts a b : sts !! i = Some a -> (measure b < measure a)%nat ->
  (total (<[i := b]> sts) < total sts)%nat.
Proof.
  revert i. induction sts as [|s sts IH]; intros [|i] E Hm; try done.
  - injection E as ->. change (measure b + total sts < measure a + total sts)%nat. lia.
  - specialize (IH _ E Hm). change (measure s + total (<[i := b]> sts) < measure s + total sts)%nat. lia.
Qed.

Lemma pick_spec sts : forall k wakes, length wakes = length sts ->
  match pick k sts wakes with
  | Some (i, t) => exists j s, i = (k + j)%nat /\ sts !! j = Some s /\ is_done s = false /\ wakes !! j = Some t
  | None => Forall (fun s => is_done s = true) sts
  end.
Proof.
  induction sts as [|s sts IH]; intros k [|t wakes] Hl; [constructor|done|done|].
  cbn [pick length] in *. apply Nat.succ_inj in Hl.
  specialize (IH (S k) wakes Hl). destruct (is_done s) eqn:Hd.
  - destruct (pick (S k) sts wakes) as [[i t']|]; [|by constructor].
    destruct IH as (j & s' & -> & ? & ? & ?). exists (S j), s'. split_and!; try done. lia.
  - assert (exists j s', k = (k + j)%nat /\ (s :: sts) !! j = Some s' /\ is_done s' = false /\ (t :: wakes) !! j = Some t)
      as Hk by (exists 0%nat, s; split_and!; try done; lia).
    destruct (pick (S k) sts wakes) as [[i t']|]; [|done]. destruct (t' <? t); [|done].
    destruct IH as (j & s' & -> & ? & ? & ?). exists (S j), s'. split_and!; try done. lia.
Qed.

Lemma worker_inv_now B s w stt wake t : now_ms s <= t -> worker_inv B s w stt wake ->
  worker_inv B (set_now t s) w stt wake.
Proof.
  intros Ht. destruct stt; cbn; try done. intros [? Ho]. split; [done|].
  intros e Ee Hw. specialize (Ho e Ee Hw). lia.
Qed.

Lemma worker_inv_other B s s' i j stt wake : i <> j -> touches (Z.of_nat i) s s' -> now_ms s' = now_ms s ->
  worker_inv B s (Z.of_nat j) stt wake -> worker_inv (B + reach) s' (Z.of_nat j) stt wake.
Proof.
  intros Hne Tc N. unfold reach.
  assert (forall e, entry s' = Some e -> holder e = Z.of_nat j -> entry s = Some e) as Hold.
  { intros e Ee Hj. destruct Tc as [Tc|Tc]; [congruence|]. specialize (Tc e Ee). lia. }
  unfold worker_inv, owner_upto. destruct stt as [n|f r p b|f b|]; rewrite ?N; try done.
  - intros [? Ho]. split; [lia|eauto].
  - intros (? & ? & ? & Ho & Hf). split; [lia|]. split; [lia|]. split; [done|]. split; eauto.
  - intros [? Ho]. split; [lia|eauto].
Qed.

Lemma sorted_app_now (l evs : list Event) t : StronglySorted (fun a b => t_ms a <= t_ms b) l ->
  Forall (fun e => t_ms e <= t) l -> Forall (fun e => t_ms e = t) evs ->
  StronglySorted (fun a b => t_ms a <= t_ms b) (l ++ evs) /\ Forall (fun e => t_ms e <= t) (l ++ evs).
Proof.
  intros Hs Hl He. rewrite Forall_forall in Hl, He. split.
  - apply StronglySorted_app_2; [|done|].
    + intros a b Ha Hb. rewrite (He b Hb). by apply Hl.
    + clear Hs Hl. induction evs as [|e evs IH]; [constructor|]. constructor.
      * apply IH. intros x Hx. apply He. by apply elem_of_cons; right.
      * apply Forall_forall. intros x Hx. rewrite (He e), (He x); [lia| |]; apply elem_of_cons; auto.
  - apply Forall_app. split; [by apply Forall_forall|]. apply Forall_forall. intros x Hx. rewrite (He x Hx). lia.
Qed.

Section run.
Variable sc : Scenario.
Hypothesis Hsc : ttl_ms sc = ttl.

Lemma decision_inv B m i stt t d st : sim_inv B m -> 0 <= t <= B -> now_ms (store m) <= t ->
  states m !! i = Some stt -> check_from ttl (events m) check_init = Ok st ->
  decision_ok B (Z.of_nat i) stt (set_now t (store m)) st d ->
  sim_inv (B + reach) (mk_sim (d_rng d) (d_store d) (<[i := d_state d]> (states m)) (<[i := d_wake d]> (wake_at m))
    (events m ++ d_events d)) /\
  (total (<[i := d_state d]> (states m)) < total (states m))%nat.
Proof.
  intros [Is Il Iw Io Ip _] Ht Hn Ei Ec [(st2 & Ea & Sa) Dn Dt Ds Dw Dc Dm]. cbn in Dn, Dt.
  split; [|by eapply total_insert].
  assert (Forall (fun e => t_ms e <= t) (events m)) as Hp by (eapply Forall_impl; [exact Ip|]; cbn; lia).
  destruct (sorted_app_now _ _ _ Io Hp Dt) as [Hs' Hp'].
  split; cbn [store states wake_at events]; try done.
  - by rewrite !length_insert.
  - intros j stt' wake Ej Ew. destruct (decide (i = j)) as [<-|Hne].
    + apply list_lookup_insert_Some in Ej, Ew. destruct Ej as [(_ & <- & _)|[? _]]; [|done].
      destruct Ew as [(_ & <- & _)|[? _]]; [|done]. done.
    + rewrite list_lookup_insert_ne in Ej by done. rewrite list_lookup_insert_ne in Ew by done.
      eapply (worker_inv_other B (set_now t (store m))); [exact Hne|exact Dc|exact Dn|].
      apply worker_inv_now; [done|]. by apply Iw.
  - by rewrite Dn.
  - exists st2. split; [|done]. by rewrite check_from_app, Ec.
Qed.

Lemma sim_step_inv B m i wake : sim_inv B m -> B + reach < u64_mod ->
  pick 0 (states m) (wake_at m) = Some (i, wake) ->
  exists m', sim_step sc i wake m = Some m' /\ sim_inv (B + reach) m' /\
             (total (states m') < total (states m))%nat.
Proof.
  intros I HB Hp. pose proof I as [(Hn & Hc & Hb & Hf) Il Iw Io Ip (st & Ec & Sc)].
  pose proof (pick_spec (states m) 0 (wake_at m) Il) as Hs. rewrite Hp in Hs.
  destruct Hs as (j & stt & -> & Ei & Hd & Ew). cbn [Nat.add] in *. pose proof (Iw j stt wake Ei Ew) as Hw.
  assert (0 <= wake <= B) as Hwb by (destruct stt; cbn in Hw; [tauto|tauto|tauto|done]).
  set (t := Z.max (now_ms (store m)) wake). set (s := set_now t (store m)).
  assert (store_ok B s) as Ok by (unfold store_ok, s; cbn; repeat split; (lia || done)).
  assert (sync s st) as S by (apply sync_later; [done|lia]).
  assert (worker_inv B s (Z.of_nat j) stt wake) as Hw' by (apply worker_inv_now; [lia|done]).
  unfold sim_step. rewrite Ei. fold t. fold s. destruct stt as [n|f r p b|f b|]; [| | |done].
  - eexists. split; [reflexivity|]. eapply (decision_inv B m j (Idle n) t); try done; try lia. by apply decide_idle_ok.
  - eexists. split; [reflexivity|]. eapply (decision_inv B m j (Holding f r p b) t); try done; try lia.
    apply (decide_holding_ok sc B Hsc HB _ wake); try done. cbn. lia.
  - destruct (decide_paused_ok B HB (Z.of_nat j) wake (rng m) s st f b S Ok ltac:(cbn; lia) Hw') as (d & -> & Hd').
    eexists. split; [reflexivity|]. by eapply (decision_inv B m j (Paused f b) t); try done; try lia.
Qed.

Lemma sim_loop_accepted fuel : forall B m, sim_inv B m -> (total (states m) < fuel)%nat ->
  B + Z.of_nat fuel * reach < u64_mod ->
  exists h, sim_loop fuel sc m = Finished h /\ check_history h ttl = Ok tt /\
            StronglySorted (fun a b => t_ms a <= t_ms b) h.
Proof.
  induction fuel as [|fuel IH]; intros B m I Hf HB; [lia|]. cbn [sim_loop].
  assert (0 <= reach) by (unfold reach; lia).
  destruct (pick 0 (states m) (wake_at m)) as [[i wake]|] eqn:Ep.
  - destruct (sim_step_inv B m i wake I ltac:(nia) Ep) as (m' & -> & I' & Hm).
    apply (IH (B + reach) m' I'); [lia|]. replace (B + reach + Z.of_nat fuel * reach) with (B + Z.of_nat (S fuel) * reach) by lia.
    done.
  - exists (events m). rewrite sort_events_id by apply I. split; [done|]. split; [|apply I].
    destruct (si_check B m I) as (st & E & _). unfold check_history. by rewrite E.
Qed.

Lemma sim_init_inv : broken_cas sc = false -> broken_fencing sc = false -> sim_inv 0 (sim_init sc).
Proof.
  intros H1 H2. split; cbn.
  - unfold store_ok. cbn. repeat split; lia || done.
  - by rewrite !length_replicate.
  - intros i stt wake E1 E2. apply lookup_replicate in E1, E2. destruct E1 as [-> _], E2 as [-> _]. cbn.
    split; [lia|]. by intros e.
  - constructor.
  - constructor.
  - exists check_init. split; [done|]. split; [done|]. by intros t _.
Qed.
End run.
End simulation.

(** ** Properties *)

(** C19: The simulated algorithm is correct: for every seed, every number of
    workers from two on, every lease and every pause probability (with the
    virtual clock within 64 bits), a scenario without an injected bug runs
    to its end, no debug assertion fails (a worker that paused past its
    lease never releases a successor's lock), and the checker accepts the
    history, whose events are in time order. *)
Theorem simulation_accepted sc fuel :
  broken_cas sc = false -> broken_fencing sc = false -> (2 <= workers sc)%nat -> 0 <= ttl_ms sc ->
  (sim_fuel sc <= fuel)%nat -> Z.of_nat fuel * (2 * ttl_ms sc + 20) < u64_mod ->
  exists h, simulate fuel sc = Finished h /\ check_history h (ttl_ms sc) = Ok tt /\
            StronglySorted (fun a b => t_ms a <= t_ms b) h.
Proof.
  intros H1 H2 Hw Ht Hf Hb. unfold simulate. rewrite (proj2 (Nat.ltb_ge _ _) Hw).
  refine (sim_loop_accepted (ttl_ms sc) Ht sc eq_refl fuel 0 (sim_init sc) (sim_init_inv _ sc H1 H2) _ Hb).
  eapply Nat.lt_le_trans; [|exact Hf]. unfold sim_fuel, sim_init. cbn [states].
  assert (forall n, total (replicate n (Idle (steps_per_worker sc))) = n * (3 * steps_per_worker sc + 1))%nat as Hr.
  { induction n as [|n IH]; [done|]. change (total (replicate (S n) (Idle (steps_per_worker sc)))) with
      (3 * steps_per_worker sc + 1 + total (replicate n (Idle (steps_per_worker sc))))%nat. rewrite IH. lia. }
  rewrite Hr. lia.
Qed.

(** ** Witnesses *)

Definition demo_scenario : Scenario := mk_scenario 7 2 2 100 35 false false.

Lemma simulation_accepted_witness : exists h, simulate 20 demo_scenario = Finished h /\ check_history h 100 = Ok tt.
Proof.
  destruct (simulation_accepted demo_scenario 20) as (h & E & C & _);
    [reflexivity|reflexivity|cbn; lia|cbn; lia|vm_compute; lia|reflexivity|]. exists h. split; [exact E|exact C].
Defined.
